(* ===== verification/_CoqProject ===== *)
-Q . S2P
Prelude.v
Monad.v
Types.v
Net.v
Text.v
Getopt.v
Framing.v
Wire.v
ServerState.v
ServerEvents.v
ServerPackets.v
Handler.v
ServerInv.v
ServerSafe.v
ServerLoop.v
Stats.v
EventSpec.v
Table.v
Directory.v
Refinement.v
Publish.v
Channels.v
ServerProps.v
ServerWire.v
ServerData.v
ServerStream.v
ServerReply.v
ServerResend.v
ServerLists.v
Datagram.v
UdpSession.v
ProtocolProps.v
ClientState.v
ClientOps.v
ClientCalls.v
ClientWait.v
ClientInv.v
ClientSafe.v
ClientReceiver.v
ClientWire.v
ClientReconnect.v
ClientApi.v
ClientStream.v
ClientLists.v
Link.v
LinkLists.v
LinkReconnect.v
LinkUdp.v
ChannelProps.v
Crypt.v
CrcSpec.v
CryptProps.v
Sockets.v
Ssdp.v
SsdpProps.v
ServerThread.v
StatsProps.v
Daemon.v
DaemonProps.v
Control.v
ControlProps.v
Monitor.v
MonitorProps.v
