(* ===== verification/Prelude.v ===== *)
(** * SyncScribe: a verification library for libsyncs

    SyncScribe lets programs on a network share variables.  A server
    (src/libsyncs/syncs-server.c) keeps a table of named, typed variables; its
    clients (src/libsyncs/syncs-client.c) define, write, read and subscribe to
    them over TCP or UDP, and the server sends every accepted write to the
    subscribers.  Channels are announcements of other services, which the
    server hands out as tickets.  A client that knows no server finds one with
    an SSDP search.  This library translates that C code into Rocq
    definitions and proves what it does.

    ** How the code is modelled

    - C integers are [Z] with the wrap-around of their type written out ([u32],
      [i32], ...); memory is a list of bytes; pointers into the tables of the
      server and the client are slot numbers; [NULL] is [0] or [None].
    - A C function is a function of the state monad [M] (Monad.v) whose
      outcome may be [Fault OutOfBounds] (an access the C standard leaves
      undefined) or [Fault Diverges] (an exhausted loop).  [wp] is total
      correctness: it excludes both.  [wlp] says what holds if the function
      returns, and is only used next to a [wp] of the same function.
    - The operating system is the class [Env] (Net.v) for the running server
      and client: what [send] accepts, the clock, allocations, the contents of
      uninitialised stack memory; and the class [Kernel] (Sockets.v) for the
      functions that open sockets.  Theorems hold for every instance;
      [Lossless] (a send takes the whole buffer) is assumed where a theorem
      follows bytes from one end to the other.  OpenSSL's cipher is the class
      [Evp] (Crypt.v), and which of its calls fail an argument ([evp_calls]);
      json-c is the class [Json] (Daemon.v).
    - Input/output is recorded in the state: [w_log] for the server, [c_log]
      for the client, the system calls themselves in Sockets.v.
    - Bytes received, events of [epoll], wake-ups of a condition variable and
      words of a command line are arguments, so a theorem covers every
      schedule of them.

    ** The parts

    Shared:
    - Prelude.v, Monad.v: integers, byte memory, record update, the monad, its
      weakest preconditions, frames ([Keeps]) and tactics.
    - Types.v: identifiers, header layout and constants of syncs-types.h and
      syncs-common.h.  Text.v: [printf] conversions, [atoi], [strstr].
    - Net.v, Sockets.v: syncs-net-common.c, syncs-net-server.c and
      syncs-net-client.c.
    - Framing.v: the loop that cuts the TCP stream into packets, and the
      parser it implements.  Wire.v: packets as bytes.
    - Crypt.v: syncs-crypt.c.
    Server:
    - ServerState.v (tables), ServerEvents.v (variables and publication),
      ServerPackets.v (channels, lists, dispatch, receive handlers, event loop)
      follow the order of syncs-server.c; Stats.v is its printout;
      ServerThread.v the thread that opens its sockets and runs the event loop.
    Client:
    - ClientState.v, ClientOps.v (requests, packet processing), ClientCalls.v
      (blocking calls, receiver threads) follow syncs-client.c.
    Discovery and programs:
    - Ssdp.v: the responder of syncs-server.c and the search of syncs-client.c.
    - Getopt.v: [getopt_long] of the C library, as the programs use it.
    - Daemon.v: the options, the configuration and the subscriptions of
      src/syncsserver/syncsserver.c.  Control.v: the options of
      src/syncsctrl/syncsctrl.c, what its modes do and print, and the loop that
      waits for notifications.  Monitor.v: the rounds of
      src/syncsmon/syncsmon.c.

    ** What is proved

    - Safety and invariants (ServerInv.v, ServerSafe.v, ServerLoop.v, and
      ClientInv.v, ClientSafe.v, ClientReceiver.v, ClientApi.v): the
      representation invariants [server_wf] and [connect_wf] are kept by every
      operation; from every reachable state every callback, every call of the
      application and every step of the client's threads returns, without an
      access outside an object, under what the code relies on without a check
      ([epoll_event_ok], [api_ok], [client_ok]; where the code goes wrong
      without it, a finding or a theorem says so).
    - Types (ServerWire.v): every packet the server ever sends is well-formed,
      by a type system for its operations ([Typed]); a socket carries whole
      packets up to the next failed send, which cuts one short.
    - Refinement (Table.v, EventSpec.v, Directory.v, Refinement.v, Handler.v,
      ServerStream.v, Datagram.v, UdpSession.v, Channels.v): a table of slots is
      a finite map; the event table implements an abstract directory of
      variables ([dstate]), the channel table one of announcements; each packet
      makes one transition of them ([spec_packet], [spec_channel_packet]), a
      stream the transitions of its packets, wherever [recv] cuts it into
      chunks of at least a header (the bytes of shorter chunks are lost), a
      datagram
      that of the client its address names, a sequence of datagrams those of
      the session an identification establishes.
    - Input/output (Publish.v, ServerData.v, ServerReply.v, ServerResend.v,
      ServerLists.v, ClientWire.v, ClientStream.v, ClientLists.v,
      ClientReconnect.v): the packets each request and each publication sends,
      and the callbacks each packet runs.
    - End to end (Link.v, LinkLists.v, LinkReconnect.v, LinkUdp.v, SsdpProps.v,
      ControlProps.v, MonitorProps.v, ChannelProps.v): the two sides composed
      over the bytes between them: a write reaches the callback of another
      client, a read returns the value, a list arrives whole, a reconnection
      restores the subscriptions (over TCP and over UDP, where datagrams may be
      lost, repeated or reordered), a search finds a server, the command-line
      tool sets a variable and prints notifications, the monitor prints the
      server's variables, an announced channel is handed out (and its ticket
      lost by the client that asked).
    - Start (ServerThread.v): the server comes to serve once the kernel stops
      refusing sockets, and what its failed attempts leave open.
    - Equivalence (CrcSpec.v): the checksum is the remainder of the division of
      polynomials that defines CRC-32.
    - Round trips, bounds, errors, termination (ProtocolProps.v, CryptProps.v,
      ClientWait.v, Sockets.v, StatsProps.v, DaemonProps.v): headers, packets
      and encryption; names; resynchronisation after garbage; loops that wait;
      descriptors that are not leaked; inputs on which the programs fail.

    ** Bounds and fuel

    The tables have the sizes of syncs-types.h.  The receive loop gets one
    unit of fuel more than there are bytes, and every iteration consumes one
    byte at least; a blocking send one unit per byte; the clock loop of
    [syncs_wait_sync] [2 ^ 33] rounds, which a clock that advances does not
    use up.  The server thread starts over for ever: its model takes a number
    of attempts, and [N + 1] are enough when the kernel refuses nothing after
    [N] calls.  These are theorems, not assumptions ([epoll_callback_total],
    [blocking_send_contract], [syncs_wait_sync_returns], [server_thread_serves]).

    The stream theorems take the chunks [recv] can return ([deliverable]): from
    a byte to the free part of the buffer.  The handlers drop a chunk shorter
    than a header, so the stream they see is that of the other chunks
    ([counted]).  The server's theorem asks for identifiers that are not the
    free mark ([frame_ok]), because such packets address free slots, and that
    no announcement is read past a full buffer ([tickets_fit]).

    ** Interleaving

    The server runs its callbacks one after the other in one thread; a call
    of the application is a step between two callbacks, as in [server_step]
    (the code takes no lock, so an application thread can also interrupt a
    callback; that is not modelled).  A blocking call of the client and its
    receiver thread share [struct syncs_connect]; what the receiver processes
    while the call sleeps is its list of wake-ups.

    ** Not modelled

    - The debug output, [pthread], and the start of threads, which are recorded
      as events where a theorem needs them.
    - Of the programs: their sleeps.
    - src/tests (drivers), src/python (another implementation), build files. *)

From Stdlib Require Export Lia ZArith.
From coqutil Require Export Byte Word.LittleEndianList.
Export LittleEndianList.
From stdpp Require Export base list numbers option sets countable.

#[global] Open Scope Z_scope.

(** ** Machine integers *)

(** C integers are [Z]; every arithmetic operation the source performs on a
    fixed-width object is followed by the wrap of its type. *)
Definition u8 (x : Z) : Z := x mod 2 ^ 8.
Definition u16 (x : Z) : Z := x mod 2 ^ 16.
Definition u32 (x : Z) : Z := x mod 2 ^ 32.
Definition u64 (x : Z) : Z := x mod 2 ^ 64.
Definition i32 (x : Z) : Z := (x + 2 ^ 31) mod 2 ^ 32 - 2 ^ 31.
Definition i8 (x : Z) : Z := (x + 2 ^ 7) mod 2 ^ 8 - 2 ^ 7.

Lemma u8_range x : 0 <= u8 x < 2 ^ 8.
Proof. by apply Z.mod_pos_bound. Qed.
Lemma u16_range x : 0 <= u16 x < 2 ^ 16.
Proof. by apply Z.mod_pos_bound. Qed.
Lemma u32_range x : 0 <= u32 x < 2 ^ 32.
Proof. by apply Z.mod_pos_bound. Qed.
Lemma u64_range x : 0 <= u64 x < 2 ^ 64.
Proof. by apply Z.mod_pos_bound. Qed.
Lemma u32_small x : 0 <= x < 2 ^ 32 -> u32 x = x.
Proof. by apply Z.mod_small. Qed.
Lemma u64_small x : 0 <= x < 2 ^ 64 -> u64 x = x.
Proof. by apply Z.mod_small. Qed.
Lemma u8_small x : 0 <= x < 2 ^ 8 -> u8 x = x.
Proof. by apply Z.mod_small. Qed.
Lemma u16_small x : 0 <= x < 2 ^ 16 -> u16 x = x.
Proof. by apply Z.mod_small. Qed.
Lemma i32_mod x : i32 (x mod 2 ^ 32) = i32 x.
Proof. unfold i32. by rewrite Zplus_mod_idemp_l. Qed.

Lemma i32_small x : - 2 ^ 31 <= x < 2 ^ 31 -> i32 x = x.
Proof. unfold i32. intros H. rewrite Z.mod_small; lia. Qed.

(** Masking with [2^n - 1] is reduction modulo [2^n]. *)
Lemma land_mask x n : 0 <= n -> Z.land x (2 ^ n - 1) = x mod 2 ^ n.
Proof. intros Hn. rewrite <- Z.land_ones by lia. by rewrite Z.ones_equiv. Qed.

Lemma lor_range n a b : 0 <= n -> 0 <= a < 2 ^ n -> 0 <= b < 2 ^ n -> 0 <= Z.lor a b < 2 ^ n.
Proof.
  intros Hn Ha Hb. destruct (Z.eq_dec a 0) as [->|]; [by rewrite Z.lor_0_l|].
  destruct (Z.eq_dec b 0) as [->|]; [by rewrite Z.lor_0_r|].
  assert (0 <= Z.lor a b) as Hl by (apply Z.lor_nonneg; lia).
  destruct (Z.eq_dec (Z.lor a b) 0) as [->|Hz]; [lia|]. split; [done|].
  apply Z.log2_lt_pow2; [lia|]. rewrite Z.log2_lor by lia.
  assert (Z.log2 a < n) by (apply Z.log2_lt_pow2; lia).
  assert (Z.log2 b < n) by (apply Z.log2_lt_pow2; lia). lia.
Qed.

(** ** Memory: byte lists indexed by [Z] offsets *)

Definition zlen {A} (l : list A) : Z := Z.of_nat (length l).
Definition ztake {A} (n : Z) (l : list A) : list A := take (Z.to_nat n) l.
Definition zdrop {A} (n : Z) (l : list A) : list A := drop (Z.to_nat n) l.

(** [mem_sub off n mem]: the [n] bytes at [off]. *)
Definition mem_sub {A} (off n : Z) (mem : list A) : list A := ztake n (zdrop off mem).

(** [mem_put off bs mem]: store [bs] at [off], the rest of [mem] untouched. *)
Definition mem_put {A} (off : Z) (bs mem : list A) : list A :=
  ztake off mem ++ bs ++ zdrop (off + zlen bs) mem.

Section zlist.
Context {A : Type}.
Implicit Types l k : list A.

Lemma zlen_nonneg l : 0 <= zlen l.
Proof. unfold zlen. lia. Qed.
Lemma zlen_nil : zlen (@nil A) = 0.
Proof. done. Qed.
Lemma zlen_cons x l : zlen (x :: l) = 1 + zlen l.
Proof. unfold zlen. simpl length. lia. Qed.
Lemma zlen_app l k : zlen (l ++ k) = zlen l + zlen k.
Proof. unfold zlen. rewrite length_app. lia. Qed.
Lemma zlen_ztake n l : zlen (ztake n l) = Z.max 0 (Z.min n (zlen l)).
Proof. unfold zlen, ztake. rewrite length_take. lia. Qed.
Lemma zlen_zdrop n l : zlen (zdrop n l) = Z.max 0 (zlen l - Z.max 0 n).
Proof. unfold zlen, zdrop. rewrite length_drop. lia. Qed.
Lemma zlen_replicate n x : zlen (replicate (Z.to_nat n) x : list A) = Z.max 0 n.
Proof. unfold zlen. rewrite length_replicate. lia. Qed.
Lemma zlen_insert i x l : zlen (<[i := x]> l) = zlen l.
Proof. unfold zlen. by rewrite length_insert. Qed.

Lemma ztake_0 l : ztake 0 l = [].
Proof. done. Qed.
Lemma zdrop_0 l : zdrop 0 l = l.
Proof. done. Qed.
Lemma ztake_zdrop n l : ztake n l ++ zdrop n l = l.
Proof. apply take_drop. Qed.
Lemma ztake_ge n l : zlen l <= n -> ztake n l = l.
Proof. unfold zlen, ztake. intros. apply take_ge. lia. Qed.
Lemma zdrop_ge n l : zlen l <= n -> zdrop n l = [].
Proof. unfold zlen, zdrop. intros. apply drop_ge. lia. Qed.
Lemma zdrop_zdrop n m l : 0 <= n -> 0 <= m -> zdrop n (zdrop m l) = zdrop (m + n) l.
Proof. intros. unfold zdrop. rewrite drop_drop. f_equal. lia. Qed.
Lemma ztake_app_le n l k : n <= zlen l -> ztake n (l ++ k) = ztake n l.
Proof. unfold ztake, zlen. intros. apply take_app_le. lia. Qed.
Lemma zdrop_app_le n l k : n <= zlen l -> zdrop n (l ++ k) = zdrop n l ++ k.
Proof. unfold zdrop, zlen. intros. apply drop_app_le. lia. Qed.
Lemma zdrop_app_ge n l k : zlen l <= n -> zdrop n (l ++ k) = zdrop (n - zlen l) k.
Proof.
  unfold zdrop, zlen. intros. rewrite drop_app_ge by lia. f_equal. lia.
Qed.
Lemma ztake_app_ge n l k : zlen l <= n -> ztake n (l ++ k) = l ++ ztake (n - zlen l) k.
Proof.
  unfold ztake, zlen. intros. rewrite take_app_ge by lia. do 2 f_equal. lia.
Qed.
Lemma ztake_ztake n m l : ztake n (ztake m l) = ztake (Z.min n m) l.
Proof. unfold ztake. rewrite take_take. f_equal. lia. Qed.
Lemma zdrop_ztake n m l : 0 <= n -> zdrop n (ztake m l) = ztake (m - n) (zdrop n l).
Proof. intros. unfold ztake, zdrop. rewrite skipn_firstn_comm. f_equal. lia. Qed.
End zlist.

#[export] Hint Rewrite @zlen_nil @zlen_cons @zlen_app @zlen_ztake @zlen_zdrop
  @zlen_replicate @zlen_insert : zlen.

(** [zl] normalises every length and calls [lia]. *)
Ltac zl :=
  autorewrite with zlen in *;
  repeat match goal with
    | |- context [zlen ?l] => lazymatch goal with
        | _ : 0 <= zlen l |- _ => fail
        | _ => pose proof (zlen_nonneg l) end
    | _ : context [zlen ?l] |- _ => lazymatch goal with
        | _ : 0 <= zlen l |- _ => fail
        | _ => pose proof (zlen_nonneg l) end
    end; lia.

Section mem.
Context {A : Type}.
Implicit Types mem bs : list A.

Lemma zlen_mem_put off bs mem :
  0 <= off -> off + zlen bs <= zlen mem -> zlen (mem_put off bs mem) = zlen mem.
Proof. intros. unfold mem_put. zl. Qed.

Lemma zlen_mem_sub off n mem :
  0 <= off -> 0 <= n -> off + n <= zlen mem -> zlen (mem_sub off n mem) = n.
Proof. intros. unfold mem_sub. zl. Qed.

Lemma mem_sub_put off bs mem :
  0 <= off <= zlen mem -> mem_sub off (zlen bs) (mem_put off bs mem) = bs.
Proof.
  intros. unfold mem_sub, mem_put.
  assert (zlen (ztake off mem) = off) as Hl by zl.
  rewrite zdrop_app_ge by zl. rewrite Hl, Z.sub_diag, zdrop_0.
  rewrite ztake_app_le by zl. apply ztake_ge. zl.
Qed.

Lemma mem_sub_put_below off o n bs mem :
  0 <= o -> o + n <= off <= zlen mem ->
  mem_sub o n (mem_put off bs mem) = mem_sub o n mem.
Proof.
  intros. unfold mem_sub, mem_put. destruct (Z.le_gt_cases n 0).
  { unfold ztake. by rewrite !Z2Nat.nonpos by lia. }
  rewrite zdrop_app_le, ztake_app_le by zl.
  rewrite zdrop_ztake, ztake_ztake by lia. f_equal. lia.
Qed.

Lemma mem_sub_put_above off o n bs mem :
  0 <= off <= zlen mem -> off + zlen bs <= o ->
  mem_sub o n (mem_put off bs mem) = mem_sub o n mem.
Proof.
  intros. unfold mem_sub, mem_put. pose proof (zlen_nonneg bs).
  rewrite !zdrop_app_ge by zl. rewrite zdrop_zdrop by zl.
  f_equal. f_equal. zl.
Qed.

(** Reading a field of known size, and reading beside it. *)
Lemma mem_sub_put_at off n bs mem :
  zlen bs = n -> 0 <= off <= zlen mem -> mem_sub off n (mem_put off bs mem) = bs.
Proof. intros <-. apply mem_sub_put. Qed.

Lemma mem_sub_put_ne off o n bs mem :
  0 <= off <= zlen mem -> 0 <= o -> o + n <= off \/ off + zlen bs <= o ->
  mem_sub o n (mem_put off bs mem) = mem_sub o n mem.
Proof. intros ?? [?|?]; [apply mem_sub_put_below; lia|apply mem_sub_put_above; lia]. Qed.

Lemma mem_sub_full mem : mem_sub 0 (zlen mem) mem = mem.
Proof. unfold mem_sub. rewrite zdrop_0. apply ztake_ge. lia. Qed.

Lemma mem_sub_app_l off n mem bs :
  0 <= off -> off + n <= zlen mem -> mem_sub off n (mem ++ bs) = mem_sub off n mem.
Proof.
  intros. unfold mem_sub. destruct (Z.le_gt_cases n 0).
  { unfold ztake. by rewrite !Z2Nat.nonpos by lia. }
  rewrite zdrop_app_le, ztake_app_le by zl. done.
Qed.

Lemma mem_sub_split off n k off' m mem :
  0 <= off -> 0 <= n -> 0 <= k -> off' = off + n -> m = n + k ->
  mem_sub off n mem ++ mem_sub off' k mem = mem_sub off m mem.
Proof.
  intros ??? -> ->. unfold mem_sub. rewrite <- (zdrop_zdrop n off) by lia.
  set (l := zdrop off mem). unfold ztake, zdrop. rewrite Z2Nat.inj_add by lia.
  apply take_take_drop.
Qed.

Lemma mem_sub_skip k off n mem bs :
  zlen mem = k -> k <= off -> mem_sub off n (mem ++ bs) = mem_sub (off - k) n bs.
Proof. intros <- ?. unfold mem_sub. by rewrite zdrop_app_ge by lia. Qed.

Lemma mem_sub_hit n mem bs : zlen mem = n -> mem_sub 0 n (mem ++ bs) = mem.
Proof.
  intros <-. unfold mem_sub. rewrite zdrop_0, ztake_app_le by lia. by apply ztake_ge.
Qed.

Lemma mem_sub_sub o n h m mem :
  0 <= o -> 0 <= h -> o + n <= m -> mem_sub o n (mem_sub h m mem) = mem_sub (h + o) n mem.
Proof.
  intros. unfold mem_sub. rewrite zdrop_ztake, zdrop_zdrop, ztake_ztake by lia.
  f_equal. lia.
Qed.

Lemma mem_sub_all n mem : zlen mem = n -> mem_sub 0 n mem = mem.
Proof. intros <-. apply mem_sub_full. Qed.
End mem.

(** ** Linear search *)

(** [scan p l] is the [for (i = 0; i < N; i++) if (p(l[i])) return &l[i];
    return NULL;] loop every lookup of the library uses. *)
Fixpoint scan {A} (p : A -> bool) (l : list A) : option nat :=
  match l with
  | [] => None
  | x :: l => if p x then Some O else S <$> scan p l
  end.

Section scan.
Context {A : Type} (p : A -> bool).

Lemma scan_Some l i :
  scan p l = Some i <->
  exists x, l !! i = Some x /\ p x = true /\
    forall j y, (j < i)%nat -> l !! j = Some y -> p y = false.
Proof.
  revert i. induction l as [|x l IH]; intros i; simpl; [naive_solver|].
  destruct (p x) eqn:E.
  - split; [intros [= <-]; exists x; naive_solver lia|].
    intros (y & Hy & Hp & Hlt). destruct i; [done|].
    specialize (Hlt O x ltac:(lia) eq_refl). congruence.
  - rewrite fmap_Some. split.
    + intros (k & Hk & ->). apply IH in Hk as (y & ? & ? & H).
      exists y. split_and!; [done..|]. intros [|j] z ? Hz; [simpl in Hz; congruence|].
      apply (H j); [lia|done].
    + intros (y & Hy & Hp & Hlt). destruct i as [|i]; [simpl in Hy; congruence|].
      exists i. split; [|done]. apply IH. exists y. split_and!; [done..|].
      intros j z ? ?. apply (Hlt (S j)); [lia|done].
Qed.

Lemma scan_None l : scan p l = None <-> forall i x, l !! i = Some x -> p x = false.
Proof.
  induction l as [|x l IH]; simpl; [split; [intros _ i x; by rewrite lookup_nil|done]|].
  destruct (p x) eqn:E.
  - split; [done|]. intros H. specialize (H O x eq_refl). congruence.
  - rewrite fmap_None, IH. split; [|intros H i; apply (H (S i))].
    intros H [|i] y; naive_solver.
Qed.

Lemma scan_lookup l i : scan p l = Some i -> exists x, l !! i = Some x /\ p x = true.
Proof. rewrite scan_Some. naive_solver. Qed.

Lemma scan_lt l i : scan p l = Some i -> (i < length l)%nat.
Proof. intros (x & H & _)%scan_lookup. by apply lookup_lt_Some in H. Qed.

Lemma scan_exists l i x : l !! i = Some x -> p x = true -> exists j, scan p l = Some j.
Proof.
  intros Hi Hp. destruct (scan p l) eqn:E; [eauto|].
  rewrite scan_None in E. specialize (E i x Hi). congruence.
Qed.
End scan.

Lemma scan_fmap {A B} (f : A -> B) p (l : list A) : scan p (f <$> l) = scan (fun x => p (f x)) l.
Proof. induction l as [|x l IH]; csimpl; [done|]. destruct (p (f x)); [done|]. by rewrite IH. Qed.

Lemma list_alter_insert {A} (f : A -> A) i x (l : list A) :
  l !! i = Some x -> alter f i l = <[i := f x]> l.
Proof.
  revert i. induction l as [|y l IH]; intros [|i] Hi; simplify_eq/=; [done|]. f_equal. by apply IH.
Qed.

Lemma list_alter_agree {A} (f g : A -> A) i x (l : list A) :
  l !! i = Some x -> f x = g x -> alter f i l = alter g i l.
Proof. intros Hi E. by rewrite (list_alter_insert f i x), (list_alter_insert g i x), E. Qed.

Lemma list_alter_fix {A} (f : A -> A) i x (l : list A) :
  l !! i = Some x -> f x = x -> alter f i l = l.
Proof. intros Hi E. rewrite (list_alter_insert f i x), E by done. by apply list_insert_id. Qed.

(** ** Record update *)

(** [r <| f := v |>] updates one field. Each record type declares how it is
    rebuilt from its projections ([Settable]); the setter of a projection is
    found by abstracting that projection out of the rebuilding function. *)
Class Settable (R : Type) := rebuild : R -> R.
Class Setter {R F : Type} (proj : R -> F) := set_with : (F -> F) -> R -> R.
Arguments set_with {R F} proj {_} _ _.

Ltac solve_setter :=
  lazymatch goal with
  | |- @Setter ?R ?F ?proj =>
      let inst := constr:(_ : Settable R) in
      let body := eval hnf in inst in
      let abs := eval pattern proj in body in
      lazymatch abs with
      | ?g _ => let t := eval cbv beta in (fun (f : F -> F) => g (fun r => f (proj r))) in
                exact t
      end
  end.
#[export] Hint Extern 1 (Setter _) => solve_setter : typeclass_instances.

Declare Scope record_scope.
Notation "r <| f := v |>" := (set_with f (fun _ => v) r)
  (at level 12, f at next level, v at level 200, left associativity) : record_scope.
Notation "r <| f ::= g |>" := (set_with f g r)
  (at level 12, f at next level, g at level 200, left associativity) : record_scope.
#[global] Open Scope record_scope.

(** ** Little-endian words *)

Lemma zlen_le_split n z : zlen (le_split n z) = Z.of_nat n.
Proof. unfold zlen. by rewrite length_le_split. Qed.
#[export] Hint Rewrite zlen_le_split : zlen.

Lemma le_combine_split_small n z :
  0 <= z < 2 ^ (Z.of_nat n * 8) -> le_combine (le_split n z) = z.
Proof. intros. rewrite le_combine_split. by apply Z.mod_small. Qed.

Lemma le_combine_range bs n : zlen bs = n -> 0 <= le_combine bs < 2 ^ (8 * n).
Proof. intros <-. apply le_combine_bound. Qed.

#[global] Arguments le_split : simpl never.
#[global] Arguments le_combine : simpl never.
#[global] Arguments zlen : simpl never.
#[global] Arguments mem_sub : simpl never.
#[global] Arguments mem_put : simpl never.
#[global] Arguments ztake : simpl never.
#[global] Arguments zdrop : simpl never.
#[global] Arguments u8 : simpl never.
#[global] Arguments u16 : simpl never.
#[global] Arguments u32 : simpl never.
#[global] Arguments u64 : simpl never.
#[global] Arguments i32 : simpl never.
