(* ===== verification/Monad.v ===== *)
(** * Effects: state, faults and a weakest-precondition calculus

    The C functions of the library mutate a heap object and may, on bad
    arguments, access memory outside an array or loop for ever.  They are
    translated into a state monad over an [outcome]: [Fault OutOfBounds] is a
    memory access the C standard leaves undefined, [Fault Diverges] a loop
    that exhausts its fuel.  [wp] is the total-correctness predicate
    transformer: a proof of [wp m Q s] shows that [m] does not fault. *)

From S2P Require Import Prelude.

Inductive fault : Type :=
  | OutOfBounds
  | Diverges.

Inductive outcome (A : Type) : Type :=
  | Ok (a : A)
  | Fault (f : fault).
Arguments Ok {A} a.
Arguments Fault {A} f.

Definition M (S A : Type) : Type := S -> outcome (A * S).

#[global] Instance M_ret S : MRet (M S) := fun A a s => Ok (a, s).
#[global] Instance M_bind S : MBind (M S) := fun A B f m s =>
  match m s with
  | Ok (a, s') => f a s'
  | Fault e => Fault e
  end.

Definition raise {S A} (f : fault) : M S A := fun _ => Fault f.
Definition gets {S A} (f : S -> A) : M S A := fun s => Ok (f s, s).
Definition modify {S} (f : S -> S) : M S unit := fun s => Ok (tt, f s).

(** Dereference of an array element; the index must be in range. *)
Definition deref {S A} (o : option A) : M S A :=
  match o with Some a => mret a | None => raise OutOfBounds end.

(** [for (x : l) body(x)] and its variant with local variables. *)
Fixpoint for_each {S A} (l : list A) (body : A -> M S unit) : M S unit :=
  match l with
  | [] => mret tt
  | x :: l => _ ← body x; for_each l body
  end.

Fixpoint fold_m {S A B} (body : B -> A -> M S B) (b : B) (l : list A) : M S B :=
  match l with
  | [] => mret b
  | x :: l => b' ← body b x; fold_m body b' l
  end.

(** [memcpy(dst + off, src, n)]: reads [n] bytes of [src] and overwrites [n]
    bytes of the object [dst]; both ranges must lie inside the objects. *)
Definition memcpy {S} (dst : list byte) (off : Z) (src : list byte) (n : Z) : M S (list byte) :=
  if (0 <=? off) && (0 <=? n) && (off + n <=? zlen dst) && (n <=? zlen src)
  then mret (mem_put off (ztake n src) dst)
  else raise OutOfBounds.

(** ** Weakest preconditions *)

Definition wp {S A} (m : M S A) (Q : A -> S -> Prop) (s : S) : Prop :=
  match m s with
  | Ok (a, s') => Q a s'
  | Fault _ => False
  end.

Section wp.
Context {S : Type}.

Lemma wp_run {A} (m : M S A) Q s :
  wp m Q s <-> exists a s', m s = Ok (a, s') /\ Q a s'.
Proof. unfold wp. destruct (m s) as [[a s']|]; naive_solver. Qed.

Lemma wp_ok {A} (m : M S A) Q s a s' : m s = Ok (a, s') -> Q a s' -> wp m Q s.
Proof. rewrite wp_run. eauto. Qed.

Lemma wp_at {A} (m : M S A) (Q : A -> S -> Prop) s a s' : wp m Q s -> m s = Ok (a, s') -> Q a s'.
Proof. unfold wp. intros HQ E. by rewrite E in HQ. Qed.

Lemma wp_mono {A} (m : M S A) (P Q : A -> S -> Prop) s :
  wp m P s -> (forall a s', P a s' -> Q a s') -> wp m Q s.
Proof. rewrite !wp_run. naive_solver. Qed.

Lemma wp_and {A} (m : M S A) (P Q : A -> S -> Prop) s :
  wp m P s -> wp m Q s -> wp m (fun a s' => P a s' /\ Q a s') s.
Proof. unfold wp. by destruct (m s) as [[a s']|]. Qed.

Lemma wp_ret {A} (a : A) (Q : A -> S -> Prop) s : Q a s -> wp (mret a) Q s.
Proof. done. Qed.

Lemma wp_bind {A B} (m : M S A) (f : A -> M S B) Q s :
  wp m (fun a s' => wp (f a) Q s') s -> wp (m ≫= f) Q s.
Proof. unfold wp, mbind, M_bind. by destruct (m s) as [[a s']|]. Qed.

Lemma wp_bind_inv {A B} (m : M S A) (f : A -> M S B) (Q : B -> S -> Prop) s :
  wp (m ≫= f) Q s -> wp m (fun a s1 => wp (f a) Q s1) s.
Proof. unfold wp, mbind, M_bind. by destruct (m s) as [[a s1]|]. Qed.

Lemma wp_gets {A} (f : S -> A) (Q : A -> S -> Prop) s : Q (f s) s -> wp (gets f) Q s.
Proof. done. Qed.

Lemma wp_modify (f : S -> S) (Q : unit -> S -> Prop) s : Q tt (f s) -> wp (modify f) Q s.
Proof. done. Qed.

Lemma wp_deref {A} (o : option A) a (Q : A -> S -> Prop) s :
  o = Some a -> Q a s -> wp (deref o) Q s.
Proof. by intros ->. Qed.

Lemma wp_for_each {A} (I : S -> Prop) (l : list A) (body : A -> M S unit) s :
  I s ->
  (forall x s, x ∈ l -> I s -> wp (body x) (fun _ => I) s) ->
  wp (for_each l body) (fun _ => I) s.
Proof.
  revert s. induction l as [|x l IH]; intros s HI Hb; simpl; [done|].
  apply wp_bind. eapply wp_mono; [apply Hb; [by left|done]|].
  intros [] s' HI'. apply IH; [done|]. intros y s'' ?. apply Hb. by right.
Qed.

Lemma wp_for_each_app {A} (l1 l2 : list A) (body : A -> M S unit) (Q : unit -> S -> Prop) s :
  wp (for_each l1 body) (fun _ s1 => wp (for_each l2 body) Q s1) s -> wp (for_each (l1 ++ l2) body) Q s.
Proof.
  revert s. induction l1 as [|x l1 IH]; intros s Hs; simpl in *; [done|].
  apply wp_bind. apply wp_bind_inv in Hs. eapply wp_mono; [exact Hs|]. intros a s1. apply IH.
Qed.

(** The same with an invariant that counts the iterations. *)
Lemma wp_for_each_index {A} (I : nat -> S -> Prop) (l : list A) (body : A -> M S unit) s :
  I O s ->
  (forall k x s, l !! k = Some x -> I k s -> wp (body x) (fun _ => I (k + 1)%nat) s) ->
  wp (for_each l body) (fun _ => I (length l)) s.
Proof.
  revert I s. induction l as [|x l IH]; intros I s HI Hb; simpl; [done|].
  apply wp_bind. eapply wp_mono; [by apply (Hb O x)|]. intros u s1 H1.
  eapply wp_mono; [apply (IH (fun k => I (k + 1)%nat) s1 H1)|].
  - intros k y s2 Hk HI2. rewrite Nat.add_1_r. eapply (Hb (Datatypes.S k)); [done|].
    by rewrite <- Nat.add_1_r.
  - intros a s2. simpl. by rewrite Nat.add_1_r.
Qed.

Lemma wp_fold_m {A B} (I : B -> S -> Prop) (l : list A) (body : B -> A -> M S B) b s :
  I b s ->
  (forall b x s, x ∈ l -> I b s -> wp (body b x) I s) ->
  wp (fold_m body b l) I s.
Proof.
  revert b s. induction l as [|x l IH]; intros b s HI Hb; simpl; [done|].
  apply wp_bind. eapply wp_mono; [apply Hb; [by left|done]|].
  intros b' s' HI'. apply IH; [done|]. intros b'' y s'' ?. apply Hb. by right.
Qed.

Lemma wp_fold_m_index {A B} (I : nat -> B -> S -> Prop) (l : list A) (body : B -> A -> M S B) b s :
  I O b s ->
  (forall k x b s, l !! k = Some x -> I k b s -> wp (body b x) (I (k + 1)%nat) s) ->
  wp (fold_m body b l) (I (length l)) s.
Proof.
  revert I b s. induction l as [|x l IH]; intros I b s HI Hb; simpl; [done|].
  apply wp_bind. eapply wp_mono; [by apply (Hb O x)|]. intros b1 s1 H1.
  eapply wp_mono; [apply (IH (fun k => I (k + 1)%nat) b1 s1 H1)|].
  - intros k y b2 s2 Hk HI2. rewrite Nat.add_1_r. eapply (Hb (Datatypes.S k)); [done|].
    by rewrite <- Nat.add_1_r.
  - intros a s2. simpl. by rewrite Nat.add_1_r.
Qed.

Lemma wp_memcpy dst off src n (Q : list byte -> S -> Prop) s :
  0 <= off -> 0 <= n -> off + n <= zlen dst -> n <= zlen src ->
  Q (mem_put off (ztake n src) dst) s ->
  wp (memcpy dst off src n) Q s.
Proof.
  intros. unfold memcpy.
  rewrite !(proj2 (Z.leb_le _ _)) by lia. done.
Qed.
End wp.

Lemma bind_Ok {S A B} (m : M S A) (f : A -> M S B) s a s' :
  m s = Ok (a, s') -> (m ≫= f) s = f a s'.
Proof. intros H. unfold mbind, M_bind. by rewrite H. Qed.

Lemma bind_assoc {S A B C} (m : M S A) (f : A -> M S B) (g : B -> M S C) s :
  ((m ≫= f) ≫= g) s = (m ≫= (fun a => f a ≫= g)) s.
Proof. unfold mbind, M_bind. by destruct (m s) as [[a s']|]. Qed.

Lemma bind_ext {S A B} (m m' : M S A) (f g : A -> M S B) s :
  m s = m' s -> (forall a s', f a s' = g a s') -> (m ≫= f) s = (m' ≫= g) s.
Proof. intros Hm Hf. unfold mbind, M_bind. rewrite Hm. by destruct (m' s) as [[a s']|]. Qed.

Lemma wp_eq {S A} (m m' : M S A) Q s : m s = m' s -> wp m' Q s -> wp m Q s.
Proof. unfold wp. by intros ->. Qed.

(** ** Frames *)

(** [Keeps view m]: when [m] returns, [view] of the state is what it was.
    Instance search proves the frame of an operation from its code. *)
Class Keeps {S A B} (view : S -> B) (m : M S A) : Prop :=
  keeps s a s' : m s = Ok (a, s') -> view s' = view s.

Section keeps.
Context {S B : Type} (view : S -> B).

#[export] Instance keeps_ret {A} (a : A) : Keeps view (mret a : M S A).
Proof. by intros s ? s' [= <- <-]. Qed.

#[export] Instance keeps_raise {A} f : Keeps view (raise f : M S A).
Proof. done. Qed.

#[export] Instance keeps_gets {A} (f : S -> A) : Keeps view (gets f).
Proof. by intros s ? s' [= <- <-]. Qed.

#[export] Instance keeps_deref {A} (o : option A) : Keeps view (deref o).
Proof. intros s a s'. destruct o; [by intros [= <- <-]|done]. Qed.

#[export] Instance keeps_memcpy dst off src n : Keeps view (memcpy dst off src n : M S _).
Proof. unfold memcpy. by destruct (_ && _); intros s a s'; [intros [= <- <-]|]. Qed.

Lemma keeps_modify (f : S -> S) : (forall s, view (f s) = view s) -> Keeps view (modify f).
Proof. intros Hf s ? s' [= <- <-]. apply Hf. Qed.

#[export] Instance keeps_bind {A C} (m : M S A) (f : A -> M S C) :
  Keeps view m -> (forall a, Keeps view (f a)) -> Keeps view (m ≫= f).
Proof.
  intros Hm Hf s c s'. unfold mbind, M_bind. destruct (m s) as [[a s1]|] eqn:E; [|done].
  intros Hc. apply Hf in Hc. apply Hm in E. congruence.
Qed.

#[export] Instance keeps_for_each {A} (l : list A) (body : A -> M S unit) :
  (forall x, Keeps view (body x)) -> Keeps view (for_each l body).
Proof. intros Hb. induction l; simpl; apply _. Qed.

#[export] Instance keeps_fold_m {A C} (l : list A) (body : C -> A -> M S C) b :
  (forall b x, Keeps view (body b x)) -> Keeps view (fold_m body b l).
Proof. intros Hb. revert b. induction l; simpl; apply _. Qed.

Lemma wp_keeps {A} (m : M S A) `{!Keeps view m} (Q : A -> S -> Prop) s :
  wp m Q s -> wp m (fun a s' => Q a s' /\ view s' = view s) s.
Proof. rewrite !wp_run. intros (a & s' & E & HQ). exists a, s'. by rewrite (keeps (view := view) _ _ _ E). Qed.
End keeps.

(** ** Partial correctness *)

(** What holds when [m] returns.  A functional property is proved with [wlp],
    where a frame costs nothing, and joined to a [wp] for totality. *)
Definition wlp {S A} (m : M S A) (Q : A -> S -> Prop) (s : S) : Prop :=
  match m s with
  | Ok (a, s') => Q a s'
  | Fault _ => True
  end.

Section wlp.
Context {St : Type}.

Lemma wlp_ret {A} (a : A) (Q : A -> St -> Prop) s : Q a s -> wlp (mret a) Q s.
Proof. done. Qed.

Lemma wlp_gets {A} (f : St -> A) (Q : A -> St -> Prop) s : Q (f s) s -> wlp (gets f) Q s.
Proof. done. Qed.

Lemma wlp_modify (f : St -> St) (Q : unit -> St -> Prop) s : Q tt (f s) -> wlp (modify f) Q s.
Proof. done. Qed.

Lemma wlp_deref {A} (o : option A) (Q : A -> St -> Prop) s :
  (forall a, o = Some a -> Q a s) -> wlp (deref o) Q s.
Proof. destruct o; [|done]. intros HQ. by apply HQ. Qed.

Lemma wlp_memcpy dst off src n (Q : list byte -> St -> Prop) s :
  (0 <= n <= zlen src -> 0 <= off -> off + n <= zlen dst -> Q (mem_put off (ztake n src) dst) s) ->
  wlp (memcpy dst off src n) Q s.
Proof.
  intros HQ. unfold memcpy. destruct (_ && _) eqn:E; [|done].
  rewrite !andb_true_iff, !Z.leb_le in E. apply HQ; lia.
Qed.

Lemma wlp_bind {A B} (m : M St A) (f : A -> M St B) Q s :
  wlp m (fun a s' => wlp (f a) Q s') s -> wlp (m ≫= f) Q s.
Proof. unfold wlp, mbind, M_bind. by destruct (m s) as [[a s']|]. Qed.

Lemma wlp_mono {A} (m : M St A) (P Q : A -> St -> Prop) s :
  wlp m P s -> (forall a s', P a s' -> Q a s') -> wlp m Q s.
Proof. unfold wlp. destruct (m s) as [[a s']|]; auto. Qed.

Lemma wlp_keeps {A B} (view : St -> B) (m : M St A) `{!Keeps view m} (Q : A -> St -> Prop) s :
  (forall a s', view s' = view s -> Q a s') -> wlp m Q s.
Proof.
  intros HQ. unfold wlp. destruct (m s) as [[a s2]|] eqn:E; [|done].
  by apply HQ, (keeps _ _ _ E).
Qed.

Lemma wp_wlp {A} (m : M St A) (P Q : A -> St -> Prop) s :
  wp m P s -> wlp m Q s -> wp m (fun a s' => P a s' /\ Q a s') s.
Proof. unfold wp, wlp. by destruct (m s) as [[a s']|]. Qed.

Lemma wp_to_wlp {A} (m : M St A) (Q : A -> St -> Prop) s : wp m Q s -> wlp m Q s.
Proof. unfold wp, wlp. by destruct (m s) as [[a s']|]. Qed.

Lemma wlp_ok {A} (m : M St A) (Q : A -> St -> Prop) s a s' : wlp m Q s -> m s = Ok (a, s') -> Q a s'.
Proof. unfold wlp. intros HQ E. by rewrite E in HQ. Qed.

Lemma wlp_for_each {A} (I : nat -> St -> Prop) (l : list A) (body : A -> M St unit) s :
  I O s ->
  (forall k x s, l !! k = Some x -> I k s -> wlp (body x) (fun _ => I (k + 1)%nat) s) ->
  wlp (for_each l body) (fun _ => I (length l)) s.
Proof.
  revert I s. induction l as [|x l IH]; intros I s HI Hb; simpl; [done|].
  apply wlp_bind. eapply wlp_mono; [by apply (Hb O x)|]. intros u s1 H1.
  eapply wlp_mono; [apply (IH (fun k => I (k + 1)%nat) s1 H1)|].
  - intros k y s2 Hk HI2. rewrite Nat.add_1_r. eapply (Hb (S k)); [done|].
    by rewrite <- Nat.add_1_r.
  - intros a s2. simpl. by rewrite Nat.add_1_r.
Qed.

Lemma wlp_fold_m {A B} (I : B -> St -> Prop) (l : list A) (body : B -> A -> M St B) b s :
  I b s -> (forall b x s, I b s -> wlp (body b x) I s) -> wlp (fold_m body b l) I s.
Proof.
  revert b s. induction l as [|x l IH]; intros b s HI Hb; simpl; [done|].
  apply wlp_bind. eapply wlp_mono; [by apply Hb|]. intros b' s' HI'. by apply IH.
Qed.
End wlp.

(** Case analysis of a frame goal: conditionals and matches. *)
#[export] Hint Extern 2 (Keeps _ (if ?b then _ else _)) => destruct b : typeclass_instances.
#[export] Hint Extern 2 (Keeps _ (match ?x with _ => _ end)) => destruct x : typeclass_instances.

(** [wp_step] symbolically executes the next primitive command. *)
Ltac wp_step :=
  lazymatch goal with
  | |- wp (_ ≫= _) _ _ => apply wp_bind
  | |- wp (mret _) _ _ => apply wp_ret
  | |- wp (gets _) _ _ => apply wp_gets
  | |- wp (modify _) _ _ => apply wp_modify
  | |- wp (if ?b then _ else _) _ _ => destruct b eqn:?
  | |- wp (match ?x with _ => _ end) _ _ => destruct x eqn:?
  end; cbn beta.
Ltac wlp_step :=
  lazymatch goal with
  | |- wlp (_ ≫= _) _ _ => apply wlp_bind
  | |- wlp (mret _) _ _ => apply wlp_ret
  | |- wlp (gets _) _ _ => apply wlp_gets
  | |- wlp (modify _) _ _ => apply wlp_modify
  | |- wlp (if ?b then _ else _) _ _ => destruct b eqn:?
  | |- wlp (match ?x with _ => _ end) _ _ => destruct x eqn:?
  end; cbn beta.
Ltac wp_steps := repeat wp_step.
