(* ===== verification/Types.v ===== *)
(** * Protocol data: src/libsyncs/syncs-types.h and syncs-common.h

    The constants, the 32-byte identifiers, the packed packet header and the
    inline helpers that fill it.  Headers are records of machine integers;
    [encode_header]/[decode_header] are their memory layout on the
    little-endian targets of the library. *)

From S2P Require Import Prelude.
From S2P Require Import Monad.

(** ** Limits *)

Definition SYNCS_DEFAULT_SYNC_OFFSET_MS : Z := 300.
Definition SYNCS_EVENT_MAXIMUM : nat := 256.
Definition SYNCS_VARIABLE_SIZE_MAXIMUM : Z := 0x1ff.
Definition SYNCS_EVENT_DATA_SIZE_MAXIMUM : Z := 0xfff.
Definition SYNCS_VARIABLE_INFO_SIZE_MAXIMUM : Z := 32.
Definition SYNCS_CLIENT_MAXIMUM : nat := 64.
Definition SYNCS_CHANNEL_MAXIMUM : nat := 32.
Definition SYNCS_EVENT_NAME_SIZE : Z := 32.
Definition SYNCS_CLIENT_BUFFER_SIZE : Z := 32 * 1024.

Definition SYNCS_PACKET_MAGIC : Z := 83.        (* 'S' *)
Definition SYNCS_PACKET_MAGIC_DATA : Z := 68.   (* 'D' *)
Definition UDP_SOCKET_STUB : Z := -2.
Definition SYNCS_VERSION_MAJOR : Z := 2.
Definition SYNCS_VERSION_MINOR : Z := 1.

(** ** Bit map of the [type] field *)

Definition SYNCS_TYPE_EMPTY : Z := 0x00.
Definition SYNCS_TYPE_CLIENT_ID : Z := 0x01.
Definition SYNCS_TYPE_EVENT : Z := 0x02.
Definition SYNCS_TYPE_WRITE : Z := 0x03.
Definition SYNCS_TYPE_READ : Z := 0x04.
Definition SYNCS_TYPE_SUBSCRIBE : Z := 0x05.
Definition SYNCS_TYPE_UNSUBSCRIBE : Z := 0x06.
Definition SYNCS_TYPE_DEFINE : Z := 0x07.
Definition SYNCS_TYPE_UNDEFINE : Z := 0x08.
Definition SYNCS_TYPE_EVENT_LIST : Z := 0x09.
Definition SYNCS_TYPE_CLIENT_LIST : Z := 0x0a.
Definition SYNCS_TYPE_SERVER_STATUS : Z := 0x0b.
Definition SYNCS_TYPE_CHANNEL : Z := 0x0d.
Definition SYNCS_TYPE_CHANNEL_LIST : Z := 0x0e.
Definition SYNCS_TYPE_MSG_MASK : Z := 0x0f.

Definition SYNCS_TYPE_SYNC : Z := 0x0010.
Definition SYNCS_TYPE_ECHO : Z := 0x0020.
Definition SYNCS_TYPE_CRYPT : Z := 0x0040.
Definition SYNCS_TYPE_FORCE : Z := 0x0080.
Definition SYNCS_TYPE_FLAGS_MASK : Z := 0x00f0.

Definition SYNCS_TYPE_VAR_NOT_DEFINED : Z := 0x0000.
Definition SYNCS_TYPE_VAR_EMPTY : Z := 0x0100.
Definition SYNCS_TYPE_VAR_INT32 : Z := 0x0200.
Definition SYNCS_TYPE_VAR_INT64 : Z := 0x0300.
Definition SYNCS_TYPE_VAR_FLOAT : Z := 0x0400.
Definition SYNCS_TYPE_VAR_DOUBLE : Z := 0x0500.
Definition SYNCS_TYPE_VAR_STRING : Z := 0x0600.
Definition SYNCS_TYPE_VAR_STRUCTURE : Z := 0x0700.
Definition SYNCS_TYPE_VAR_ANY : Z := 0x0f00.
Definition SYNCS_TYPE_VAR_MASK : Z := 0x0f00.

Definition SYNCS_TYPE_CHANNEL_MASK : Z := 0x0700.
Definition SYNCS_CHANNEL_ANONS : Z := 0x1000.
Definition SYNCS_CHANNEL_REQUEST : Z := 0x2000.
Definition SYNCS_CHANNEL_TICKET : Z := 0x3000.
Definition SYNCS_CHANNEL_MASK : Z := 0xf000.
Definition SYNCS_STATUS_LOST : Z := 0x10000000.

Definition SYNCS_ERROR_NOTFOUND : Z := 0.
Definition SYNCS_ERROR_NOTSUPPORT : Z := 1.
Definition SYNCS_ERROR_UNKNOWNCLIENT : Z := 2.
Definition SYNCS_ERROR_CRYPT : Z := 3.

(** ** Identifiers *)

(** [union syncs_id]: four 64-bit words, or the 32 chars they are stored in. *)
Record syncsid_t : Type := mk_id { id_i0 : Z; id_i1 : Z; id_i2 : Z; id_i3 : Z }.

#[export] Instance syncsid_t_eq_dec : EqDecision syncsid_t.
Proof. solve_decision. Defined.

#[export] Instance syncsid_t_countable : Countable syncsid_t.
Proof.
  refine (inj_countable' (fun a => (id_i0 a, id_i1 a, id_i2 a, id_i3 a))
            (fun '(a, b, c, d) => mk_id a b c d) _).
  by intros [].
Defined.

Definition id_chars (a : syncsid_t) : list byte :=
  le_split 8 (id_i0 a) ++ le_split 8 (id_i1 a) ++ le_split 8 (id_i2 a) ++ le_split 8 (id_i3 a).

Definition id_of_chars (c : list byte) : syncsid_t :=
  mk_id (le_combine (mem_sub 0 8 c)) (le_combine (mem_sub 8 8 c))
        (le_combine (mem_sub 16 8 c)) (le_combine (mem_sub 24 8 c)).

(** [a->c[k]] and [a->c[k] = b]. *)
Definition id_char (a : syncsid_t) (k : nat) : Z :=
  match id_chars a !! k with Some b => byte.unsigned b | None => 0 end.
Definition id_set_char (a : syncsid_t) (k : nat) (v : Z) : syncsid_t :=
  id_of_chars (<[k := byte.of_Z v]> (id_chars a)).

(** The words are in the range of [uint64_t]. *)
Definition id_wf (a : syncsid_t) : Prop :=
  0 <= id_i0 a < 2 ^ 64 /\ 0 <= id_i1 a < 2 ^ 64 /\
  0 <= id_i2 a < 2 ^ 64 /\ 0 <= id_i3 a < 2 ^ 64.

(** A table slot is free when [id.i[0] == -1]. *)
Definition id_free_mark : Z := 2 ^ 64 - 1.
Definition id_is_free (a : syncsid_t) : bool := id_i0 a =? id_free_mark.
Definition id_set_free (a : syncsid_t) : syncsid_t :=
  mk_id id_free_mark (id_i1 a) (id_i2 a) (id_i3 a).

Definition syncs_idcmp (a b : syncsid_t) : bool :=
  (id_i0 a =? id_i0 b) && (id_i1 a =? id_i1 b) && (id_i2 a =? id_i2 b) && (id_i3 a =? id_i3 b).

Definition syncs_idcpy (a b : syncsid_t) : syncsid_t :=
  mk_id (id_i0 b) (id_i1 b) (id_i2 b) (id_i3 b).

(** C strings are the bytes before the terminating NUL; the end of the list
    and a NUL byte inside it both stand for the terminator. *)
Definition chr (s : list byte) : byte := match s with [] => Byte.x00 | c :: _ => c end.
Definition is_nul (b : byte) : bool := byte.unsigned b =? 0.

(** The comparison loop of [syncs_idcmp_str]: [i] is what [--i] still allows. *)
Fixpoint idcmp_str_loop (i : nat) (s b : list byte) : bool :=
  match i with
  | O => byte.unsigned (chr s) =? byte.unsigned (chr b)
  | S i =>
      if is_nul (chr b) then byte.unsigned (chr s) =? byte.unsigned (chr b)
      else if byte.unsigned (chr s) =? byte.unsigned (chr b)
           then idcmp_str_loop i (tail s) (tail b)
           else false
  end.
Definition syncs_idcmp_str (a : syncsid_t) (b : list byte) : bool :=
  idcmp_str_loop (Z.to_nat (SYNCS_EVENT_NAME_SIZE - 1)) (id_chars a) b.

(** The copy loop of [syncs_idstr]: the bytes stored, NUL included. *)
Fixpoint idstr_loop (i : nat) (b : list byte) : list byte :=
  match i with
  | O => []
  | S i => if is_nul (chr b) then [Byte.x00] else chr b :: idstr_loop i (tail b)
  end.
Definition syncs_idstr (b : list byte) : syncsid_t :=
  id_of_chars (mem_put 0 (idstr_loop (Z.to_nat (SYNCS_EVENT_NAME_SIZE - 1)) b)
                 (replicate 32 Byte.x00)).

(** [syncs_stridcpy a b]: the bytes stored into the caller's string. *)
Definition syncs_stridcpy (a : list byte) (b : syncsid_t) : list byte :=
  mem_put 0 (idstr_loop (Z.to_nat (SYNCS_EVENT_NAME_SIZE - 1)) (id_chars b)) a.

Definition syncs_get_size_by_type (type : Z) : Z :=
  let t := Z.land type SYNCS_TYPE_VAR_MASK in
  if (t =? SYNCS_TYPE_VAR_FLOAT) || (t =? SYNCS_TYPE_VAR_INT32) then 4
  else if (t =? SYNCS_TYPE_VAR_DOUBLE) || (t =? SYNCS_TYPE_VAR_INT64) then 8
  else 0.

(** ** Packets *)

Record syncdata : Type := mk_sync { data0 : Z; data1 : Z }.

Record syncs_header : Type := mk_header {
  hd_magic : Z;
  hd_crc : Z;
  hd_type : Z;
  hd_id : syncsid_t;
  hd_sync : syncdata;
  hd_update_counter : Z;
  hd_data_size : Z;
  hd_magic_data : Z }.

Record syncs_packet : Type := mk_packet {
  pk_header : syncs_header;
  pk_buffer : list byte }.

#[export] Instance syncs_header_settable : Settable syncs_header := fun h =>
  mk_header (hd_magic h) (hd_crc h) (hd_type h) (hd_id h) (hd_sync h)
    (hd_update_counter h) (hd_data_size h) (hd_magic_data h).
#[export] Instance syncs_packet_settable : Settable syncs_packet := fun p =>
  mk_packet (pk_header p) (pk_buffer p).

(** [sizeof] of the packed structures. *)
Definition sizeof_header : Z := 60.
Definition sizeof_event_info : Z := 90.
Definition sizeof_client_info : Z := 52.
Definition sizeof_channel_info : Z := 46.
Definition sizeof_channel_ticket : Z := 10.

Definition encode_header (h : syncs_header) : list byte :=
  le_split 1 (hd_magic h) ++ le_split 4 (hd_crc h) ++ le_split 4 (hd_type h) ++
  id_chars (hd_id h) ++ le_split 4 (data0 (hd_sync h)) ++ le_split 4 (data1 (hd_sync h)) ++
  le_split 8 (hd_update_counter h) ++ le_split 2 (hd_data_size h) ++
  le_split 1 (hd_magic_data h).

Definition decode_header (m : list byte) : syncs_header :=
  mk_header (le_combine (mem_sub 0 1 m)) (le_combine (mem_sub 1 4 m))
    (le_combine (mem_sub 5 4 m)) (id_of_chars (mem_sub 9 32 m))
    (mk_sync (le_combine (mem_sub 41 4 m)) (le_combine (mem_sub 45 4 m)))
    (le_combine (mem_sub 49 8 m)) (le_combine (mem_sub 57 2 m))
    (le_combine (mem_sub 59 1 m)).

#[global] Arguments encode_header : simpl never.
#[global] Arguments decode_header : simpl never.

(** Every field is in the range of its C type. *)
Definition header_wf (h : syncs_header) : Prop :=
  0 <= hd_magic h < 2 ^ 8 /\ 0 <= hd_crc h < 2 ^ 32 /\ 0 <= hd_type h < 2 ^ 32 /\
  id_wf (hd_id h) /\ 0 <= data0 (hd_sync h) < 2 ^ 32 /\ 0 <= data1 (hd_sync h) < 2 ^ 32 /\
  0 <= hd_update_counter h < 2 ^ 64 /\ 0 <= hd_data_size h < 2 ^ 16 /\
  0 <= hd_magic_data h < 2 ^ 8.

(** Packet size macros; the top four bits of [data_size] hold the cipher
    padding. *)
Definition SYNCS_PACKET_SIZE_MASK : Z := 0x0fff.
Definition SYNCS_PACKET_SIZE_PADDING (data_size : Z) : Z := Z.shiftr data_size 12.
Definition SYNCS_PACKET_DATA_SIZE (data_size : Z) : Z := Z.land data_size SYNCS_PACKET_SIZE_MASK.
Definition SYNCS_SET_PACKET_SIZE (size pad : Z) : Z :=
  Z.lor (Z.shiftl pad 12) (SYNCS_PACKET_DATA_SIZE size).
Definition SYNCS_PACKET_SIZE (p : syncs_packet) : Z :=
  sizeof_header + SYNCS_PACKET_DATA_SIZE (hd_data_size (pk_header p)).
Definition SYNCS_CRYPT_HEADER_SIZE : Z := sizeof_header - 1 - 2 - 1.
Definition SYNCS_CRC_HEADER_SIZE : Z := sizeof_header - 1 - 4.

(** The bytes of the packed [struct syncs_packet]. *)
Definition packet_bytes (p : syncs_packet) : list byte := encode_header (pk_header p) ++ pk_buffer p.

(** The packet whose storage holds [m]. *)
Definition packet_of_memory (m : list byte) : syncs_packet :=
  mk_packet (decode_header (ztake sizeof_header m)) (zdrop sizeof_header m).

(** ** Header helpers (syncs-common.h) *)

Definition syncs_fill_basic_header (p : syncs_header) (type : Z) : syncs_header :=
  p <| hd_magic := SYNCS_PACKET_MAGIC |>
    <| hd_magic_data := SYNCS_PACKET_MAGIC_DATA |>
    <| hd_type := type |>.

Definition syncs_fill_basic_header_request (p : syncs_header) (type : Z) : syncs_header :=
  syncs_fill_basic_header p type <| hd_data_size := 0 |>.

Definition syncs_fill_header (p : syncs_header) (id : syncsid_t) (type : Z) : syncs_header :=
  syncs_fill_basic_header p type <| hd_id ::= fun a => syncs_idcpy a id |>.

Definition syncs_fill_header_str (p : syncs_header) (cid : list byte) (type : Z) : syncs_header :=
  syncs_fill_basic_header p type <| hd_id := syncs_idstr cid |>.

Definition syncs_fill_header_request_str (p : syncs_header) (cid : list byte) (type : Z) : syncs_header :=
  syncs_fill_basic_header_request p type <| hd_id := syncs_idstr cid |>.

Definition syncs_fill_header_request_id (p : syncs_header) (id : syncsid_t) (type : Z) : syncs_header :=
  syncs_fill_basic_header_request p type <| hd_id ::= fun a => syncs_idcpy a id |>.

(** ** Channel tickets *)

Record syncs_channel_ticket : Type := mk_ticket { tk_ip : Z; tk_port : Z; tk_flags : Z }.

#[export] Instance syncs_channel_ticket_settable : Settable syncs_channel_ticket := fun t =>
  mk_ticket (tk_ip t) (tk_port t) (tk_flags t).
(** [sizeof(struct syncs_channel_ticket)] bytes: ip, port, flags. *)
Definition encode_ticket (t : syncs_channel_ticket) : list byte :=
  le_split 4 (tk_ip t) ++ le_split 2 (tk_port t) ++ le_split 4 (tk_flags t).
Definition decode_ticket (m : list byte) : syncs_channel_ticket :=
  mk_ticket (le_combine (mem_sub 0 4 m)) (le_combine (mem_sub 4 2 m)) (le_combine (mem_sub 6 4 m)).

(** ** Machine operations both sides use *)

(** [x++] and [x--] on [uint32_t], [uint64_t] and [int] fields. *)
Definition incr_u32 (x : Z) : Z := u32 (x + 1).
Definition decr_u32 (x : Z) : Z := u32 (x - 1).
Definition incr_u64 (x : Z) : Z := u64 (x + 1).
Definition incr_i32 (x : Z) : Z := i32 (x + 1).
Definition decr_i32 (x : Z) : Z := i32 (x - 1).

(** [flags & bit] as a condition. *)
Definition flag (flags bit : Z) : bool := negb (Z.land flags bit =? 0).

Definition NULL : Z := 0.
Definition id_zero : syncsid_t := mk_id 0 0 0 0.
Definition zero_bytes (n : Z) : list byte := replicate (Z.to_nat n) Byte.x00.

(** The characters of a C string before its NUL. *)
Fixpoint cstr (b : list byte) : list byte :=
  match b with
  | [] => []
  | c :: b => if is_nul c then [] else c :: cstr b
  end.

(** [strncpy(dst, src, n)]: at most [n] chars of [src], padded with NULs. *)
Definition strncpy (n : nat) (src : list byte) : list byte := resize n Byte.x00 (cstr src).

(** ** Theorems *)

(** Arithmetic over the size constants. *)
Ltac consts :=
  unfold SYNCS_EVENT_MAXIMUM, SYNCS_VARIABLE_SIZE_MAXIMUM, SYNCS_EVENT_DATA_SIZE_MAXIMUM,
    SYNCS_VARIABLE_INFO_SIZE_MAXIMUM, SYNCS_CLIENT_MAXIMUM, SYNCS_CHANNEL_MAXIMUM,
    SYNCS_EVENT_NAME_SIZE, SYNCS_CLIENT_BUFFER_SIZE, sizeof_header, sizeof_event_info,
    sizeof_client_info, sizeof_channel_info, sizeof_channel_ticket in *.
Ltac clia := consts; zl.

(** Moves every field read past a leading field of [k] bytes. *)
Ltac field_at k :=
  lazymatch goal with
  | |- context [mem_sub 0 ?n (?a ++ ?b)] => unify n k;
      rewrite (mem_sub_hit k a b) by zl;
      rewrite !(mem_sub_skip k _ _ a b) by zl
  end;
  repeat match goal with
    | |- context [mem_sub (?o - ?j)] =>
        let v := eval vm_compute in (o - j) in change (o - j) with v
    end.

(** *** Identifiers *)

Lemma syncs_idcpy_eq a b : syncs_idcpy a b = b.
Proof. by destruct b. Qed.

Lemma syncs_idcmp_eq a b : syncs_idcmp a b = true <-> a = b.
Proof.
  unfold syncs_idcmp. rewrite !andb_true_iff, !Z.eqb_eq.
  destruct a, b; simpl. naive_solver.
Qed.

Lemma syncs_idcmp_refl a : syncs_idcmp a a = true.
Proof. by apply syncs_idcmp_eq. Qed.

Lemma syncs_idcmp_ne a b : syncs_idcmp a b = false <-> a <> b.
Proof. rewrite <- not_true_iff_false. by rewrite syncs_idcmp_eq. Qed.

Lemma zlen_id_chars a : zlen (id_chars a) = 32.
Proof. unfold id_chars. zl. Qed.
#[export] Hint Rewrite zlen_id_chars : zlen.

Lemma id_chars_of_chars c : zlen c = 32 -> id_chars (id_of_chars c) = c.
Proof.
  intros Hc. unfold id_chars, id_of_chars; cbn [id_i0 id_i1 id_i2 id_i3].
  assert (forall o, 0 <= o <= 24 -> le_split 8 (le_combine (mem_sub o 8 c)) = mem_sub o 8 c) as H.
  { intros o Ho. apply split_le_combine'. pose proof (zlen_mem_sub o 8 c).
    unfold zlen in *. lia. }
  rewrite !H by lia.
  rewrite (mem_sub_split 16 8 8 24 16), (mem_sub_split 8 8 16 16 24), (mem_sub_split 0 8 24 8 32) by lia.
  by apply mem_sub_all.
Qed.

Lemma id_of_chars_chars a : id_wf a -> id_of_chars (id_chars a) = a.
Proof.
  intros (H0 & H1 & H2 & H3). unfold id_of_chars, id_chars.
  destruct a; cbn [id_i0 id_i1 id_i2 id_i3] in *.
  field_at 8. field_at 8. field_at 8.
  rewrite (mem_sub_all 8) by zl.
  by rewrite !le_combine_split_small.
Qed.

Lemma id_of_chars_wf c : zlen c = 32 -> id_wf (id_of_chars c).
Proof.
  intros Hc. unfold id_wf, id_of_chars; simpl.
  split_and!; apply (le_combine_range _ 8); apply zlen_mem_sub; lia.
Qed.

Lemma zlen_insert_char (k : nat) b a : zlen (<[k := b]> (id_chars a)) = 32.
Proof. unfold zlen. rewrite length_insert. apply (zlen_id_chars a). Qed.

Lemma id_set_char_wf a k v : id_wf (id_set_char a k v).
Proof. apply id_of_chars_wf, zlen_insert_char. Qed.

(** [a->c[k]] after [a->c[j] = v]. *)
Lemma id_char_set a j k v :
  (j < 32)%nat -> id_char (id_set_char a j v) k = if decide (j = k) then u8 v else id_char a k.
Proof.
  intros Hj. unfold id_char, id_set_char. rewrite id_chars_of_chars by apply zlen_insert_char.
  destruct (decide (j = k)) as [->|Hne]; [|by rewrite list_lookup_insert_ne].
  rewrite list_lookup_insert_eq; [by rewrite byte.unsigned_of_Z|].
  pose proof (zlen_id_chars a) as Hz. unfold zlen in Hz. lia.
Qed.


Lemma is_nul_spec b : is_nul b = true <-> b = Byte.x00.
Proof.
  unfold is_nul. rewrite Z.eqb_eq. split; [|by intros ->].
  intros H. by apply byte.unsigned_inj.
Qed.

Lemma idstr_loop_spec i b :
  idstr_loop i b = take i (cstr b) ++ (if decide (length (cstr b) < i)%nat then [Byte.x00] else []).
Proof.
  revert b. induction i as [|i IH]; intros b.
  { by rewrite decide_False by lia. }
  destruct b as [|c b]; cbn [idstr_loop chr cstr tail]; [done|].
  destruct (is_nul c); [done|].
  rewrite IH. simpl take. repeat case_decide; simpl in *; (done || lia).
Qed.

(** The stored name: at most 31 characters, padded with NULs. *)
Lemma syncs_idstr_chars b :
  id_chars (syncs_idstr b) = resize 32 Byte.x00 (take 31 (cstr b)).
Proof.
  unfold syncs_idstr. change (Z.to_nat (SYNCS_EVENT_NAME_SIZE - 1)) with 31%nat.
  rewrite idstr_loop_spec. set (t := take 31 (cstr b)).
  set (z := if decide _ then _ else _).
  assert (length t <= 31 /\ length (t ++ z) <= 32 /\ exists k, z = replicate k Byte.x00)%nat
    as (H1 & H2 & k & Hk).
  { subst t z. rewrite length_app, length_take. case_decide; cbn [length].
    - split_and!; [lia..|by exists 1%nat].
    - split_and!; [lia..|by exists O]. }
  rewrite id_chars_of_chars.
  - rewrite Hk in *. unfold mem_put. rewrite ztake_0, app_nil_l.
    rewrite resize_ge by lia. unfold zdrop. rewrite drop_replicate, <- app_assoc.
    rewrite <- replicate_add. do 2 f_equal.
    unfold zlen. rewrite length_app, length_replicate in *. lia.
  - rewrite zlen_mem_put; [done|lia|].
    change (zlen (replicate 32 Byte.x00)) with 32. unfold zlen. lia.
Qed.

Lemma syncs_idstr_wf b : id_wf (syncs_idstr b).
Proof.
  unfold syncs_idstr. apply id_of_chars_wf. rewrite zlen_mem_put; [done|lia|].
  change (zlen (replicate 32 Byte.x00)) with 32.
  change (Z.to_nat (SYNCS_EVENT_NAME_SIZE - 1)) with 31%nat.
  rewrite idstr_loop_spec. unfold zlen. rewrite length_app, length_take.
  case_decide; cbn [length]; lia.
Qed.

Lemma cstr_no_nul b c : c ∈ cstr b -> is_nul c = false.
Proof.
  induction b as [|d b IH]; simpl; [by intros ?%elem_of_nil|].
  destruct (is_nul d) eqn:E; [by intros ?%elem_of_nil|].
  intros [->|?]%elem_of_cons; auto.
Qed.

Lemma byte_eqb_eq a b : (byte.unsigned a =? byte.unsigned b) = true <-> a = b.
Proof. rewrite Z.eqb_eq. split; [apply byte.unsigned_inj|by intros ->]. Qed.

(** The comparison loop against a C string: the whole string and its NUL when
    it is short enough, its first [i + 1] characters otherwise. *)
Lemma idcmp_str_loop_spec i s b :
  (i < length s)%nat ->
  idcmp_str_loop i s b = true <-> take (S i) s = take (S i) (cstr b ++ [Byte.x00]) \/
    ((length (cstr b) <= i)%nat /\ exists r, s = cstr b ++ Byte.x00 :: r).
Proof.
  revert s b. induction i as [|i IH]; intros [|c s] b Hs; simpl in Hs; try lia.
  - simpl. rewrite byte_eqb_eq. destruct b as [|d b]; simpl.
    { split; [intros ->; by left|]. intros [[= ->]|(_ & r & [= -> ->])]; done. }
    destruct (is_nul d) eqn:E.
    { apply is_nul_spec in E as ->. simpl.
      split; [intros ->; by left|]. intros [[= ->]|(_ & r & [= -> ->])]; done. }
    simpl. split; [intros ->; by left|]. intros [[= ->]|(? & _)]; [done|lia].
  - destruct b as [|d b]; simpl.
    { rewrite byte_eqb_eq. split.
      - intros ->. right. split; [lia|eauto].
      - intros [[= ->]|(_ & r & [= -> ->])]; done. }
    destruct (is_nul d) eqn:E.
    { apply is_nul_spec in E as ->. rewrite byte_eqb_eq. simpl. split.
      - intros ->. right. split; [lia|eauto].
      - intros [[= ->]|(_ & r & [= -> ->])]; done. }
    destruct (byte.unsigned c =? byte.unsigned d) eqn:Ecd.
    + apply byte_eqb_eq in Ecd as ->. rewrite IH by lia. simpl.
      split; (intros [H|[H1 (r & Hr)]]; [left|right; split; [lia|exists r]]).
      * by f_equal.
      * by rewrite Hr.
      * by injection H.
      * by injection Hr.
    + assert (c <> d) by (intros ->; by rewrite Z.eqb_refl in Ecd).
      split; [done|]. intros [[= ? _]|(_ & r & [= ? _])]; done.
Qed.

Lemma no_nul_prefix p q r r' :
  (forall c, c ∈ p -> is_nul c = false) -> (forall c, c ∈ q -> is_nul c = false) ->
  p ++ Byte.x00 :: r = q ++ Byte.x00 :: r' -> p = q.
Proof.
  revert q. induction p as [|c p IH]; intros [|d q] Hp Hq; simpl; [done|..].
  - intros [= <- _]. by specialize (Hq _ (list_elem_of_here _ _)).
  - intros [= -> _]. by specialize (Hp _ (list_elem_of_here _ _)).
  - intros [= <- ?]. f_equal. apply IH; [..|done].
    + intros x Hx. apply Hp. by right.
    + intros x Hx. apply Hq. by right.
Qed.

(** The chars of a stored name end in at least one NUL. *)
Lemma syncs_idstr_chars_nul a :
  exists r, id_chars (syncs_idstr a) = take 31 (cstr a) ++ Byte.x00 :: r.
Proof.
  rewrite syncs_idstr_chars. rewrite resize_ge by (rewrite length_take; lia).
  rewrite length_take.
  replace (32 - (31 `min` length (cstr a)))%nat with (S (31 - (31 `min` length (cstr a)))) by lia.
  eauto.
Qed.

Lemma take_cstr_no_nul n a c : c ∈ take n (cstr a) -> is_nul c = false.
Proof.
  intros Hc. apply (cstr_no_nul a). rewrite <- (take_drop n (cstr a)).
  apply elem_of_app. by left.
Qed.

Lemma syncs_idstr_name_inj a b :
  id_chars (syncs_idstr a) = id_chars (syncs_idstr b) -> take 31 (cstr a) = take 31 (cstr b).
Proof.
  destruct (syncs_idstr_chars_nul a) as [r ->], (syncs_idstr_chars_nul b) as [r' ->].
  apply no_nul_prefix; apply take_cstr_no_nul.
Qed.

Lemma syncs_idcmp_str_spec a b :
  syncs_idcmp_str (syncs_idstr a) b = true <->
  (length (cstr b) <= 31)%nat /\ take 31 (cstr a) = cstr b.
Proof.
  unfold syncs_idcmp_str. change (Z.to_nat (SYNCS_EVENT_NAME_SIZE - 1)) with 31%nat.
  pose proof (zlen_id_chars (syncs_idstr a)) as Hlen. unfold zlen in Hlen.
  rewrite idcmp_str_loop_spec by lia. rewrite take_ge by lia.
  destruct (syncs_idstr_chars_nul a) as [r Hr]. rewrite Hr in *.
  assert (forall r', take 31 (cstr a) ++ Byte.x00 :: r = cstr b ++ Byte.x00 :: r' ->
    take 31 (cstr a) = cstr b) as Hpre.
  { intros r'. apply no_nul_prefix; [apply take_cstr_no_nul|apply cstr_no_nul]. }
  split.
  - intros [H|[Hle (r' & H)]]; [|eauto].
    destruct (decide (length (cstr b) <= 31)%nat) as [Hle|Hgt].
    + rewrite (take_ge (cstr b ++ _)) in H by (rewrite length_app; simpl; lia). eauto.
    + exfalso. rewrite take_app_le in H by lia.
      assert (Byte.x00 ∈ take 32 (cstr b)) as Hin.
      { rewrite <- H. apply elem_of_app. right. by left. }
      by apply take_cstr_no_nul in Hin.
  - intros [Hle H]. right. split; [done|]. rewrite H. eauto.
Qed.

Lemma syncs_fill_header_eq p id type :
  syncs_fill_header p id type =
    mk_header SYNCS_PACKET_MAGIC (hd_crc p) type id (hd_sync p) (hd_update_counter p)
      (hd_data_size p) SYNCS_PACKET_MAGIC_DATA.
Proof. by destruct p, id. Qed.

Lemma syncs_fill_header_str_eq p cid type :
  syncs_fill_header_str p cid type =
  mk_header SYNCS_PACKET_MAGIC (hd_crc p) type (syncs_idstr cid) (hd_sync p) (hd_update_counter p)
    (hd_data_size p) SYNCS_PACKET_MAGIC_DATA.
Proof. by destruct p. Qed.

Lemma syncs_fill_header_request_str_eq p cid type :
  syncs_fill_header_request_str p cid type =
  mk_header SYNCS_PACKET_MAGIC (hd_crc p) type (syncs_idstr cid) (hd_sync p) (hd_update_counter p)
    0 SYNCS_PACKET_MAGIC_DATA.
Proof. by destruct p. Qed.

Lemma syncs_fill_header_request_id_eq p id type :
  syncs_fill_header_request_id p id type =
  mk_header SYNCS_PACKET_MAGIC (hd_crc p) type id (hd_sync p) (hd_update_counter p)
    0 SYNCS_PACKET_MAGIC_DATA.
Proof. by destruct p, id. Qed.

(** *** Header layout *)

Lemma zlen_encode_header h : zlen (encode_header h) = 60.
Proof. unfold encode_header. zl. Qed.
#[export] Hint Rewrite zlen_encode_header : zlen.

Lemma decode_encode_header h : header_wf h -> decode_header (encode_header h) = h.
Proof.
  intros (H1 & H2 & H3 & H4 & H5 & H6 & H7 & H8 & H9).
  unfold decode_header, encode_header.
  destruct h as [m c t i [d0 d1] u ds md];
    cbn [hd_magic hd_crc hd_type hd_id hd_sync hd_update_counter hd_data_size
      hd_magic_data data0 data1] in *.
  field_at 1. field_at 4. field_at 4. field_at 32. field_at 4. field_at 4.
  field_at 8. field_at 2. rewrite (mem_sub_all 1) by zl.
  rewrite id_of_chars_chars by done. by rewrite !le_combine_split_small.
Qed.

Lemma encode_decode_header m : zlen m = 60 -> encode_header (decode_header m) = m.
Proof.
  intros Hm. unfold encode_header, decode_header.
  cbn [hd_magic hd_crc hd_type hd_id hd_sync hd_update_counter hd_data_size
    hd_magic_data data0 data1].
  assert (forall o n k, 0 <= o -> o + k <= 60 -> k = Z.of_nat n ->
    le_split n (le_combine (mem_sub o k m)) = mem_sub o k m) as H.
  { intros o n k ?? ->. apply split_le_combine'.
    pose proof (zlen_mem_sub o (Z.of_nat n) m). unfold zlen in *. lia. }
  rewrite (H 0 1%nat), (H 1 4%nat), (H 5 4%nat), (H 41 4%nat), (H 45 4%nat),
    (H 49 8%nat), (H 57 2%nat), (H 59 1%nat) by lia.
  rewrite id_chars_of_chars by (apply zlen_mem_sub; lia).
  rewrite (mem_sub_split 57 2 1 59 3), (mem_sub_split 49 8 3 57 11),
    (mem_sub_split 45 4 11 49 15), (mem_sub_split 41 4 15 45 19),
    (mem_sub_split 9 32 19 41 51), (mem_sub_split 5 4 51 9 55),
    (mem_sub_split 1 4 55 5 59), (mem_sub_split 0 1 59 1 60) by lia.
  by apply mem_sub_all.
Qed.

Lemma decode_header_wf m : 60 <= zlen m -> header_wf (decode_header m).
Proof.
  intros Hm. unfold header_wf, decode_header;
    cbn [hd_magic hd_crc hd_type hd_id hd_sync hd_update_counter hd_data_size
    hd_magic_data data0 data1].
  split_and!;
    lazymatch goal with
    | |- context [mem_sub _ ?n m] =>
        lazymatch goal with
        | |- id_wf _ => apply id_of_chars_wf, zlen_mem_sub; lia
        | _ =>
            match goal with
            | |- context [mem_sub ?o n m] =>
                pose proof (le_combine_range (mem_sub o n m) n (zlen_mem_sub o n m ltac:(lia) ltac:(lia) ltac:(lia)))
            end; lia
        end
    end.
Qed.
