(* ===== verification/Net.v ===== *)
(** * The environment and the socket layer: src/libsyncs/syncs-net-common.c

    Everything the library asks of the operating system goes through the
    class [Env]: functions of the I/O performed so far, so that a theorem
    proved for every [Env] holds for every behaviour of the kernel.  The I/O
    itself is logged in the state; [IOWorld] is the interface a component
    offers to the socket layer (the server and the client are instances). *)

From S2P Require Import Prelude.
From S2P Require Import Monad.
From S2P Require Import Types.

(** The part of [struct sockaddr_in] the library reads. *)
Record sockaddr_in : Type := mk_addr { sin_addr : Z; sin_port : Z }.

#[export] Instance sockaddr_in_eq_dec : EqDecision sockaddr_in.
Proof. solve_decision. Defined.

Inductive io : Type :=
  | IoSend (fd : Z) (bs : list byte)            (* bytes accepted by [send] *)
  | IoSendError (fd : Z)                        (* [send] returned -1 *)
  | IoSendto (fd : Z) (addr : sockaddr_in) (bs : list byte)
  | IoCallback (cb args : Z) (id : syncsid_t) (data : list byte)
  | IoEpollAdd (fd : Z)
  | IoEpollDel (fd : Z)
  | IoClose (fd : Z)
  | IoShutdown (fd : Z)
  | IoAlloc (size : Z)
  | IoFree
  | IoClock                                     (* a reading of the clock *)
  | IoSleep (sec nsec : Z)
  | IoThread (routine arg : Z)                  (* [pthread_create] *)
  | IoConnectCb (cb arg : Z)
  | IoCancel.

Class Env : Type := {
  (** [send(fd, bs, zlen bs, flags)] after the I/O in the log: -1, or the
      number of bytes the kernel accepted, at least one. *)
  env_send : list io -> Z -> list byte -> Z;
  env_send_range h fd bs : bs <> [] ->
    env_send h fd bs = -1 \/ 1 <= env_send h fd bs <= zlen bs;
  (** Contents of an uninitialised [struct syncs_packet] on the stack. *)
  env_stack : list io -> list byte;
  env_stack_size h : zlen (env_stack h) = sizeof_header + SYNCS_EVENT_DATA_SIZE_MAXIMUM;
  (** [clock_gettime(CLOCK_REALTIME)]: seconds and nanoseconds. *)
  env_realtime : list io -> Z * Z;
  env_realtime_range h : 0 <= (env_realtime h).1 /\ 0 <= (env_realtime h).2 < 1000000000;
  (** Whether an allocation of that many bytes succeeds. *)
  env_alloc : list io -> Z -> bool;
  (** [inet_addr]: the address a dotted string stands for. *)
  env_inet_addr : list byte -> Z;
  env_inet_addr_range a : 0 <= env_inet_addr a < 2 ^ 32 }.

Class IOWorld (W : Type) : Type := {
  io_log : W -> list io;
  io_emit : io -> W -> W;
  io_log_emit e w : io_log (io_emit e w) = io_log w ++ [e] }.

Definition io_emits {W} `{IOWorld W} (es : list io) (w : W) : W :=
  foldl (fun w e => io_emit e w) w es.

(** The bytes a log puts on the stream of descriptor [fd]. *)
Fixpoint wire (fd : Z) (log : list io) : list byte :=
  match log with
  | [] => []
  | IoSend f bs :: log => (if f =? fd then bs else []) ++ wire fd log
  | _ :: log => wire fd log
  end.

(** The datagrams a log sends to [addr]. *)
Fixpoint datagrams (addr : sockaddr_in) (log : list io) : list (list byte) :=
  match log with
  | [] => []
  | IoSendto _ a bs :: log => (if decide (a = addr) then [bs] else []) ++ datagrams addr log
  | _ :: log => datagrams addr log
  end.

(** What [recv] or [recvfrom] returned: -1 with [errno], or the bytes. *)
Inductive recv_result : Type :=
  | RecvError (errno : Z)
  | RecvData (bs : list byte).

Definition EINTR : Z := 4.
Definition EAGAIN : Z := 11.

Section net.
Context `{Env} {W : Type} `{IOWorld W}.

Definition emit (e : io) : M W unit := modify (io_emit e).

Definition os_send (sock : Z) (buffer : list byte) : M W Z :=
  log ← gets io_log;
  let ssent := env_send log sock buffer in
  if ssent =? -1 then _ ← emit (IoSendError sock); mret (-1)
  else _ ← emit (IoSend sock (ztake ssent buffer)); mret ssent.

(** One iteration per unit of fuel; every successful [send] consumes at
    least one byte, so a fuel of [len] bytes is enough
    ([syncs_blocking_send_spec]). *)
Fixpoint blocking_send_loop (fuel : nat) (sock : Z) (buffer : list byte) (len : Z) : M W Z :=
  if len >? 0 then
    match fuel with
    | O => raise Diverges
    | S fuel =>
        ssent ← os_send sock (ztake len buffer);
        if ssent =? -1 then mret (-1)
        else blocking_send_loop fuel sock (zdrop ssent buffer) (u32 (len - ssent))
    end
  else mret 0.

Definition syncs_blocking_send (sock : Z) (buffer : list byte) (len : Z) : M W Z :=
  blocking_send_loop (Z.to_nat len) sock buffer len.

Definition syncs_udp_send (sock : Z) (buffer : list byte) (len : Z) (saddr : sockaddr_in) : M W Z :=
  _ ← emit (IoSendto sock saddr (ztake len buffer));
  mret 0.

(** [struct syncs_packet packet;] *)
Definition stack_packet : M W syncs_packet :=
  log ← gets io_log;
  mret (packet_of_memory (env_stack log)).

(** *** Theorems *)

Lemma io_emits_app es es' w : io_emits (es ++ es') w = io_emits es' (io_emits es w).
Proof. apply foldl_app. Qed.

Lemma io_log_emits es w : io_log (io_emits es w) = io_log w ++ es.
Proof.
  revert w. induction es as [|e es IH]; intros w; simpl; [by rewrite app_nil_r|].
  rewrite IH, io_log_emit, <- app_assoc. done.
Qed.

Lemma wire_app fd l k : wire fd (l ++ k) = wire fd l ++ wire fd k.
Proof. induction l as [|[] l IH]; simpl; rewrite ?IH, ?app_assoc; done. Qed.

(** The only I/O of a send loop is on its own socket. *)
Definition sends_on (sock : Z) (es : list io) : Prop :=
  Forall (fun e => exists bs, e = IoSend sock bs \/ e = IoSendError sock) es.

(** The I/O of one transmission: the pieces the kernel took, and the failure
    that ends it when something is left. *)
Definition transmission (sock : Z) (pieces : list (list byte)) (rest : list byte) : list io :=
  (IoSend sock <$> pieces) ++ (if decide (rest = []) then [] else [IoSendError sock]).

Lemma blocking_send_loop_pieces fuel sock buffer len w :
  0 <= len <= Z.of_nat fuel -> len <= zlen buffer -> len < 2 ^ 32 ->
  wp (blocking_send_loop fuel sock buffer len) (fun ret w' =>
    exists pieces rest, w' = io_emits (transmission sock pieces rest) w /\
      ztake len buffer = concat pieces ++ rest /\
      ((ret = 0 /\ rest = []) \/ (ret = -1 /\ rest <> []))) w.
Proof.
  revert buffer len w. induction fuel as [|fuel IH]; intros buffer len w Hf Hb Hl; simpl.
  { replace len with 0 by lia. exists [], []. split_and!; try done. by left. }
  destruct (len >? 0) eqn:E; [|replace len with 0 by lia; exists [], []; split_and!; try done; by left].
  apply wp_bind. unfold os_send. wp_step. wp_step.
  assert (ztake len buffer <> []) as Hne.
  { intros Hn%(f_equal zlen). rewrite zlen_nil in Hn. zl. }
  pose proof (env_send_range (io_log w) sock _ Hne) as Hr.
  set (n := env_send _ _ _) in *. destruct (n =? -1) eqn:En.
  - unfold emit. wp_step. wp_step. wp_step. rewrite Z.eqb_refl.
    exists [], (ztake len buffer). unfold transmission. rewrite decide_False by done.
    split_and!; try done. by right.
  - unfold emit. wp_step. wp_step. wp_step. rewrite En.
    assert (1 <= n <= len) as Hn by (zl || (autorewrite with zlen in Hr; lia)).
    rewrite u32_small by lia.
    eapply wp_mono; [apply IH; [lia|zl|lia]|].
    intros ret w' (pieces & rest & -> & Hsplit & Hret).
    exists (ztake n (ztake len buffer) :: pieces), rest. split_and!; [done| |done].
    cbn [concat]. rewrite <- app_assoc, <- Hsplit, <- zdrop_ztake by lia. by rewrite ztake_zdrop.
Qed.

Lemma wire_transmission sock pieces rest : wire sock (transmission sock pieces rest) = concat pieces.
Proof.
  unfold transmission. rewrite wire_app. assert (wire sock (if decide (rest = []) then [] else [IoSendError sock]) = []) as ->
    by by case_decide. rewrite app_nil_r. induction pieces as [|bs pieces IH]; cbn; [done|]. by rewrite Z.eqb_refl, IH.
Qed.

Lemma transmission_on sock pieces rest : sends_on sock (transmission sock pieces rest).
Proof.
  apply Forall_app. split; [apply Forall_fmap, Forall_true; intros bs; exists bs; by left|].
  case_decide; repeat constructor. exists []. by right.
Qed.

Lemma blocking_send_loop_spec fuel sock buffer len w :
  0 <= len <= Z.of_nat fuel -> len <= zlen buffer -> len < 2 ^ 32 ->
  wp (blocking_send_loop fuel sock buffer len) (fun ret w' =>
    exists es sent rest, w' = io_emits es w /\ sends_on sock es /\
      wire sock es = sent /\ ztake len buffer = sent ++ rest /\
      ((ret = 0 /\ rest = []) \/ (ret = -1 /\ rest <> []))) w.
Proof.
  intros Hf Hb Hl. eapply wp_mono; [by apply blocking_send_loop_pieces|].
  intros ret w' (pieces & rest & -> & Hsplit & Hret). eexists _, _, rest. split; [done|].
  split; [apply transmission_on|]. split; [apply wire_transmission|]. done.
Qed.
End net.

(** A kernel that accepts every byte at once, with [junk] in fresh stack
    memory and a clock that always shows the same time. *)
Program Definition perfect_env_with (junk : byte) (sec nsec : Z)
    (Hs : 0 <= sec) (Hn : 0 <= nsec < 1000000000) : Env := {|
  env_send _ _ bs := zlen bs;
  env_stack _ := replicate (Z.to_nat (sizeof_header + SYNCS_EVENT_DATA_SIZE_MAXIMUM)) junk;
  env_realtime _ := (sec, nsec);
  env_alloc _ _ := true;
  env_inet_addr _ := 0 |}.
Next Obligation.
  intros. right. assert (0 < zlen bs); [|simpl; lia].
  destruct bs as [|b bs]; [done|]. rewrite zlen_cons. pose proof (zlen_nonneg bs). lia.
Qed.
Next Obligation. intros. cbn beta. rewrite zlen_replicate. clia. Qed.
Next Obligation. done. Qed.
Next Obligation. done. Qed.

Definition perfect_env : Env :=
  perfect_env_with Byte.xaa 1700000000 999999999 ltac:(lia) ltac:(lia).
