(* ===== verification/Text.v ===== *)
(** * C text: string literals, [printf] conversions and searches

    The part of <stdio.h>, <string.h> and <ctype.h> that the discovery
    protocol, the statistics printouts and the tools use, on byte lists. *)

From Stdlib Require Import Strings.String Strings.Byte.
From S2P Require Import Prelude.
From S2P Require Import Monad.
From S2P Require Import Types.

#[export] Instance byte_eq_decision : EqDecision byte := Strings.Byte.byte_eq_dec.

(** The bytes of a literal, and the two that cannot be written in one. *)
Definition text (s : string) : list byte := list_byte_of_string s.
Definition line (s : string) : list byte := text s ++ [Byte.x0a].
Definition tab_line (s : string) : list byte := Byte.x09 :: line s.
Definition CRLF : list byte := [Byte.x0d; Byte.x0a].
Definition QUOTE : list byte := [Byte.x22].

(** ** Conversions *)

Definition digit (n : Z) : byte := byte.of_Z (48 + n).

(** The decimal digits of [n], at most [fuel] of them. *)
Fixpoint digits (fuel : nat) (n : Z) : list byte :=
  match fuel with
  | O => []
  | S fuel => if n <? 10 then [digit n] else digits fuel (n / 10) ++ [digit (n mod 10)]
  end.

(** [%d] and [%ld]: 20 digits are enough for 64 bits. *)
Definition fmt_d (n : Z) : list byte :=
  if n <? 0 then Byte.x2d :: digits 20 (- n) else digits 20 n.

(** The padding of [%Ns] and [%Nd]. *)
Definition pad (width : nat) (s : list byte) : list byte :=
  replicate (width - length s) Byte.x20 ++ s.

(** [snprintf(dst, size, ...)] with the given output: what it stores and the
    length it returns. *)
Definition snprintf {S} (dst : list byte) (size : Z) (output : list byte)
    : M S (list byte * Z) :=
  if size <=? 0 then mret (dst, zlen output)
  else
    let stored := ztake (size - 1) output ++ [Byte.x00] in
    dst ← memcpy dst 0 stored (zlen stored);
    mret (dst, zlen output).

(** [inet_ntoa] and [inet_ntop(AF_INET, ...)]: the four bytes of the address
    in memory order. *)
Definition inet_ntoa (a : Z) : list byte :=
  match le_split 4 a with
  | [b0; b1; b2; b3] =>
      fmt_d (byte.unsigned b0) ++ [Byte.x2e] ++ fmt_d (byte.unsigned b1) ++ [Byte.x2e] ++
      fmt_d (byte.unsigned b2) ++ [Byte.x2e] ++ fmt_d (byte.unsigned b3)
  | _ => []
  end.

(** Reasoning about the outcome itself, a fault included. *)
Lemma run_then {S A B} (m : M S A) (f : A -> M S B) (P : outcome (B * S) -> Prop) s :
  wp m (fun a s' => P (f a s')) s -> P ((m ≫= f) s).
Proof. intros (a & s' & E & HP)%wp_run. by rewrite (bind_Ok _ _ _ _ _ E). Qed.

(** ** Searches *)

Definition isdigit (b : byte) : bool :=
  (48 <=? byte.unsigned b) && (byte.unsigned b <=? 57).

Definition isprint (c : Z) : bool := (32 <=? c) && (c <=? 126).

Definition starts_with (s mem : list byte) : bool := bool_decide (take (length s) mem = s).

(** [strstr(mem + k, needle)] reads [mem] byte by byte up to a match or a
    NUL and leaves the object when there is neither; the result is the offset
    of the match. *)
Fixpoint strstr_from {S} (k : Z) (mem needle : list byte) : M S (option Z) :=
  if starts_with needle mem then mret (Some k)
  else match mem with
       | [] => raise OutOfBounds
       | c :: mem => if is_nul c then mret None else strstr_from (k + 1) mem needle
       end.
Definition strstr {S} (mem needle : list byte) : M S (option Z) := strstr_from 0 mem needle.

(** ** Decimal numbers *)

Lemma digit_value n : 0 <= n < 10 -> byte.unsigned (digit n) = 48 + n.
Proof. intros Hn. unfold digit. rewrite byte.unsigned_of_Z. unfold byte.wrap. apply Z.mod_small. lia. Qed.

Lemma digit_isdigit n : 0 <= n < 10 -> isdigit (digit n) = true.
Proof. intros Hn. unfold isdigit. rewrite digit_value by done. apply andb_true_iff. lia. Qed.

Lemma digits_isdigit fuel n : 0 <= n -> Forall (fun b => isdigit b = true) (digits fuel n).
Proof.
  revert n. induction fuel as [|fuel IH]; intros n Hn; simpl; [constructor|].
  destruct (Z.ltb_spec n 10); [constructor; [apply digit_isdigit; lia|constructor]|].
  apply Forall_app. split; [apply IH, Z.div_pos; lia|].
  constructor; [apply digit_isdigit, Z.mod_pos_bound; lia|constructor].
Qed.

(** The number a run of digits denotes. *)
Definition number (l : list byte) : Z := foldl (fun n b => n * 10 + (byte.unsigned b - 48)) 0 l.

Lemma number_snoc l b : number (l ++ [b]) = number l * 10 + (byte.unsigned b - 48).
Proof. unfold number. by rewrite foldl_app. Qed.

Lemma number_digits fuel n : 0 <= n < 10 ^ Z.of_nat fuel -> number (digits fuel n) = n.
Proof.
  revert n. induction fuel as [|fuel IH]; intros n Hn.
  { simpl in *. change (number []) with 0. lia. }
  cbn [digits].
  destruct (Z.ltb_spec n 10).
  - unfold number. simpl. rewrite digit_value by lia. lia.
  - rewrite number_snoc, digit_value by (apply Z.mod_pos_bound; lia).
    rewrite Nat2Z.inj_succ, Z.pow_succ_r in Hn by lia.
    rewrite IH; [pose proof (Z.div_mod n 10); lia|]. split; [apply Z.div_pos; lia|].
    apply Z.div_lt_upper_bound; lia.
Qed.

Lemma length_digits fuel k n : (1 <= k)%nat -> 0 <= n < 10 ^ Z.of_nat k -> (length (digits fuel n) <= k)%nat.
Proof.
  revert k n. induction fuel as [|fuel IH]; intros k n Hk Hn; simpl; [lia|].
  destruct (Z.ltb_spec n 10); [simpl; lia|]. rewrite length_app. simpl.
  destruct (decide (k = 1)%nat) as [->|Hk1]; [simpl in Hn; lia|].
  assert (length (digits fuel (n / 10)) <= k - 1)%nat; [|lia]. apply IH; [lia|].
  split; [apply Z.div_pos; lia|]. apply Z.div_lt_upper_bound; [lia|].
  replace k with (S (k - 1)) in Hn by lia. rewrite Nat2Z.inj_succ, Z.pow_succ_r in Hn by lia. lia.
Qed.

Lemma digits_cons fuel n : 0 <= n -> (0 < fuel)%nat -> exists b l, digits fuel n = b :: l.
Proof.
  intros Hn Hf. destruct fuel as [|fuel]; [lia|]. simpl. destruct (n <? 10); [eauto|].
  destruct (digits fuel (n / 10)); simpl; eauto.
Qed.

Lemma fmt_d_digits n : 0 <= n -> fmt_d n = digits 20 n.
Proof. intros Hn. unfold fmt_d. by rewrite (proj2 (Z.ltb_ge _ _)). Qed.

Lemma digit_byte b : 0 <= byte.unsigned b < 256.
Proof. apply byte.unsigned_range. Qed.

(** [atoi]: spaces, a sign, digits. *)
Definition isspace (b : byte) : bool := (byte.unsigned b =? 32) || ((9 <=? byte.unsigned b) && (byte.unsigned b <=? 13)).
Fixpoint skip_spaces (s : list byte) : list byte :=
  match s with c :: s' => if isspace c then skip_spaces s' else s | [] => [] end.
Fixpoint leading_digits (s : list byte) : list byte :=
  match s with c :: s' => if isdigit c then c :: leading_digits s' else [] | [] => [] end.
Definition atoi (s : list byte) : Z :=
  match skip_spaces s with
  | Byte.x2d :: s' => i32 (- number (leading_digits s'))
  | Byte.x2b :: s' => i32 (number (leading_digits s'))
  | s' => i32 (number (leading_digits s'))
  end.

Lemma leading_digits_all l : Forall (fun b => isdigit b = true) l -> leading_digits l = l.
Proof. induction 1 as [|c l Hc _ IH]; [done|]. cbn [leading_digits]. by rewrite Hc, IH. Qed.

Lemma isdigit_not_space c : isdigit c = true -> isspace c = false /\ c <> Byte.x2d /\ c <> Byte.x2b.
Proof.
  unfold isdigit, isspace. rewrite andb_true_iff, !Z.leb_le. intros Hc. split; [|split; intros ->; destruct Hc as [Hc _]; by vm_compute in Hc].
  rewrite orb_false_iff, andb_false_iff, Z.eqb_neq, !Z.leb_gt. lia.
Qed.

Lemma atoi_fmt_d n : - 2 ^ 31 <= n < 2 ^ 31 -> atoi (fmt_d n) = n.
Proof.
  intros Hn. assert (forall k, 0 <= k <= 2 ^ 31 -> number (leading_digits (digits 20 k)) = k) as Hd.
  { intros k Hk. rewrite leading_digits_all by (apply digits_isdigit; lia). apply number_digits. lia. }
  unfold atoi, fmt_d. destruct (Z.ltb_spec n 0).
  - change (skip_spaces (Byte.x2d :: ?l)) with (Byte.x2d :: l). cbn match. rewrite Hd by lia. rewrite i32_small; lia.
  - destruct (digits_cons 20 n) as (c & l & E); [lia|lia|]. rewrite E.
    pose proof (digits_isdigit 20 n ltac:(lia)) as Hall. rewrite E in Hall. apply list.Forall_cons in Hall as [Hc _].
    apply isdigit_not_space in Hc as (Hsp & Hm & Hp). cbn [skip_spaces]. rewrite Hsp.
    pose proof (Hd n ltac:(lia)) as Hnum. rewrite E in Hnum.
    destruct c; try congruence; rewrite Hnum; apply i32_small; lia.
Qed.

(** A dotted address has no colon, no NUL and at most fifteen characters. *)
Definition address_char (b : byte) : Prop := isdigit b = true \/ b = Byte.x2e.

Lemma inet_ntoa_chars a : Forall address_char (inet_ntoa a).
Proof.
  unfold inet_ntoa. destruct (le_split 4 a) as [|b0 [|b1 [|b2 [|b3 [|]]]]]; try constructor.
  assert (forall b, Forall address_char (fmt_d (byte.unsigned b))) as Hb.
  { intros b. pose proof (digit_byte b). rewrite fmt_d_digits by lia.
    eapply list.Forall_impl; [apply digits_isdigit; lia|]. intros x Hx. by left. }
  repeat (apply Forall_app; split); try apply Hb; constructor; (by right) || constructor.
Qed.

Lemma length_inet_ntoa a : (length (inet_ntoa a) <= 15)%nat.
Proof.
  unfold inet_ntoa. destruct (le_split 4 a) as [|b0 [|b1 [|b2 [|b3 [|]]]]]; simpl; try lia.
  assert (forall b, (length (fmt_d (byte.unsigned b)) <= 3)%nat) as Hb.
  { intros b. pose proof (digit_byte b). rewrite fmt_d_digits by lia. apply length_digits; [lia|]. simpl. lia. }
  repeat (rewrite length_app || simpl). pose proof (Hb b0). pose proof (Hb b1). pose proof (Hb b2). pose proof (Hb b3). lia.
Qed.

(** ** The search finds a needle that is there *)

Lemma strstr_from_skip {S} pre k mem needle (s : S) :
  Forall (fun c => is_nul c = false) pre ->
  (forall i, (i < length pre)%nat -> starts_with needle (drop i (pre ++ mem)) = false) ->
  strstr_from k (pre ++ mem) needle s = strstr_from (k + zlen pre) mem needle s.
Proof.
  revert k. induction pre as [|c pre IH]; intros k Hnul Hno.
  { simpl. by rewrite zlen_nil, Z.add_0_r. }
  apply list.Forall_cons in Hnul as [Hc Hnul]. simpl.
  pose proof (Hno 0%nat ltac:(simpl; lia)) as H0. simpl in H0. rewrite H0, Hc, IH; [|done|].
  - f_equal. rewrite zlen_cons. lia.
  - intros i Hi. apply (Hno (Datatypes.S i)). simpl. lia.
Qed.

Lemma starts_with_app s mem : starts_with s (s ++ mem) = true.
Proof. unfold starts_with. apply bool_decide_eq_true. by rewrite take_app_length. Qed.

Lemma strstr_from_hit {S} k needle mem (s : S) :
  strstr_from k (needle ++ mem) needle s = Ok (Some k, s).
Proof.
  assert (starts_with needle (needle ++ mem) = true) as E by apply starts_with_app.
  destruct (needle ++ mem); simpl; by rewrite E.
Qed.

(** ** Strings in memory *)

(** [%s] of an object: the string must end inside it. *)
Definition c_string {S} (mem : list byte) : M S (list byte) :=
  if zlen (cstr mem) <? zlen mem then mret (cstr mem) else raise OutOfBounds.

(** The first [n] bytes of an object, as a system call reads them. *)
Definition mem_read {S} (mem : list byte) (n : Z) : M S (list byte) :=
  if (0 <=? n) && (n <=? zlen mem) then mret (ztake n mem) else raise OutOfBounds.

Lemma run_c_string {S} mem (s : S) (Q : list byte -> S -> Prop) :
  zlen (cstr mem) < zlen mem -> Q (cstr mem) s -> wp (c_string mem) Q s.
Proof. intros Hm HQ. unfold c_string. by rewrite (proj2 (Z.ltb_lt _ _)). Qed.

Lemma run_mem_read {S} mem n (s : S) (Q : list byte -> S -> Prop) :
  0 <= n <= zlen mem -> Q (ztake n mem) s -> wp (mem_read mem n) Q s.
Proof.
  intros Hn HQ. unfold mem_read. rewrite (proj2 (Z.leb_le 0 n)), (proj2 (Z.leb_le n _)) by lia. done.
Qed.

Lemma run_snprintf {S} dst size output (s : S) (Q : list byte * Z -> S -> Prop) :
  zlen output < size -> size <= zlen dst ->
  Q (output ++ Byte.x00 :: zdrop (zlen output + 1) dst, zlen output) s -> wp (snprintf dst size output) Q s.
Proof.
  intros Ho Hs HQ. pose proof (zlen_nonneg output). unfold snprintf.
  rewrite (proj2 (Z.leb_gt _ _)) by lia. rewrite ztake_ge by lia. wp_step.
  assert (zlen (output ++ [Byte.x00]) = zlen output + 1) as Hl by (rewrite zlen_app; done).
  apply wp_memcpy; [lia..|]. wp_step. rewrite ztake_ge by lia. unfold mem_put.
  rewrite Hl, ztake_0, Z.add_0_l. cbn [app]. by rewrite <- app_assoc.
Qed.

Lemma memcpy_Ok {S} dst off src n (s : S) :
  0 <= off -> 0 <= n -> off + n <= zlen dst -> n <= zlen src ->
  memcpy dst off src n s = Ok (mem_put off (ztake n src) dst, s).
Proof.
  intros. unfold memcpy. rewrite (proj2 (Z.leb_le 0 off)), (proj2 (Z.leb_le 0 n)), (proj2 (Z.leb_le (_ + _) _)),
    (proj2 (Z.leb_le n _)) by lia. done.
Qed.

(** [recvfrom] into an object. *)
Lemma mem_put_start {A} (bs mem : list A) : mem_put 0 bs mem = bs ++ zdrop (zlen bs) mem.
Proof. unfold mem_put. by rewrite ztake_0, Z.add_0_l. Qed.

(** ** More on searches *)

(** The occurrences of [needle] that would start inside [pre] are excluded by
    the characters of [pre] alone. *)
Definition avoids (needle pre : list byte) : bool :=
  forallb (fun i => existsb (fun j =>
    match pre !! (i + j)%nat, needle !! j with
    | Some a, Some b => negb (bool_decide (a = b))
    | _, _ => false
    end) (seq 0 (length needle))) (seq 0 (length pre)).

Lemma avoids_spec needle pre mem i :
  avoids needle pre = true -> (i < length pre)%nat -> starts_with needle (drop i (pre ++ mem)) = false.
Proof.
  intros Ha Hi. unfold avoids in Ha. rewrite forallb_forall in Ha.
  specialize (Ha i ltac:(apply in_seq; lia)). apply existsb_exists in Ha as (j & Hj & Hm).
  destruct (pre !! (i + j)%nat) as [a|] eqn:Ea; [|done].
  destruct (needle !! j) as [b|] eqn:Eb; [|done].
  apply negb_true_iff, bool_decide_eq_false in Hm. unfold starts_with. apply bool_decide_eq_false. intros E.
  assert (take (length needle) (drop i (pre ++ mem)) !! j = Some a) as Hl.
  { rewrite lookup_take_lt by by apply lookup_lt_Some in Eb. rewrite lookup_drop.
    by apply lookup_app_l_Some. }
  rewrite E in Hl. congruence.
Qed.

Lemma strstr_first {S} needle pre mem (s : S) :
  Forall (fun c => is_nul c = false) pre -> avoids needle pre = true ->
  strstr (pre ++ needle ++ mem) needle s = Ok (Some (zlen pre), s).
Proof.
  intros Hn Ha. unfold strstr. rewrite strstr_from_skip; [|done|].
  - by rewrite strstr_from_hit.
  - intros i Hi. by apply avoids_spec.
Qed.

Lemma strstr_somewhere {S} needle pre mem (s : S) :
  Forall (fun c => is_nul c = false) pre ->
  exists k, strstr (pre ++ needle ++ mem) needle s = Ok (Some k, s).
Proof.
  unfold strstr. generalize 0. induction pre as [|c pre IH]; intros k Hn.
  { exists k. exact (strstr_from_hit k needle mem s). }
  apply list.Forall_cons in Hn as [Hc Hn]. cbn [app strstr_from].
  destruct (starts_with _ _); [by exists k|]. rewrite Hc. by apply IH.
Qed.
