(* ===== verification/Getopt.v ===== *)
(** * The command line

    [getopt_long] of the C library, as the programs use it: the options of
    [argv], in order, each with its argument.  Words that are no options are
    skipped (the library moves them to the end, and the programs do not look at
    them); an unknown or ambiguous option, a missing argument and one that is
    not taken are reported as a question mark. *)

From Stdlib Require Import Strings.String.
From S2P Require Import Prelude.
From S2P Require Import Types.
From S2P Require Import Text.

Inductive has_arg : Type := no_argument | required_argument | optional_argument.

(** [struct option] with a null [flag]: the name, [has_arg] and [val]. *)
Definition long_option : Type := list byte * has_arg * byte.

(** What a call returns: [opt] and [optarg]. *)
Definition option_found : Type := byte * option (list byte).

Definition dash : byte := Byte.x2d.
Definition colon : byte := Byte.x3a.
Definition question : option_found := (Byte.x3f, None).

(** ** Short options *)

(** The entry of [c] in the option string: [c], [c:] or [c::]. *)
Fixpoint short_lookup (optstring : list byte) (c : byte) : option has_arg :=
  match optstring with
  | [] => None
  | x :: rest =>
      if bool_decide (x = c) && negb (bool_decide (x = colon)) then
        match rest with
        | Byte.x3a :: Byte.x3a :: _ => Some optional_argument
        | Byte.x3a :: _ => Some required_argument
        | _ => Some no_argument
        end
      else short_lookup rest c
  end.

(** The letters of one word, and the option that takes the next word. *)
Fixpoint short_word (optstring letters : list byte) : list option_found * option byte :=
  match letters with
  | [] => ([], None)
  | c :: rest =>
      match short_lookup optstring c with
      | None => let '(found, next) := short_word optstring rest in (question :: found, next)
      | Some no_argument => let '(found, next) := short_word optstring rest in ((c, None) :: found, next)
      | Some optional_argument => ([(c, match rest with [] => None | _ => Some rest end)], None)
      | Some required_argument =>
          match rest with [] => ([], Some c) | _ => ([(c, Some rest)], None) end
      end
  end.

(** ** Long options *)

(** The name and what follows the first equals sign. *)
Fixpoint split_equals (word : list byte) : list byte * option (list byte) :=
  match word with
  | [] => ([], None)
  | Byte.x3d :: value => ([], Some value)
  | c :: word => let '(name, value) := split_equals word in (c :: name, value)
  end.

(** The option of that name, or the only one whose name begins so. *)
Definition long_lookup (longopts : list long_option) (name : list byte) : option long_option :=
  match list_find (fun o => o.1.1 = name) longopts with
  | Some (_, o) => Some o
  | None =>
      match filter (fun o => name `prefix_of` o.1.1) longopts with
      | [o] => Some o
      | _ => None
      end
  end.

Definition long_word (longopts : list long_option) (word : list byte) : list option_found * option byte :=
  let '(name, value) := split_equals word in
  match long_lookup longopts name with
  | None => ([question], None)
  | Some (_, no_argument, val) => (match value with None => [(val, None)] | Some _ => [question] end, None)
  | Some (_, optional_argument, val) => ([(val, value)], None)
  | Some (_, required_argument, val) =>
      match value with Some _ => ([(val, value)], None) | None => ([], Some val) end
  end.

(** ** The words *)

Fixpoint getopt_long (optstring : list byte) (longopts : list long_option) (argv : list (list byte))
    : list option_found :=
  match argv with
  | [] => []
  | word :: argv =>
      let parsed := match word with
        | [Byte.x2d] => Some ([], None)
        | [Byte.x2d; Byte.x2d] => None
        | Byte.x2d :: Byte.x2d :: word => Some (long_word longopts word)
        | Byte.x2d :: letters => Some (short_word optstring letters)
        | _ => Some ([], None)
        end in
      match parsed with
      | None => []
      | Some (found, None) => found ++ getopt_long optstring longopts argv
      | Some (found, Some val) =>
          match argv with
          | [] => found ++ [question]
          | value :: argv => found ++ (val, Some value) :: getopt_long optstring longopts argv
          end
      end
  end.
