(* ===== verification/Framing.v ===== *)
(** * Framing: cutting the TCP stream into packets

    The receive loop of the server ([syncs_client_handler]) as a pure parser of
    the byte stream, independent of the state the packets modify and of how
    the stream was cut into [recv] calls. *)

From S2P Require Import Prelude.
From S2P Require Import Monad.
From S2P Require Import Types.
From S2P Require Import Net.

(** [packet_header->data_size &= SYNCS_VARIABLE_SIZE_MAXIMUM], in the
    receive buffer, for the header at [head]. *)
Definition mask_data_size (head : Z) (buffer : list byte) : list byte :=
  let size := le_combine (mem_sub (head + 57) 2 buffer) in
  mem_put (head + 57) (le_split 2 (Z.land size SYNCS_VARIABLE_SIZE_MAXIMUM)) buffer.

(** ** The receive loop

    [syncs_client_handler] (server) and [syncs_recv] (client) run the same
    [while] loop over their receive buffer; [process] is the dispatcher they
    call, on the header and on the memory [packet->buffer] points to, up to
    the end of the receive buffer.  The result is the buffer and
    [buffer_head].  [buffer_head] grows in every iteration that continues,
    so [buffer_recv + 1] units of fuel are enough. *)
Fixpoint receive_loop {W} (process : syncs_header -> list byte -> M W unit)
    (fuel : nat) (buffer : list byte) (head recv : Z) : M W (list byte * Z) :=
  if recv - head >=? sizeof_header then
    match fuel with
    | O => raise Diverges
    | S fuel =>
        let packet_header := decode_header (mem_sub head sizeof_header buffer) in
        if negb (hd_magic packet_header =? SYNCS_PACKET_MAGIC) then
          receive_loop process fuel buffer (head + 1) recv
        else if negb (hd_magic_data packet_header =? SYNCS_PACKET_MAGIC_DATA) then
          receive_loop process fuel buffer (head + 1) recv
        else
          let buffer := mask_data_size head buffer in
          let packet_header := decode_header (mem_sub head sizeof_header buffer) in
          if recv - head <? sizeof_header + hd_data_size packet_header then
            mret (buffer, head)
          else
            _ ← process packet_header (zdrop (head + sizeof_header) buffer);
            receive_loop process fuel buffer
              (head + (sizeof_header + hd_data_size packet_header)) recv
    end
  else mret (buffer, head).

(** ** The abstract parser *)

(** A packet: its header, with the data size masked, and its payload. *)
Definition frame : Type := syncs_header * list byte.

Definition mask_header (h : syncs_header) : syncs_header :=
  h <| hd_data_size ::= fun n => Z.land n SYNCS_VARIABLE_SIZE_MAXIMUM |>.

#[global] Arguments mask_header : simpl never.

Definition header_good (h : syncs_header) : bool :=
  (hd_magic h =? SYNCS_PACKET_MAGIC) && (hd_magic_data h =? SYNCS_PACKET_MAGIC_DATA).

(** Skip bytes up to a header, take its packet, repeat; returns the packets
    and what the receive buffer keeps: the bytes of the unfinished packet, with
    the data size masked once its header is complete. *)
Fixpoint frames (fuel : nat) (bs : list byte) : list frame * list byte :=
  match fuel with
  | O => ([], bs)
  | S fuel =>
      if zlen bs <? sizeof_header then ([], bs)
      else
        let h := mask_header (decode_header bs) in
        if negb (header_good h) then frames fuel (zdrop 1 bs)
        else
          let size := sizeof_header + hd_data_size h in
          if zlen bs <? size then ([], mask_data_size 0 bs)
          else
            let '(fs, rest) := frames fuel (zdrop size bs) in
            ((h, mem_sub sizeof_header (hd_data_size h) bs) :: fs, rest)
  end.

(** Every iteration consumes at least one byte. *)
Definition parse (bs : list byte) : list frame * list byte := frames (length bs) bs.

(** The receiver over successive chunks: [pending] is what the buffer holds. *)
Definition feed (st : list frame * list byte) (chunk : list byte) : list frame * list byte :=
  let '(fs, rest) := parse (st.2 ++ chunk) in (st.1 ++ fs, rest).

Definition feed_all (chunks : list (list byte)) : list frame * list byte :=
  foldl feed ([], []) chunks.

(** The receivers ignore a chunk that is shorter than a header: its bytes
    are lost. *)
Definition counted (chunks : list (list byte)) : list (list byte) :=
  filter (fun bs => sizeof_header <= zlen bs) chunks.

(** What [recv] can return, chunk by chunk, on an open connection whose
    receive buffer holds [kept]: at least a byte, at most the free part of
    the buffer.  [extra kept bs] is a further condition on the chunks that
    count. *)
Fixpoint deliverable (extra : list byte -> list byte -> Prop) (kept : list byte)
    (chunks : list (list byte)) : Prop :=
  match chunks with
  | [] => True
  | bs :: chunks =>
      1 <= zlen bs /\ zlen kept + zlen bs <= SYNCS_CLIENT_BUFFER_SIZE /\
      if zlen bs <? sizeof_header then deliverable extra kept chunks
      else extra kept bs /\ deliverable extra (parse (kept ++ bs)).2 chunks
  end.

(** What a sender puts on the wire for a packet. *)
Definition encode_frame (f : frame) : list byte := encode_header f.1 ++ f.2.
Definition encode_frames (fs : list frame) : list byte := concat (encode_frame <$> fs).

(** The packets a sender of the library builds. *)
Definition frame_wf (f : frame) : Prop :=
  header_wf f.1 /\ header_good f.1 = true /\
  hd_data_size f.1 = zlen f.2 /\ zlen f.2 <= SYNCS_VARIABLE_SIZE_MAXIMUM.

(** ** Headers and the in-place mask *)

Lemma decode_header_sub off n buffer :
  0 <= off -> 60 <= n -> decode_header (mem_sub off n buffer) = decode_header (zdrop off buffer).
Proof.
  intros. unfold decode_header.
  assert (forall o k, 0 <= o -> o + k <= 60 ->
    mem_sub o k (mem_sub off n buffer) = mem_sub o k (zdrop off buffer)) as E.
  { intros o k ??. unfold mem_sub. rewrite zdrop_ztake, ztake_ztake by lia. f_equal. lia. }
  by rewrite !E by lia.
Qed.

Lemma hd_data_size_range h : 0 <= hd_data_size (mask_header h) <= SYNCS_VARIABLE_SIZE_MAXIMUM.
Proof.
  unfold mask_header, set_with; simpl. unfold SYNCS_VARIABLE_SIZE_MAXIMUM.
  change 0x1ff with (2 ^ 9 - 1). rewrite land_mask by lia.
  pose proof (Z.mod_pos_bound (hd_data_size h) (2 ^ 9) ltac:(lia)). lia.
Qed.

Section mask.
Context (head : Z) (buffer : list byte) (Hhead : 0 <= head) (Hlen : head + 60 <= zlen buffer).

Lemma zlen_mask_data_size : zlen (mask_data_size head buffer) = zlen buffer.
Proof. unfold mask_data_size. rewrite zlen_mem_put; [done|lia|]. zl. Qed.

(** The masked header is the one the mask of [data_size] gives, and no other
    byte changes. *)
Lemma decode_mask_data_size :
  decode_header (zdrop head (mask_data_size head buffer)) =
  mask_header (decode_header (zdrop head buffer)).
Proof.
  rewrite <- !(decode_header_sub head 60) by lia.
  unfold decode_header, mask_header, set_with; simpl.
  rewrite !mem_sub_sub by lia. unfold mask_data_size.
  set (v := le_split 2 _). assert (zlen v = 2) as Hv by (subst v; zl).
  rewrite (mem_sub_put_above (head + 57) (head + 59)) by lia.
  replace (mem_sub (head + 57) 2 (mem_put (head + 57) v buffer)) with v
    by (rewrite <- Hv; symmetry; apply mem_sub_put; lia).
  rewrite !(mem_sub_put_below (head + 57)) by lia. subst v.
  rewrite le_combine_split_small; [done|].
  unfold SYNCS_VARIABLE_SIZE_MAXIMUM. change 0x1ff with (2 ^ 9 - 1). rewrite land_mask by lia.
  pose proof (Z.mod_pos_bound (le_combine (mem_sub (head + 57) 2 buffer)) (2 ^ 9) ltac:(lia)).
  change (2 ^ (Z.of_nat 2 * 8)) with 65536. lia.
Qed.

Lemma mask_data_size_above o : head + 59 <= o -> zdrop o (mask_data_size head buffer) = zdrop o buffer.
Proof.
  intros Ho. unfold mask_data_size, mem_put. set (v := le_split 2 _).
  assert (zlen v = 2) as Hv by (subst v; zl). rewrite Hv.
  rewrite !zdrop_app_ge by zl. rewrite zdrop_zdrop by zl. f_equal. zl.
Qed.
End mask.

Lemma mask_header_idem h : mask_header (mask_header h) = mask_header h.
Proof.
  unfold mask_header. destruct h; unfold set_with; simpl. f_equal.
  by rewrite <- Z.land_assoc, Z.land_diag.
Qed.

Lemma mask_header_good h : header_good (mask_header h) = header_good h.
Proof. done. Qed.

Lemma mask_data_size_app a b :
  60 <= zlen a -> mask_data_size 0 (a ++ b) = mask_data_size 0 a ++ b.
Proof.
  intros Ha. unfold mask_data_size, mem_put. rewrite mem_sub_app_l by lia.
  set (v := le_split 2 _). assert (zlen v = 2) as Hv by (subst v; zl). rewrite Hv.
  rewrite ztake_app_le, zdrop_app_le by lia. by rewrite <- !app_assoc.
Qed.

Lemma mask_data_size_sub head n buffer :
  0 <= head -> 60 <= n -> head + n <= zlen buffer ->
  mem_sub head n (mask_data_size head buffer) = mask_data_size 0 (mem_sub head n buffer).
Proof.
  intros. unfold mask_data_size. rewrite mem_sub_sub by lia. rewrite !Z.add_0_l.
  set (v := le_split 2 _). assert (zlen v = 2) as Hv by (subst v; zl).
  unfold mem_put. rewrite Hv. unfold mem_sub.
  rewrite zdrop_app_le by zl. rewrite zdrop_ztake by lia.
  replace (head + 57 - head) with 57 by lia.
  rewrite ztake_app_ge by zl. rewrite ztake_app_ge by zl.
  rewrite ztake_ztake, Z.min_l by lia. f_equal. f_equal.
  rewrite zdrop_ztake, zdrop_zdrop by lia. f_equal; [zl|f_equal; lia].
Qed.

Lemma mask_data_size_idem l : 60 <= zlen l -> mask_data_size 0 (mask_data_size 0 l) = mask_data_size 0 l.
Proof.
  intros Hl. unfold mask_data_size. rewrite Z.add_0_l.
  set (v := Z.land (le_combine (mem_sub 57 2 l)) SYNCS_VARIABLE_SIZE_MAXIMUM).
  assert (zlen (le_split 2 v) = 2) as Hv by zl.
  rewrite <- Hv at 1. rewrite mem_sub_put by lia.
  assert (0 <= v < 2 ^ 9) as Hr.
  { subst v. unfold SYNCS_VARIABLE_SIZE_MAXIMUM. change 0x1ff with (2 ^ 9 - 1).
    rewrite land_mask by lia. apply Z.mod_pos_bound. lia. }
  rewrite le_combine_split_small by (change (2 ^ (Z.of_nat 2 * 8)) with 65536; lia).
  assert (Z.land v SYNCS_VARIABLE_SIZE_MAXIMUM = v) as ->.
  { subst v. by rewrite <- Z.land_assoc, Z.land_diag. }
  unfold mem_put. rewrite Hv. rewrite ztake_app_le by zl. rewrite ztake_ztake.
  do 2 f_equal. rewrite zdrop_app_ge by zl. rewrite zdrop_app_ge by zl.
  rewrite zdrop_zdrop by zl. f_equal. zl.
Qed.

(** ** The parser *)

Lemma frames_fuel n bs : (length bs <= n)%nat -> frames n bs = parse bs.
Proof.
  unfold parse. revert bs.
  assert (forall n m bs, length bs <= n -> length bs <= m -> frames n bs = frames m bs)%nat as H;
    [|auto].
  clear n. induction n as [|n IH]; intros [|m] bs Hn Hm; cbn [frames]; [done|..].
  - rewrite (proj2 (Z.ltb_lt _ _)); [done|]. unfold zlen. clia.
  - rewrite (proj2 (Z.ltb_lt _ _)); [done|]. unfold zlen. clia.
  - destruct (zlen bs <? _) eqn:E; [done|]. apply Z.ltb_ge in E.
    assert (forall k, 1 <= k -> (length (zdrop k bs) <= n /\ length (zdrop k bs) <= m)%nat) as Hk.
    { intros k Hk. unfold zdrop. rewrite length_drop. unfold zlen in E. clia. }
    destruct (negb _); [by apply IH; apply Hk|].
    destruct (_ <? _); [done|].
    rewrite (IH m); [done|apply Hk..];
      pose proof (hd_data_size_range (decode_header bs)); clia.
Qed.

Lemma parse_eq bs :
  parse bs =
    if zlen bs <? sizeof_header then ([], bs)
    else
      let h := mask_header (decode_header bs) in
      if negb (header_good h) then parse (zdrop 1 bs)
      else
        let size := sizeof_header + hd_data_size h in
        if zlen bs <? size then ([], mask_data_size 0 bs)
        else
          let '(fs, rest) := parse (zdrop size bs) in
          ((h, mem_sub sizeof_header (hd_data_size h) bs) :: fs, rest).
Proof.
  unfold parse at 1. destruct (length bs) as [|n] eqn:El; cbn [frames].
  { rewrite (proj2 (Z.ltb_lt _ _)); [done|]. unfold zlen. clia. }
  destruct (zlen bs <? _) eqn:E; [done|]. cbn zeta.
  destruct (negb _); [apply frames_fuel; unfold zdrop; rewrite length_drop; lia|].
  destruct (_ <? _); [done|]. rewrite frames_fuel; [done|].
  unfold zdrop. rewrite length_drop. pose proof (hd_data_size_range (decode_header bs)). clia.
Qed.

Lemma parse_short l : zlen l < 60 -> parse l = ([], l).
Proof. intros. rewrite parse_eq. by rewrite (proj2 (Z.ltb_lt _ _)) by clia. Qed.

(** The cases of the parser on a buffer that holds a header. *)
Section parse_cases.
Context (bs : list byte) (Hlen : 60 <= zlen bs).
Let h := mask_header (decode_header bs).

Lemma parse_skip : header_good h = false -> parse bs = parse (zdrop 1 bs).
Proof.
  intros Hg. rewrite parse_eq, (proj2 (Z.ltb_ge _ _)) by clia. fold h. cbn zeta. by rewrite Hg.
Qed.

Lemma parse_incomplete :
  header_good h = true -> zlen bs < 60 + hd_data_size h -> parse bs = ([], mask_data_size 0 bs).
Proof.
  intros Hg Hs. rewrite parse_eq, (proj2 (Z.ltb_ge _ _)) by clia. fold h. cbn zeta. rewrite Hg.
  cbn [negb]. fold h. change sizeof_header with 60. by rewrite (proj2 (Z.ltb_lt _ _)) by lia.
Qed.

Lemma parse_complete :
  header_good h = true -> 60 + hd_data_size h <= zlen bs ->
  parse bs = ((h, mem_sub 60 (hd_data_size h) bs) :: (parse (zdrop (60 + hd_data_size h) bs)).1,
              (parse (zdrop (60 + hd_data_size h) bs)).2).
Proof.
  intros Hg Hs. rewrite parse_eq, (proj2 (Z.ltb_ge _ _)) by clia. fold h. cbn zeta. rewrite Hg.
  cbn [negb]. fold h. change sizeof_header with 60. rewrite (proj2 (Z.ltb_ge _ _)) by lia. by destruct (parse _).
Qed.
End parse_cases.

Lemma decode_header_app a b : 60 <= zlen a -> decode_header (a ++ b) = decode_header a.
Proof.
  intros. pose proof (decode_header_sub 0 60 (a ++ b)) as E1.
  pose proof (decode_header_sub 0 60 a) as E2. rewrite zdrop_0 in E1, E2.
  rewrite <- E1, <- E2 by lia. by rewrite mem_sub_app_l by lia.
Qed.

(** Masking a header already in the buffer changes nothing for the parser. *)
Lemma parse_mask l :
  60 <= zlen l -> header_good (mask_header (decode_header l)) = true ->
  parse (mask_data_size 0 l) = parse l.
Proof.
  intros Hl Hg. pose proof (decode_mask_data_size 0 l ltac:(lia) ltac:(lia)) as Hd.
  rewrite !zdrop_0 in Hd. pose proof (zlen_mask_data_size 0 l ltac:(lia) ltac:(lia)) as Hz.
  pose proof (hd_data_size_range (decode_header l)) as Hr.
  pose proof (mask_data_size_above 0 l ltac:(lia) ltac:(lia)) as Ha.
  destruct (Z.lt_ge_cases (zlen l) (60 + hd_data_size (mask_header (decode_header l)))) as [Hs|Hs].
  - rewrite !parse_incomplete by (rewrite ?Hz, ?Hd, ?mask_header_idem; first [done|lia]).
    by rewrite mask_data_size_idem by lia.
  - rewrite (parse_complete l), (parse_complete (mask_data_size 0 l))
      by (rewrite ?Hz, ?Hd, ?mask_header_idem; first [done|lia]).
    rewrite Hd, mask_header_idem. unfold mem_sub. by rewrite !Ha by lia.
Qed.

(** Induction along the parser. *)
Lemma parse_ind (P : list byte -> list frame * list byte -> Prop) :
  (forall bs, zlen bs < 60 -> P bs ([], bs)) ->
  (forall bs, 60 <= zlen bs -> header_good (mask_header (decode_header bs)) = false ->
    P (zdrop 1 bs) (parse (zdrop 1 bs)) -> P bs (parse (zdrop 1 bs))) ->
  (forall bs, 60 <= zlen bs -> let h := mask_header (decode_header bs) in
    header_good h = true -> zlen bs < 60 + hd_data_size h -> P bs ([], mask_data_size 0 bs)) ->
  (forall bs, 60 <= zlen bs -> let h := mask_header (decode_header bs) in
    header_good h = true -> 60 + hd_data_size h <= zlen bs ->
    let r := parse (zdrop (60 + hd_data_size h) bs) in
    P (zdrop (60 + hd_data_size h) bs) r -> P bs ((h, mem_sub 60 (hd_data_size h) bs) :: r.1, r.2)) ->
  forall bs, P bs (parse bs).
Proof.
  intros Hshort Hskip Hinc Hcomp bs. remember (length bs) as n eqn:Hn. revert bs Hn.
  induction n as [n IH] using lt_wf_ind. intros bs ->.
  destruct (Z.lt_ge_cases (zlen bs) 60) as [Hs|Hl]; [rewrite parse_short by done; by apply Hshort|].
  assert (forall k, 1 <= k -> (length (zdrop k bs) < length bs)%nat) as Hk.
  { intros k Hk. unfold zdrop. rewrite length_drop. unfold zlen in Hl. lia. }
  pose proof (hd_data_size_range (decode_header bs)) as Hr.
  destruct (header_good (mask_header (decode_header bs))) eqn:Hg; last first.
  { rewrite parse_skip by done. apply Hskip; [done..|]. apply (IH _ (Hk 1 ltac:(lia)) _ eq_refl). }
  destruct (Z.lt_ge_cases (zlen bs) (60 + hd_data_size (mask_header (decode_header bs)))) as [Hi|Hc].
  - rewrite parse_incomplete by done. by apply Hinc.
  - rewrite parse_complete by done. apply Hcomp; [done..|].
    apply (IH _ (Hk (60 + hd_data_size (mask_header (decode_header bs))) ltac:(lia)) _ eq_refl).
Qed.

Lemma parse_app a b :
  parse (a ++ b) = ((parse a).1 ++ (parse ((parse a).2 ++ b)).1, (parse ((parse a).2 ++ b)).2).
Proof.
  revert a. apply (parse_ind (fun a r =>
    parse (a ++ b) = (r.1 ++ (parse (r.2 ++ b)).1, (parse (r.2 ++ b)).2))); intros a Hl.
  - simpl. by destruct (parse (a ++ b)).
  - intros Hg IH. pose proof (decode_header_app a b Hl) as Hd.
    rewrite (parse_skip (a ++ b)) by (rewrite ?Hd; first [done|zl]). by rewrite zdrop_app_le by lia.
  - intros h Hg Hi. pose proof (decode_header_app a b Hl) as Hd. simpl. rewrite <- mask_data_size_app by done.
    rewrite parse_mask by (rewrite ?Hd; first [done|zl]). by destruct (parse (a ++ b)).
  - intros h Hg Hc r IH. pose proof (decode_header_app a b Hl) as Hd.
    pose proof (hd_data_size_range (decode_header a)) as Hr. fold h in Hr.
    rewrite (parse_complete (a ++ b)) by (rewrite ?Hd; fold h; first [done|zl]).
    rewrite Hd. fold h. rewrite zdrop_app_le by lia. rewrite IH. cbn [fst snd app].
    by rewrite mem_sub_app_l by lia.
Qed.

Lemma feed_parse pre c : feed (parse pre) c = parse (pre ++ c).
Proof. unfold feed. rewrite (parse_app pre c). by destruct (parse ((parse pre).2 ++ c)). Qed.

Lemma feed_all_parse chunks : feed_all chunks = parse (concat chunks).
Proof.
  unfold feed_all. change ([], []) with (parse []). change (concat chunks) with ([] ++ concat chunks).
  generalize (@nil byte). induction chunks as [|c chunks IH]; intros pre; cbn [foldl concat].
  - by rewrite app_nil_r.
  - by rewrite feed_parse, IH, app_assoc.
Qed.

(** ** Encoded packets *)

Lemma mask_header_small h :
  0 <= hd_data_size h <= SYNCS_VARIABLE_SIZE_MAXIMUM -> mask_header h = h.
Proof.
  intros Hs. unfold mask_header. destruct h; unfold set_with; simpl in *. f_equal.
  unfold SYNCS_VARIABLE_SIZE_MAXIMUM in *. change 0x1ff with (2 ^ 9 - 1). rewrite land_mask by lia.
  apply Z.mod_small. lia.
Qed.

Lemma zlen_encode_frame f : zlen (encode_frame f) = 60 + zlen f.2.
Proof. unfold encode_frame. zl. Qed.

Lemma parse_frame f rest :
  frame_wf f -> parse (encode_frame f ++ rest) = (f :: (parse rest).1, (parse rest).2).
Proof.
  destruct f as [h d]. intros (Hwf & Hg & Hs & Hmax). cbn [fst snd] in *.
  pose proof (zlen_encode_frame (h, d)) as Hz. cbn [snd] in Hz. pose proof (zlen_nonneg d).
  assert (decode_header (encode_frame (h, d) ++ rest) = h) as Hd.
  { unfold encode_frame. rewrite <- app_assoc, decode_header_app by zl. by apply decode_encode_header. }
  assert (mask_header h = h) as Hm by (apply mask_header_small; lia).
  assert (mem_sub 60 (zlen d) (encode_frame (h, d) ++ rest) = d) as Hp.
  { unfold encode_frame. cbn [fst snd]. rewrite <- app_assoc, (mem_sub_skip 60) by zl. by rewrite mem_sub_hit. }
  set (e := encode_frame (h, d)) in *. clearbody e.
  rewrite parse_complete; rewrite ?Hd, ?Hm, ?Hs, ?Hp; [|zl|done|zl].
  rewrite zdrop_app_ge by lia. by rewrite Hz, Z.sub_diag, zdrop_0.
Qed.

(** A datagram that holds one packet, at the start of a receive buffer. *)
Lemma datagram_memory f b0 :
  frame_wf f -> zlen b0 = SYNCS_CLIENT_BUFFER_SIZE ->
  let b := mem_put 0 (encode_frame f) b0 in
  zlen b = SYNCS_CLIENT_BUFFER_SIZE /\ decode_header b = f.1 /\ decode_header (mask_data_size 0 b) = f.1 /\
  zlen (mask_data_size 0 b) = SYNCS_CLIENT_BUFFER_SIZE /\
  zdrop sizeof_header (mask_data_size 0 b) = f.2 ++ zdrop (zlen (encode_frame f)) b0.
Proof.
  intros (Hwf & Hgood & Hsz & Hmax) Hb0 b. pose proof (zlen_encode_frame f) as Hz. pose proof (zlen_nonneg f.2).
  unfold SYNCS_CLIENT_BUFFER_SIZE, SYNCS_VARIABLE_SIZE_MAXIMUM in *.
  assert (b = encode_header f.1 ++ f.2 ++ zdrop (zlen (encode_frame f)) b0) as Hb.
  { subst b. unfold mem_put, encode_frame. rewrite ztake_0. by rewrite <- app_assoc. }
  assert (zlen b = zlen b0) as Hzb by (subst b; rewrite zlen_mem_put; lia).
  assert (decode_header b = f.1) as Hdec.
  { rewrite Hb, decode_header_app by (rewrite zlen_encode_header; lia). by apply decode_encode_header. }
  split; [lia|]. split; [done|]. pose proof (decode_mask_data_size 0 b) as Hmask. rewrite !zdrop_0 in Hmask.
  split; [rewrite Hmask, Hdec by lia; apply mask_header_small; unfold SYNCS_VARIABLE_SIZE_MAXIMUM; lia|].
  split; [rewrite zlen_mask_data_size by lia; lia|]. rewrite mask_data_size_above by (unfold sizeof_header; lia).
  rewrite Hb, zdrop_app_ge by (rewrite zlen_encode_header; unfold sizeof_header; lia).
  rewrite zlen_encode_header. apply zdrop_0.
Qed.

Lemma parse_encode fs rest :
  Forall frame_wf fs -> parse (encode_frames fs ++ rest) = (fs ++ (parse rest).1, (parse rest).2).
Proof.
  unfold encode_frames.
  induction 1 as [|f fs Hf Hfs IH]; cbn [fmap list_fmap concat app]; [by destruct (parse rest)|].
  by rewrite <- app_assoc, parse_frame, IH.
Qed.

(** Bytes that are not the start mark are skipped, provided enough bytes
    follow for the receiver to look. *)
Lemma parse_garbage junk bs :
  Forall (fun b => byte.unsigned b <> SYNCS_PACKET_MAGIC) junk -> 60 <= zlen bs ->
  parse (junk ++ bs) = parse bs.
Proof.
  induction 1 as [|b junk Hb Hjunk IH]; intros Hl; [done|]. specialize (IH Hl).
  rewrite <- IH. cbn [app]. rewrite parse_skip; [done|zl|].
  rewrite mask_header_good. unfold header_good, decode_header. cbn [hd_magic].
  change (mem_sub 0 1 (b :: junk ++ bs)) with [b].
  rewrite (proj2 (Z.eqb_neq _ _)); [done|].
  intros E. apply Hb. rewrite <- E. unfold le_combine. simpl. by rewrite Z.lor_0_r.
Qed.

(** ** The receive loop is the parser followed by the dispatcher *)

(** A delivered packet: its header and the memory [packet->buffer] points
    to, from the payload to the end of the receive buffer. *)
Definition delivery : Type := syncs_header * list byte.
Definition delivered_frame (d : delivery) : frame := (d.1, ztake (hd_data_size d.1) d.2).

Definition deliver {W} (process : syncs_header -> list byte -> M W unit) (d : delivery) : M W unit :=
  process d.1 d.2.

Lemma receive_loop_parse {W} (process : syncs_header -> list byte -> M W unit) fuel buffer head recv :
  0 <= head <= recv -> recv <= zlen buffer -> recv - head < Z.of_nat fuel ->
  exists ds buffer' head',
    (forall w, receive_loop process fuel buffer head recv w =
      (_ ← for_each ds (deliver process); mret (buffer', head')) w) /\
    delivered_frame <$> ds = (parse (mem_sub head (recv - head) buffer)).1 /\
    mem_sub head' (recv - head') buffer' = (parse (mem_sub head (recv - head) buffer)).2 /\
    head <= head' <= recv /\ zlen buffer' = zlen buffer /\
    Forall (fun d => 0 <= hd_data_size d.1 <= SYNCS_VARIABLE_SIZE_MAXIMUM /\
      hd_data_size d.1 + (zlen buffer - recv) <= zlen d.2) ds.
Proof.
  revert buffer head. induction fuel as [|fuel IH]; intros buffer head Hh Hb Hf; [lia|].
  cbn [receive_loop]. pose proof (zlen_mem_sub head (recv - head) buffer) as Hz.
  destruct (_ >=? _) eqn:E; last first.
  { exists [], buffer, head. rewrite Z.geb_leb, Z.leb_gt in E.
    rewrite parse_short by clia. split_and!; first [done|lia|constructor]. }
  apply Z.geb_le in E. change sizeof_header with 60 in *.
  specialize (Hz ltac:(lia) ltac:(lia) ltac:(lia)).
  set (l := mem_sub head (recv - head) buffer) in *.
  assert (decode_header (mem_sub head 60 buffer) = decode_header l) as Hd.
  { subst l. by rewrite !decode_header_sub by lia. }
  assert (decode_header (mem_sub head 60 (mask_data_size head buffer)) =
    mask_header (decode_header l)) as Hm.
  { subst l. rewrite !decode_header_sub by lia. by rewrite decode_mask_data_size by clia. }
  assert (header_good (mask_header (decode_header l)) =
    (hd_magic (decode_header l) =? SYNCS_PACKET_MAGIC) &&
    (hd_magic_data (decode_header l) =? SYNCS_PACKET_MAGIC_DATA)) as Hg by done.
  rewrite Hd. cbn zeta. rewrite Hm. set (h := mask_header (decode_header l)) in *.
  pose proof (hd_data_size_range (decode_header l)) as Hr. fold h in Hr.
  assert (header_good h = false ->
    exists ds buffer' head',
    (forall w, receive_loop process fuel buffer (head + 1) recv w =
      (_ ← for_each ds (deliver process); mret (buffer', head')) w) /\
    delivered_frame <$> ds = (parse l).1 /\
    mem_sub head' (recv - head') buffer' = (parse l).2 /\
    head <= head' <= recv /\ zlen buffer' = zlen buffer /\
    Forall (fun d => 0 <= hd_data_size d.1 <= SYNCS_VARIABLE_SIZE_MAXIMUM /\
      hd_data_size d.1 + (zlen buffer - recv) <= zlen d.2) ds) as Hskip.
  { intros Hg'. rewrite parse_skip by (done || lia).
    destruct (IH buffer (head + 1)) as (ds & b & n & Hl & Hfs & Hrest & Hn & Hbl & Hds); [lia..|].
    exists ds, b, n. split_and!; try lia; [done| | |done].
    - rewrite Hfs. do 2 f_equal. subst l. unfold mem_sub.
      rewrite zdrop_ztake, zdrop_zdrop by lia. f_equal. lia.
    - rewrite Hrest. do 2 f_equal. subst l. unfold mem_sub.
      rewrite zdrop_ztake, zdrop_zdrop by lia. f_equal. lia. }
  destruct (hd_magic _ =? _); [|by apply Hskip].
  destruct (hd_magic_data _ =? _); [|by apply Hskip]. clear Hskip. cbn [negb andb] in *.
  destruct (_ <? _) eqn:E2.
  { apply Z.ltb_lt in E2. exists [], (mask_data_size head buffer), head.
    rewrite parse_incomplete by (done || (fold h; lia)).
    split_and!; try lia; [done..| |by rewrite zlen_mask_data_size by clia|constructor].
    subst l. by rewrite mask_data_size_sub by lia. }
  apply Z.ltb_ge in E2.
  destruct (IH (mask_data_size head buffer) (head + (60 + hd_data_size h)))
    as (ds & b & n & Hl & Hfs & Hrest & Hn & Hbl & Hds);
    [lia|rewrite zlen_mask_data_size; clia|lia|].
  rewrite parse_complete by (done || (fold h; lia)). fold h.
  assert (zdrop (head + 60) (mask_data_size head buffer) = zdrop (head + 60) buffer) as Ha
    by (apply mask_data_size_above; lia).
  assert (mem_sub (head + (60 + hd_data_size h)) (recv - (head + (60 + hd_data_size h)))
    (mask_data_size head buffer) = zdrop (60 + hd_data_size h) l) as Htail.
  { subst l. unfold mem_sub. rewrite mask_data_size_above by lia.
    rewrite zdrop_ztake, zdrop_zdrop by lia. f_equal. lia. }
  rewrite Htail in Hfs, Hrest.
  exists ((h, zdrop (head + 60) (mask_data_size head buffer)) :: ds), b, n.
  rewrite zlen_mask_data_size in Hds, Hbl by clia.
  split_and!; [| |done|lia..|done|].
  - intros w. cbn [for_each]. rewrite bind_assoc. unfold deliver at 1. cbn [fst snd].
    apply bind_ext; [done|]. intros _ w2. apply Hl.
  - cbn [fmap list_fmap fst snd]. fold (fmap delivered_frame ds). rewrite Hfs.
    f_equal. unfold delivered_frame. cbn [fst snd]. f_equal. rewrite Ha. subst l.
    rewrite mem_sub_sub by lia. done.
  - constructor; [|done]. cbn [fst snd]. split; [done|]. rewrite Ha. zl.
Qed.

(** Safety: an invariant that [process] keeps holds after the loop, which
    leaves less than a packet. *)
Lemma wp_receive_loop {W} (I : W -> Prop) (process : syncs_header -> list byte -> M W unit)
    fuel buffer head recv w :
  I w -> 0 <= head <= recv -> recv <= zlen buffer -> recv - head < Z.of_nat fuel ->
  (forall h data w', I w' -> 0 <= hd_data_size h <= SYNCS_VARIABLE_SIZE_MAXIMUM ->
    hd_data_size h + (zlen buffer - recv) <= zlen data -> wp (process h data) (fun _ => I) w') ->
  wp (receive_loop process fuel buffer head recv) (fun r w' =>
    I w' /\ zlen r.1 = zlen buffer /\ head <= r.2 <= recv /\
    recv - r.2 < sizeof_header + SYNCS_VARIABLE_SIZE_MAXIMUM) w.
Proof.
  intros HI Hh Hb Hf Hp. revert buffer head w HI Hh Hb Hf Hp.
  induction fuel as [|fuel IH]; intros buffer head w HI Hh Hb Hf Hp; cbn [receive_loop]; [lia|].
  destruct (_ >=? _) eqn:E;
    [|apply wp_ret; simpl; rewrite Z.geb_leb, Z.leb_gt in E; split_and!; first [done|clia]].
  apply Z.geb_le in E.
  assert (wp (receive_loop process fuel buffer (head + 1) recv) (fun r w' =>
    I w' /\ zlen r.1 = zlen buffer /\ head <= r.2 <= recv /\
    recv - r.2 < sizeof_header + SYNCS_VARIABLE_SIZE_MAXIMUM) w) as Hskip.
  { eapply wp_mono; [apply IH; [done|clia..|done]|].
    intros r w2 (?&?&?&?). split_and!; first [done|lia]. }
  destruct (negb _); [exact Hskip|]. destruct (negb _); [exact Hskip|]. clear Hskip.
  assert (head + 60 <= zlen buffer) as Hhb by clia.
  rewrite decode_header_sub, decode_mask_data_size by clia.
  set (h := mask_header _). pose proof (hd_data_size_range (decode_header (zdrop head buffer))) as Hs.
  fold h in Hs. destruct (_ <? _) eqn:E2.
  { apply wp_ret. simpl. rewrite zlen_mask_data_size by clia. apply Z.ltb_lt in E2.
    split_and!; first [done|clia]. }
  apply Z.ltb_ge in E2. wp_step.
  eapply wp_mono; [apply Hp; [done|clia|rewrite zlen_zdrop, zlen_mask_data_size by clia; clia]|].
  intros ? w' Hw'. cbn beta in *. pose proof (zlen_mask_data_size head buffer ltac:(lia) Hhb) as Hz.
  eapply wp_mono; [apply IH; [done|clia..|by rewrite Hz]|].
  rewrite Hz. intros r w2 (?&?&?&?). split_and!; first [done|clia].
Qed.

Lemma mem_sub_after_recv (buffer bs : list byte) n :
  0 <= n -> n + zlen bs <= zlen buffer ->
  mem_sub 0 (n + zlen bs) (mem_put n bs buffer) = ztake n buffer ++ bs.
Proof.
  intros. unfold mem_sub, mem_put. rewrite zdrop_0, app_assoc.
  rewrite ztake_app_le by zl. apply ztake_ge. zl.
Qed.

(** ** What the parser returns *)

(** A property of every packet the parser can cut off holds of all it does. *)
Lemma parse_forall (P : frame -> Prop) bs :
  (forall bs, 60 <= zlen bs -> let h := mask_header (decode_header bs) in
    60 + hd_data_size h <= zlen bs -> P (h, mem_sub 60 (hd_data_size h) bs)) ->
  Forall P (parse bs).1.
Proof.
  intros HP. revert bs. apply (parse_ind (fun bs r => Forall P r.1)); try done.
  intros bs Hl h Hg Hc r IH. constructor; [by apply HP|done].
Qed.

Lemma mask_header_wf h : header_wf h -> header_wf (mask_header h).
Proof.
  intros (H1 & H2 & H3 & H4 & H5 & H6 & H7 & _ & H9). pose proof (hd_data_size_range h) as Hr.
  repeat (split; [done|]). split; [clia|done].
Qed.

Lemma parse_header_wf bs : Forall (fun f => header_wf f.1) (parse bs).1.
Proof. apply parse_forall. intros b Hb h _. by apply mask_header_wf, decode_header_wf. Qed.

(** What the parser keeps holds no complete packet. *)
Lemma parse_rest bs : parse (parse bs).2 = ([], (parse bs).2).
Proof.
  pose proof (parse_app bs []) as E. rewrite !app_nil_r in E.
  destruct (parse bs) as [fs rest]. cbn [fst snd] in *. destruct (parse rest) as [fs' rest'].
  cbn [fst snd] in *. injection E as E <-. f_equal.
  apply (f_equal length) in E. rewrite length_app in E. destruct fs'; [done|simpl in E; lia].
Qed.

(** It is shorter than a packet. *)
Lemma parse_rest_short bs : zlen (parse bs).2 < sizeof_header + SYNCS_VARIABLE_SIZE_MAXIMUM.
Proof.
  revert bs. apply (parse_ind (fun bs r => zlen r.2 < sizeof_header + SYNCS_VARIABLE_SIZE_MAXIMUM));
    [intros bs Hl; simpl; clia|done| |done].
  intros bs Hl h Hg Hi. pose proof (hd_data_size_range (decode_header bs)) as Hr. fold h in Hr.
  cbn [snd]. rewrite zlen_mask_data_size by lia. clia.
Qed.

(** ** Moving the rest to the start of the buffer *)

Definition compact (buffer : list byte) (head recv : Z) : list byte * Z :=
  if head <? recv then
    (if head =? 0 then buffer else mem_put 0 (mem_sub head (recv - head) buffer) buffer, recv - head)
  else (buffer, 0).

Lemma compact_spec buffer head recv :
  0 <= head <= recv -> recv <= zlen buffer ->
  let '(buffer', n) := compact buffer head recv in
  ztake n buffer' = mem_sub head (recv - head) buffer /\ zlen buffer' = zlen buffer /\ n = recv - head.
Proof.
  intros Hh Hr. unfold compact. destruct (Z.ltb_spec head recv).
  - destruct (Z.eqb_spec head 0) as [->|]; [by rewrite Z.sub_0_r|].
    assert (zlen (mem_sub head (recv - head) buffer) = recv - head) as Hz by (apply zlen_mem_sub; lia).
    split_and!; [|rewrite zlen_mem_put; lia|done]. rewrite <- Hz at 1. apply (mem_sub_put 0). lia.
  - assert (recv - head = 0) as -> by lia. done.
Qed.
