(* ===== verification/Wire.v ===== *)
(** * Packets on the wire

    What the packets of the server and of the client put on the wire, over a
    network that loses nothing. *)

From S2P Require Import Prelude.
From S2P Require Import Monad.
From S2P Require Import Types.
From S2P Require Import Net.
From S2P Require Import Framing.

(** A complete packet object: its buffer has the declared size. *)
Definition packet_full (p : syncs_packet) : Prop :=
  zlen (pk_buffer p) = SYNCS_EVENT_DATA_SIZE_MAXIMUM.

(** A kernel that always accepts the whole buffer. *)
Class Lossless `{Env} : Prop :=
  lossless h fd bs : env_send h fd bs = zlen bs.

#[export] Instance perfect_lossless : @Lossless perfect_env.
Proof. done. Qed.

(** The bytes a packet puts on the wire. *)
Definition packet_wire (p : syncs_packet) : list byte :=
  ztake (SYNCS_PACKET_SIZE p) (packet_bytes p).

Lemma packet_size_bounds p :
  packet_full p -> 60 <= SYNCS_PACKET_SIZE p <= zlen (packet_bytes p).
Proof.
  intros Hp. unfold SYNCS_PACKET_SIZE, SYNCS_PACKET_DATA_SIZE, SYNCS_PACKET_SIZE_MASK, packet_bytes.
  change 0x0fff with (2 ^ 12 - 1). rewrite land_mask by lia.
  pose proof (Z.mod_pos_bound (hd_data_size (pk_header p)) (2 ^ 12) ltac:(lia)).
  unfold packet_full in Hp. clia.
Qed.

Lemma packet_wire_frame h b n v :
  hd_data_size h = n -> 0 <= n <= SYNCS_VARIABLE_SIZE_MAXIMUM -> ztake n b = v ->
  packet_wire (mk_packet h b) = encode_frame (h, v).
Proof.
  intros <- Hn <-. unfold packet_wire, SYNCS_PACKET_SIZE, SYNCS_PACKET_DATA_SIZE,
    SYNCS_PACKET_SIZE_MASK, packet_bytes, encode_frame. cbn [pk_header pk_buffer fst snd].
  change 0xfff with (2 ^ 12 - 1). rewrite land_mask, Z.mod_small by clia.
  rewrite ztake_app_ge by clia. rewrite zlen_encode_header.
  change sizeof_header with 60. do 2 f_equal. lia.
Qed.

(** The header of a packet, as far as its sender fills it in. *)
Definition request_header (type : Z) (id : syncsid_t) (size : Z) (h : syncs_header) : Prop :=
  header_wf h /\ hd_magic h = SYNCS_PACKET_MAGIC /\ hd_magic_data h = SYNCS_PACKET_MAGIC_DATA /\
  hd_type h = type /\ hd_id h = id /\ hd_data_size h = size.

Lemma request_frame_wf type id h data :
  request_header type id (zlen data) h -> zlen data <= SYNCS_VARIABLE_SIZE_MAXIMUM -> frame_wf (h, data).
Proof.
  intros (Hwf & Hm & Hd & _ & _ & Hs) Hmax. split_and!; [done| |done|done].
  unfold header_good. simpl. by rewrite Hm, Hd.
Qed.

(** The headers the helpers build on uninitialised memory. *)
Lemma made_header_request crc type id sync uc n :
  0 <= crc < 2 ^ 32 -> 0 <= type < 2 ^ 32 -> id_wf id -> 0 <= data0 sync < 2 ^ 32 ->
  0 <= data1 sync < 2 ^ 32 -> 0 <= uc < 2 ^ 64 -> 0 <= n < 2 ^ 16 ->
  request_header type id n
    (mk_header SYNCS_PACKET_MAGIC crc type id sync uc n SYNCS_PACKET_MAGIC_DATA).
Proof. intros. repeat split; simpl; try done; try lia; apply H1. Qed.

(** The name of the variable the instances use. *)
Definition name_a : list byte := [Byte.x61].

Section wire.
Context `{Env} {W : Type} `{IOWorld W}.

Lemma run_stack_packet (Q : syncs_packet -> W -> Prop) w :
  (forall p, packet_full p -> header_wf (pk_header p) -> Q p w) -> wp stack_packet Q w.
Proof.
  intros HQ. unfold stack_packet. wp_step. wp_step. wp_step. apply HQ.
  - unfold packet_full, packet_of_memory; simpl. rewrite zlen_zdrop, env_stack_size. clia.
  - apply decode_header_wf. rewrite zlen_ztake, env_stack_size. clia.
Qed.

Section lossless.
Context `{!Lossless}.

Lemma blocking_send_lossless sock buffer len (w : W) (Q : Z -> W -> Prop) :
  0 < len < 2 ^ 32 -> len <= zlen buffer ->
  Q 0 (io_emit (IoSend sock (ztake len buffer)) w) ->
  wp (syncs_blocking_send sock buffer len) Q w.
Proof.
  intros Hl Hb HQ. unfold syncs_blocking_send.
  destruct (Z.to_nat len) as [|n] eqn:En; [lia|]. cbn [blocking_send_loop].
  rewrite (proj2 (Z.gtb_lt _ _)) by lia. wp_step. unfold os_send. wp_step. wp_step.
  rewrite lossless. assert (zlen (ztake len buffer) = len) as -> by zl.
  rewrite (proj2 (Z.eqb_neq len (-1))) by lia. unfold emit. wp_step. wp_step. wp_step.
  rewrite (proj2 (Z.eqb_neq len (-1))) by lia. rewrite Z.sub_diag.
  rewrite ztake_ztake, Z.min_id. destruct n; exact HQ.
Qed.

End lossless.
End wire.
