(* ===== verification/ServerState.v ===== *)
(** * Server: data structures and table operations

    src/libsyncs/syncs-server-types.h and the first part of syncs-server.c:
    the structures, their initialisation, the slot searches and the creation
    and release of events and channels.  Pointers into the three tables of
    [struct syncs_server] are slot numbers. *)

From S2P Require Import Prelude.
From S2P Require Import Monad.
From S2P Require Import Types.
From S2P Require Import Net.

(** ** Structures *)

Record syncs_client : Type := mk_client {
  cl_id : syncsid_t;
  cl_socketfd : Z;
  cl_addr : sockaddr_in;
  cl_event_subscribe : Z;
  cl_event_write : Z;
  cl_rx_event_count : Z;
  cl_tx_event_count : Z;
  cl_tx_error : Z;
  cl_version : Z;
  cl_buffer : list byte;
  cl_buffer_recv : Z }.

Record syncs_event : Type := mk_event {
  ev_id : syncsid_t;
  ev_data : list byte;
  ev_data_type : Z;
  ev_data_size : Z;
  ev_count : Z;
  ev_update_counter : Z;
  ev_consumers_count : Z;
  ev_producers_count : Z;
  ev_consumers : list (option nat);
  ev_producer : option nat;
  ev_cb : Z;
  ev_args : Z }.

Record syncs_channel : Type := mk_channel {
  ch_id : syncsid_t;
  ch_ticket : syncs_channel_ticket;
  ch_anons_count : Z;
  ch_request_count : Z;
  ch_producers_count : Z;
  ch_producer : option nat }.

Record syncs_server : Type := mk_server {
  sv_id : syncsid_t;
  sv_addr : list byte;
  sv_port : Z;
  sv_socketfd : Z;
  sv_epollfd : Z;
  sv_usocketfd : Z;
  sv_events : list syncs_event;
  sv_clients : list syncs_client;
  sv_channels : list syncs_channel;
  sv_channel_count : Z;
  sv_event_count : Z;
  sv_client_count : Z;
  sv_uclient_count : Z;
  sv_sync_offset : Z;
  sv_update_counter : Z;
  sv_ubuffer : list byte }.

#[export] Instance syncs_client_settable : Settable syncs_client := fun c =>
  mk_client (cl_id c) (cl_socketfd c) (cl_addr c) (cl_event_subscribe c)
    (cl_event_write c) (cl_rx_event_count c) (cl_tx_event_count c)
    (cl_tx_error c) (cl_version c) (cl_buffer c) (cl_buffer_recv c).
#[export] Instance syncs_event_settable : Settable syncs_event := fun e =>
  mk_event (ev_id e) (ev_data e) (ev_data_type e) (ev_data_size e) (ev_count e)
    (ev_update_counter e) (ev_consumers_count e) (ev_producers_count e)
    (ev_consumers e) (ev_producer e) (ev_cb e) (ev_args e).
#[export] Instance syncs_channel_settable : Settable syncs_channel := fun c =>
  mk_channel (ch_id c) (ch_ticket c) (ch_anons_count c) (ch_request_count c)
    (ch_producers_count c) (ch_producer c).
#[export] Instance syncs_server_settable : Settable syncs_server := fun s =>
  mk_server (sv_id s) (sv_addr s) (sv_port s) (sv_socketfd s) (sv_epollfd s)
    (sv_usocketfd s) (sv_events s) (sv_clients s) (sv_channels s)
    (sv_channel_count s) (sv_event_count s) (sv_client_count s)
    (sv_uclient_count s) (sv_sync_offset s) (sv_update_counter s) (sv_ubuffer s).

(** ** The server monad: the server object and the I/O performed *)

Record world : Type := mk_world { w_server : syncs_server; w_log : list io }.
#[export] Instance world_settable : Settable world := fun w => mk_world (w_server w) (w_log w).

#[export] Program Instance world_io : IOWorld world := {|
  io_log := w_log;
  io_emit e w := w <| w_log ::= fun l => l ++ [e] |> |}.
Next Obligation. done. Qed.

Abbreviation SM := (M world).

Definition server_get : SM syncs_server := gets w_server.
Definition server_upd (f : syncs_server -> syncs_server) : SM unit :=
  modify (fun w => w <| w_server ::= f |>).

(** [s->events[e]], read and modified in place. *)
Definition event_at (e : nat) : SM syncs_event :=
  s ← server_get; deref (sv_events s !! e).
Definition event_upd (e : nat) (f : syncs_event -> syncs_event) : SM unit :=
  ev ← event_at e; server_upd (fun s => s <| sv_events ::= <[e := f ev]> |>).

Definition client_at (c : nat) : SM syncs_client :=
  s ← server_get; deref (sv_clients s !! c).
Definition client_upd (c : nat) (f : syncs_client -> syncs_client) : SM unit :=
  cl ← client_at c; server_upd (fun s => s <| sv_clients ::= <[c := f cl]> |>).

Definition channel_at (n : nat) : SM syncs_channel :=
  s ← server_get; deref (sv_channels s !! n).
Definition channel_upd (n : nat) (f : syncs_channel -> syncs_channel) : SM unit :=
  ch ← channel_at n; server_upd (fun s => s <| sv_channels ::= <[n := f ch]> |>).

(** ** Initial state *)

(** What [calloc] leaves in a slot of each table. *)
Definition calloc_event : syncs_event :=
  mk_event id_zero (zero_bytes SYNCS_VARIABLE_SIZE_MAXIMUM) 0 0 0 0 0 0
    (replicate SYNCS_CLIENT_MAXIMUM None) None NULL NULL.
Definition calloc_client : syncs_client :=
  mk_client id_zero 0 (mk_addr 0 0) 0 0 0 0 0 0 (zero_bytes SYNCS_CLIENT_BUFFER_SIZE) 0.
Definition calloc_channel : syncs_channel :=
  mk_channel id_zero (mk_ticket 0 0 0) 0 0 0 None.
Definition calloc_server : syncs_server :=
  mk_server id_zero (zero_bytes 20) 0 0 0 0
    (replicate SYNCS_EVENT_MAXIMUM calloc_event)
    (replicate SYNCS_CLIENT_MAXIMUM calloc_client)
    (replicate SYNCS_CHANNEL_MAXIMUM calloc_channel)
    0 0 0 0 0 0 (zero_bytes SYNCS_CLIENT_BUFFER_SIZE).

Definition syncs_server_structure_init (s : syncs_server) : syncs_server :=
  s <| sv_events ::= fmap (fun e => e <| ev_id ::= id_set_free |>) |>
    <| sv_channels ::= fmap (fun c => c <| ch_id ::= id_set_free |>) |>
    <| sv_clients ::= fmap (fun c => c <| cl_socketfd := -1 |>) |>
    <| sv_sync_offset := SYNCS_DEFAULT_SYNC_OFFSET_MS |>.

(** [syncs_server_create], up to the start of the server thread. *)
Definition syncs_server_create (addr : option (list byte)) (port : Z) (cid : option (list byte))
    : syncs_server :=
  let s := syncs_server_structure_init calloc_server in
  let s := match addr with Some a => s <| sv_addr := strncpy 20 a |> | None => s end in
  let s := s <| sv_port := port |> in
  match cid with Some i => s <| sv_id := syncs_idstr i |> | None => s end.

Definition syncs_server_set_sync_offset (ms : Z) : SM unit :=
  server_upd (fun s => s <| sv_sync_offset := ms |>).

(** ** Searches *)

Definition syncs_get_free_client (s : syncs_server) : option nat :=
  scan (fun c => cl_socketfd c =? -1) (sv_clients s).

Definition syncs_find_event (s : syncs_server) (id : syncsid_t) : option nat :=
  scan (fun e => syncs_idcmp (ev_id e) id) (sv_events s).

Definition syncs_find_uclient_id (s : syncs_server) (id : syncsid_t) : option nat :=
  scan (fun c => (cl_socketfd c =? UDP_SOCKET_STUB) && syncs_idcmp (cl_id c) id) (sv_clients s).

Definition syncs_find_uclient_addr (s : syncs_server) (addr : sockaddr_in) : option nat :=
  scan (fun c => (cl_socketfd c =? UDP_SOCKET_STUB) &&
                 (sin_addr (cl_addr c) =? sin_addr addr) &&
                 (sin_port (cl_addr c) =? sin_port addr)) (sv_clients s).

Definition syncs_find_channel (s : syncs_server) (id : syncsid_t) : option nat :=
  scan (fun c => syncs_idcmp (ch_id c) id) (sv_channels s).

(** ** Creation and release *)

Definition syncs_event_init (event : syncs_event) (id : syncsid_t) : syncs_event :=
  event <| ev_args := NULL |>
    <| ev_cb := NULL |>
    <| ev_count := 0 |>
    <| ev_data ::= <[0%nat := Byte.x00]> |>
    <| ev_data_size := 0 |>
    <| ev_data_type := 0 |>
    <| ev_producer := None |>
    <| ev_update_counter := 0 |>
    <| ev_consumers_count := 0 |>
    <| ev_producers_count := 0 |>
    <| ev_consumers ::= fmap (fun _ => None) |>
    <| ev_id ::= fun a => syncs_idcpy a id |>.

Definition syncs_channel_init (channel : syncs_channel) (id : syncsid_t) : syncs_channel :=
  channel <| ch_producer := None |>
    <| ch_anons_count := 0 |>
    <| ch_producers_count := 0 |>
    <| ch_request_count := 0 |>
    <| ch_id ::= fun a => syncs_idcpy a id |>.

Definition syncs_create_channel (id : syncsid_t) : SM (option nat) :=
  s ← server_get;
  match scan (fun c => id_is_free (ch_id c)) (sv_channels s) with
  | Some i =>
      _ ← channel_upd i (fun ch => syncs_channel_init ch id);
      _ ← server_upd (fun s => s <| sv_channel_count ::= incr_u32 |>);
      mret (Some i)
  | None => mret None
  end.

Definition syncs_create_event (id : syncsid_t) : SM (option nat) :=
  s ← server_get;
  match scan (fun e => id_is_free (ev_id e)) (sv_events s) with
  | Some i =>
      _ ← event_upd i (fun ev => syncs_event_init ev id);
      _ ← server_upd (fun s => s <| sv_event_count ::= incr_u32 |>);
      mret (Some i)
  | None => mret None
  end.

Definition syncs_free_event (id : syncsid_t) : SM unit :=
  s ← server_get;
  match syncs_find_event s id with
  | Some e =>
      _ ← event_upd e (fun ev => ev <| ev_id ::= id_set_free |>);
      server_upd (fun s => s <| sv_event_count ::= decr_u32 |>)
  | None => mret tt
  end.

Definition syncs_free_channel (id : syncsid_t) : SM unit :=
  s ← server_get;
  match syncs_find_channel s id with
  | Some n =>
      _ ← channel_upd n (fun ch => ch <| ch_id ::= id_set_free |>);
      server_upd (fun s => s <| sv_channel_count ::= decr_u32 |>)
  | None => mret tt
  end.

(** ** Subscription lists *)

Definition syncs_add_client_to_event (c e : nat) : SM Z :=
  event ← event_at e;
  match scan (fun x => bool_decide (x = Some c)) (ev_consumers event) with
  | Some _ => mret 0
  | None =>
      match scan (fun x => bool_decide (x = None)) (ev_consumers event) with
      | Some i =>
          _ ← event_upd e (fun ev => ev <| ev_consumers ::= <[i := Some c]> |>);
          _ ← event_upd e (fun ev => ev <| ev_consumers_count ::= incr_u32 |>);
          _ ← client_upd c (fun cl => cl <| cl_event_subscribe ::= incr_i32 |>);
          mret 0
      | None => mret (-1)
      end
  end.

Definition syncs_remove_client_from_event (c e : nat) : SM unit :=
  event ← event_at e;
  match scan (fun x => bool_decide (x = Some c)) (ev_consumers event) with
  | Some i =>
      _ ← event_upd e (fun ev => ev <| ev_consumers ::= <[i := None]> |>);
      _ ← event_upd e (fun ev => ev <| ev_consumers_count ::= decr_u32 |>);
      client_upd c (fun cl => cl <| cl_event_subscribe ::= decr_i32 |>)
  | None => mret tt
  end.

Definition syncs_remove_client_from_events (c : nat) : SM unit :=
  for_each (seq 0 SYNCS_EVENT_MAXIMUM) (fun i =>
    ev ← event_at i;
    if negb (id_is_free (ev_id ev)) then syncs_remove_client_from_event c i else mret tt).

Definition syncs_remove_channels_of_client (c : nat) : SM unit :=
  for_each (seq 0 SYNCS_CHANNEL_MAXIMUM) (fun i =>
    ch ← channel_at i;
    if negb (id_is_free (ch_id ch)) && bool_decide (ch_producer ch = Some c)
    then channel_upd i (fun ch => ch <| ch_id ::= id_set_free |>)
    else mret tt).
