(* ===== verification/ServerEvents.v ===== *)
(** * Server: events, variables and their subscribers

    The part of src/libsyncs/syncs-server.c that defines, reads, writes and
    publishes events, for the application that embeds the server
    ([syncs_server_*]) and for the packets of a client ([syncs_client_*]). *)

From S2P Require Import Prelude.
From S2P Require Import Monad.
From S2P Require Import Types.
From S2P Require Import Net.
From S2P Require Import ServerState.

Section events.
Context `{Env}.

(** ** Sending to a client *)

Definition syncs_client_send (c : nat) (packet : syncs_packet) : SM Z :=
  cl ← client_at c;
  let buffer := packet_bytes packet in
  let size := SYNCS_PACKET_SIZE packet in
  if cl_socketfd cl >? -1 then
    syncs_blocking_send (cl_socketfd cl) buffer size
  else if cl_socketfd cl =? UDP_SOCKET_STUB then
    s ← server_get;
    _ ← syncs_udp_send (sv_usocketfd s) buffer size (cl_addr cl);
    mret 0
  else mret (-1).

(** [int64_t] seconds and nanoseconds; the packet fields are [uint32_t]. *)
Definition syncs_sync_calculate (offset_s offset_ms : Z) : SM syncdata :=
  log ← gets w_log;
  let '(now_sec, now_nsec) := env_realtime log in
  let sec := now_sec + offset_s in
  let nsec := now_nsec + offset_ms * 1000000 in
  let '(sec, nsec) :=
    if nsec >? 1000000000 then (sec + 1, nsec - 1000000000) else (sec, nsec) in
  mret (mk_sync (u32 sec) (u32 nsec)).

Definition syncs_send_event (e : nat) (flags : Z) : SM Z :=
  packet ← stack_packet;
  event ← event_at e;
  let header := syncs_fill_header (pk_header packet) (ev_id event)
                  (Z.lor SYNCS_TYPE_EVENT (ev_data_type event)) in
  buffer ← memcpy (pk_buffer packet) 0 (ev_data event) (ev_data_size event);
  let header := header <| hd_data_size := u16 (ev_data_size event) |> in
  header ←
    (if flag flags SYNCS_TYPE_SYNC then
       s ← server_get;
       sync ← syncs_sync_calculate 0 (sv_sync_offset s);
       mret (header <| hd_type ::= fun t => Z.lor t SYNCS_TYPE_SYNC |> <| hd_sync := sync |>)
     else mret header);
  let packet := mk_packet header buffer in
  _ ← for_each (seq 0 SYNCS_CLIENT_MAXIMUM) (fun i =>
    event ← event_at e;
    slot ← deref (ev_consumers event !! i);
    match slot with
    | None => mret tt
    | Some c =>
        if bool_decide (ev_producer event = Some c) && negb (flag flags SYNCS_TYPE_ECHO)
        then mret tt
        else
          _ ← client_upd c (fun cl => cl <| cl_tx_event_count ::= incr_i32 |>);
          ret ← syncs_client_send c packet;
          if negb (ret =? 0)
          then client_upd c (fun cl => cl <| cl_tx_error ::= incr_i32 |>)
          else mret tt
    end);
  mret 0.

Definition syncs_resend_event (c e : nat) : SM Z :=
  packet ← stack_packet;
  event ← event_at e;
  let header := syncs_fill_header (pk_header packet) (ev_id event)
                  (Z.lor SYNCS_TYPE_EVENT SYNCS_STATUS_LOST) in
  buffer ← memcpy (pk_buffer packet) 0 (ev_data event) (ev_data_size event);
  let packet := mk_packet (header <| hd_data_size := u16 (ev_data_size event) |>) buffer in
  _ ← syncs_client_send c packet;
  _ ← client_upd c (fun cl => cl <| cl_tx_event_count ::= incr_i32 |>);
  mret 0.

Definition syncs_send_server_status (c : nat) (code : Z) : SM Z :=
  packet ← stack_packet;
  s ← server_get;
  let header := syncs_fill_header_request_str (pk_header packet)
                  (id_chars (sv_id s)) SYNCS_TYPE_SERVER_STATUS in
  let packet := packet <| pk_header := header <| hd_update_counter := u64 code |> |> in
  _ ← syncs_client_send c packet;
  _ ← client_upd c (fun cl => cl <| cl_tx_event_count ::= incr_i32 |>);
  mret 0.

Definition syncs_send_udp_server_status (addr : sockaddr_in) (code : Z) : SM Z :=
  packet ← stack_packet;
  s ← server_get;
  let header := syncs_fill_header_request_str (pk_header packet)
                  (id_chars (sv_id s)) SYNCS_TYPE_SERVER_STATUS in
  let packet := packet <| pk_header := header <| hd_update_counter := u64 code |> |> in
  _ ← emit (IoSendto (sv_usocketfd s) addr (ztake sizeof_header (packet_bytes packet)));
  mret 0.

(** The opening lines of four operations: look the event up and create it
    when [SYNCS_TYPE_FORCE] is set; [inl] is an early [return]. *)
Definition find_or_create (id : syncsid_t) (flags : Z) (created : nat -> SM unit) : SM (Z + nat) :=
  s ← server_get;
  match syncs_find_event s id with
  | Some e => mret (inr e)
  | None =>
      if negb (flag flags SYNCS_TYPE_FORCE) then mret (inl (-1))
      else
        event ← syncs_create_event id;
        match event with
        | None => mret (inl (-2))
        | Some e => _ ← created e; mret (inr e)
        end
  end.

(** [event->data_type = flags & SYNCS_TYPE_VAR_MASK]. *)
Definition event_set_type (flags : Z) (e : nat) : SM unit :=
  event_upd e (fun ev => ev <| ev_data_type := Z.land flags SYNCS_TYPE_VAR_MASK |>).

(** ** The application's side of the server *)

Definition syncs_server_subscribe_event (flags : Z) (cid : list byte) (cb args : Z) : SM Z :=
  found ← find_or_create (syncs_idstr cid) flags (fun _ => mret tt);
  match found with
  | inl code => mret code
  | inr e =>
      _ ← event_upd e (fun ev => ev <| ev_args := args |>);
      _ ← event_upd e (fun ev => ev <| ev_cb := cb |>);
      mret 0
  end.

Definition syncs_server_unsubscribe_event (cid : list byte) : SM unit :=
  s ← server_get;
  match syncs_find_event s (syncs_idstr cid) with
  | None => mret tt
  | Some e =>
      _ ← event_upd e (fun ev => ev <| ev_cb := NULL |>);
      event_upd e (fun ev => ev <| ev_args := NULL |>)
  end.

(** [memcpy(event->data, data, n)]. *)
Definition event_store (e : nat) (data : list byte) (n : Z) : SM unit :=
  event ← event_at e;
  bytes ← memcpy (ev_data event) 0 data n;
  event_upd e (fun ev => ev <| ev_data := bytes |>).

Definition syncs_server_write (flags : Z) (cid : list byte) (data : list byte) (data_size : Z) : SM Z :=
  found ← find_or_create (syncs_idstr cid) flags (fun _ => mret tt);
  match found with
  | inl code => mret code
  | inr e =>
      let data_size := if data_size =? 0 then syncs_get_size_by_type flags else data_size in
      _ ← event_store e data data_size;
      _ ← event_upd e (fun ev => ev <| ev_data_size := data_size |>);
      event ← event_at e;
      _ ← (if bool_decide (ev_producer event <> None) then
             _ ← event_upd e (fun ev => ev <| ev_producer := None |>);
             event_upd e (fun ev => ev <| ev_producers_count ::= incr_u32 |>)
           else mret tt);
      _ ← syncs_send_event e flags;
      mret 0
  end.

(** The scalar writers pass the object representation of their argument;
    the floating-point ones take the bit pattern of the IEEE value. *)
Definition syncs_server_write_int32 (flags : Z) (id : list byte) (data : Z) : SM Z :=
  syncs_server_write (Z.lor flags SYNCS_TYPE_VAR_INT32) id (le_split 4 data) 0.
Definition syncs_server_write_int64 (flags : Z) (id : list byte) (data : Z) : SM Z :=
  syncs_server_write (Z.lor flags SYNCS_TYPE_VAR_INT64) id (le_split 8 data) 0.
Definition syncs_server_write_float (flags : Z) (id : list byte) (bits : Z) : SM Z :=
  syncs_server_write (Z.lor flags SYNCS_TYPE_VAR_FLOAT) id (le_split 4 bits) 0.
Definition syncs_server_write_double (flags : Z) (id : list byte) (bits : Z) : SM Z :=
  syncs_server_write (Z.lor flags SYNCS_TYPE_VAR_DOUBLE) id (le_split 8 bits) 0.
Definition syncs_server_write_str (flags : Z) (id : list byte) (data : list byte) : SM Z :=
  syncs_server_write (Z.lor flags SYNCS_TYPE_VAR_STRING) id
    (cstr data ++ [Byte.x00]) (u32 (zlen (cstr data) + 1)).

(** Returns the code, the caller's buffer and [*data_size]. *)
Definition syncs_server_read (flags : Z) (cid : list byte) (data : list byte) (data_size : Z)
    : SM (Z * list byte * Z) :=
  s ← server_get;
  match syncs_find_event s (syncs_idstr cid) with
  | None => mret (-1, data, data_size)
  | Some e =>
      event ← event_at e;
      let data_size :=
        if data_size >? ev_data_size event then ev_data_size event else data_size in
      bytes ← memcpy data 0 (ev_data event) data_size;
      mret (0, bytes, data_size)
  end.

(** The scalar readers: the object the caller passed is [sizeof] bytes. *)
Definition syncs_server_read_int32 (flags : Z) (id : list byte) (data : list byte) : SM (Z * list byte * Z) :=
  syncs_server_read (Z.lor flags SYNCS_TYPE_VAR_INT32) id data 4.
Definition syncs_server_read_int64 (flags : Z) (id : list byte) (data : list byte) : SM (Z * list byte * Z) :=
  syncs_server_read (Z.lor flags SYNCS_TYPE_VAR_INT64) id data 8.
Definition syncs_server_read_float (flags : Z) (id : list byte) (data : list byte) : SM (Z * list byte * Z) :=
  syncs_server_read (Z.lor flags SYNCS_TYPE_VAR_FLOAT) id data 4.
Definition syncs_server_read_double (flags : Z) (id : list byte) (data : list byte) : SM (Z * list byte * Z) :=
  syncs_server_read (Z.lor flags SYNCS_TYPE_VAR_DOUBLE) id data 8.
Definition syncs_server_read_str (flags : Z) (id : list byte) (data : list byte) (size : Z) : SM (Z * list byte * Z) :=
  syncs_server_read (Z.lor flags SYNCS_TYPE_VAR_STRING) id data size.

(** [cb(args, id->c, event->data, event->data_size)] unless [cb] is NULL;
    the callback sees the stored bytes. *)
Definition event_callback (e : nat) (id : syncsid_t) : SM unit :=
  event ← event_at e;
  if negb (ev_cb event =? NULL) then
    data ← memcpy (zero_bytes (ev_data_size event)) 0 (ev_data event) (ev_data_size event);
    emit (IoCallback (ev_cb event) (ev_args event) id data)
  else mret tt.

Definition syncs_server_cb_event (id : syncsid_t) : SM unit :=
  s ← server_get;
  match syncs_find_event s id with
  | None => mret tt
  | Some e => event_callback e id
  end.

(** [data = None] is the NULL the [DEFINE] packet passes. *)
Definition syncs_add_event (id : syncsid_t) (flags : Z) (data : option (list byte)) (size : Z) : SM Z :=
  s ← server_get;
  found ←
    match syncs_find_event s id with
    | None =>
        event ← syncs_create_event id;
        match event with
        | None => mret (inl (-1))
        | Some e => mret (inr e)
        end
    | Some e => if negb (flag flags SYNCS_TYPE_FORCE) then mret (inl (-2)) else mret (inr e)
    end;
  match found with
  | inl code => mret code
  | inr e =>
      _ ← event_set_type flags e;
      let data_size :=
        if (size >? 1) && (size <? SYNCS_VARIABLE_SIZE_MAXIMUM) then size
        else syncs_get_size_by_type flags in
      _ ← event_upd e (fun ev => ev <| ev_data_size := data_size |>);
      match data with
      | Some bytes => _ ← event_store e bytes data_size; mret 0
      | None => mret 0
      end
  end.

Definition syncs_server_define (cid : list byte) (flags : Z) (data : option (list byte)) (size : Z) : SM Z :=
  if size >? SYNCS_VARIABLE_SIZE_MAXIMUM then mret (-5)
  else syncs_add_event (syncs_idstr cid) flags data size.

Definition syncs_server_undefine (cid : list byte) : SM Z :=
  _ ← syncs_free_event (syncs_idstr cid);
  mret 0.

(** ** The client's packets *)

Definition syncs_client_subscribe (c : nat) (id : syncsid_t) (flags update_counter : Z) : SM Z :=
  found ← find_or_create id flags (event_set_type flags);
  match found with
  | inl code => mret code
  | inr e =>
      event ← event_at e;
      if (Z.land (ev_data_type event) SYNCS_TYPE_VAR_MASK =? SYNCS_TYPE_VAR_ANY) ||
         (Z.land flags SYNCS_TYPE_VAR_MASK =? SYNCS_TYPE_VAR_ANY) ||
         (Z.land flags SYNCS_TYPE_VAR_MASK =? ev_data_type event)
      then
        _ ← syncs_add_client_to_event c e;
        event ← event_at e;
        if update_counter <? ev_update_counter event
        then _ ← syncs_resend_event c e; mret 0
        else mret 0
      else mret (-3)
  end.

Definition syncs_client_unsubscribe (c : nat) (id : syncsid_t) : SM Z :=
  s ← server_get;
  match syncs_find_event s id with
  | Some e => _ ← syncs_remove_client_from_event c e; mret 0
  | None => mret 0
  end.

Definition syncs_client_read (c : nat) (id : syncsid_t) : SM Z :=
  packet ← stack_packet;
  let header := syncs_fill_header (pk_header packet) id SYNCS_TYPE_READ in
  s ← server_get;
  packet ←
    match syncs_find_event s id with
    | Some e =>
        event ← event_at e;
        buffer ← memcpy (pk_buffer packet) 0 (ev_data event) (ev_data_size event);
        mret (mk_packet
          (header <| hd_data_size := u16 (ev_data_size event) |>
                  <| hd_type ::= fun t => Z.lor t (Z.land (ev_data_type event) SYNCS_TYPE_VAR_MASK) |>)
          buffer)
    | None =>
        mret (packet <| pk_header :=
          header <| hd_type ::= fun t => Z.lor t SYNCS_TYPE_VAR_NOT_DEFINED |>
                 <| hd_data_size := 0 |> |>)
    end;
  _ ← syncs_client_send c packet;
  _ ← client_upd c (fun cl => cl <| cl_tx_event_count ::= incr_i32 |>);
  mret 0.

(** The stores of [syncs_client_write] once the type is accepted: the producer,
    the counters, the value and its version. *)
Definition client_write_store (c e : nat) (data : list byte) (data_size : Z) : SM unit :=
  event ← event_at e;
  _ ← (if negb (bool_decide (ev_producer event = Some c)) then
         _ ← event_upd e (fun ev => ev <| ev_producer := Some c |>);
         event_upd e (fun ev => ev <| ev_producers_count ::= incr_u32 |>)
       else mret tt);
  _ ← event_upd e (fun ev => ev <| ev_count ::= incr_u32 |>);
  _ ← client_upd c (fun cl => cl <| cl_event_write ::= incr_i32 |>);
  _ ← event_store e data data_size;
  _ ← event_upd e (fun ev => ev <| ev_data_size := data_size |>);
  s ← server_get;
  _ ← event_upd e (fun ev => ev <| ev_update_counter := sv_update_counter s |>);
  server_upd (fun s => s <| sv_update_counter ::= incr_u64 |>).

Definition syncs_client_write (c : nat) (id : syncsid_t) (flags : Z) (data : list byte) (data_size : Z) : SM Z :=
  found ← find_or_create id flags (event_set_type flags);
  match found with
  | inl code => mret code
  | inr e =>
      event ← event_at e;
      if negb (Z.land flags SYNCS_TYPE_VAR_MASK =? ev_data_type event) then mret (-3)
      else
        _ ← client_write_store c e data data_size;
        _ ← event_callback e id;
        _ ← syncs_send_event e
              (Z.land flags (Z.lor (Z.lor SYNCS_TYPE_VAR_MASK SYNCS_TYPE_SYNC) SYNCS_TYPE_ECHO));
        mret 0
  end.
End events.
