(* ===== verification/ServerPackets.v ===== *)
(** * Server: channels, lists, packet dispatch and receive handlers

    The part of src/libsyncs/syncs-server.c that answers the list requests,
    keeps the channel table, dispatches a packet to its operation, cuts the
    TCP stream into packets, accepts clients and runs the event loop. *)

From S2P Require Import Prelude.
From S2P Require Import Monad.
From S2P Require Import Types.
From S2P Require Import Net.
From S2P Require Import Framing.
From S2P Require Import ServerState.
From S2P Require Import ServerEvents.

Section packets.
Context `{Env}.

(** ** List replies

    [syncs_client_send_clientlist], [..._eventlist] and [..._channellist]
    run the same loop over three tables; [list_source] is what differs. *)

Record list_source : Type := {
  ls_type : Z;                                   (* packet type *)
  ls_size : Z;                                   (* sizeof of one entry *)
  ls_slots : nat;                                (* slots of the table *)
  ls_total : syncs_server -> Z;                  (* the count shown in id.c[1] *)
  ls_live : syncs_server -> nat -> option bool;  (* slot in use; None: no such slot *)
  ls_fill : nat -> Z -> list byte -> SM (list byte) (* write slot at entry n *) }.

Definition ls_max (ls : list_source) : Z := SYNCS_VARIABLE_SIZE_MAXIMUM / ls_size ls.

(** [p->field = v] for an entry at offset [off] of [packet.buffer]. *)
Definition put_field (off : Z) (bs : list byte) (buffer : list byte) : SM (list byte) :=
  memcpy buffer off bs (zlen bs).

Definition client_info_fill (i : nat) (n : Z) (buffer : list byte) : SM (list byte) :=
  client ← client_at i;
  let off := n * sizeof_client_info in
  b ← put_field off (id_chars (cl_id client)) buffer;
  b ← put_field (off + 32) (le_split 4 (cl_event_subscribe client)) b;
  b ← put_field (off + 36) (le_split 4 (cl_event_write client)) b;
  b ← put_field (off + 40) (le_split 4 (cl_rx_event_count client)) b;
  b ← put_field (off + 44) (le_split 4 (cl_tx_event_count client)) b;
  put_field (off + 48) (le_split 4 (sin_addr (cl_addr client))) b.

(** [time] is never assigned and [short_data] only up to [data_size]: those
    bytes keep what the stack held. *)
Definition event_info_fill (i : nat) (n : Z) (buffer : list byte) : SM (list byte) :=
  event ← event_at i;
  let off := n * sizeof_event_info in
  b ← put_field off (id_chars (ev_id event)) buffer;
  b ← put_field (off + 82) (le_split 4 (ev_consumers_count event)) b;
  b ← put_field (off + 78) (le_split 4 (ev_count event)) b;
  b ← put_field (off + 68) (le_split 2 (ev_data_size event)) b;
  b ← put_field (off + 86) (le_split 4 (ev_producers_count event)) b;
  b ← put_field (off + 32) (le_split 4 (ev_data_type event)) b;
  memcpy b (off + 36) (ev_data event) (Z.min (ev_data_size event) SYNCS_VARIABLE_INFO_SIZE_MAXIMUM).

Definition channel_info_fill (i : nat) (n : Z) (buffer : list byte) : SM (list byte) :=
  channel ← channel_at i;
  let off := n * sizeof_channel_info in
  b ← put_field off (id_chars (ch_id channel)) buffer;
  b ← put_field (off + 32) (le_split 4 (ch_anons_count channel)) b;
  b ← put_field (off + 36) (le_split 4 (ch_request_count channel)) b;
  b ← put_field (off + 40) (le_split 4 (tk_ip (ch_ticket channel))) b;
  put_field (off + 44) (le_split 2 (tk_port (ch_ticket channel))) b.

Definition client_list : list_source := {|
  ls_type := SYNCS_TYPE_CLIENT_LIST;
  ls_size := sizeof_client_info;
  ls_slots := SYNCS_CLIENT_MAXIMUM;
  ls_total s := sv_client_count s;
  ls_live s i := (fun c => negb (cl_socketfd c =? -1)) <$> sv_clients s !! i;
  ls_fill := client_info_fill |}.

Definition event_list : list_source := {|
  ls_type := SYNCS_TYPE_EVENT_LIST;
  ls_size := sizeof_event_info;
  ls_slots := SYNCS_EVENT_MAXIMUM;
  ls_total s := sv_event_count s;
  ls_live s i := (fun e => negb (id_is_free (ev_id e))) <$> sv_events s !! i;
  ls_fill := event_info_fill |}.

Definition channel_list : list_source := {|
  ls_type := SYNCS_TYPE_CHANNEL_LIST;
  ls_size := sizeof_channel_info;
  ls_slots := SYNCS_CHANNEL_MAXIMUM;
  ls_total s := sv_channel_count s;
  ls_live s i := (fun c => negb (id_is_free (ch_id c))) <$> sv_channels s !! i;
  ls_fill := channel_info_fill |}.

(** [packet.header.id.c[k] = v]. *)
Definition set_id_char (k : nat) (v : Z) (p : syncs_packet) : syncs_packet :=
  p <| pk_header ::= fun h => h <| hd_id ::= fun a => id_set_char a k v |> |>.

(** Send what the packet holds: [n] entries. *)
Definition list_flush (ls : list_source) (c : nat) (n : Z) (packet : syncs_packet) : SM syncs_packet :=
  let packet := set_id_char 2 n packet in
  let packet := packet <| pk_header ::= fun h => h <| hd_data_size := u16 (n * ls_size ls) |> |> in
  _ ← syncs_client_send c packet;
  _ ← client_upd c (fun cl => cl <| cl_tx_event_count ::= incr_i32 |>);
  mret packet.

Definition list_step (ls : list_source) (c : nat) (acc : syncs_packet * Z) (i : nat)
    : SM (syncs_packet * Z) :=
  let '(packet, count) := acc in
  s ← server_get;
  live ← deref (ls_live ls s i);
  if (live : bool) then
    buffer ← ls_fill ls i count (pk_buffer packet);
    let packet := packet <| pk_buffer := buffer |> in
    let count := u8 (count + 1) in
    if count >=? ls_max ls then
      packet ← list_flush ls c count packet;
      let packet := set_id_char 0 (id_char (hd_id (pk_header packet)) 0 + 1) packet in
      mret (packet, 0)
    else mret (packet, count)
  else mret (packet, count).

Definition syncs_client_send_list (ls : list_source) (c : nat) (sequance : Z) : SM unit :=
  packet ← stack_packet;
  s ← server_get;
  let packet := packet <| pk_header ::= fun h => syncs_fill_basic_header h (ls_type ls) |> in
  let packet := set_id_char 0 0 packet in
  let packet := set_id_char 1 (ls_total ls s / ls_max ls + 1) packet in
  let packet := set_id_char 3 sequance packet in
  let packet := set_id_char 4 0 packet in
  acc ← fold_m (list_step ls c) (packet, 0) (seq 0 (ls_slots ls));
  let '(packet, count) := acc in
  let packet := set_id_char 4 1 packet in
  _ ← list_flush ls c count packet;
  mret tt.

Definition syncs_client_send_clientlist : nat -> Z -> SM unit := syncs_client_send_list client_list.
Definition syncs_client_send_eventlist : nat -> Z -> SM unit := syncs_client_send_list event_list.
Definition syncs_client_send_channellist : nat -> Z -> SM unit := syncs_client_send_list channel_list.

(** ** Channels *)

(** [ticket] points into the received bytes: [data] is the memory from that
    address to the end of the receive buffer. *)
Definition syncs_add_channel (c : nat) (id : syncsid_t) (flags : Z) (data : list byte) : SM Z :=
  s ← server_get;
  channel ←
    match syncs_find_channel s id with
    | Some n => mret (Some n)
    | None => syncs_create_channel id
    end;
  match channel with
  | None => mret (-1)
  | Some n =>
      _ ← channel_upd n (fun ch => ch <| ch_anons_count ::= incr_u32 |>);
      bytes ← memcpy (zero_bytes sizeof_channel_ticket) 0 data sizeof_channel_ticket;
      _ ← channel_upd n (fun ch => ch <| ch_ticket := decode_ticket bytes |>);
      cl ← client_at c;
      _ ← channel_upd n (fun ch => ch <| ch_ticket ::= fun t => t <| tk_ip := sin_addr (cl_addr cl) |> |>);
      ch ← channel_at n;
      _ ← (if negb (bool_decide (ch_producer ch = Some c)) then
             _ ← channel_upd n (fun ch => ch <| ch_producer := Some c |>);
             channel_upd n (fun ch => ch <| ch_producers_count ::= incr_u32 |>)
           else mret tt);
      mret 0
  end.

Definition syncs_client_channel_request (c : nat) (id : syncsid_t) (flags : Z) : SM Z :=
  packet ← stack_packet;
  s ← server_get;
  match syncs_find_channel s id with
  | None => mret (-1)
  | Some n =>
      let header := syncs_fill_header (pk_header packet) id SYNCS_CHANNEL_TICKET in
      ch ← channel_at n;
      buffer ← memcpy (pk_buffer packet) 0 (encode_ticket (ch_ticket ch)) sizeof_channel_ticket;
      _ ← syncs_client_send c
            (mk_packet (header <| hd_data_size := sizeof_channel_ticket |>) buffer);
      mret 0
  end.

Definition syncs_client_channel (c : nat) (header : syncs_header) (data : list byte) : SM Z :=
  let kind := Z.land (hd_type header) SYNCS_CHANNEL_MASK in
  if kind =? SYNCS_CHANNEL_ANONS then
    _ ← syncs_add_channel c (hd_id header) (hd_type header) data; mret 0
  else if kind =? SYNCS_CHANNEL_REQUEST then
    _ ← syncs_client_channel_request c (hd_id header) (hd_type header); mret 0
  else mret (-1).

(** ** Packets *)

Definition syncs_close_client_socket (c : nat) : SM unit :=
  cl ← client_at c;
  let socketfd := cl_socketfd cl in
  _ ← emit (IoEpollDel socketfd);
  _ ← syncs_remove_client_from_events c;
  _ ← syncs_remove_channels_of_client c;
  _ ← client_upd c (fun cl => cl <| cl_socketfd := -1 |>);
  emit (IoClose socketfd).

(** The operation a packet type selects; [None] for the [default] branch. *)
Definition packet_operation (c : nat) (header : syncs_header) (data : list byte) : option (SM unit) :=
  let void {A} (m : SM A) : SM unit := _ ← m; mret tt in
  let id := hd_id header in
  let type := hd_type header in
  let msg := Z.land type SYNCS_TYPE_MSG_MASK in
  if msg =? SYNCS_TYPE_SUBSCRIBE then
    Some (void (syncs_client_subscribe c id type (hd_update_counter header)))
  else if msg =? SYNCS_TYPE_UNSUBSCRIBE then
    Some (void (syncs_client_unsubscribe c id))
  else if msg =? SYNCS_TYPE_DEFINE then
    Some (void (syncs_add_event id type None (hd_data_size header)))
  else if msg =? SYNCS_TYPE_UNDEFINE then
    Some (syncs_free_event id)
  else if msg =? SYNCS_TYPE_WRITE then
    Some (void (syncs_client_write c id type data (hd_data_size header)))
  else if msg =? SYNCS_TYPE_READ then
    Some (void (syncs_client_read c id))
  else if msg =? SYNCS_TYPE_CLIENT_LIST then
    Some (syncs_client_send_clientlist c (id_char id 0))
  else if msg =? SYNCS_TYPE_EVENT_LIST then
    Some (syncs_client_send_eventlist c (id_char id 0))
  else if msg =? SYNCS_TYPE_CLIENT_ID then
    Some (
      _ ← (if negb (data0 (hd_sync header) =? SYNCS_VERSION_MAJOR) then
             _ ← syncs_send_server_status c SYNCS_ERROR_NOTSUPPORT;
             syncs_close_client_socket c
           else void (syncs_send_server_status c SYNCS_ERROR_NOTFOUND));
      _ ← client_upd c (fun cl => cl <| cl_id := id |>);
      client_upd c (fun cl => cl <| cl_version :=
        Z.lor (Z.shiftl (Z.land (data0 (hd_sync header)) 0xff) 8)
              (Z.land (data1 (hd_sync header)) 0xff) |>))
  else if msg =? SYNCS_TYPE_CHANNEL then
    Some (void (syncs_client_channel c header data))
  else if msg =? SYNCS_TYPE_CHANNEL_LIST then
    Some (syncs_client_send_channellist c (id_char id 0))
  else None.

Definition syncs_client_process_packet (c : nat) (header : syncs_header) (data : list byte) : SM Z :=
  match packet_operation c header data with
  | None => mret (-1)
  | Some operation =>
      _ ← operation;
      _ ← client_upd c (fun cl => cl <| cl_rx_event_count ::= incr_i32 |>);
      mret 0
  end.

(** ** TCP *)

(** The [while] loop of [syncs_client_handler]: returns the buffer and
    [buffer_head]. *)
Definition client_handler_loop (fuel : nat) (c : nat) (buffer : list byte) (head recv : Z)
    : SM (list byte * Z) :=
  receive_loop (fun header data => _ ← syncs_client_process_packet c header data; mret tt)
    fuel buffer head recv.

Definition syncs_client_handler (c : nat) (r : recv_result) : SM Z :=
  cl ← client_at c;
  let buffer_recv := cl_buffer_recv cl in
  match r with
  | RecvError errno =>
      if (errno =? EAGAIN) || (errno =? EINTR) then mret 0
      else _ ← syncs_close_client_socket c; mret 0
  | RecvData bs =>
      let read_size := zlen bs in
      buffer ← memcpy (cl_buffer cl) buffer_recv bs read_size;
      _ ← client_upd c (fun cl => cl <| cl_buffer := buffer |>);
      if read_size <? sizeof_header then
        if read_size =? 0 then _ ← syncs_close_client_socket c; mret 0
        else mret 0
      else
        let buffer_recv := buffer_recv + read_size in
        res ← client_handler_loop (Z.to_nat buffer_recv + 1) c buffer 0 buffer_recv;
        let '(buffer, buffer_head) := res in
        if buffer_head <? buffer_recv then
          let rest := mem_sub buffer_head (buffer_recv - buffer_head) buffer in
          let buffer := if buffer_head =? 0 then buffer else mem_put 0 rest buffer in
          _ ← client_upd c (fun cl => cl <| cl_buffer := buffer |>);
          _ ← client_upd c (fun cl => cl <| cl_buffer_recv := u32 (buffer_recv - buffer_head) |>);
          mret 0
        else
          _ ← client_upd c (fun cl => cl <| cl_buffer := buffer |>);
          _ ← client_upd c (fun cl => cl <| cl_buffer_recv := 0 |>);
          mret 0
  end.

(** What [accept] returned. *)
Inductive accept_result : Type :=
  | AcceptError (errno : Z)
  | AcceptFd (fd : Z) (addr : sockaddr_in).

(** ENETDOWN, EPROTO, ENOPROTOOPT, EHOSTDOWN, ENONET, EHOSTUNREACH,
    EOPNOTSUPP, ENETUNREACH. *)
Definition network_errno (errno : Z) : bool :=
  existsb (Z.eqb errno) [100; 71; 92; 112; 64; 113; 95; 101].

Definition client_reset_counters (cl : syncs_client) : syncs_client :=
  cl <| cl_event_subscribe := 0 |>
     <| cl_rx_event_count := 0 |>
     <| cl_tx_event_count := 0 |>
     <| cl_event_write := 0 |>.

Definition syncs_add_client (r : accept_result) : SM Z :=
  s ← server_get;
  match syncs_get_free_client s with
  | None => mret 0
  | Some c =>
      match r with
      | AcceptError errno =>
          _ ← client_upd c (fun cl => cl <| cl_socketfd := -1 |>);
          if network_errno errno then mret 0 else mret (-1)
      | AcceptFd fd addr =>
          _ ← client_upd c (fun cl => cl <| cl_addr := addr |>);
          _ ← client_upd c (fun cl => cl <| cl_socketfd := fd |>);
          _ ← client_upd c client_reset_counters;
          _ ← emit (IoEpollAdd fd);
          _ ← server_upd (fun s => s <| sv_client_count ::= incr_u32 |>);
          mret 0
      end
  end.

(** ** UDP *)

Definition syncs_add_uclient (addr : sockaddr_in) : SM (option nat) :=
  s ← server_get;
  match syncs_get_free_client s with
  | None => mret None
  | Some c =>
      _ ← client_upd c (fun cl => cl <| cl_addr := addr |>);
      _ ← client_upd c (fun cl => cl <| cl_socketfd := UDP_SOCKET_STUB |>);
      _ ← client_upd c client_reset_counters;
      _ ← server_upd (fun s => s <| sv_uclient_count ::= incr_i32 |>);
      _ ← server_upd (fun s => s <| sv_client_count ::= incr_u32 |>);
      mret (Some c)
  end.

Definition syncs_uclient_process_packet (addr : sockaddr_in) (header : syncs_header) (data : list byte)
    : SM Z :=
  s ← server_get;
  client ←
    match syncs_find_uclient_addr s addr with
    | Some c => mret (Some c)
    | None =>
        if Z.land (hd_type header) SYNCS_TYPE_MSG_MASK =? SYNCS_TYPE_CLIENT_ID then
          match syncs_find_uclient_id s (hd_id header) with
          | None => syncs_add_uclient addr
          | Some c =>
              _ ← client_upd c (fun cl => cl <| cl_addr := addr |>);
              mret (Some c)
          end
        else
          _ ← syncs_send_udp_server_status addr 2;
          mret None
    end;
  match client with
  | None => mret (-1)
  | Some c => _ ← syncs_client_process_packet c header data; mret 0
  end.

Definition syncs_udp_handler (addr : sockaddr_in) (r : recv_result) : SM Z :=
  match r with
  | RecvError errno => mret 0
  | RecvData bs =>
      let read_size := zlen bs in
      s ← server_get;
      buffer ← memcpy (sv_ubuffer s) 0 bs read_size;
      _ ← server_upd (fun s => s <| sv_ubuffer := buffer |>);
      if read_size <? sizeof_header then mret 0
      else
        let packet_header := decode_header (mem_sub 0 sizeof_header buffer) in
        if negb (hd_magic packet_header =? SYNCS_PACKET_MAGIC) then mret 0
        else if negb (hd_magic_data packet_header =? SYNCS_PACKET_MAGIC_DATA) then mret 0
        else
          let buffer := mask_data_size 0 buffer in
          _ ← server_upd (fun s => s <| sv_ubuffer := buffer |>);
          let packet_header := decode_header (mem_sub 0 sizeof_header buffer) in
          syncs_uclient_process_packet addr packet_header (zdrop sizeof_header buffer)
  end.

(** ** The event loop *)

(** One callback of [syncs_recv_clients]: what [epoll_wait] reports. *)
Inductive epoll_event : Type :=
  | EpAccept (r : accept_result)
  | EpClient (c : nat) (r : recv_result)
  | EpUdp (addr : sockaddr_in) (r : recv_result).

Definition epoll_callback (e : epoll_event) : SM unit :=
  match e with
  | EpAccept r => _ ← syncs_add_client r; mret tt
  | EpClient c r => _ ← syncs_client_handler c r; mret tt
  | EpUdp addr r => _ ← syncs_udp_handler addr r; mret tt
  end.

(** Registers the two listening sockets, then runs the rounds of
    [while (1) { epoll_wait; for (...) cb }]; [rounds] is what the successive
    [epoll_wait] calls report. *)
Definition syncs_recv_clients (rounds : list (list epoll_event)) : SM unit :=
  s ← server_get;
  _ ← emit (IoEpollAdd (sv_socketfd s));
  _ ← emit (IoEpollAdd (sv_usocketfd s));
  for_each rounds (fun events => for_each events epoll_callback).
End packets.
