(* ===== verification/Handler.v ===== *)
(** * The receive handler is the parser followed by the dispatcher

    [syncs_client_handler] interleaves framing and processing; here it is
    shown equal to processing, in order, the packets [parse] finds. *)

From S2P Require Import Prelude.
From S2P Require Import Monad.
From S2P Require Import Types.
From S2P Require Import Net.
From S2P Require Import ServerState.
From S2P Require Import ServerEvents.
From S2P Require Import ServerPackets.
From S2P Require Import Framing.

Section handler.
Context `{Env}.

(** The bytes of client [cl] that wait for the rest of their packet. *)
Definition pending (cl : syncs_client) : list byte := ztake (cl_buffer_recv cl) (cl_buffer cl).

Definition process_delivery (c : nat) (d : delivery) : SM unit :=
  _ ← syncs_client_process_packet c d.1 d.2; mret tt.

(** What the handler stores when the packets are processed. *)
Definition store_pending (c : nat) (buffer : list byte) (n : Z) : SM Z :=
  _ ← client_upd c (fun cl => cl <| cl_buffer := buffer |>);
  _ ← client_upd c (fun cl => cl <| cl_buffer_recv := n |>);
  mret 0.

(** The handler on a chunk of at least a header: deliver the packets of the
    stream, keep the rest. *)
Lemma client_handler_parse c bs cl w :
  sv_clients (w_server w) !! c = Some cl ->
  zlen (cl_buffer cl) = SYNCS_CLIENT_BUFFER_SIZE -> 0 <= cl_buffer_recv cl ->
  60 <= zlen bs -> cl_buffer_recv cl + zlen bs <= SYNCS_CLIENT_BUFFER_SIZE ->
  exists ds buffer n,
    syncs_client_handler c (RecvData bs) w =
      (_ ← client_upd c (fun cl => cl <| cl_buffer ::= mem_put (cl_buffer_recv cl) bs |>);
       _ ← for_each ds (process_delivery c);
       store_pending c buffer n) w /\
    delivered_frame <$> ds = (parse (pending cl ++ bs)).1 /\
    ztake n buffer = (parse (pending cl ++ bs)).2 /\
    zlen buffer = SYNCS_CLIENT_BUFFER_SIZE /\ 0 <= n /\
    Forall (fun d => 0 <= hd_data_size d.1 <= SYNCS_VARIABLE_SIZE_MAXIMUM /\
      hd_data_size d.1 + (SYNCS_CLIENT_BUFFER_SIZE - (cl_buffer_recv cl + zlen bs)) <= zlen d.2) ds.
Proof.
  intros Hcl Hb Hn Hbs Hfit. set (n0 := cl_buffer_recv cl) in *.
  destruct (receive_loop_parse (fun header data => _ ← syncs_client_process_packet c header data; mret tt)
    (Z.to_nat (n0 + zlen bs) + 1)
    (mem_put n0 bs (cl_buffer cl)) 0 (n0 + zlen bs))
    as (ds & b & hd & Hl & Hfs & Hrest & Hhd & Hz & Hds);
    [lia|rewrite zlen_mem_put; lia|lia|].
  rewrite Z.sub_0_r, mem_sub_after_recv in Hfs, Hrest by lia.
  set (n := n0 + zlen bs - hd) in *.
  exists ds, (if (0 <? n) && negb (hd =? 0) then mem_put 0 (mem_sub hd n b) b else b), n.
  rewrite zlen_mem_put, Hb in Hz, Hds by lia.
  split_and!; [|done| | |subst n; lia|done].
  - unfold syncs_client_handler. erewrite bind_Ok; [|unfold client_at, server_get; by
      rewrite (bind_Ok _ _ _ (w_server w) w), Hcl].
    fold n0. unfold memcpy. pose proof (zlen_nonneg bs).
    rewrite !(proj2 (Z.leb_le _ _)) by lia. cbn [andb]. rewrite ztake_ge by lia.
    rewrite (bind_Ok (mret _) _ _ (mem_put n0 bs (cl_buffer cl)) w) by done.
    rewrite (proj2 (Z.ltb_ge (zlen bs) _)) by clia. apply bind_ext.
    { unfold client_upd, client_at, server_get, server_upd, mbind, M_bind, gets, deref.
      by rewrite Hcl. }
    intros _ w1.
    rewrite (bind_ext _ (_ ← for_each ds (process_delivery c); mret (b, hd)) _ _ w1 (Hl w1)
      (fun _ _ => eq_refl)).
    rewrite bind_assoc. apply bind_ext; [done|]. intros _ w2.
    rewrite (bind_Ok (mret _) _ _ (b, hd) w2) by done. cbn beta iota. fold n.
    unfold store_pending. destruct (hd <? _) eqn:E.
    + apply Z.ltb_lt in E. rewrite (proj2 (Z.ltb_lt 0 n)), u32_small by (subst n; clia).
      cbn [andb]. by destruct (hd =? 0).
    + apply Z.ltb_ge in E. assert (n = 0) as -> by lia. done.
  - unfold pending. fold n0. rewrite <- Hrest. destruct (0 <? n) eqn:E; cbn [andb].
    + apply Z.ltb_lt in E. destruct (hd =? 0) eqn:E0; cbn [negb].
      * apply Z.eqb_eq in E0 as ->. done.
      * assert (zlen (mem_sub hd n b) = n) as Hn' by (apply zlen_mem_sub; rewrite ?Hz; clia).
        rewrite <- Hn' at 1. apply (mem_sub_put 0). rewrite Hz. clia.
    + apply Z.ltb_ge in E. assert (n = 0) as -> by lia. done.
  - destruct (_ && _); [|done]. rewrite zlen_mem_put; [done|lia|].
    rewrite zlen_mem_sub; clia.
Qed.
End handler.
