(* ===== verification/ServerInv.v ===== *)
(** * Server: the representation invariant and memory safety

    [server_wf] is the type invariant of [struct syncs_server]: table sizes,
    buffer sizes, bounds of every stored length and index, and consistent
    subscription lists.  Every operation of the server preserves it and,
    [wp] being total, runs without an out-of-bounds access and terminates. *)

From S2P Require Import Prelude.
From S2P Require Import Monad.
From S2P Require Import Types.
From S2P Require Import Net.
From S2P Require Import Wire.
From S2P Require Import ServerState.
From S2P Require Import ServerEvents.
From S2P Require Import ServerPackets.

(** ** The invariant *)

(** The clients subscribed to an event, in slot order. *)
Definition subscribers (e : syncs_event) : list nat := omap (fun x => x) (ev_consumers e).

Record event_wf (e : syncs_event) : Prop := {
  ewf_data : zlen (ev_data e) = SYNCS_VARIABLE_SIZE_MAXIMUM;
  ewf_size : 0 <= ev_data_size e <= SYNCS_VARIABLE_SIZE_MAXIMUM;
  ewf_slots : length (ev_consumers e) = SYNCS_CLIENT_MAXIMUM;
  ewf_clients : forall c, c ∈ subscribers e -> (c < SYNCS_CLIENT_MAXIMUM)%nat;
  ewf_nodup : NoDup (subscribers e);
  ewf_count : ev_consumers_count e = Z.of_nat (length (subscribers e));
  ewf_type : Z.land (ev_data_type e) SYNCS_TYPE_VAR_MASK = ev_data_type e }.

Record client_wf (c : syncs_client) : Prop := {
  cwf_buffer : zlen (cl_buffer c) = SYNCS_CLIENT_BUFFER_SIZE;
  cwf_recv : 0 <= cl_buffer_recv c < sizeof_header + SYNCS_VARIABLE_SIZE_MAXIMUM }.

(** No two slots in use hold the same identifier. *)
Definition ids_unique {A} (key : A -> syncsid_t) (l : list A) : Prop :=
  forall i j a b, l !! i = Some a -> l !! j = Some b -> key a = key b ->
    id_is_free (key a) = false -> i = j.

Record server_wf (s : syncs_server) : Prop := {
  swf_events : length (sv_events s) = SYNCS_EVENT_MAXIMUM;
  swf_clients : length (sv_clients s) = SYNCS_CLIENT_MAXIMUM;
  swf_channels : length (sv_channels s) = SYNCS_CHANNEL_MAXIMUM;
  swf_event : forall i e, sv_events s !! i = Some e -> event_wf e;
  swf_client : forall i c, sv_clients s !! i = Some c -> client_wf c;
  swf_ubuffer : zlen (sv_ubuffer s) = SYNCS_CLIENT_BUFFER_SIZE;
  swf_event_ids : ids_unique ev_id (sv_events s);
  swf_channel_ids : ids_unique ch_id (sv_channels s) }.

Definition winv (w : world) : Prop := server_wf (w_server w).

(** ** Unique identifiers *)

Section ids_unique.
Context {A : Type} (key : A -> syncsid_t).

(** An update that keeps the identifier or frees the slot. *)
Lemma ids_unique_insert i a l :
  ids_unique key l ->
  (forall b, l !! i = Some b -> key a = key b \/ id_is_free (key a) = true) ->
  ids_unique key (<[i := a]> l).
Proof.
  intros Hl Ha j k x y Hx Hy Hxy Hf.
  apply list_lookup_insert_Some in Hx as [(-> & -> & Hi)|[Hj Hx]];
    apply list_lookup_insert_Some in Hy as [(-> & -> & Hi')|[Hk Hy]]; [done|..|by eapply Hl].
  - destruct (lookup_lt_is_Some_2 _ _ Hi) as [b Hb]. destruct (Ha b Hb) as [E|E]; [|congruence].
    eapply (Hl j k); [done..| |]; congruence.
  - destruct (lookup_lt_is_Some_2 _ _ Hi') as [b Hb]. destruct (Ha b Hb) as [E|E].
    + eapply (Hl j k); [done..| |]; congruence.
    + rewrite Hxy in Hf. congruence.
Qed.

(** Taking a slot for an identifier the table does not hold. *)
Lemma ids_unique_create i a id l :
  ids_unique key l -> scan (fun x => syncs_idcmp (key x) id) l = None -> key a = id ->
  ids_unique key (<[i := a]> l).
Proof.
  intros Hl Hn <- j k x y Hx Hy Hxy Hf. rewrite scan_None in Hn.
  apply list_lookup_insert_Some in Hx as [(-> & -> & Hi)|[Hj Hx]];
    apply list_lookup_insert_Some in Hy as [(-> & -> & Hi')|[Hk Hy]]; [done|..|by eapply Hl].
  - specialize (Hn k y Hy). apply syncs_idcmp_ne in Hn. congruence.
  - specialize (Hn j x Hx). apply syncs_idcmp_ne in Hn. congruence.
Qed.

Lemma ids_unique_free (l : list A) :
  (forall x, x ∈ l -> id_is_free (key x) = true) -> ids_unique key l.
Proof.
  intros Hl i j a b Ha _ _ Hf. rewrite Hl in Hf; [done|]. apply list_elem_of_lookup. eauto.
Qed.
End ids_unique.

(** ** Initial state *)

Lemma calloc_event_wf id : event_wf (calloc_event <| ev_id := id |>).
Proof.
  assert (subscribers (calloc_event <| ev_id := id |>) = []) as Hs by done.
  split; rewrite ?Hs; try done.
  - intros c Hc. by apply elem_of_nil in Hc.
  - constructor.
Qed.

Lemma zero_bytes_len n : 0 <= n -> zlen (zero_bytes n) = n.
Proof. intros. unfold zero_bytes. rewrite zlen_replicate. lia. Qed.

Lemma calloc_client_wf fd : client_wf (calloc_client <| cl_socketfd := fd |>).
Proof. split; simpl; [by apply zero_bytes_len|clia]. Qed.

(** The invariant reads the tables and the UDP buffer only. *)
Lemma server_wf_ext s s' :
  sv_events s' = sv_events s -> sv_clients s' = sv_clients s ->
  sv_channels s' = sv_channels s -> sv_ubuffer s' = sv_ubuffer s ->
  server_wf s -> server_wf s'.
Proof.
  intros E1 E2 E3 E4 [H1 H2 H3 H4 H5 H6 H7 H8].
  split; rewrite ?E1, ?E2, ?E3, ?E4; auto.
Qed.

Lemma structure_init_wf : server_wf (syncs_server_structure_init calloc_server).
Proof.
  set (s := syncs_server_structure_init calloc_server).
  assert (sv_events s = (fun e => e <| ev_id ::= id_set_free |>) <$>
    replicate SYNCS_EVENT_MAXIMUM calloc_event) as E1 by reflexivity.
  assert (sv_clients s = (fun c => c <| cl_socketfd := -1 |>) <$>
    replicate SYNCS_CLIENT_MAXIMUM calloc_client) as E2 by reflexivity.
  assert (sv_channels s = (fun c => c <| ch_id ::= id_set_free |>) <$>
    replicate SYNCS_CHANNEL_MAXIMUM calloc_channel) as E3 by reflexivity.
  assert (sv_ubuffer s = zero_bytes SYNCS_CLIENT_BUFFER_SIZE) as E4 by reflexivity.
  split; rewrite ?E1, ?E2, ?E3, ?E4.
  1-3: by rewrite length_fmap, length_replicate.
  - intros i e. rewrite list_lookup_fmap, fmap_Some. intros (x & Hx & ->).
    apply lookup_replicate in Hx as [-> _]. apply (calloc_event_wf (id_set_free id_zero)).
  - intros i c. rewrite list_lookup_fmap, fmap_Some. intros (x & Hx & ->).
    apply lookup_replicate in Hx as [-> _]. apply (calloc_client_wf (-1)).
  - apply zero_bytes_len. clia.
  - apply ids_unique_free. intros x (y & -> & _)%list_elem_of_fmap. done.
  - apply ids_unique_free. intros x (y & -> & _)%list_elem_of_fmap. done.
Qed.

Lemma server_create_wf addr port cid : server_wf (syncs_server_create addr port cid).
Proof.
  pose proof structure_init_wf as Hw. unfold syncs_server_create.
  generalize dependent (syncs_server_structure_init calloc_server). intros s Hw.
  apply (server_wf_ext s); [..|done]; destruct addr, cid; reflexivity.
Qed.

(** The tables of a fresh server. *)
Definition free_event : syncs_event := calloc_event <| ev_id ::= id_set_free |>.
Definition free_client : syncs_client := calloc_client <| cl_socketfd := -1 |>.
Definition free_channel : syncs_channel := calloc_channel <| ch_id ::= id_set_free |>.

Lemma server_create_tables addr port cid :
  sv_events (syncs_server_create addr port cid) = replicate SYNCS_EVENT_MAXIMUM free_event /\
  sv_clients (syncs_server_create addr port cid) = replicate SYNCS_CLIENT_MAXIMUM free_client /\
  sv_channels (syncs_server_create addr port cid) = replicate SYNCS_CHANNEL_MAXIMUM free_channel.
Proof.
  assert (let s := syncs_server_structure_init calloc_server in
    sv_events s = replicate SYNCS_EVENT_MAXIMUM free_event /\
    sv_clients s = replicate SYNCS_CLIENT_MAXIMUM free_client /\
    sv_channels s = replicate SYNCS_CHANNEL_MAXIMUM free_channel) as Hs.
  { set (s := syncs_server_structure_init calloc_server).
    assert (sv_events s = (fun e => e <| ev_id ::= id_set_free |>) <$>
      replicate SYNCS_EVENT_MAXIMUM calloc_event) as E1 by reflexivity.
    assert (sv_clients s = (fun c => c <| cl_socketfd := -1 |>) <$>
      replicate SYNCS_CLIENT_MAXIMUM calloc_client) as E2 by reflexivity.
    assert (sv_channels s = (fun c => c <| ch_id ::= id_set_free |>) <$>
      replicate SYNCS_CHANNEL_MAXIMUM calloc_channel) as E3 by reflexivity.
    cbn zeta. rewrite E1, E2, E3, !fmap_replicate. unfold free_event, free_client, free_channel.
    split; [reflexivity|]. split; reflexivity. }
  unfold syncs_server_create.
  generalize dependent (syncs_server_structure_init calloc_server). intros s Hs.
  destruct addr, cid; exact Hs.
Qed.

(** ** Subscription lists *)

Lemma omap_insert_Some (l : list (option nat)) i c :
  l !! i = Some None -> omap (fun x => x) (<[i := Some c]> l) ≡ₚ c :: omap (fun x => x) l.
Proof.
  revert i. induction l as [|x l IH]; intros [|i] Hi; simplify_eq/=; [done|].
  destruct x; rewrite IH by done; [apply Permutation_swap|done].
Qed.

Lemma omap_insert_None (l : list (option nat)) i c :
  l !! i = Some (Some c) -> omap (fun x => x) l ≡ₚ c :: omap (fun x => x) (<[i := None]> l).
Proof.
  revert i. induction l as [|x l IH]; intros [|i] Hi; simplify_eq/=; [done|].
  destruct x; simpl; rewrite (IH i) by done; [apply Permutation_swap|done].
Qed.

Lemma scan_subscriber (l : list (option nat)) c :
  scan (fun x => bool_decide (x = Some c)) l = None <-> c ∉ omap (fun x => x) l.
Proof.
  rewrite scan_None, list_elem_of_omap. setoid_rewrite bool_decide_eq_false. split.
  - intros Hn (x & Hx & ->). apply list_elem_of_lookup in Hx as [i Hi]. by apply (Hn i _ Hi).
  - intros Hn i x Hi ->. apply Hn. exists (Some c). split; [|done].
    apply list_elem_of_lookup. eauto.
Qed.

Definition add_consumer (i c : nat) (ev : syncs_event) : syncs_event :=
  ev <| ev_consumers ::= <[i := Some c]> |> <| ev_consumers_count ::= incr_u32 |>.
Definition drop_consumer (i : nat) (ev : syncs_event) : syncs_event :=
  ev <| ev_consumers ::= <[i := None]> |> <| ev_consumers_count ::= decr_u32 |>.

Lemma subscribers_bound ev : event_wf ev -> (length (subscribers ev) <= SYNCS_CLIENT_MAXIMUM)%nat.
Proof.
  intros Hwf. rewrite <- (ewf_slots ev Hwf). unfold subscribers.
  clear. induction (ev_consumers ev) as [|[x|] l IH]; [done|apply le_n_S, IH|apply le_S, IH].
Qed.

Lemma add_consumer_wf i c ev :
  event_wf ev -> (c < SYNCS_CLIENT_MAXIMUM)%nat -> c ∉ subscribers ev ->
  ev_consumers ev !! i = Some None -> event_wf (add_consumer i c ev).
Proof.
  intros Hwf Hc Hn Hi. pose proof (subscribers_bound ev Hwf).
  assert (subscribers (add_consumer i c ev) ≡ₚ c :: subscribers ev) as Hs
    by by apply omap_insert_Some.
  destruct Hwf as [H1 H2 H3 H4 H5 H6]. split; simpl; try done.
  - by rewrite length_insert.
  - intros d. rewrite Hs. intros [->|?]%elem_of_cons; auto.
  - rewrite Hs. by constructor.
  - rewrite H6. unfold incr_u32. rewrite Hs. simpl. rewrite u32_small by clia. lia.
Qed.

Lemma drop_consumer_wf i c ev :
  event_wf ev -> ev_consumers ev !! i = Some (Some c) -> event_wf (drop_consumer i ev).
Proof.
  intros Hwf Hi. pose proof (subscribers_bound ev Hwf).
  assert (subscribers ev ≡ₚ c :: subscribers (drop_consumer i ev)) as Hs
    by by apply omap_insert_None.
  destruct Hwf as [H1 H2 H3 H4 H5 H6]. split; simpl; try done.
  - by rewrite length_insert.
  - intros d Hd. apply H4. rewrite Hs. by right.
  - rewrite Hs in H5. by apply NoDup_cons_1_2 in H5.
  - rewrite H6. unfold decr_u32. rewrite Hs in *. simpl in *. rewrite u32_small by clia. lia.
Qed.

(** Two updates of the same slot are one. *)
Lemma event_upd_fuse {A} e f g (k : unit -> SM A) w :
  (_ ← event_upd e f; (event_upd e g ≫= k)) w = (event_upd e (fun ev => g (f ev)) ≫= k) w.
Proof.
  unfold event_upd, event_at, server_get, server_upd, mbind, M_bind, gets, modify, deref, mret, M_ret.
  destruct (sv_events (w_server w) !! e) as [ev|] eqn:E; [|done]. simpl.
  rewrite list_lookup_insert_eq by (by eapply lookup_lt_Some). simpl.
  destruct w as [s l]; destruct s; unfold set_with; simpl.
  by rewrite list_insert_insert_eq.
Qed.

(** ** Primitive operations *)

Section inv.
Context `{Env}.

Lemma wp_server_get (Q : syncs_server -> world -> Prop) w :
  Q (w_server w) w -> wp server_get Q w.
Proof. done. Qed.

Lemma wp_server_upd f (Q : unit -> world -> Prop) w :
  Q tt (mk_world (f (w_server w)) (w_log w)) -> wp (server_upd f) Q w.
Proof. done. Qed.

Lemma wp_emit e (Q : unit -> world -> Prop) w :
  Q tt (io_emit e w) -> wp (emit e) Q w.
Proof. done. Qed.

Lemma wp_event_at e w (Q : syncs_event -> world -> Prop) :
  winv w -> (e < SYNCS_EVENT_MAXIMUM)%nat ->
  (forall ev, sv_events (w_server w) !! e = Some ev -> event_wf ev -> Q ev w) ->
  wp (event_at e) Q w.
Proof.
  intros Hw He HQ. unfold event_at. wp_step. apply wp_server_get.
  destruct (sv_events (w_server w) !! e) as [ev|] eqn:Hev.
  - apply HQ; [done|]. by eapply swf_event.
  - apply lookup_ge_None in Hev. rewrite swf_events in Hev by done. lia.
Qed.

Lemma wp_client_at c w (Q : syncs_client -> world -> Prop) :
  winv w -> (c < SYNCS_CLIENT_MAXIMUM)%nat ->
  (forall cl, sv_clients (w_server w) !! c = Some cl -> client_wf cl -> Q cl w) ->
  wp (client_at c) Q w.
Proof.
  intros Hw He HQ. unfold client_at. wp_step. apply wp_server_get.
  destruct (sv_clients (w_server w) !! c) as [cl|] eqn:Hcl.
  - apply HQ; [done|]. by eapply swf_client.
  - apply lookup_ge_None in Hcl. rewrite swf_clients in Hcl by done. lia.
Qed.

Lemma wp_channel_at n w (Q : syncs_channel -> world -> Prop) :
  winv w -> (n < SYNCS_CHANNEL_MAXIMUM)%nat ->
  (forall ch, sv_channels (w_server w) !! n = Some ch -> Q ch w) ->
  wp (channel_at n) Q w.
Proof.
  intros Hw He HQ. unfold channel_at. wp_step. apply wp_server_get.
  destruct (sv_channels (w_server w) !! n) as [ch|] eqn:Hch; [by apply HQ|].
  apply lookup_ge_None in Hch. rewrite swf_channels in Hch by done. lia.
Qed.

Lemma winv_event_insert w e ev :
  winv w -> event_wf ev -> ids_unique ev_id (<[e := ev]> (sv_events (w_server w))) ->
  winv (w <| w_server ::= fun s => s <| sv_events ::= <[e := ev]> |> |>).
Proof.
  intros Hw Hev Hu. destruct Hw. split; simpl; try done; [by rewrite length_insert|].
  intros i x Hx. apply list_lookup_insert_Some in Hx as [(_ & <- & _)|[_ Hx]]; eauto.
Qed.

Lemma winv_client_insert w c cl :
  winv w -> client_wf cl ->
  winv (w <| w_server ::= fun s => s <| sv_clients ::= <[c := cl]> |> |>).
Proof.
  intros Hw Hcl. destruct Hw. split; simpl; try done; [by rewrite length_insert|].
  intros i x Hx. apply list_lookup_insert_Some in Hx as [(_ & <- & _)|[_ Hx]]; eauto.
Qed.

Lemma winv_channel_insert w n ch :
  winv w -> ids_unique ch_id (<[n := ch]> (sv_channels (w_server w))) ->
  winv (w <| w_server ::= fun s => s <| sv_channels ::= <[n := ch]> |> |>).
Proof. intros [] Hu. split; simpl; try done; by rewrite length_insert. Qed.

Lemma winv_log w l : winv w -> winv (w <| w_log := l |>).
Proof. done. Qed.

Lemma winv_emits es w : winv w -> winv (io_emits es w).
Proof. revert w. induction es as [|e es IH]; intros w Hw; simpl; [done|]. by apply IH. Qed.

(** Only the log changes: the shape of every operation that sends. *)
Lemma io_emits_server es w : w_server (io_emits es w) = w_server w.
Proof. revert w. induction es as [|e es IH]; intros w; simpl; [done|]. by rewrite IH. Qed.

Lemma wp_event_upd_at e f w :
  winv w -> (e < SYNCS_EVENT_MAXIMUM)%nat ->
  (forall ev, ev_id (f ev) = ev_id ev \/ id_is_free (ev_id (f ev)) = true) ->
  (forall ev, sv_events (w_server w) !! e = Some ev -> event_wf ev -> event_wf (f ev)) ->
  wp (event_upd e f) (fun _ => winv) w.
Proof.
  intros Hw He Hid Hf. unfold event_upd. wp_step. apply wp_event_at; [done..|].
  intros ev Hev Hwf. apply wp_server_upd. apply winv_event_insert; [done|by apply Hf|].
  apply ids_unique_insert; [apply Hw|]. intros b Hb. simplify_eq. apply Hid.
Qed.

Lemma wp_event_upd e f w :
  winv w -> (e < SYNCS_EVENT_MAXIMUM)%nat ->
  (forall ev, ev_id (f ev) = ev_id ev \/ id_is_free (ev_id (f ev)) = true) ->
  (forall ev, event_wf ev -> event_wf (f ev)) ->
  wp (event_upd e f) (fun _ => winv) w.
Proof. intros. apply wp_event_upd_at; auto. Qed.

Lemma wp_client_upd c f w :
  winv w -> (c < SYNCS_CLIENT_MAXIMUM)%nat ->
  (forall cl, client_wf cl -> client_wf (f cl)) ->
  wp (client_upd c f) (fun _ => winv) w.
Proof.
  intros Hw He Hf. unfold client_upd. wp_step. apply wp_client_at; [done..|].
  intros cl Hcl Hwf. apply wp_server_upd. apply winv_client_insert; auto.
Qed.

Lemma wp_channel_upd n f w :
  winv w -> (n < SYNCS_CHANNEL_MAXIMUM)%nat ->
  (forall ch, ch_id (f ch) = ch_id ch \/ id_is_free (ch_id (f ch)) = true) ->
  wp (channel_upd n f) (fun _ => winv) w.
Proof.
  intros Hw He Hid. unfold channel_upd. wp_step. apply wp_channel_at; [done..|].
  intros ch Hch. apply wp_server_upd. apply winv_channel_insert; [done|].
  apply ids_unique_insert; [apply Hw|]. intros b Hb. simplify_eq. apply Hid.
Qed.

(** Updates of fields the invariant does not constrain. *)
Ltac wf_field := first [done | intros ? []; split; simpl in *; clia | intros ? []; split; done].

(** ** Sending *)

Lemma wp_client_send c p w :
  winv w -> (c < SYNCS_CLIENT_MAXIMUM)%nat -> packet_full p ->
  wp (syncs_client_send c p) (fun _ w' => exists es, w' = io_emits es w) w.
Proof.
  intros Hw Hc Hp. unfold syncs_client_send. wp_step.
  apply wp_client_at; [done..|]. intros cl Hcl Hwf. pose proof (packet_size_bounds p Hp) as Hsz.
  destruct (cl_socketfd cl >? -1).
  - unfold syncs_blocking_send. eapply wp_mono; [apply blocking_send_loop_spec|]; [lia|lia| |].
    + unfold packet_bytes in Hsz. unfold packet_full in Hp. clia.
    + intros ret w' (es & ? & ? & -> & _). eauto.
  - destruct (_ =? UDP_SOCKET_STUB); [|exists []; done].
    wp_step. apply wp_server_get. wp_step. unfold syncs_udp_send, emit. wp_step. wp_step.
    wp_step. wp_step. by eexists [_].
Qed.

Lemma safe_client_send c p w :
  winv w -> (c < SYNCS_CLIENT_MAXIMUM)%nat -> packet_full p ->
  wp (syncs_client_send c p) (fun _ => winv) w.
Proof.
  intros. eapply wp_mono; [by apply wp_client_send|].
  intros ret w' [es ->]. by apply winv_emits.
Qed.

(** ** Table operations *)

Lemma find_event_lt s id e : server_wf s -> syncs_find_event s id = Some e -> (e < SYNCS_EVENT_MAXIMUM)%nat.
Proof. intros Hw ?%scan_lt. by rewrite <- (swf_events s). Qed.

Lemma find_channel_lt s id n : server_wf s -> syncs_find_channel s id = Some n -> (n < SYNCS_CHANNEL_MAXIMUM)%nat.
Proof. intros Hw ?%scan_lt. by rewrite <- (swf_channels s). Qed.

Lemma get_free_client_lt s c : server_wf s -> syncs_get_free_client s = Some c -> (c < SYNCS_CLIENT_MAXIMUM)%nat.
Proof. intros Hw ?%scan_lt. by rewrite <- (swf_clients s). Qed.

Lemma event_init_wf ev id : event_wf ev -> event_wf (syncs_event_init ev id).
Proof.
  intros [H1 H2 H3 H4 H5 H6].
  assert (subscribers (syncs_event_init ev id) = []) as Hs.
  { unfold subscribers. change (ev_consumers _) with ((fun _ => @None nat) <$> ev_consumers ev).
    clear. induction (ev_consumers ev) as [|? l IH]; [done|exact IH]. }
  split; rewrite ?Hs; simpl; rewrite ?zlen_insert, ?length_fmap; try done.
  - by intros c ?%elem_of_nil.
  - constructor.
Qed.

Lemma safe_create_event id w :
  winv w -> syncs_find_event (w_server w) id = None ->
  wp (syncs_create_event id) (fun o w' => winv w' /\
    forall e, o = Some e -> (e < SYNCS_EVENT_MAXIMUM)%nat) w.
Proof.
  intros Hw Hn. unfold syncs_create_event. wp_step. apply wp_server_get.
  destruct (scan _ _) as [i|] eqn:E; [|by apply wp_ret].
  assert (i < SYNCS_EVENT_MAXIMUM)%nat as Hi.
  { apply scan_lt in E. by rewrite <- (swf_events (w_server w)). }
  wp_step. unfold event_upd. wp_step. apply wp_event_at; [done..|]. intros ev Hev Hwf.
  apply wp_server_upd. wp_step. apply wp_server_upd. wp_step.
  assert (winv (w <| w_server ::= fun s => s <| sv_events ::= <[i := syncs_event_init ev id]> |> |>)) as Hw'.
  { apply winv_event_insert; [done|by apply event_init_wf|].
    apply (ids_unique_create _ _ _ id); [apply Hw|done|]. apply syncs_idcpy_eq. }
  split; [by refine (server_wf_ext _ _ _ _ _ _ Hw')|naive_solver].
Qed.

Lemma safe_create_channel id w :
  winv w -> syncs_find_channel (w_server w) id = None ->
  wp (syncs_create_channel id) (fun o w' => winv w' /\
    forall n, o = Some n -> (n < SYNCS_CHANNEL_MAXIMUM)%nat) w.
Proof.
  intros Hw Hn. unfold syncs_create_channel. wp_step. apply wp_server_get.
  destruct (scan _ _) as [i|] eqn:E; [|by apply wp_ret].
  assert (i < SYNCS_CHANNEL_MAXIMUM)%nat as Hi.
  { apply scan_lt in E. by rewrite <- (swf_channels (w_server w)). }
  wp_step. unfold channel_upd. wp_step. apply wp_channel_at; [done..|]. intros ch Hch.
  apply wp_server_upd. wp_step. apply wp_server_upd. wp_step.
  assert (winv (w <| w_server ::= fun s => s <| sv_channels ::= <[i := syncs_channel_init ch id]> |> |>)) as Hw'.
  { apply winv_channel_insert; [done|].
    apply (ids_unique_create _ _ _ id); [apply Hw|done|]. apply syncs_idcpy_eq. }
  split; [by refine (server_wf_ext _ _ _ _ _ _ Hw')|naive_solver].
Qed.

Lemma safe_free_event id w :
  winv w -> wp (syncs_free_event id) (fun _ => winv) w.
Proof.
  intros Hw. unfold syncs_free_event. wp_step. apply wp_server_get.
  destruct (syncs_find_event _ _) as [e|] eqn:E; [|by apply wp_ret].
  wp_step. eapply wp_mono; [apply wp_event_upd; [done|by eapply find_event_lt|by right|wf_field]|].
  intros ? w' Hw'. apply wp_server_upd. by apply (server_wf_ext (w_server w')).
Qed.

(** ** Subscribing and unsubscribing *)

Lemma safe_add_client_to_event c e w :
  winv w -> (c < SYNCS_CLIENT_MAXIMUM)%nat -> (e < SYNCS_EVENT_MAXIMUM)%nat ->
  wp (syncs_add_client_to_event c e) (fun _ => winv) w.
Proof.
  intros Hw Hc He. unfold syncs_add_client_to_event. wp_step.
  apply wp_event_at; [done..|]. intros ev Hev Hwf.
  destruct (scan _ _) eqn:E1; [by apply wp_ret|]. apply scan_subscriber in E1.
  destruct (scan (fun x => bool_decide (x = None)) _) as [i|] eqn:E2; [|by apply wp_ret].
  apply scan_lookup in E2 as (x & Hx & ->%bool_decide_eq_true).
  eapply wp_eq; [apply event_upd_fuse|]. wp_step.
  eapply wp_mono; [apply wp_event_upd_at; [done|done|by left|]|].
  { intros ev' Hev' _. simplify_eq. by apply (add_consumer_wf i c). }
  intros ? w' Hw'. wp_step. eapply wp_mono; [apply wp_client_upd; [done..|wf_field]|done].
Qed.

Lemma safe_remove_client_from_event c e w :
  winv w -> (c < SYNCS_CLIENT_MAXIMUM)%nat -> (e < SYNCS_EVENT_MAXIMUM)%nat ->
  wp (syncs_remove_client_from_event c e) (fun _ => winv) w.
Proof.
  intros Hw Hc He. unfold syncs_remove_client_from_event. wp_step.
  apply wp_event_at; [done..|]. intros ev Hev Hwf.
  destruct (scan _ _) as [i|] eqn:E; [|by apply wp_ret].
  apply scan_lookup in E as (x & Hx & ->%bool_decide_eq_true).
  eapply wp_eq; [apply event_upd_fuse|]. wp_step.
  eapply wp_mono; [apply wp_event_upd_at; [done|done|by left|]|].
  { intros ev' Hev' _. simplify_eq. by apply (drop_consumer_wf i c). }
  intros ? w' Hw'. by apply wp_client_upd; [..|wf_field].
Qed.
End inv.
