(* ===== verification/ServerSafe.v ===== *)
(** * Server: every operation is memory safe, terminates and keeps the invariant

    One lemma [safe_*] per operation of the server, composed up to the receive
    handlers and the event loop. *)

From S2P Require Import Prelude.
From S2P Require Import Monad.
From S2P Require Import Types.
From S2P Require Import Net.
From S2P Require Import Wire.
From S2P Require Import ServerState.
From S2P Require Import ServerEvents.
From S2P Require Import ServerPackets.
From S2P Require Import ServerInv.

(** Calls an operation by its lemma and names the state it leaves. *)
Ltac call L := eapply wp_mono; [apply L; try done|intros ? ?w' ?Hw'; cbn beta in *].

(** Updates of fields the invariant does not constrain. *)
Ltac wf_field := first [done | intros ? []; split; simpl in *; clia | intros ? []; split; done].

(** A channel announcement: its first ten payload bytes are read as the
    ticket, however many it carries. *)
Definition is_announcement (h : syncs_header) : bool :=
  (Z.land (hd_type h) SYNCS_TYPE_MSG_MASK =? SYNCS_TYPE_CHANNEL) &&
  (Z.land (hd_type h) SYNCS_CHANNEL_MASK =? SYNCS_CHANNEL_ANONS).

(** How many bytes [syncs_add_event] copies from the object it is given. *)
Definition define_size (flags size : Z) : Z :=
  if (size >? 1) && (size <? SYNCS_VARIABLE_SIZE_MAXIMUM) then size else syncs_get_size_by_type flags.

Section safe.
Context `{Env}.

Lemma var_mask_idem flags :
  Z.land (Z.land flags SYNCS_TYPE_VAR_MASK) SYNCS_TYPE_VAR_MASK = Z.land flags SYNCS_TYPE_VAR_MASK.
Proof. by rewrite <- Z.land_assoc, Z.land_diag. Qed.

Lemma safe_event_field e f w :
  winv w -> (e < SYNCS_EVENT_MAXIMUM)%nat ->
  (forall ev, ev_id (f ev) = ev_id ev /\ ev_data (f ev) = ev_data ev /\ ev_data_size (f ev) = ev_data_size ev /\
    ev_consumers (f ev) = ev_consumers ev /\ ev_consumers_count (f ev) = ev_consumers_count ev /\
    ev_data_type (f ev) = ev_data_type ev) ->
  wp (event_upd e f) (fun _ => winv) w.
Proof.
  intros Hw He Hf. apply wp_event_upd; [done|done| |].
  { intros ev. destruct (Hf ev) as [E _]. by left. }
  intros ev [H1 H2 H3 H4 H5 H6 H7]. destruct (Hf ev) as (_ & E1 & E2 & E3 & E4 & E5).
  assert (subscribers (f ev) = subscribers ev) as Es by (unfold subscribers; by rewrite E3).
  split; rewrite ?Es, ?E1, ?E2, ?E3, ?E4, ?E5; done.
Qed.

Lemma safe_client_field c f w :
  winv w -> (c < SYNCS_CLIENT_MAXIMUM)%nat ->
  (forall cl, cl_buffer (f cl) = cl_buffer cl /\ cl_buffer_recv (f cl) = cl_buffer_recv cl) ->
  wp (client_upd c f) (fun _ => winv) w.
Proof.
  intros Hw Hc Hf. apply wp_client_upd; [done..|]. intros cl [H1 H2].
  destruct (Hf cl) as [E1 E2]. split; by rewrite ?E1, ?E2.
Qed.

Lemma packet_full_copy b off bs h :
  packet_full b -> 0 <= off -> off + zlen bs <= SYNCS_EVENT_DATA_SIZE_MAXIMUM ->
  packet_full (mk_packet h (mem_put off bs (pk_buffer b))).
Proof. unfold packet_full. simpl. intros Hb ??. by rewrite zlen_mem_put by lia. Qed.

Lemma wp_event_payload (p : syncs_packet) ev (Q : list byte -> world -> Prop) w :
  packet_full p -> event_wf ev ->
  (forall b, (forall h, packet_full (mk_packet h b)) -> Q b w) ->
  wp (memcpy (pk_buffer p) 0 (ev_data ev) (ev_data_size ev)) Q w.
Proof.
  intros Hp [H1 H2 _ _ _ _] HQ. pose proof Hp as Hp'. unfold packet_full in Hp'.
  apply wp_memcpy; [clia..|]. apply HQ. intros h. apply packet_full_copy; [done|lia|].
  autorewrite with zlen. clia.
Qed.

Lemma safe_send_event e flags w :
  winv w -> (e < SYNCS_EVENT_MAXIMUM)%nat ->
  wp (syncs_send_event e flags) (fun _ => winv) w.
Proof.
  intros Hw He. unfold syncs_send_event. wp_step. apply run_stack_packet. intros p Hp _.
  wp_step. apply wp_event_at; [done..|]. intros ev Hev Hwf.
  wp_step. apply wp_event_payload; [done..|]. intros b Hb.
  wp_step. eapply (wp_mono _ (fun _ => winv)).
  { destruct (flag flags SYNCS_TYPE_SYNC); [|done].
    wp_step. apply wp_server_get. wp_step. unfold syncs_sync_calculate. wp_step. wp_step.
    destruct (env_realtime _). by destruct (_ >? _). }
  intros h w1 Hw1. cbn beta in *. wp_step. eapply (wp_mono _ (fun _ => winv)); [|by intros].
  apply wp_for_each; [done|]. intros i w2 Hi Hw2. apply elem_of_seq in Hi.
  wp_step. apply wp_event_at; [done..|]. intros ev' Hev' Hwf'. wp_step.
  destruct (ev_consumers ev' !! i) as [slot|] eqn:Hslot; last first.
  { apply lookup_ge_None in Hslot. rewrite ewf_slots in Hslot by done. lia. }
  apply wp_ret. destruct slot as [c|]; [|done]. destruct (_ && _); [done|].
  assert (c < SYNCS_CLIENT_MAXIMUM)%nat as Hc.
  { eapply ewf_clients; [done|]. apply list_elem_of_omap. exists (Some c). split; [|done].
    apply list_elem_of_lookup. eauto. }
  wp_step. call safe_client_field. wp_step. call safe_client_send.
  destruct (negb _); [|done]. by apply safe_client_field.
Qed.

Lemma safe_resend_event c e w :
  winv w -> (c < SYNCS_CLIENT_MAXIMUM)%nat -> (e < SYNCS_EVENT_MAXIMUM)%nat ->
  wp (syncs_resend_event c e) (fun _ => winv) w.
Proof.
  intros Hw Hc He. unfold syncs_resend_event. wp_step. apply run_stack_packet. intros p Hp _.
  wp_step. apply wp_event_at; [done..|]. intros ev Hev Hwf.
  wp_step. apply wp_event_payload; [done..|]. intros b Hb.
  wp_step. call safe_client_send. wp_step. by call safe_client_field.
Qed.

Lemma safe_send_server_status c code w :
  winv w -> (c < SYNCS_CLIENT_MAXIMUM)%nat ->
  wp (syncs_send_server_status c code) (fun _ => winv) w.
Proof.
  intros Hw Hc. unfold syncs_send_server_status. wp_step. apply run_stack_packet. intros p Hp _.
  wp_step. apply wp_server_get. wp_step. call safe_client_send. wp_step. by call safe_client_field.
Qed.

Lemma safe_event_store e data n w :
  winv w -> (e < SYNCS_EVENT_MAXIMUM)%nat ->
  0 <= n <= SYNCS_VARIABLE_SIZE_MAXIMUM -> n <= zlen data ->
  wp (event_store e data n) (fun _ => winv) w.
Proof.
  intros Hw He Hn Hd. unfold event_store. wp_step. apply wp_event_at; [done..|].
  intros ev Hev Hwf. wp_step. pose proof (ewf_data ev Hwf).
  apply wp_memcpy; [clia..|]. apply wp_event_upd_at; [done|done|by left|].
  intros ev' Hev' _. simplify_eq. destruct Hwf as [H1 H2 H3 H4 H5 H6].
  split; try done. simpl. rewrite zlen_mem_put; [done|lia|]. autorewrite with zlen. clia.
Qed.

Lemma safe_event_size e n w :
  winv w -> (e < SYNCS_EVENT_MAXIMUM)%nat -> 0 <= n <= SYNCS_VARIABLE_SIZE_MAXIMUM ->
  wp (event_upd e (fun ev => ev <| ev_data_size := n |>)) (fun _ => winv) w.
Proof. intros Hw He Hn. apply wp_event_upd; [done|done|by left|]. intros ev []. by split. Qed.

Lemma safe_event_callback e id w :
  winv w -> (e < SYNCS_EVENT_MAXIMUM)%nat ->
  wp (event_callback e id) (fun _ => winv) w.
Proof.
  intros Hw He. unfold event_callback. wp_step. apply wp_event_at; [done..|].
  intros ev Hev Hwf. destruct (negb _); [|done]. wp_step.
  pose proof (ewf_data ev Hwf). pose proof (ewf_size ev Hwf).
  apply wp_memcpy; rewrite ?zero_bytes_len by lia; [clia..|]. by apply wp_emit.
Qed.

Lemma size_by_type_range t : 0 <= syncs_get_size_by_type t <= 8.
Proof. unfold syncs_get_size_by_type. repeat case_match; lia. Qed.

Lemma safe_server_upd f w :
  winv w -> (forall s, sv_events (f s) = sv_events s /\ sv_clients (f s) = sv_clients s /\
    sv_channels (f s) = sv_channels s /\ sv_ubuffer (f s) = sv_ubuffer s) ->
  wp (server_upd f) (fun _ => winv) w.
Proof.
  intros Hw Hf. apply wp_server_upd. destruct (Hf (w_server w)) as (?&?&?&?).
  by apply (server_wf_ext (w_server w)).
Qed.

Lemma safe_find_or_create id flags created w :
  winv w ->
  (forall e w, winv w -> (e < SYNCS_EVENT_MAXIMUM)%nat -> wp (created e) (fun _ => winv) w) ->
  wp (find_or_create id flags created) (fun r w' => winv w' /\
    forall e, r = inr e -> (e < SYNCS_EVENT_MAXIMUM)%nat) w.
Proof.
  intros Hw Hc. unfold find_or_create. wp_step. apply wp_server_get.
  destruct (syncs_find_event _ _) as [e|] eqn:E.
  { apply wp_ret. split; [done|]. intros ? [= <-]. by eapply find_event_lt. }
  destruct (negb _); [by apply wp_ret|]. wp_step. call safe_create_event.
  destruct Hw' as [Hw' He]. destruct a as [e|]; [|by apply wp_ret].
  specialize (He _ eq_refl). wp_step. call Hc. apply wp_ret. naive_solver.
Qed.

Lemma safe_event_set_type flags e w :
  winv w -> (e < SYNCS_EVENT_MAXIMUM)%nat -> wp (event_set_type flags e) (fun _ => winv) w.
Proof.
  intros. unfold event_set_type. apply wp_event_upd; [done|done|by left|].
  intros ev []. split; try done. apply var_mask_idem.
Qed.

(** ** The packets of a client *)

Lemma safe_client_subscribe c id flags uc w :
  winv w -> (c < SYNCS_CLIENT_MAXIMUM)%nat ->
  wp (syncs_client_subscribe c id flags uc) (fun _ => winv) w.
Proof.
  intros Hw Hc. unfold syncs_client_subscribe. wp_step.
  call safe_find_or_create; [auto using safe_event_set_type|].
  destruct Hw' as [Hw' He]. destruct a as [code|e]; [done|]. specialize (He _ eq_refl).
  wp_step. apply wp_event_at; [done..|]. intros ev Hev Hwf. destruct (_ || _ || _); [|done].
  wp_step. call safe_add_client_to_event.
  wp_step. apply wp_event_at; [done..|]. intros ev' Hev' Hwf'.
  destruct (_ <? _); [|done]. wp_step. by call safe_resend_event.
Qed.

Lemma safe_client_unsubscribe c id w :
  winv w -> (c < SYNCS_CLIENT_MAXIMUM)%nat ->
  wp (syncs_client_unsubscribe c id) (fun _ => winv) w.
Proof.
  intros Hw Hc. unfold syncs_client_unsubscribe. wp_step. apply wp_server_get.
  destruct (syncs_find_event _ _) as [e|] eqn:E; [|done].
  wp_step. call safe_remove_client_from_event; [by eapply find_event_lt|done].
Qed.

Lemma safe_client_read c id w :
  winv w -> (c < SYNCS_CLIENT_MAXIMUM)%nat ->
  wp (syncs_client_read c id) (fun _ => winv) w.
Proof.
  intros Hw Hc. unfold syncs_client_read. wp_step. apply run_stack_packet. intros p Hp _.
  wp_step. apply wp_server_get. wp_step.
  eapply (wp_mono _ (fun p w => winv w /\ packet_full p)).
  { destruct (syncs_find_event _ _) as [e|] eqn:E; [|by apply wp_ret].
    wp_step. apply wp_event_at; [done|by eapply find_event_lt|]. intros ev Hev Hwf.
    wp_step. apply wp_event_payload; [done..|]. intros b Hb. by apply wp_ret. }
  intros q w1 [Hw1 Hq]. wp_step. call safe_client_send. wp_step. by call safe_client_field.
Qed.

(** A write from a client: the packet's payload is inside the buffer. *)
Lemma safe_client_write_store c e data n w :
  winv w -> (c < SYNCS_CLIENT_MAXIMUM)%nat -> (e < SYNCS_EVENT_MAXIMUM)%nat ->
  0 <= n <= SYNCS_VARIABLE_SIZE_MAXIMUM -> n <= zlen data ->
  wp (client_write_store c e data n) (fun _ => winv) w.
Proof.
  intros Hw Hc He Hn Hd. unfold client_write_store.
  wp_step. apply wp_event_at; [done..|]. intros ev Hev Hwf.
  wp_step. eapply (wp_mono _ (fun _ => winv)).
  { destruct (negb _); [|done]. wp_step. call safe_event_field. by apply safe_event_field. }
  intros ? w1 Hw1. cbn beta in *.
  wp_step. call safe_event_field. wp_step. call safe_client_field.
  wp_step. call safe_event_store. wp_step. call safe_event_size.
  wp_step. apply wp_server_get. wp_step. call safe_event_field. by apply safe_server_upd.
Qed.

Lemma safe_client_write c id flags data n w :
  winv w -> (c < SYNCS_CLIENT_MAXIMUM)%nat ->
  0 <= n <= SYNCS_VARIABLE_SIZE_MAXIMUM -> n <= zlen data ->
  wp (syncs_client_write c id flags data n) (fun _ => winv) w.
Proof.
  intros Hw Hc Hn Hd. unfold syncs_client_write. wp_step.
  call safe_find_or_create; [auto using safe_event_set_type|].
  destruct Hw' as [Hw' He]. destruct a as [code|e]; [done|]. specialize (He _ eq_refl).
  wp_step. apply wp_event_at; [done..|]. intros ev Hev Hwf. destruct (negb _); [done|].
  wp_step. call safe_client_write_store. wp_step. call safe_event_callback.
  wp_step. by call safe_send_event.
Qed.

Lemma safe_add_event_exact id flags data size w :
  winv w -> (forall bs, data = Some bs -> define_size flags size <= zlen bs) ->
  wp (syncs_add_event id flags data size) (fun _ => winv) w.
Proof.
  intros Hw Hd. unfold syncs_add_event. wp_step. apply wp_server_get. wp_step.
  eapply (wp_mono _ (fun r w => winv w /\ forall e, r = inr e -> (e < SYNCS_EVENT_MAXIMUM)%nat)).
  { destruct (syncs_find_event _ _) as [e|] eqn:E.
    - destruct (negb _); apply wp_ret; [done|]. split; [done|]. intros ? [= <-].
      by eapply find_event_lt.
    - wp_step. call safe_create_event. destruct Hw' as [Hw' He].
      destruct a as [e|]; apply wp_ret; [|done]. split; [done|]. intros ? [= <-]. by apply He. }
  intros r w1 [Hw1 He]. destruct r as [code|e]; [done|]. specialize (He _ eq_refl).
  wp_step. call safe_event_set_type. pose proof (size_by_type_range flags) as Hr.
  fold (define_size flags size). set (n := define_size flags size) in *.
  assert (0 <= n <= SYNCS_VARIABLE_SIZE_MAXIMUM) as Hn.
  { subst n. unfold define_size. destruct (_ && _) eqn:E; [|clia]. apply andb_true_iff in E as [?%Z.gtb_lt ?%Z.ltb_lt]. lia. }
  wp_step. call safe_event_size. destruct data as [bs|]; [|done].
  specialize (Hd _ eq_refl). wp_step. call safe_event_store. done.
Qed.

Lemma safe_add_event id flags data size w :
  winv w -> (forall bs, data = Some bs -> 8 <= zlen bs /\ size <= zlen bs) ->
  wp (syncs_add_event id flags data size) (fun _ => winv) w.
Proof.
  intros Hw Hd. apply safe_add_event_exact; [done|]. intros bs Hbs. destruct (Hd bs Hbs).
  pose proof (size_by_type_range flags). unfold define_size. destruct (_ && _); lia.
Qed.

(** ** Lists *)

(** What the list loop needs from a table: its slots exist, and an entry
    that fits below [SYNCS_VARIABLE_SIZE_MAXIMUM] is written inside the
    packet buffer. *)
Class ListSource (ls : list_source) : Prop := {
  ls_max_range : 1 <= ls_max ls <= 9 \/ ls_max ls = 11;
  ls_live_some s i : server_wf s -> (i < ls_slots ls)%nat -> is_Some (ls_live ls s i);
  ls_fill_safe i n b w : winv w -> (i < ls_slots ls)%nat -> 0 <= n < ls_max ls ->
    zlen b = SYNCS_EVENT_DATA_SIZE_MAXIMUM ->
    wp (ls_fill ls i n b) (fun b' w' => w' = w /\ zlen b' = SYNCS_EVENT_DATA_SIZE_MAXIMUM) w }.

Lemma wp_put_field off bs b w (Q : list byte -> world -> Prop) :
  0 <= off -> off + zlen bs <= zlen b ->
  (zlen (mem_put off bs b) = zlen b -> Q (mem_put off bs b) w) ->
  wp (put_field off bs b) Q w.
Proof.
  intros Ho Hl HQ. unfold put_field. pose proof (zlen_nonneg bs).
  apply wp_memcpy; [lia..|]. rewrite ztake_ge by lia. apply HQ. by apply zlen_mem_put.
Qed.

Ltac fill := repeat (wp_step; apply wp_put_field; [zl..|intros ?Hz]).

#[export] Instance client_list_source : ListSource client_list.
Proof.
  split.
  - left. vm_compute. by split.
  - intros s i Hs Hi. simpl. apply fmap_is_Some, lookup_lt_is_Some. by rewrite swf_clients.
  - intros i n b w Hw Hi Hn Hb. change (ls_max client_list) with 9 in Hn. simpl.
    unfold client_info_fill. wp_step. apply wp_client_at; [done..|]. intros cl _ _.
    unfold sizeof_client_info. consts. fill. apply wp_put_field; [zl..|intros ?; split; [done|zl]].
Qed.

#[export] Instance channel_list_source : ListSource channel_list.
Proof.
  split.
  - right. done.
  - intros s i Hs Hi. simpl. apply fmap_is_Some, lookup_lt_is_Some. by rewrite swf_channels.
  - intros i n b w Hw Hi Hn Hb. change (ls_max channel_list) with 11 in Hn. simpl.
    unfold channel_info_fill. wp_step. apply wp_channel_at; [done..|]. intros ch _.
    consts. fill. apply wp_put_field; [zl..|intros ?; split; [done|zl]].
Qed.

#[export] Instance event_list_source : ListSource event_list.
Proof.
  split.
  - left. vm_compute. by split.
  - intros s i Hs Hi. simpl. apply fmap_is_Some, lookup_lt_is_Some. by rewrite swf_events.
  - intros i n b w Hw Hi Hn Hb. change (ls_max event_list) with 5 in Hn. simpl.
    unfold event_info_fill. wp_step. apply wp_event_at; [done..|]. intros ev _ Hwf.
    pose proof (ewf_data ev Hwf). pose proof (ewf_size ev Hwf).
    consts. fill. apply wp_memcpy; [zl..|].
    split; [done|]. rewrite zlen_mem_put; [zl|lia|]. autorewrite with zlen. zl.
Qed.

Lemma set_id_char_full k v p : packet_full p -> packet_full (set_id_char k v p).
Proof. done. Qed.

Lemma safe_list_flush ls c n p w :
  winv w -> (c < SYNCS_CLIENT_MAXIMUM)%nat -> packet_full p ->
  wp (list_flush ls c n p) (fun p w => winv w /\ packet_full p) w.
Proof.
  intros Hw Hc Hp. unfold list_flush. wp_step. call safe_client_send.
  wp_step. call safe_client_field. by apply wp_ret.
Qed.

Lemma safe_send_list ls `{!ListSource ls} c seqn w :
  winv w -> (c < SYNCS_CLIENT_MAXIMUM)%nat ->
  wp (syncs_client_send_list ls c seqn) (fun _ => winv) w.
Proof.
  intros Hw Hc. unfold syncs_client_send_list. wp_step. apply run_stack_packet. intros p Hp _.
  wp_step. apply wp_server_get. wp_step.
  eapply wp_mono; [apply (wp_fold_m (fun acc w => winv w /\ packet_full acc.1 /\ 0 <= acc.2 < ls_max ls))|].
  - pose proof ls_max_range. split; [done|]. split; [done|]. simpl. lia.
  - intros [q n] i w1 Hi (Hw1 & Hq & Hn). apply elem_of_seq in Hi. simpl in *.
    wp_step. apply wp_server_get. wp_step.
    destruct (ls_live_some (w_server w1) i Hw1 ltac:(lia)) as [live ->].
    apply wp_ret. destruct live; [|by apply wp_ret].
    wp_step. eapply wp_mono; [apply ls_fill_safe; [done|lia|done..]|].
    intros b ? [-> Hb]. pose proof ls_max_range. rewrite u8_small by lia.
    destruct (_ >=? _) eqn:E; [|apply wp_ret; simpl; split_and!; first [done|lia]].
    wp_step. eapply wp_mono; [by apply safe_list_flush|]. intros q' w2 [Hw2 Hq'].
    apply wp_ret. simpl. split_and!; first [done|lia].
  - intros [q n] w1 (Hw1 & Hq & Hn). wp_step.
    eapply wp_mono; [by apply safe_list_flush|]. intros ?? [??]. done.
Qed.

(** ** Channels *)

Lemma safe_add_channel c id flags data w :
  winv w -> (c < SYNCS_CLIENT_MAXIMUM)%nat -> sizeof_channel_ticket <= zlen data ->
  wp (syncs_add_channel c id flags data) (fun _ => winv) w.
Proof.
  intros Hw Hc Hd. unfold syncs_add_channel. wp_step. apply wp_server_get. wp_step.
  eapply (wp_mono _ (fun r w => winv w /\ forall n, r = Some n -> (n < SYNCS_CHANNEL_MAXIMUM)%nat)).
  { destruct (syncs_find_channel _ _) as [n|] eqn:E; [|by apply safe_create_channel].
    apply wp_ret. split; [done|]. intros ? [= <-]. by eapply find_channel_lt. }
  intros [n|] w1 [Hw1 Hn]; [|done]. specialize (Hn _ eq_refl).
  wp_step. call wp_channel_upd; [by left|]. wp_step.
  apply wp_memcpy; rewrite ?zero_bytes_len by clia; [clia..|].
  wp_step. call wp_channel_upd; [by left|]. wp_step. apply wp_client_at; [done..|]. intros cl _ _.
  wp_step. call wp_channel_upd; [by left|]. wp_step. apply wp_channel_at; [done..|]. intros ch _.
  wp_step. eapply (wp_mono _ (fun _ => winv)); [|by intros].
  destruct (negb _); [|done]. wp_step. call wp_channel_upd; [by left|]. apply wp_channel_upd; [done..|by left].
Qed.

Lemma safe_client_channel_request c id flags w :
  winv w -> (c < SYNCS_CLIENT_MAXIMUM)%nat ->
  wp (syncs_client_channel_request c id flags) (fun _ => winv) w.
Proof.
  intros Hw Hc. unfold syncs_client_channel_request. wp_step. apply run_stack_packet. intros p Hp _.
  wp_step. apply wp_server_get. destruct (syncs_find_channel _ _) as [n|] eqn:E; [|done].
  wp_step. apply wp_channel_at; [done|by eapply find_channel_lt|]. intros ch _.
  wp_step. pose proof Hp as Hp'. unfold packet_full in Hp'.
  assert (zlen (encode_ticket (ch_ticket ch)) = 10) as Ht by (unfold encode_ticket; zl).
  apply wp_memcpy; [clia..|]. wp_step. call safe_client_send; [|done].
  apply packet_full_copy; [done|lia|]. autorewrite with zlen. clia.
Qed.

Lemma safe_client_channel c h data w :
  winv w -> (c < SYNCS_CLIENT_MAXIMUM)%nat ->
  ((Z.land (hd_type h) SYNCS_CHANNEL_MASK =? SYNCS_CHANNEL_ANONS) = true -> sizeof_channel_ticket <= zlen data) ->
  wp (syncs_client_channel c h data) (fun _ => winv) w.
Proof.
  intros Hw Hc Hd. unfold syncs_client_channel.
  destruct (_ =? _); [wp_step; call safe_add_channel; [by apply Hd|done]|].
  destruct (_ =? _); [wp_step; by call safe_client_channel_request|done].
Qed.

(** ** Dispatch *)

Lemma safe_remove_client_from_events c w :
  winv w -> (c < SYNCS_CLIENT_MAXIMUM)%nat ->
  wp (syncs_remove_client_from_events c) (fun _ => winv) w.
Proof.
  intros Hw Hc. apply wp_for_each; [done|]. intros i w1 Hi Hw1. apply elem_of_seq in Hi.
  wp_step. apply wp_event_at; [done|lia|]. intros ev _ _. destruct (negb _); [|done].
  apply safe_remove_client_from_event; [done..|lia].
Qed.

Lemma safe_remove_channels_of_client c w :
  winv w -> wp (syncs_remove_channels_of_client c) (fun _ => winv) w.
Proof.
  intros Hw. apply wp_for_each; [done|]. intros i w2 Hi Hw2. apply elem_of_seq in Hi.
  wp_step. apply wp_channel_at; [done|lia|]. intros ch _. destruct (_ && _); [|done].
  apply wp_channel_upd; [done|lia|by right].
Qed.

Lemma safe_close_client_socket c w :
  winv w -> (c < SYNCS_CLIENT_MAXIMUM)%nat ->
  wp (syncs_close_client_socket c) (fun _ => winv) w.
Proof.
  intros Hw Hc. unfold syncs_close_client_socket. wp_step. apply wp_client_at; [done..|].
  intros cl _ _. wp_step. apply wp_emit. wp_step. call safe_remove_client_from_events.
  wp_step. call safe_remove_channels_of_client. wp_step. call safe_client_field. by apply wp_emit.
Qed.

(** The payload of the packet lies inside the receive memory [data], and so
    does the ticket of an announcement. *)
Lemma safe_process_packet_ticket c h data w :
  winv w -> (c < SYNCS_CLIENT_MAXIMUM)%nat ->
  0 <= hd_data_size h <= SYNCS_VARIABLE_SIZE_MAXIMUM -> hd_data_size h <= zlen data ->
  (is_announcement h = true -> sizeof_channel_ticket <= zlen data) ->
  wp (syncs_client_process_packet c h data) (fun _ => winv) w.
Proof.
  intros Hw Hc Hn Hd Ht. unfold syncs_client_process_packet.
  destruct (packet_operation c h data) as [op|] eqn:E; [|done].
  wp_step. eapply (wp_mono _ (fun _ => winv)); last first.
  { intros ? w' Hw'. cbn beta in *. wp_step. by call safe_client_field. }
  unfold packet_operation in E. revert E.
  repeat (lazymatch goal with |- (if ?b then _ else _) = _ -> _ => destruct b eqn:? end;
    [intros E; apply (inj Some) in E; subst op|]); try done.
  - wp_step. by call safe_client_subscribe.
  - wp_step. by call safe_client_unsubscribe.
  - wp_step. by call safe_add_event.
  - by apply safe_free_event.
  - wp_step. by call safe_client_write.
  - wp_step. by call safe_client_read.
  - by apply safe_send_list; [apply client_list_source|..].
  - by apply safe_send_list; [apply event_list_source|..].
  - wp_step. eapply (wp_mono _ (fun _ => winv)).
    { destruct (negb _); wp_step; call safe_send_server_status; [|done].
      by apply safe_close_client_socket. }
    intros ? w' Hw'. cbn beta in *. wp_step. call safe_client_field. by apply safe_client_field.
  - match goal with E : (_ =? SYNCS_TYPE_CHANNEL) = true |- _ => rename E into Emsg end.
    wp_step. call safe_client_channel; [|done].
    intros Hk. apply Ht. unfold is_announcement. by rewrite Emsg, Hk.
  - by apply safe_send_list; [apply channel_list_source|..].
Qed.

Lemma safe_client_process_packet c h data w :
  winv w -> (c < SYNCS_CLIENT_MAXIMUM)%nat ->
  0 <= hd_data_size h <= SYNCS_VARIABLE_SIZE_MAXIMUM -> hd_data_size h <= zlen data ->
  sizeof_channel_ticket <= zlen data ->
  wp (syncs_client_process_packet c h data) (fun _ => winv) w.
Proof. intros. by apply safe_process_packet_ticket. Qed.
End safe.
