(* ===== verification/ServerLoop.v ===== *)
(** * Server: the event loop as a transition system

    Safety of the receive handlers, the steps the server can take (socket
    callbacks and the calls of the embedding application) and the invariant of
    every reachable state. *)

From S2P Require Import Prelude.
From S2P Require Import Monad.
From S2P Require Import Types.
From S2P Require Import Net.
From S2P Require Import Wire.
From S2P Require Import ServerState.
From S2P Require Import ServerEvents.
From S2P Require Import ServerPackets.
From S2P Require Import Framing.
From S2P Require Import Handler.
From S2P Require Import ServerInv.
From S2P Require Import ServerSafe.

Section loop.
Context `{Env}.

(** ** The handlers *)

(** What [recv] can return for client [c]: the code asks for no more than the
    free part of the client's buffer. *)
Definition recv_fits (w : world) (c : nat) (r : recv_result) : Prop :=
  match r with
  | RecvError _ => True
  | RecvData bs => forall cl, sv_clients (w_server w) !! c = Some cl ->
      cl_buffer_recv cl + zlen bs <= SYNCS_CLIENT_BUFFER_SIZE
  end.

(** An announcement carries its ticket. *)
Definition ticket_inside (f : frame) : Prop :=
  is_announcement f.1 = true -> sizeof_channel_ticket <= zlen f.2.

(** No announcement is read past the receive buffer that holds [kept] and
    then [bs]: ten bytes stay free, or every announcement carries its
    ticket. *)
Definition tickets_fit (kept bs : list byte) : Prop :=
  zlen kept + zlen bs + sizeof_channel_ticket <= SYNCS_CLIENT_BUFFER_SIZE \/
  Forall ticket_inside (parse (kept ++ bs)).1.

(** The same for a chunk of client [c]; a chunk below a header is ignored. *)
Definition recv_tickets (w : world) (c : nat) (r : recv_result) : Prop :=
  match r with
  | RecvError _ => True
  | RecvData bs => forall cl, sv_clients (w_server w) !! c = Some cl ->
      zlen bs < sizeof_header \/ tickets_fit (pending cl) bs
  end.

Lemma zlen_pending cl : client_wf cl -> zlen (pending cl) = cl_buffer_recv cl.
Proof. intros [Hb Hn]. unfold pending. rewrite zlen_ztake. clia. Qed.

Lemma client_buffer_wf b n cl :
  client_wf cl -> zlen b = SYNCS_CLIENT_BUFFER_SIZE ->
  0 <= n < sizeof_header + SYNCS_VARIABLE_SIZE_MAXIMUM ->
  client_wf (cl <| cl_buffer := b |> <| cl_buffer_recv := n |>).
Proof. by split. Qed.

(** The deliveries of a chunk have the memory their packets read. *)
Lemma deliveries_fit free ds kept bs :
  delivered_frame <$> ds = (parse (kept ++ bs)).1 ->
  0 <= free -> free = SYNCS_CLIENT_BUFFER_SIZE - (zlen kept + zlen bs) -> tickets_fit kept bs ->
  Forall (fun d => 0 <= hd_data_size d.1 <= SYNCS_VARIABLE_SIZE_MAXIMUM /\ hd_data_size d.1 + free <= zlen d.2) ds ->
  Forall (fun d => 0 <= hd_data_size d.1 <= SYNCS_VARIABLE_SIZE_MAXIMUM /\ hd_data_size d.1 <= zlen d.2 /\
    (is_announcement d.1 = true -> sizeof_channel_ticket <= zlen d.2)) ds.
Proof.
  intros Hfs Hfree -> Hroom Hds. destruct Hroom as [Hroom|Hin].
  - eapply list.Forall_impl; [exact Hds|]. intros d [Hd1 Hd2]. split_and!; [lia..|]. intros _. lia.
  - rewrite <- Hfs in Hin. apply Forall_fmap in Hin. clear Hfs. revert Hin.
    induction Hds as [|d ds [Hd1 Hd2] _ IH]; intros Hin; inversion Hin as [|? ? Ht Hin']; subst; constructor; [|].
    + split_and!; [lia..|]. intros Ha. specialize (Ht Ha). simpl in Ht. rewrite zlen_ztake in Ht. lia.
    + by apply IH.
Qed.

Lemma safe_deliveries c ds w :
  winv w -> (c < SYNCS_CLIENT_MAXIMUM)%nat ->
  Forall (fun d => 0 <= hd_data_size d.1 <= SYNCS_VARIABLE_SIZE_MAXIMUM /\ hd_data_size d.1 <= zlen d.2 /\
    (is_announcement d.1 = true -> sizeof_channel_ticket <= zlen d.2)) ds ->
  wp (for_each ds (process_delivery c)) (fun _ => winv) w.
Proof.
  intros Hw Hc Hds. rewrite list.Forall_forall in Hds. apply wp_for_each; [done|].
  intros d w1 Hd Hw1. destruct (Hds d Hd) as (Hn & Hl & Ht). unfold process_delivery. wp_step.
  by call safe_process_packet_ticket.
Qed.

Lemma safe_client_handler c r w :
  winv w -> (c < SYNCS_CLIENT_MAXIMUM)%nat -> recv_fits w c r -> recv_tickets w c r ->
  wp (syncs_client_handler c r) (fun _ => winv) w.
Proof.
  intros Hw Hc Hr Ht. destruct (lookup_lt_is_Some_2 (sv_clients (w_server w)) c) as [cl Hcl].
  { by rewrite (swf_clients (w_server w)). }
  pose proof (swf_client _ Hw c cl Hcl) as Hwf. pose proof Hwf as [Hb Hn]. destruct r as [errno|bs].
  { unfold syncs_client_handler. wp_step. apply wp_client_at; [done..|]. intros cl0 _ _.
    destruct (_ || _); [done|]. wp_step. by call safe_close_client_socket. }
  specialize (Hr cl Hcl). specialize (Ht cl Hcl). pose proof (zlen_nonneg bs).
  destruct (Z.lt_ge_cases (zlen bs) 60) as [Hs|Hs].
  - unfold syncs_client_handler. wp_step. apply wp_client_at; [done..|]. intros cl0 Hcl0 _.
    rewrite Hcl in Hcl0. injection Hcl0 as <-. wp_step. apply wp_memcpy; [clia..|]. rewrite ztake_ge by lia.
    wp_step. eapply wp_mono; [apply wp_client_upd; [done..|]|].
    { intros x [Hx1 Hx2]. split; [|done]. simpl. rewrite zlen_mem_put; [done|lia|clia]. }
    intros u w1 Hw1. rewrite (proj2 (Z.ltb_lt _ _)) by clia.
    destruct (_ =? 0); [|done]. wp_step. by call safe_close_client_socket.
  - destruct Ht as [Ht|Ht]; [clia|].
    destruct (client_handler_parse c bs cl w Hcl Hb ltac:(lia) Hs Hr)
      as (ds & b & n & Hrun & Hfs & Hrest & Hzb & Hn0 & Hds).
    eapply wp_eq; [exact Hrun|]. clear Hrun. wp_step.
    eapply (wp_mono _ (fun _ => winv)).
    { unfold client_upd. wp_step. apply wp_client_at; [done..|]. intros cl0 Hcl0 _. rewrite Hcl in Hcl0.
      injection Hcl0 as <-. apply wp_server_upd. apply winv_client_insert; [done|].
      split; [|done]. simpl. rewrite zlen_mem_put; [done|lia|clia]. }
    intros u w1 Hw1. wp_step.
    eapply wp_mono; [apply safe_deliveries; [done..|]|].
    { eapply (deliveries_fit (SYNCS_CLIENT_BUFFER_SIZE - (cl_buffer_recv cl + zlen bs)));
        [exact Hfs|lia| |done..]. by rewrite zlen_pending. }
    intros u2 w2 Hw2. unfold store_pending. wp_step.
    eapply wp_mono; [apply wp_client_upd; [done..|by intros ? []; split]|]. intros u3 w3 Hw3. wp_step.
    eapply wp_mono; [apply wp_client_upd; [done..|]|done].
    intros x [Hx1 Hx2]. split; [done|]. simpl. split; [done|].
    pose proof (parse_rest_short (pending cl ++ bs)) as Hp. rewrite <- Hrest in Hp. revert Hp.
    pose proof (f_equal zlen Hrest) as Hz. rewrite zlen_ztake. clia.
Qed.

Lemma client_reset_wf cl : client_wf cl -> client_wf (client_reset_counters cl).
Proof. intros []. by split. Qed.

Lemma safe_add_client r w : winv w -> wp (syncs_add_client r) (fun _ => winv) w.
Proof.
  intros Hw. unfold syncs_add_client. wp_step. apply wp_server_get.
  destruct (syncs_get_free_client _) as [c|] eqn:E; [|done].
  apply get_free_client_lt in E; [|done]. destruct r as [errno|fd addr].
  - wp_step. call safe_client_field. by destruct (network_errno errno).
  - wp_step. call safe_client_field. wp_step. call safe_client_field.
    wp_step. call wp_client_upd; [by auto using client_reset_wf|].
    wp_step. apply wp_emit. wp_step. by call safe_server_upd.
Qed.

Lemma safe_add_uclient addr w :
  winv w -> wp (syncs_add_uclient addr) (fun o w' => winv w' /\
    forall c, o = Some c -> (c < SYNCS_CLIENT_MAXIMUM)%nat) w.
Proof.
  intros Hw. unfold syncs_add_uclient. wp_step. apply wp_server_get.
  destruct (syncs_get_free_client _) as [c|] eqn:E; [|done].
  apply get_free_client_lt in E; [|done].
  wp_step. call safe_client_field. wp_step. call safe_client_field.
  wp_step. call wp_client_upd; [by auto using client_reset_wf|].
  wp_step. call safe_server_upd. wp_step. call safe_server_upd.
  apply wp_ret. naive_solver.
Qed.

Lemma safe_uclient_process_packet addr h data w :
  winv w -> 0 <= hd_data_size h <= SYNCS_VARIABLE_SIZE_MAXIMUM -> hd_data_size h <= zlen data ->
  sizeof_channel_ticket <= zlen data ->
  wp (syncs_uclient_process_packet addr h data) (fun _ => winv) w.
Proof.
  intros Hw Hn Hd Ht. unfold syncs_uclient_process_packet. wp_step. apply wp_server_get. wp_step.
  eapply (wp_mono _ (fun r w => winv w /\ forall c, r = Some c -> (c < SYNCS_CLIENT_MAXIMUM)%nat)).
  { destruct (syncs_find_uclient_addr _ _) as [c|] eqn:E.
    { apply wp_ret. split; [done|]. intros ? [= <-].
      apply scan_lt in E. by rewrite <- (swf_clients (w_server w)). }
    destruct (_ =? _).
    - destruct (syncs_find_uclient_id _ _) as [c|] eqn:E2; [|by apply safe_add_uclient].
      assert (c < SYNCS_CLIENT_MAXIMUM)%nat.
      { apply scan_lt in E2. by rewrite <- (swf_clients (w_server w)). }
      wp_step. call safe_client_field. apply wp_ret. naive_solver.
    - wp_step. unfold syncs_send_udp_server_status. wp_step. apply run_stack_packet. intros p Hp _.
      wp_step. apply wp_server_get. wp_step. apply wp_emit. wp_step. wp_step. done. }
  intros [c|] w1 [Hw1 Hc]; [|done]. specialize (Hc _ eq_refl).
  wp_step. by call safe_client_process_packet.
Qed.

Lemma winv_ubuffer b w :
  winv w -> zlen b = SYNCS_CLIENT_BUFFER_SIZE ->
  winv (mk_world (w_server w <| sv_ubuffer := b |>) (w_log w)).
Proof. intros [] ?. by split. Qed.

Lemma safe_udp_handler addr r w :
  winv w -> (forall bs, r = RecvData bs -> zlen bs <= SYNCS_CLIENT_BUFFER_SIZE) ->
  wp (syncs_udp_handler addr r) (fun _ => winv) w.
Proof.
  intros Hw Hr. unfold syncs_udp_handler. destruct r as [errno|bs]; [done|].
  specialize (Hr _ eq_refl). pose proof (zlen_nonneg bs).
  wp_step. apply wp_server_get. wp_step. pose proof (swf_ubuffer _ Hw).
  apply wp_memcpy; [lia..|]. rewrite ztake_ge by lia.
  set (b := mem_put 0 bs _). assert (zlen b = SYNCS_CLIENT_BUFFER_SIZE) as Hb.
  { subst b. by rewrite zlen_mem_put by lia. }
  wp_step. apply wp_server_upd.
  pose proof (winv_ubuffer b w Hw Hb) as Hw1. set (w1 := mk_world _ _) in *.
  destruct (_ <? _); [done|]. destruct (negb _); [done|]. destruct (negb _); [done|].
  assert (zlen (mask_data_size 0 b) = SYNCS_CLIENT_BUFFER_SIZE) as Hm
    by (rewrite zlen_mask_data_size; clia).
  wp_step. apply wp_server_upd.
  pose proof (winv_ubuffer _ w1 Hw1 Hm) as Hw2. set (w2 := mk_world _ _) in *.
  rewrite decode_header_sub, decode_mask_data_size by clia.
  pose proof (hd_data_size_range (decode_header (zdrop 0 b))).
  apply safe_uclient_process_packet; [done..|clia|clia].
Qed.

(** ** The application's calls *)

Lemma safe_server_write flags cid data size w :
  winv w ->
  let n := if size =? 0 then syncs_get_size_by_type flags else size in
  0 <= n <= SYNCS_VARIABLE_SIZE_MAXIMUM -> n <= zlen data ->
  wp (syncs_server_write flags cid data size) (fun _ => winv) w.
Proof.
  intros Hw n Hn Hd. unfold syncs_server_write. wp_step.
  call safe_find_or_create. destruct Hw' as [Hw' He]. destruct a as [code|e]; [done|].
  specialize (He _ eq_refl). fold n.
  wp_step. call safe_event_store. wp_step. call safe_event_size.
  wp_step. apply wp_event_at; [done..|]. intros ev _ _.
  wp_step. eapply (wp_mono _ (fun _ => winv)).
  { destruct (bool_decide _); [|done]. wp_step. call safe_event_field. by apply safe_event_field. }
  intros ? w3 Hw3. cbn beta in *. wp_step. by call safe_send_event.
Qed.

Lemma safe_server_subscribe_event flags cid cb args w :
  winv w -> wp (syncs_server_subscribe_event flags cid cb args) (fun _ => winv) w.
Proof.
  intros Hw. unfold syncs_server_subscribe_event. wp_step. call safe_find_or_create.
  destruct Hw' as [Hw' He]. destruct a as [code|e]; [done|]. specialize (He _ eq_refl).
  wp_step. call safe_event_field. wp_step. by call safe_event_field.
Qed.

Lemma safe_server_unsubscribe_event cid w :
  winv w -> wp (syncs_server_unsubscribe_event cid) (fun _ => winv) w.
Proof.
  intros Hw. unfold syncs_server_unsubscribe_event. wp_step. apply wp_server_get.
  destruct (syncs_find_event _ _) as [e|] eqn:E; [|done]. apply find_event_lt in E; [|done].
  wp_step. call safe_event_field. by apply safe_event_field.
Qed.

Lemma safe_server_define cid flags data size w :
  winv w -> (forall bs, data = Some bs -> size <= SYNCS_VARIABLE_SIZE_MAXIMUM -> define_size flags size <= zlen bs) ->
  wp (syncs_server_define cid flags data size) (fun _ => winv) w.
Proof.
  intros Hw Hd. unfold syncs_server_define. destruct (_ >? _) eqn:E; [done|].
  rewrite Z.gtb_ltb, Z.ltb_ge in E. apply safe_add_event_exact; [done|]. intros bs Hbs. by apply Hd.
Qed.

Lemma safe_server_undefine cid w :
  winv w -> wp (syncs_server_undefine cid) (fun _ => winv) w.
Proof. intros Hw. unfold syncs_server_undefine. wp_step. by call safe_free_event. Qed.

(** ** Steps and reachable states *)

Inductive api_call : Type :=
  | ApiDefine (cid : list byte) (flags : Z) (data : option (list byte)) (size : Z)
  | ApiUndefine (cid : list byte)
  | ApiSubscribe (flags : Z) (cid : list byte) (cb args : Z)
  | ApiUnsubscribe (cid : list byte)
  | ApiWrite (flags : Z) (cid data : list byte) (size : Z)
  | ApiSyncOffset (ms : Z).

Definition api_run (a : api_call) : SM unit :=
  match a with
  | ApiDefine cid flags data size => _ ← syncs_server_define cid flags data size; mret tt
  | ApiUndefine cid => _ ← syncs_server_undefine cid; mret tt
  | ApiSubscribe flags cid cb args => _ ← syncs_server_subscribe_event flags cid cb args; mret tt
  | ApiUnsubscribe cid => syncs_server_unsubscribe_event cid
  | ApiWrite flags cid data size => _ ← syncs_server_write flags cid data size; mret tt
  | ApiSyncOffset ms => syncs_server_set_sync_offset ms
  end.

(** The objects the application passes hold the bytes that are copied from
    them: for a definition, [size] bytes, or those of the type when [size] is
    0, 1 or the maximum; for a write, [size] bytes, or those of the type when
    [size] is 0, and at most those of a variable: [syncs_server_write] does
    not check. *)
Definition api_ok (a : api_call) : Prop :=
  match a with
  | ApiDefine _ flags (Some bs) size =>
      size <= SYNCS_VARIABLE_SIZE_MAXIMUM -> define_size flags size <= zlen bs
  | ApiWrite flags _ data size =>
      let n := if size =? 0 then syncs_get_size_by_type flags else size in
      0 <= n <= SYNCS_VARIABLE_SIZE_MAXIMUM /\ n <= zlen data
  | _ => True
  end.

(** What the event loop may meet in state [w]: whatever the kernel can report
    (data of at most the free part of the receive buffer), except an
    announcement that is read past a full buffer. *)
Definition epoll_event_ok (w : world) (e : epoll_event) : Prop :=
  match e with
  | EpAccept _ => True
  | EpClient c r => (c < SYNCS_CLIENT_MAXIMUM)%nat /\ recv_fits w c r /\ recv_tickets w c r
  | EpUdp _ r => forall bs, r = RecvData bs -> zlen bs <= SYNCS_CLIENT_BUFFER_SIZE
  end.

Inductive server_step (w w' : world) : Prop :=
  | step_epoll e : epoll_event_ok w e -> epoll_callback e w = Ok (tt, w') -> server_step w w'
  | step_api a : api_ok a -> api_run a w = Ok (tt, w') -> server_step w w'.

Inductive reachable : world -> Prop :=
  | reach_init addr port cid : reachable (mk_world (syncs_server_create addr port cid) [])
  | reach_step w w' : reachable w -> server_step w w' -> reachable w'.

Lemma safe_epoll_callback e w :
  winv w -> epoll_event_ok w e -> wp (epoll_callback e) (fun _ => winv) w.
Proof.
  intros Hw He. destruct e as [r|c r|addr r]; simpl; wp_step.
  - by call safe_add_client.
  - destruct He as (? & ? & ?). by call safe_client_handler.
  - by call safe_udp_handler.
Qed.

Lemma safe_api_run a w : winv w -> api_ok a -> wp (api_run a) (fun _ => winv) w.
Proof.
  intros Hw Ha. destruct a as [cid flags data size| | | |flags cid data size|]; simpl.
  - wp_step. call safe_server_define; [|done]. by intros bs ->.
  - wp_step. by call safe_server_undefine.
  - wp_step. by call safe_server_subscribe_event.
  - by apply safe_server_unsubscribe_event.
  - destruct Ha. wp_step. by call safe_server_write.
  - by apply safe_server_upd.
Qed.

Lemma step_winv w w' : winv w -> server_step w w' -> winv w'.
Proof.
  intros Hw [e He Hr|a Ha Hr].
  - pose proof (safe_epoll_callback e w Hw He) as Hs. unfold wp in Hs. by rewrite Hr in Hs.
  - pose proof (safe_api_run a w Hw Ha) as Hs. unfold wp in Hs. by rewrite Hr in Hs.
Qed.

Lemma reachable_winv w : reachable w -> winv w.
Proof.
  induction 1 as [addr port cid|w w' _ IH Hs]; [apply server_create_wf|by eapply step_winv].
Qed.
End loop.
