(* ===== verification/Stats.v ===== *)
(** * Server: the printed statistics

    [syncs_server_print_event]: the tables of variables, clients and channels
    as text, with the [printf] conversions they use. *)

From Stdlib Require Import Strings.String.
From S2P Require Import Prelude.
From S2P Require Import Monad.
From S2P Require Import Types.
From S2P Require Import Net.
From S2P Require Import ServerState.
From S2P Require Import Text.

(** ** [%f] *)

(** [a / b] rounded to the nearest integer, ties to even. *)
Definition round_half_even (a b : Z) : Z :=
  let q := a / b in
  let r := a mod b in
  if 2 * r <? b then q else if 2 * r >? b then q + 1 else if Z.even q then q else q + 1.

(** The IEEE number with [e] exponent and [m] fraction bits, printed with six
    digits after the point; 400 digits are enough for a double. *)
Definition fmt_f (e m bits : Z) : list byte :=
  let sign := if Z.testbit bits (e + m) then [Byte.x2d] else [] in
  let exponent := Z.land (Z.shiftr bits m) (Z.ones e) in
  let fraction := Z.land bits (Z.ones m) in
  if exponent =? Z.ones e then sign ++ (if fraction =? 0 then text "inf" else text "nan")
  else
    let mantissa := if exponent =? 0 then fraction else fraction + 2 ^ m in
    let k := Z.max exponent 1 - (2 ^ (e - 1) - 1) - m in
    let scaled := if 0 <=? k then mantissa * 10 ^ 6 * 2 ^ k
                  else round_half_even (mantissa * 10 ^ 6) (2 ^ (- k)) in
    let decimals := digits 6 (scaled mod 10 ^ 6) in
    sign ++ digits 400 (scaled / 10 ^ 6) ++ text "." ++
      replicate (6 - length decimals) Byte.x30 ++ decimals.

Example fmt_f_float : fmt_f 8 23 0x40490fdb = text "3.141593".
Proof. by vm_compute. Qed.
Example fmt_f_double : fmt_f 11 52 0xbfb999999999999a = text "-0.100000".
Proof. by vm_compute. Qed.

(** ** One variable *)

Definition i64 (x : Z) : Z := (x + 2 ^ 63) mod 2 ^ 64 - 2 ^ 63.
Definition word_at (n : Z) (data : list byte) : Z := le_combine (mem_sub 0 n data).
Definition int_at (data : list byte) : Z := i32 (word_at 4 data).

(** [isprint(c)] looks [c] up in a table for -128 to 255. *)
Definition isprint_lookup {S} (c : Z) : M S bool :=
  if (-128 <=? c) && (c <=? 255) then mret (isprint c) else raise OutOfBounds.

Definition LF : list byte := [Byte.x0a].

(** The [switch] on the type: what it prints, and the [size] given to
    [snprintf]. *)
Definition value_output {S} (ev : syncs_event) : M S (Z * list byte) :=
  let data := ev_data ev in
  let type := ev_data_type ev in
  if type =? SYNCS_TYPE_VAR_INT32 then
    let v := int_at data in
    printable ← (if v <? 255 then isprint_lookup v else mret false);
    mret (15, if printable : bool then fmt_d v ++ text "/" ++ ztake 1 data else fmt_d v)
  else if type =? SYNCS_TYPE_VAR_INT64 then mret (15, fmt_d (i64 (word_at 8 data)))
  else if type =? SYNCS_TYPE_VAR_FLOAT then mret (15, fmt_f 8 23 (word_at 4 data))
  else if type =? SYNCS_TYPE_VAR_DOUBLE then mret (15, fmt_f 11 52 (word_at 8 data))
  else if type =? SYNCS_TYPE_VAR_STRING then s ← c_string data; mret (15, s)
  else mret (10, text "not support").

Definition event_row (id value : list byte) (ev : syncs_event) : list byte :=
  text "|" ++ pad 30 id ++ text "|" ++ pad 15 value ++ text "|" ++ pad 7 (fmt_d (i32 (ev_count ev))) ++
  text "|" ++ pad 7 (fmt_d (i32 (ev_producers_count ev))) ++
  text "|" ++ pad 7 (fmt_d (i32 (ev_consumers_count ev))) ++ LF.

(** [str] is the array the values are formatted in. *)
Definition print_event_row {S} (acc : list byte * list byte) (ev : syncs_event) : M S (list byte * list byte) :=
  let '(str, out) := acc in
  if id_is_free (ev_id ev) then mret (str, out)
  else
    res ← value_output ev;
    let '(size, output) := res in
    res ← snprintf str size output;
    let '(str, _) := res in
    id ← c_string (id_chars (ev_id ev));
    value ← c_string str;
    mret (str, out ++ event_row id value ev).

(** ** Clients and channels *)

Definition client_row (id : list byte) (cl : syncs_client) : list byte :=
  text "|" ++ pad 20 id ++ text "|" ++ pad 7 (fmt_d (cl_rx_event_count cl)) ++
  text "|" ++ pad 7 (fmt_d (cl_tx_event_count cl)) ++ text "|" ++ pad 7 (fmt_d (cl_event_subscribe cl)) ++
  text "|" ++ pad 7 (fmt_d (cl_event_write cl)) ++ text "|" ++ pad 7 (inet_ntoa (sin_addr (cl_addr cl))) ++
  text "|" ++ pad 7 (if cl_socketfd cl =? UDP_SOCKET_STUB then text "udp" else text "tcp") ++ LF.

Definition print_client_row {S} (out : list byte) (cl : syncs_client) : M S (list byte) :=
  if cl_socketfd cl =? -1 then mret out
  else id ← c_string (id_chars (cl_id cl)); mret (out ++ client_row id cl).

Definition channel_row (id : list byte) (ch : syncs_channel) : list byte :=
  text "|" ++ pad 20 id ++ text "|" ++ pad 11 (inet_ntoa (tk_ip (ch_ticket ch))) ++
  text "|" ++ pad 7 (fmt_d (tk_port (ch_ticket ch))) ++ text "|" ++ pad 7 (fmt_d (i32 (ch_request_count ch))) ++
  text "|" ++ pad 7 (fmt_d (i32 (ch_producers_count ch))) ++
  text "|" ++ pad 7 (fmt_d (i32 (ch_anons_count ch))) ++ LF.

Definition print_channel_row {S} (out : list byte) (ch : syncs_channel) : M S (list byte) :=
  if id_is_free (ch_id ch) then mret out
  else id ← c_string (id_chars (ch_id ch)); mret (out ++ channel_row id ch).

Definition events_head : list byte :=
  text "Event statistics" ++ LF ++
  text "|" ++ pad 30 (text "id") ++ text "|" ++ pad 15 (text "value") ++ text "|" ++ pad 7 (text "count") ++
  text "|" ++ pad 7 (text "prod.") ++ text "|" ++ pad 7 (text "cons." ++ LF).
Definition clients_head : list byte :=
  text "Client statistics" ++ LF ++
  text "|" ++ pad 20 (text "id") ++ text "|" ++ pad 7 (text "rx pkt") ++ text "|" ++ pad 7 (text "tx pkt") ++
  text "|" ++ pad 7 (text "subscr") ++ text "|" ++ pad 7 (text "write") ++ text "|" ++ pad 7 (text "ip") ++
  text "|" ++ pad 7 (text "proto") ++ LF.
Definition channels_head : list byte :=
  text "Channel statistics" ++ LF ++
  text "|" ++ pad 20 (text "id") ++ text "|" ++ pad 11 (text "ip") ++ text "|" ++ pad 7 (text "port") ++
  text "|" ++ pad 7 (text "tickets") ++ text "|" ++ pad 7 (text "prod") ++ text "|" ++ pad 7 (text "cons." ++ LF).

(** The result is what is written to [stream]; [str] is uninitialised. *)
Definition syncs_server_print_event {S} (s : syncs_server) (str : list byte) : M S (list byte) :=
  res ← fold_m print_event_row (str, events_head) (sv_events s);
  out ← fold_m print_client_row (res.2 ++ clients_head) (sv_clients s);
  fold_m print_channel_row (out ++ channels_head) (sv_channels s).
