(* ===== verification/EventSpec.v ===== *)
(** * Server: functional behaviour of the event table

    What each operation does to [s->events] and [s->update_counter], as
    equations, and which operations leave them alone. *)

From S2P Require Import Prelude.
From S2P Require Import Monad.
From S2P Require Import Types.
From S2P Require Import Net.
From S2P Require Import ServerState.
From S2P Require Import ServerEvents.
From S2P Require Import ServerPackets.
From S2P Require Import ServerInv.
From S2P Require Import ServerSafe.

(** A view of the world that reads the server only. *)
Definition on_server {B} (view : syncs_server -> B) (w : world) : B := view (w_server w).

Definition w_events : world -> list syncs_event := on_server sv_events.
Definition w_clients : world -> list syncs_client := on_server sv_clients.
Definition w_channels : world -> list syncs_channel := on_server sv_channels.

(** The part of the server the variables live in. *)
Definition vars_view (s : syncs_server) : list syncs_event * Z := (sv_events s, sv_update_counter s).
Definition w_vars : world -> list syncs_event * Z := on_server vars_view.

(** The state with event [e] replaced. *)
Definition set_event (e : nat) (ev : syncs_event) (w : world) : world :=
  w <| w_server ::= fun s => s <| sv_events ::= <[e := ev]> |> |>.

(** ** Frames *)

(** Instance search must not compare the bodies of different operations. *)
#[global] Typeclasses Opaque find_or_create event_set_type event_store client_write_store
  syncs_create_event server_get server_upd event_at event_upd client_at client_upd
  channel_at channel_upd stack_packet emit memcpy for_each fold_m
  syncs_blocking_send syncs_client_send syncs_sync_calculate
  syncs_send_event syncs_resend_event syncs_send_server_status event_callback
  syncs_create_channel syncs_client_channel syncs_client_read
  syncs_remove_client_from_event syncs_remove_client_from_events syncs_remove_channels_of_client
  syncs_client_send_list syncs_client_send_clientlist syncs_client_send_eventlist
  syncs_client_send_channellist.

Section frames.
Context `{Env}.

#[export] Instance keeps_server_get {B} (view : world -> B) : Keeps view server_get.
Proof. unfold server_get. apply _. Qed.
#[export] Instance keeps_event_at {B} (view : world -> B) e : Keeps view (event_at e).
Proof. unfold event_at. apply _. Qed.
#[export] Instance keeps_client_at {B} (view : world -> B) e : Keeps view (client_at e).
Proof. unfold client_at. apply _. Qed.
#[export] Instance keeps_channel_at {B} (view : world -> B) e : Keeps view (channel_at e).
Proof. unfold channel_at. apply _. Qed.
#[export] Instance keeps_stack_packet {B} (view : world -> B) : Keeps view stack_packet.
Proof. unfold stack_packet. apply _. Qed.
#[export] Instance keeps_sync_calculate {B} (view : world -> B) s ms : Keeps view (syncs_sync_calculate s ms).
Proof. unfold syncs_sync_calculate. apply _. Qed.

(** Output changes the log only. *)
Section server_view.
Context {B : Type} (view : syncs_server -> B).

#[export] Instance keeps_emit e : Keeps (on_server view) (emit e).
Proof. by apply keeps_modify. Qed.
#[export] Instance keeps_blocking_send sock buffer len :
  Keeps (on_server view) (syncs_blocking_send sock buffer len).
Proof.
  unfold syncs_blocking_send. generalize (Z.to_nat len) as fuel. intros fuel.
  revert buffer len. induction fuel; intros; simpl; unfold os_send; apply _.
Qed.
#[export] Instance keeps_client_send c p :
  Keeps (on_server view) (syncs_client_send c p).
Proof. unfold syncs_client_send, syncs_udp_send. apply _. Qed.
#[export] Instance keeps_event_callback e id :
  Keeps (on_server view) (event_callback e id).
Proof. unfold event_callback. apply _. Qed.
End server_view.

(** Updates of the server write nothing. *)
#[export] Instance keeps_log_server_upd f : Keeps w_log (server_upd f).
Proof. by apply keeps_modify. Qed.
#[export] Instance keeps_log_event_upd e f : Keeps w_log (event_upd e f).
Proof. apply keeps_bind; [apply _|]. intros x. apply keeps_log_server_upd. Qed.
#[export] Instance keeps_log_client_upd c f : Keeps w_log (client_upd c f).
Proof. apply keeps_bind; [apply _|]. intros x. apply keeps_log_server_upd. Qed.
#[export] Instance keeps_log_channel_upd n f : Keeps w_log (channel_upd n f).
Proof. apply keeps_bind; [apply _|]. intros x. apply keeps_log_server_upd. Qed.
#[export] Instance keeps_log_remove_client c e : Keeps w_log (syncs_remove_client_from_event c e).
Proof. unfold syncs_remove_client_from_event. apply _. Qed.
#[export] Instance keeps_log_remove_events c : Keeps w_log (syncs_remove_client_from_events c).
Proof. unfold syncs_remove_client_from_events. apply _. Qed.
#[export] Instance keeps_log_remove_channels c : Keeps w_log (syncs_remove_channels_of_client c).
Proof.
  unfold syncs_remove_channels_of_client. apply keeps_for_each. intros i.
  apply keeps_bind; [apply _|]. intros ch. destruct (_ && _); [apply keeps_log_channel_upd|apply _].
Qed.

#[export] Instance keeps_client_upd c f : Keeps w_vars (client_upd c f).
Proof. unfold client_upd. apply keeps_bind; [apply _|]. intros cl. by apply keeps_modify. Qed.
#[export] Instance keeps_channel_upd c f : Keeps w_vars (channel_upd c f).
Proof. unfold channel_upd. apply keeps_bind; [apply _|]. intros cl. by apply keeps_modify. Qed.

#[export] Instance keeps_send_event e flags : Keeps w_vars (syncs_send_event e flags).
Proof. unfold syncs_send_event. apply _. Qed.
#[export] Instance keeps_resend_event c e : Keeps w_vars (syncs_resend_event c e).
Proof. unfold syncs_resend_event. apply _. Qed.
#[export] Instance keeps_send_server_status c code : Keeps w_vars (syncs_send_server_status c code).
Proof. unfold syncs_send_server_status. apply _. Qed.
#[export] Instance keeps_client_read c id : Keeps w_vars (syncs_client_read c id).
Proof. unfold syncs_client_read. apply _. Qed.

#[export] Instance keeps_create_channel id : Keeps w_vars (syncs_create_channel id).
Proof.
  unfold syncs_create_channel. apply keeps_bind; [apply _|]. intros s.
  destruct (scan _ _); [|apply _]. apply keeps_bind; [apply _|]. intros _.
  apply keeps_bind; [by apply keeps_modify|apply _].
Qed.
#[export] Instance keeps_client_channel c h data : Keeps w_vars (syncs_client_channel c h data).
Proof. unfold syncs_client_channel, syncs_add_channel, syncs_client_channel_request. apply _. Qed.
#[export] Instance keeps_remove_channels c : Keeps w_vars (syncs_remove_channels_of_client c).
Proof. unfold syncs_remove_channels_of_client. apply _. Qed.

Lemma keeps_send_list ls c n :
  (forall i k b, Keeps w_vars (ls_fill ls i k b)) -> Keeps w_vars (syncs_client_send_list ls c n).
Proof. intros Hf. unfold syncs_client_send_list, list_step, list_flush. apply _. Qed.
#[export] Instance keeps_send_clientlist c n : Keeps w_vars (syncs_client_send_clientlist c n).
Proof. apply keeps_send_list. simpl. unfold client_info_fill, put_field. apply _. Qed.
#[export] Instance keeps_send_eventlist c n : Keeps w_vars (syncs_client_send_eventlist c n).
Proof. apply keeps_send_list. simpl. unfold event_info_fill, put_field. apply _. Qed.
#[export] Instance keeps_send_channellist c n : Keeps w_vars (syncs_client_send_channellist c n).
Proof. apply keeps_send_list. simpl. unfold channel_info_fill, put_field. apply _. Qed.
End frames.

(** ** The event table, operation by operation *)

(** What a write by client [c] leaves in the slot; [uc] is the server's
    counter. *)
Definition write_event (c : nat) (data : list byte) (n uc : Z) (ev : syncs_event) : syncs_event :=
  let ev := if bool_decide (ev_producer ev = Some c) then ev
            else ev <| ev_producer := Some c |> <| ev_producers_count ::= incr_u32 |> in
  ev <| ev_count ::= incr_u32 |>
     <| ev_data ::= mem_put 0 (ztake n data) |>
     <| ev_data_size := n |>
     <| ev_update_counter := uc |>.

(** A slot taken for [id] by a client's [SYNCS_TYPE_FORCE] packet. *)
Definition open_new (id : syncsid_t) (flags : Z) (ev : syncs_event) : syncs_event :=
  syncs_event_init ev id <| ev_data_type := Z.land flags SYNCS_TYPE_VAR_MASK |>.

Definition open_event (id : syncsid_t) (flags : Z) (l : list syncs_event) : (Z + nat) * list syncs_event :=
  match scan (fun ev => syncs_idcmp (ev_id ev) id) l with
  | Some e => (inr e, l)
  | None =>
      if negb (flag flags SYNCS_TYPE_FORCE) then (inl (-1), l)
      else match scan (fun ev => id_is_free (ev_id ev)) l with
           | Some i => (inr i, alter (open_new id flags) i l)
           | None => (inl (-2), l)
           end
  end.

(** Two type fields that a subscription accepts. *)
Definition types_compatible (flags type : Z) : bool :=
  (Z.land type SYNCS_TYPE_VAR_MASK =? SYNCS_TYPE_VAR_ANY) ||
  (Z.land flags SYNCS_TYPE_VAR_MASK =? SYNCS_TYPE_VAR_ANY) ||
  (Z.land flags SYNCS_TYPE_VAR_MASK =? type).

Definition subscribe_event (c : nat) (ev : syncs_event) : syncs_event :=
  match scan (fun x => bool_decide (x = Some c)) (ev_consumers ev) with
  | Some _ => ev
  | None =>
      match scan (fun x => bool_decide (x = None)) (ev_consumers ev) with
      | Some i => add_consumer i c ev
      | None => ev
      end
  end.

Definition unsubscribe_event (c : nat) (ev : syncs_event) : syncs_event :=
  match scan (fun x => bool_decide (x = Some c)) (ev_consumers ev) with
  | Some i => drop_consumer i ev
  | None => ev
  end.

Definition define_event (flags n : Z) (data : option (list byte)) (ev : syncs_event) : syncs_event :=
  let ev := ev <| ev_data_type := Z.land flags SYNCS_TYPE_VAR_MASK |> <| ev_data_size := n |> in
  match data with Some bs => ev <| ev_data ::= mem_put 0 (ztake n bs) |> | None => ev end.

(** The updates as constructor terms: nested record updates are slow to
    convert. *)

Lemma event_init_eq ev id :
  syncs_event_init ev id =
    mk_event id (<[0%nat := Byte.x00]> (ev_data ev)) 0 0 0 0 0 0
      ((fun _ => None) <$> ev_consumers ev) None NULL NULL.
Proof. by destruct ev, id. Qed.

Lemma open_new_eq id flags ev :
  open_new id flags ev =
    mk_event id (<[0%nat := Byte.x00]> (ev_data ev)) (Z.land flags SYNCS_TYPE_VAR_MASK) 0 0 0 0 0
      ((fun _ => None) <$> ev_consumers ev) None NULL NULL.
Proof. unfold open_new. by rewrite event_init_eq. Qed.

Lemma write_event_eq c data n uc ev :
  write_event c data n uc ev =
    mk_event (ev_id ev) (mem_put 0 (ztake n data) (ev_data ev)) (ev_data_type ev) n
      (incr_u32 (ev_count ev)) uc (ev_consumers_count ev)
      (if bool_decide (ev_producer ev = Some c) then ev_producers_count ev
       else incr_u32 (ev_producers_count ev))
      (ev_consumers ev) (Some c) (ev_cb ev) (ev_args ev).
Proof.
  unfold write_event. destruct (bool_decide_reflect (ev_producer ev = Some c)) as [E|E];
    destruct ev; simpl in *; by rewrite ?E.
Qed.

Lemma define_event_eq flags n data ev :
  define_event flags n data ev =
    mk_event (ev_id ev) (match data with Some bs => mem_put 0 (ztake n bs) (ev_data ev) | None => ev_data ev end)
      (Z.land flags SYNCS_TYPE_VAR_MASK) n (ev_count ev) (ev_update_counter ev)
      (ev_consumers_count ev) (ev_producers_count ev) (ev_consumers ev) (ev_producer ev)
      (ev_cb ev) (ev_args ev).
Proof. by destruct ev, data. Qed.

Definition counter_of (v : list syncs_event * Z) : Z := v.2.

Section run.
Context `{Env}.

Lemma wlp_server_get (Q : syncs_server -> world -> Prop) w : Q (w_server w) w -> wlp server_get Q w.
Proof. done. Qed.

Lemma wlp_server_upd f (Q : unit -> world -> Prop) w :
  Q tt (mk_world (f (w_server w)) (w_log w)) -> wlp (server_upd f) Q w.
Proof. done. Qed.

Lemma wlp_event_at e w l uc (Q : syncs_event -> world -> Prop) :
  w_vars w = (l, uc) -> (forall ev, l !! e = Some ev -> Q ev w) -> wlp (event_at e) Q w.
Proof.
  intros [= <- <-] HQ. unfold event_at. wlp_step. apply wlp_server_get.
  apply wlp_deref. intros ev. apply HQ.
Qed.

Lemma wlp_event_upd e f w l uc (Q : unit -> world -> Prop) :
  w_vars w = (l, uc) -> (forall w', w_vars w' = (alter f e l, uc) -> Q tt w') -> wlp (event_upd e f) Q w.
Proof.
  intros Hw HQ. unfold event_upd. wlp_step. apply (wlp_event_at e w l uc); [done|]. intros ev Hev.
  apply wlp_server_upd, HQ. injection Hw as <- <-. unfold w_vars, on_server, vars_view. simpl.
  by rewrite (list_alter_insert f e ev).
Qed.

(** Frames: what keeps [w_vars] may run anywhere. *)
Lemma wlp_frame {A} (m : SM A) `{!Keeps w_vars m} w l uc (Q : A -> world -> Prop) :
  w_vars w = (l, uc) -> (forall a w', w_vars w' = (l, uc) -> Q a w') -> wlp m Q w.
Proof. intros Hw HQ. apply (wlp_keeps w_vars m). intros a w' E. apply HQ. by rewrite E. Qed.

Lemma run_create_event id w l uc (Q : option nat -> world -> Prop) :
  w_vars w = (l, uc) ->
  (forall w', match scan (fun ev => id_is_free (ev_id ev)) l with
     | Some i => w_vars w' = (alter (fun ev => syncs_event_init ev id) i l, uc) -> Q (Some i) w'
     | None => w_vars w' = (l, uc) -> Q None w'
     end) ->
  wlp (syncs_create_event id) Q w.
Proof.
  intros Hw HQ. unfold syncs_create_event. wlp_step. apply wlp_server_get.
  assert (sv_events (w_server w) = l) as -> by by injection Hw.
  destruct (scan _ l) as [i|] eqn:Ei; [|by apply HQ].
  wlp_step. eapply wlp_event_upd; [done|]. intros w' Hw'. wlp_step. apply wlp_server_upd. wlp_step.
  by apply HQ.
Qed.

Lemma run_open id flags w l uc (Q : Z + nat -> world -> Prop) :
  w_vars w = (l, uc) ->
  (forall w', w_vars w' = ((open_event id flags l).2, uc) -> Q (open_event id flags l).1 w') ->
  wlp (find_or_create id flags (event_set_type flags)) Q w.
Proof.
  intros Hw. unfold find_or_create, open_event. intros HQ. wlp_step. apply wlp_server_get.
  unfold syncs_find_event. assert (sv_events (w_server w) = l) as -> by by injection Hw.
  destruct (scan _ l) as [e|] eqn:E; [by apply HQ|]. destruct (negb _); [by apply HQ|].
  wlp_step. eapply run_create_event; [done|]. intros w1.
  destruct (scan (fun ev => id_is_free _) l) as [i|] eqn:Ei; intros Hw1; [|wlp_step; by apply HQ].
  wlp_step. eapply wlp_event_upd; [done|]. intros w2 Hw2. wlp_step. apply HQ. rewrite Hw2. simpl.
  rewrite list_alter_alter_eq. reflexivity.
Qed.

Lemma run_add_client_to_event c e w l uc (Q : Z -> world -> Prop) :
  w_vars w = (l, uc) ->
  (forall r w', w_vars w' = (alter (subscribe_event c) e l, uc) -> Q r w') ->
  wlp (syncs_add_client_to_event c e) Q w.
Proof.
  intros Hw HQ. unfold syncs_add_client_to_event. wlp_step. eapply wlp_event_at; [done|].
  intros ev Hev. destruct (scan _ _) as [i|] eqn:E1.
  { wlp_step. apply HQ. rewrite (list_alter_fix _ e ev); [done..|]. unfold subscribe_event. by rewrite E1. }
  destruct (scan (fun x => bool_decide (x = None)) _) as [i|] eqn:E2.
  - wlp_step. eapply wlp_event_upd; [done|]. intros w1 Hw1. wlp_step.
    eapply wlp_event_upd; [done|]. intros w2 Hw2. wlp_step.
    eapply wlp_frame; [apply _|done|]. intros _ w3 Hw3. wlp_step. apply HQ.
    rewrite Hw3, list_alter_alter_eq. f_equal. apply (list_alter_agree _ _ e ev); [done|].
    unfold subscribe_event. by rewrite E1, E2.
  - wlp_step. apply HQ. rewrite (list_alter_fix _ e ev); [done..|].
    unfold subscribe_event. by rewrite E1, E2.
Qed.

Lemma run_remove_client_from_event c e w l uc (Q : unit -> world -> Prop) :
  w_vars w = (l, uc) ->
  (forall w', w_vars w' = (alter (unsubscribe_event c) e l, uc) -> Q tt w') ->
  wlp (syncs_remove_client_from_event c e) Q w.
Proof.
  intros Hw HQ. unfold syncs_remove_client_from_event. wlp_step. eapply wlp_event_at; [done|].
  intros ev Hev. destruct (scan _ _) as [i|] eqn:E1.
  - wlp_step. eapply wlp_event_upd; [done|]. intros w1 Hw1. wlp_step.
    eapply wlp_event_upd; [done|]. intros w2 Hw2.
    eapply wlp_frame; [apply _|done|]. intros [] w3 Hw3. apply HQ.
    rewrite Hw3, list_alter_alter_eq. f_equal. apply (list_alter_agree _ _ e ev); [done|].
    unfold unsubscribe_event. by rewrite E1.
  - wlp_step. apply HQ. rewrite (list_alter_fix _ e ev); [done..|].
    unfold unsubscribe_event. by rewrite E1.
Qed.

Lemma run_event_store e data n w l uc (Q : unit -> world -> Prop) :
  w_vars w = (l, uc) ->
  (forall w', w_vars w' = (alter (fun ev => ev <| ev_data ::= mem_put 0 (ztake n data) |>) e l, uc) ->
    0 <= n -> n <= zlen data -> Q tt w') ->
  wlp (event_store e data n) Q w.
Proof.
  intros Hw HQ. unfold event_store. wlp_step. eapply wlp_event_at; [done|]. intros ev Hev.
  wlp_step. apply wlp_memcpy. intros ?? _. eapply wlp_event_upd; [done|]. intros w' Hw'.
  apply HQ; [|lia..]. rewrite Hw'. f_equal. by apply (list_alter_agree _ _ e ev).
Qed.

Lemma run_write_store c e data n w l uc ev (Q : unit -> world -> Prop) :
  w_vars w = (l, uc) -> l !! e = Some ev ->
  (forall w', w_vars w' = (alter (write_event c data n uc) e l, incr_u64 uc) -> n <= zlen data -> Q tt w') ->
  wlp (client_write_store c e data n) Q w.
Proof.
  intros Hw Hev HQ. unfold client_write_store.
  wlp_step. eapply wlp_event_at; [done|]. intros ev' Hev'. rewrite Hev in Hev'. injection Hev' as <-.
  wlp_step. set (P := if bool_decide (ev_producer ev = Some c) then ev
    else ev <| ev_producer := Some c |> <| ev_producers_count ::= incr_u32 |>).
  apply (wlp_mono _ (fun _ w2 => w_vars w2 = (alter (fun _ => P) e l, uc))).
  { destruct (bool_decide _); simpl.
    - wlp_step. rewrite Hw. by rewrite (list_alter_fix _ e ev).
    - wlp_step. eapply wlp_event_upd; [done|]. intros w2 Hw2.
      eapply wlp_event_upd; [done|]. intros w3 Hw3. rewrite Hw3, list_alter_alter_eq.
      f_equal. by apply (list_alter_agree _ _ e ev). }
  intros u w2 Hw2. cbn beta in *.
  wlp_step. eapply wlp_event_upd; [done|]. intros w3 Hw3.
  wlp_step. eapply wlp_frame; [apply _|done|]. intros _ w4 Hw4.
  wlp_step. eapply run_event_store; [done|]. intros w5 Hw5 ??.
  wlp_step. eapply wlp_event_upd; [done|]. intros w6 Hw6.
  wlp_step. apply wlp_server_get.
  assert (sv_update_counter (w_server w6) = uc) as -> by by injection Hw6.
  wlp_step. eapply wlp_event_upd; [done|]. intros w7 Hw7. apply wlp_server_upd, HQ; [|done].
  unfold w_vars, on_server, vars_view in *. simpl. injection Hw7 as -> ->. f_equal.
  rewrite !list_alter_alter_eq. by apply (list_alter_agree _ _ e ev).
Qed.

(** The opening lookup followed by the rest of the operation. *)
Lemma run_client_write c id flags data n w l uc :
  w_vars w = (l, uc) ->
  wlp (syncs_client_write c id flags data n) (fun code w' =>
    match open_event id flags l with
    | (inl err, l') => code = err /\ w_vars w' = (l', uc)
    | (inr e, l') => exists ev, l' !! e = Some ev /\
        if Z.land flags SYNCS_TYPE_VAR_MASK =? ev_data_type ev
        then code = 0 /\ n <= zlen data /\
             w_vars w' = (alter (write_event c data n uc) e l', incr_u64 uc)
        else code = -3 /\ w_vars w' = (l', uc)
    end) w.
Proof.
  intros Hw. unfold syncs_client_write. wlp_step. eapply run_open; [done|]. intros w1 Hw1.
  destruct (open_event id flags l) as [[err|e] l1]; simpl in *; [by wlp_step|].
  wlp_step. eapply wlp_event_at; [done|]. intros ev Hev.
  destruct (Z.land flags _ =? _) eqn:E; simpl; [|wlp_step; exists ev; by rewrite E].
  wlp_step. eapply run_write_store; [done..|]. intros w8 Hw8 ?.
  wlp_step. eapply wlp_frame; [unfold w_vars; apply _|done|]. intros _ w9 Hw9.
  wlp_step. eapply wlp_frame; [apply _|done|]. intros _ w10 Hw10. wlp_step.
  exists ev. rewrite E. by split_and!.
Qed.

Lemma run_client_subscribe c id flags ucl w l uc :
  w_vars w = (l, uc) ->
  wlp (syncs_client_subscribe c id flags ucl) (fun code w' =>
    match open_event id flags l with
    | (inl err, l') => code = err /\ w_vars w' = (l', uc)
    | (inr e, l') => exists ev, l' !! e = Some ev /\
        if types_compatible flags (ev_data_type ev)
        then code = 0 /\ w_vars w' = (alter (subscribe_event c) e l', uc)
        else code = -3 /\ w_vars w' = (l', uc)
    end) w.
Proof.
  intros Hw. unfold syncs_client_subscribe. wlp_step. eapply run_open; [done|]. intros w1 Hw1.
  destruct (open_event id flags l) as [[err|e] l1]; simpl in *; [by wlp_step|].
  wlp_step. eapply wlp_event_at; [done|]. intros ev Hev.
  fold (types_compatible flags (ev_data_type ev)).
  destruct (types_compatible _ _) eqn:E; [|wlp_step; exists ev; by rewrite E].
  wlp_step. eapply run_add_client_to_event; [done|]. intros _ w2 Hw2.
  wlp_step. eapply wlp_event_at; [done|]. intros ev2 _.
  destruct (_ <? _); [wlp_step; eapply wlp_frame; [apply _|done|]; intros _ w3 Hw3|];
    wlp_step; exists ev; by rewrite E.
Qed.

Lemma run_client_unsubscribe c id w l uc :
  w_vars w = (l, uc) ->
  wlp (syncs_client_unsubscribe c id) (fun code w' => code = 0 /\
    w_vars w' = (match scan (fun ev => syncs_idcmp (ev_id ev) id) l with
                 | Some e => alter (unsubscribe_event c) e l | None => l end, uc)) w.
Proof.
  intros Hw. unfold syncs_client_unsubscribe. wlp_step. apply wlp_server_get.
  unfold syncs_find_event. assert (sv_events (w_server w) = l) as -> by by injection Hw.
  destruct (scan _ l) as [e|]; [|by wlp_step].
  wlp_step. eapply run_remove_client_from_event; [done|]. intros w1 Hw1. by wlp_step.
Qed.

Lemma run_free_event id w l uc :
  w_vars w = (l, uc) ->
  wlp (syncs_free_event id) (fun _ w' =>
    w_vars w' = (match scan (fun ev => syncs_idcmp (ev_id ev) id) l with
                 | Some e => alter (fun ev => ev <| ev_id ::= id_set_free |>) e l
                 | None => l end, uc)) w.
Proof.
  intros Hw. unfold syncs_free_event. wlp_step. apply wlp_server_get.
  unfold syncs_find_event. assert (sv_events (w_server w) = l) as -> by by injection Hw.
  destruct (scan _ l) as [e|]; [|by wlp_step].
  wlp_step. eapply wlp_event_upd; [done|]. intros w1 Hw1. by apply wlp_server_upd.
Qed.

(** The lookup of [syncs_add_event]: an existing variable is redefined only
    with [SYNCS_TYPE_FORCE]. *)
Definition define_slot (id : syncsid_t) (flags : Z) (l : list syncs_event) : (Z + nat) * list syncs_event :=
  match scan (fun ev => syncs_idcmp (ev_id ev) id) l with
  | Some e => if negb (flag flags SYNCS_TYPE_FORCE) then (inl (-2), l) else (inr e, l)
  | None =>
      match scan (fun ev => id_is_free (ev_id ev)) l with
      | Some i => (inr i, alter (fun ev => syncs_event_init ev id) i l)
      | None => (inl (-1), l)
      end
  end.

Lemma run_add_event id flags data size w l uc :
  w_vars w = (l, uc) ->
  wlp (syncs_add_event id flags data size) (fun code w' =>
    match define_slot id flags l with
    | (inl err, l') => code = err /\ w_vars w' = (l', uc)
    | (inr e, l') => code = 0 /\
        w_vars w' = (alter (define_event flags (define_size flags size) data) e l', uc)
    end) w.
Proof.
  intros Hw. unfold syncs_add_event. wlp_step. apply wlp_server_get.
  unfold syncs_find_event. assert (sv_events (w_server w) = l) as -> by by injection Hw.
  wlp_step. apply (wlp_mono _ (fun r w' => (r, w_vars w') = let '(r, l') := define_slot id flags l in (r, (l', uc)))).
  { unfold define_slot. destruct (scan _ l) as [e|]; [destruct (negb _); wlp_step; by rewrite Hw|].
    wlp_step. eapply run_create_event; [done|]. intros w1.
    destruct (scan (fun ev => id_is_free _) l) as [i|]; intros Hw1; wlp_step; by rewrite Hw1. }
  intros r w1. destruct (define_slot id flags l) as [r' l1].
  intros E. pose proof (f_equal fst E) as Er. simpl in Er. subst r. pose proof (f_equal snd E) as Hw1. simpl in Hw1. clear E.
  destruct r' as [err|e]; simpl; [by wlp_step|].
  wlp_step. eapply wlp_event_upd; [done|]. intros w2 Hw2.
  wlp_step. eapply wlp_event_upd; [done|]. intros w3 Hw3. rewrite list_alter_alter_eq in Hw3.
  fold (define_size flags size) in Hw3. destruct data as [bs|]; [|by wlp_step].
  wlp_step. eapply run_event_store; [done|]. intros w4 Hw4 _ _. wlp_step. split; [done|].
  by rewrite Hw4, list_alter_alter_eq.
Qed.

Lemma run_remove_from_events c w l uc :
  w_vars w = (l, uc) -> length l = SYNCS_EVENT_MAXIMUM ->
  wlp (syncs_remove_client_from_events c) (fun _ w' =>
    w_vars w' = ((fun ev => if id_is_free (ev_id ev) then ev else unsubscribe_event c ev) <$> l, uc)) w.
Proof.
  intros Hw Hl. set (g := fun ev => if id_is_free (ev_id ev) then ev else unsubscribe_event c ev).
  unfold syncs_remove_client_from_events.
  eapply wlp_mono; [apply (wlp_for_each (fun k w => w_vars w = ((g <$> take k l) ++ drop k l, uc)))|].
  - by rewrite Hw.
  - intros k i w1 Hi Hw1. apply lookup_seq in Hi as [-> Hk]. simpl.
    destruct (lookup_lt_is_Some_2 l k ltac:(lia)) as [ev Hev].
    assert (length (g <$> take k l) = k) as Hlen by (rewrite length_fmap, length_take; lia).
    assert (((g <$> take k l) ++ drop k l) !! k = Some ev) as Hev'.
    { rewrite lookup_app_r by lia. by rewrite Hlen, Nat.sub_diag, lookup_drop, Nat.add_0_r. }
    assert (forall f, f ev = g ev -> alter f k ((g <$> take k l) ++ drop k l) =
      (g <$> take (k + 1) l) ++ drop (k + 1) l) as Hstep.
    { intros f Hf. rewrite (list_alter_insert f k ev), Hf by done.
      rewrite <- Hlen at 1. rewrite <- (Nat.add_0_r (length _)), insert_app_r.
      rewrite Nat.add_1_r, (take_S_r l k ev), fmap_app, <- app_assoc by done. f_equal.
      rewrite (drop_S l ev k) by done. done. }
    wlp_step. eapply wlp_event_at; [done|]. intros ev' ?. simplify_eq.
    destruct (id_is_free (ev_id ev)) eqn:E; simpl.
    + wlp_step. rewrite Hw1. rewrite <- (Hstep (fun ev => ev)) by (subst g; simpl; by rewrite E).
      by rewrite (list_alter_fix _ k ev).
    + eapply run_remove_client_from_event; [done|]. intros w2 Hw2. rewrite Hw2.
      rewrite Hstep; [done|]. subst g. simpl. by rewrite E.
  - intros u w1. rewrite length_seq. simpl. rewrite take_ge, drop_ge, app_nil_r by lia. done.
Qed.
End run.
