(* ===== verification/Table.v ===== *)
(** * Tables of slots as finite maps

    The server keeps its variables and its channels in arrays of slots; the
    first word of the identifier marks a free slot.  Such a table is a finite
    map from identifiers; searching, filling, updating and releasing a slot
    are the operations of the map. *)

From stdpp Require Import gmap.
From S2P Require Import Prelude.
From S2P Require Import Types.
From S2P Require Import ServerState.
From S2P Require Import ServerInv.

Section table.
Context {A V : Type} (key : A -> syncsid_t) (val : A -> V).

Definition used (x : A) : Prop := id_is_free (key x) = false.

#[export] Instance used_dec x : Decision (used x).
Proof. unfold used. apply _. Defined.

Definition table_map (l : list A) : gmap syncsid_t V :=
  list_to_map ((fun x => (key x, val x)) <$> filter used l).

Lemma ids_unique_tail x l : ids_unique key (x :: l) -> ids_unique key l.
Proof. intros Hu i j a b Hi Hj E F. specialize (Hu (S i) (S j) a b Hi Hj E F). lia. Qed.

Lemma used_ids_nodup l : ids_unique key l -> NoDup ((fun x => (key x, val x)) <$> filter used l).*1.
Proof.
  rewrite <- list_fmap_compose. induction l as [|x l IH]; intros Hu; [constructor|].
  rewrite filter_cons. specialize (IH (ids_unique_tail _ _ Hu)).
  destruct (decide (used x)) as [Hx|]; [|done]. cbn [fmap list_fmap]. constructor; [|done].
  intros (y & E & Hy)%list_elem_of_fmap. simpl in E.
  apply list_elem_of_filter in Hy as [_ [i Hi]%list_elem_of_lookup].
  specialize (Hu O (S i) x y eq_refl Hi E Hx). lia.
Qed.

Lemma table_lookup_Some l id v :
  ids_unique key l ->
  table_map l !! id = Some v <->
  id_is_free id = false /\ exists i x, l !! i = Some x /\ key x = id /\ v = val x.
Proof.
  intros Hu. unfold table_map. rewrite <- elem_of_list_to_map by by apply used_ids_nodup.
  rewrite list_elem_of_fmap. setoid_rewrite list_elem_of_filter. setoid_rewrite list_elem_of_lookup.
  unfold used. split.
  - intros (x & [= -> ->] & Hl & i & Hi). eauto 10.
  - intros (Hf & i & x & Hi & <- & ->). exists x. eauto.
Qed.

(** The search of the table is the lookup of the map. *)
Lemma table_find l id :
  ids_unique key l -> id_is_free id = false ->
  table_map l !! id =
    match scan (fun x => syncs_idcmp (key x) id) l with
    | Some i => val <$> l !! i
    | None => None
    end.
Proof.
  intros Hu Hf. apply option_eq. intros v. rewrite table_lookup_Some by done.
  destruct (scan _ l) as [e|] eqn:E.
  - destruct (scan_lookup _ _ _ E) as (x & He & Hid%syncs_idcmp_eq). rewrite He. simpl. split.
    + intros (_ & i & x' & Hi & Hid' & ->). assert (i = e) as ->; [|congruence].
      apply (Hu i e x' x); [done..|congruence|congruence].
    + intros [= <-]. eauto 10.
  - rewrite scan_None in E. split; [|done]. intros (_ & i & x & Hi & <- & _).
    specialize (E i x Hi). by rewrite syncs_idcmp_refl in E.
Qed.

Lemma table_insert l i x x' :
  ids_unique key l -> ids_unique key (<[i := x']> l) ->
  l !! i = Some x -> used x' -> (used x -> key x = key x') ->
  table_map (<[i := x']> l) = <[key x' := val x']> (table_map l).
Proof.
  intros Hu Hu' Hi Hl Hid. apply map_eq. intros id. apply option_eq. intros v.
  rewrite table_lookup_Some by done. rewrite lookup_insert_Some.
  rewrite table_lookup_Some by done.
  assert (<[i := x']> l !! i = Some x') as Hi'
    by (apply list_lookup_insert_eq; by eapply lookup_lt_Some).
  split.
  - intros (Hf & j & y & Hj & <- & ->).
    apply list_lookup_insert_Some in Hj as [(-> & -> & _)|[Hne Hj]]; [by left|right].
    split; [|eauto 10]. intros E. apply Hne.
    apply (Hu' i j x' y); [done| |done|done]. by rewrite list_lookup_insert_ne.
  - intros [[<- <-]|(Hne & Hf & j & y & Hj & <- & ->)]; [by eauto 10|].
    split; [done|]. exists j, y. split_and!; [|done..].
    rewrite list_lookup_insert_ne; [done|]. intros ->. simplify_eq. by rewrite Hid in Hne.
Qed.

Lemma table_delete l i x x' :
  ids_unique key l -> ids_unique key (<[i := x']> l) ->
  l !! i = Some x -> ~ used x' -> table_map (<[i := x']> l) = delete (key x) (table_map l).
Proof.
  intros Hu Hu' Hi Hl. apply map_eq. intros id. apply option_eq. intros v.
  rewrite table_lookup_Some by done. rewrite lookup_delete_Some.
  rewrite table_lookup_Some by done. split.
  - intros (Hf & j & y & Hj & <- & ->).
    apply list_lookup_insert_Some in Hj as [(-> & -> & _)|[Hne Hj]]; [done|].
    split; [|eauto 10]. intros E. apply Hne. by apply (Hu i j x y); [..|congruence].
  - intros (Hne & Hf & j & y & Hj & <- & ->). split; [done|]. exists j, y. split_and!; [|done..].
    rewrite list_lookup_insert_ne; [done|]. by intros ->; simplify_eq.
Qed.

Lemma table_fmap l (g : A -> A) (h : V -> V) :
  ids_unique key l -> (forall x, key (g x) = key x) ->
  (forall x, x ∈ l -> used x -> val (g x) = h (val x)) ->
  table_map (g <$> l) = h <$> table_map l.
Proof.
  intros Hu Hid Hg. assert (ids_unique key (g <$> l)) as Hu'.
  { intros i j a b. rewrite !list_lookup_fmap, !fmap_Some.
    intros (x & Hx & ->) (y & Hy & ->). rewrite !Hid. by apply Hu. }
  apply map_eq. intros id. apply option_eq. intros v. rewrite lookup_fmap, fmap_Some.
  setoid_rewrite table_lookup_Some; [|done..].
  setoid_rewrite list_lookup_fmap. setoid_rewrite fmap_Some. split.
  - intros (Hf & i & y & (x & Hx & ->) & <- & ->). rewrite Hid in *.
    exists (val x). split; [eauto 10|]. apply Hg; [|done]. apply list_elem_of_lookup. eauto.
  - intros (v' & (Hf & i & x & Hx & <- & ->) & ->). split; [done|].
    exists i, (g x). split_and!; [eauto|apply Hid|]. symmetry. apply Hg; [|done].
    apply list_elem_of_lookup. eauto.
Qed.

(** Releasing the slots that satisfy [p]. *)
Lemma table_release l (g : A -> A) (p : V -> Prop) `{!forall v, Decision (p v)} :
  ids_unique key l ->
  (forall x, x ∈ l -> used x -> if decide (p (val x)) then ~ used (g x) else g x = x) ->
  (forall x, ~ used x -> ~ used (g x)) ->
  table_map (g <$> l) = filter (fun kv => ~ p kv.2) (table_map l).
Proof.
  intros Hu Hg Hfree.
  assert (forall i x, l !! i = Some x -> used (g x) -> g x = x /\ used x /\ ~ p (val x)) as Hkeep.
  { intros i x Hi Hx. destruct (decide (used x)) as [Hux|]; [|by destruct (Hfree x)].
    specialize (Hg x ltac:(apply list_elem_of_lookup; eauto) Hux).
    destruct (decide (p (val x))); [done|]. done. }
  assert (ids_unique key (g <$> l)) as Hu'.
  { intros i j a b. rewrite !list_lookup_fmap, !fmap_Some.
    intros (x & Hx & ->) (y & Hy & ->) E F.
    destruct (Hkeep i x Hx F) as [Ex _]. assert (used (g y)) as Hy' by (unfold used; by rewrite <- E).
    destruct (Hkeep j y Hy Hy') as [Ey _]. rewrite Ex, Ey in E. rewrite Ex in F. by apply (Hu i j x y). }
  apply map_eq. intros id. apply option_eq. intros v. rewrite map_lookup_filter_Some. cbn [snd].
  rewrite !table_lookup_Some by done. split.
  - intros (Hf & i & y & Hi & <- & ->). rewrite list_lookup_fmap, fmap_Some in Hi.
    destruct Hi as (x & Hx & ->). destruct (Hkeep i x Hx Hf) as (E & _ & Hp). rewrite E in *. eauto 10.
  - intros ((Hf & i & x & Hx & <- & ->) & Hp). split; [done|]. exists i, x. split_and!; [|done..].
    rewrite list_lookup_fmap, Hx. cbn. f_equal. specialize (Hg x ltac:(apply list_elem_of_lookup; eauto) Hf).
    by destruct (decide (p (val x))).
Qed.

(** The table has a free slot exactly when the map is not full. *)
Lemma table_full l n :
  ids_unique key l -> length l = n ->
  size (table_map l) = n <-> scan (fun x => id_is_free (key x)) l = None.
Proof.
  intros Hu <-. unfold table_map.
  rewrite map_size_list_to_map by by apply used_ids_nodup.
  rewrite length_fmap. clear Hu. rewrite scan_None. split.
  - intros E i x Hi. destruct (id_is_free (key x)) eqn:Ef; [|done].
    assert (length (filter used l) < length l)%nat; [|lia].
    apply (length_filter_lt used l x); [by eapply list_elem_of_lookup_2|].
    unfold used. by rewrite Ef.
  - intros Hn. f_equal. induction l as [|x l IH]; [done|].
    rewrite filter_cons_True by apply (Hn O x eq_refl). f_equal. apply IH. intros i. apply (Hn (S i)).
Qed.

Lemma table_free n x : ~ used x -> table_map (replicate n x) = ∅.
Proof.
  intros Hx. unfold table_map. assert (filter used (replicate n x) = []) as ->; [|done].
  induction n as [|n IH]; [done|]. cbn [replicate]. by rewrite filter_cons_False.
Qed.
End table.
