(* ===== verification/Directory.v ===== *)
(** * Server: the variable directory as an abstract machine

    What the server promises its clients, without slots, tables or buffers: a
    finite map from identifiers to variables and a version counter, with one
    transition per packet.  The event table of [struct syncs_server] is shown
    to implement it. *)

From stdpp Require Import gmap.
From S2P Require Import Prelude.
From S2P Require Import Monad.
From S2P Require Import Types.
From S2P Require Import Net.
From S2P Require Import ServerState.
From S2P Require Import ServerEvents.
From S2P Require Import ServerPackets.
From S2P Require Import Framing.
From S2P Require Import ServerInv.
From S2P Require Import ServerSafe.
From S2P Require Import EventSpec.
From S2P Require Import Table.

(** ** The abstract machine *)

Record variable : Type := mk_var {
  var_type : Z;
  var_value : list byte;
  var_version : Z;                (* server counter at the last client write *)
  var_producer : option nat;      (* the client that wrote last *)
  var_subs : gset nat }.

#[export] Instance variable_settable : Settable variable := fun v =>
  mk_var (var_type v) (var_value v) (var_version v) (var_producer v) (var_subs v).

Abbreviation variables := (gmap syncsid_t variable).

(** Variables and the version the next write gets. *)
Definition dstate : Type := variables * Z.

Definition new_variable (type : Z) : variable := mk_var type [] 0 None ∅.

Definition full (m : variables) : bool := bool_decide (size m = SYNCS_EVENT_MAXIMUM).

(** Look a variable up, or create it on behalf of a [SYNCS_TYPE_FORCE] packet;
    [inl] is the error code. *)
Definition spec_open (id : syncsid_t) (flags : Z) (m : variables) : Z + (variable * variables) :=
  match m !! id with
  | Some v => inr (v, m)
  | None =>
      if negb (flag flags SYNCS_TYPE_FORCE) then inl (-1)
      else if full m then inl (-2)
      else let v := new_variable (Z.land flags SYNCS_TYPE_VAR_MASK) in inr (v, <[id := v]> m)
  end.

Definition spec_write (c : nat) (id : syncsid_t) (flags : Z) (data : list byte) (st : dstate)
    : Z * dstate :=
  match spec_open id flags st.1 with
  | inl err => (err, st)
  | inr (v, m) =>
      if Z.land flags SYNCS_TYPE_VAR_MASK =? var_type v then
        (0, (<[id := v <| var_value := data |> <| var_version := st.2 |>
                       <| var_producer := Some c |>]> m, incr_u64 st.2))
      else (-3, (m, st.2))
  end.

Definition spec_subscribe (c : nat) (id : syncsid_t) (flags : Z) (st : dstate) : Z * dstate :=
  match spec_open id flags st.1 with
  | inl err => (err, st)
  | inr (v, m) =>
      if types_compatible flags (var_type v)
      then (0, (<[id := v <| var_subs ::= fun s => {[c]} ∪ s |>]> m, st.2))
      else (-3, (m, st.2))
  end.

Definition spec_unsubscribe (c : nat) (id : syncsid_t) (st : dstate) : dstate :=
  (alter (fun v => v <| var_subs ::= fun s => s ∖ {[c]} |>) id st.1, st.2).

Definition spec_undefine (id : syncsid_t) (st : dstate) : dstate := (delete id st.1, st.2).

(** A definition without a value: what the variable then holds is whatever
    [stale] bytes the slot held. *)
Definition spec_define (id : syncsid_t) (flags size : Z) (stale : list byte) (st : dstate)
    : Z * dstate :=
  let type := Z.land flags SYNCS_TYPE_VAR_MASK in
  let value := ztake (define_size flags size) stale in
  match st.1 !! id with
  | Some v =>
      if negb (flag flags SYNCS_TYPE_FORCE) then (-2, st)
      else (0, (<[id := v <| var_type := type |> <| var_value := value |>]> st.1, st.2))
  | None =>
      if full st.1 then (-1, st)
      else (0, (<[id := new_variable type <| var_value := value |>]> st.1, st.2))
  end.

Definition spec_close (c : nat) (st : dstate) : dstate :=
  ((fun v => v <| var_subs ::= fun s => s ∖ {[c]} |>) <$> st.1, st.2).

(** One packet of client [c]. *)
Definition spec_packet (stale : list byte) (c : nat) (f : frame) (st : dstate) : dstate :=
  let '(h, data) := f in
  let msg := Z.land (hd_type h) SYNCS_TYPE_MSG_MASK in
  if msg =? SYNCS_TYPE_SUBSCRIBE then (spec_subscribe c (hd_id h) (hd_type h) st).2
  else if msg =? SYNCS_TYPE_UNSUBSCRIBE then spec_unsubscribe c (hd_id h) st
  else if msg =? SYNCS_TYPE_DEFINE then
    (spec_define (hd_id h) (hd_type h) (hd_data_size h) stale st).2
  else if msg =? SYNCS_TYPE_UNDEFINE then spec_undefine (hd_id h) st
  else if msg =? SYNCS_TYPE_WRITE then (spec_write c (hd_id h) (hd_type h) data st).2
  else if (msg =? SYNCS_TYPE_CLIENT_ID) && negb (data0 (hd_sync h) =? SYNCS_VERSION_MAJOR)
  then spec_close c st
  else st.

(** A sequence of packets; each definition finds its own stale bytes. *)
Inductive spec_packets (c : nat) : list frame -> dstate -> dstate -> Prop :=
  | spec_packets_nil st : spec_packets c [] st st
  | spec_packets_cons stale f fs st st' :
      spec_packets c fs (spec_packet stale c f st) st' -> spec_packets c (f :: fs) st st'.

(** ** The abstraction function *)

Definition variable_of (ev : syncs_event) : variable :=
  mk_var (ev_data_type ev) (ztake (ev_data_size ev) (ev_data ev)) (ev_update_counter ev)
    (ev_producer ev) (list_to_set (subscribers ev)).

Definition live (ev : syncs_event) : Prop := used ev_id ev.

Definition directory (l : list syncs_event) : variables := table_map ev_id variable_of l.

Definition abs (w : world) : dstate := let '(l, uc) := w_vars w in (directory l, uc).

(** ** The directory of a table *)

Lemma directory_lookup_Some l id v :
  ids_unique ev_id l ->
  directory l !! id = Some v <->
  id_is_free id = false /\ exists i ev, l !! i = Some ev /\ ev_id ev = id /\ v = variable_of ev.
Proof. apply table_lookup_Some. Qed.

(** The search of the table is the lookup of the directory. *)
Lemma directory_find l id :
  ids_unique ev_id l -> id_is_free id = false ->
  directory l !! id =
    match scan (fun ev => syncs_idcmp (ev_id ev) id) l with
    | Some e => variable_of <$> l !! e
    | None => None
    end.
Proof. apply table_find. Qed.

Lemma directory_insert l i ev ev' :
  ids_unique ev_id l -> ids_unique ev_id (<[i := ev']> l) ->
  l !! i = Some ev -> live ev' -> (live ev -> ev_id ev = ev_id ev') ->
  directory (<[i := ev']> l) = <[ev_id ev' := variable_of ev']> (directory l).
Proof. apply table_insert. Qed.

Lemma directory_delete l i ev ev' :
  ids_unique ev_id l -> ids_unique ev_id (<[i := ev']> l) ->
  l !! i = Some ev -> ~ live ev' -> directory (<[i := ev']> l) = delete (ev_id ev) (directory l).
Proof. apply table_delete. Qed.

Lemma directory_fmap l (g : syncs_event -> syncs_event) (h : variable -> variable) :
  ids_unique ev_id l -> (forall ev, ev_id (g ev) = ev_id ev) ->
  (forall ev, ev ∈ l -> live ev -> variable_of (g ev) = h (variable_of ev)) ->
  directory (g <$> l) = h <$> directory l.
Proof. apply table_fmap. Qed.

(** The table has a free slot exactly when the directory is not full. *)
Lemma directory_full l :
  ids_unique ev_id l -> length l = SYNCS_EVENT_MAXIMUM ->
  full (directory l) = true <-> scan (fun ev => id_is_free (ev_id ev)) l = None.
Proof. intros Hu Hl. unfold full. rewrite bool_decide_eq_true. by apply table_full. Qed.

(** ** Each operation implements its transition *)

Lemma subscribers_none (l : list (option nat)) :
  omap (fun x => x) ((fun _ => @None nat) <$> l) = [].
Proof. induction l as [|? l IH]; [done|exact IH]. Qed.

Lemma variable_of_init id ev : variable_of (syncs_event_init ev id) = new_variable 0.
Proof. rewrite event_init_eq. unfold variable_of, subscribers. simpl. by rewrite subscribers_none. Qed.

Lemma variable_of_open id flags ev :
  variable_of (open_new id flags ev) = new_variable (Z.land flags SYNCS_TYPE_VAR_MASK).
Proof. rewrite open_new_eq. unfold variable_of, subscribers. simpl. by rewrite subscribers_none. Qed.

Lemma alter_unique f e l :
  ids_unique ev_id l -> (forall ev, ev_id (f ev) = ev_id ev \/ ~ live (f ev)) ->
  ids_unique ev_id (alter f e l).
Proof.
  intros Hu Hf. destruct (l !! e) as [ev|] eqn:He.
  - rewrite (list_alter_insert f e ev) by done. apply ids_unique_insert; [done|].
    intros b Hb. rewrite He in Hb. injection Hb as <-. destruct (Hf ev) as [|Hl]; [by left|right].
    unfold live, used in Hl. by apply not_false_iff_true.
  - assert (alter f e l = l) as ->; [|done]. apply list_eq. intros i.
    destruct (decide (i = e)) as [->|]; [by rewrite list_lookup_alter_eq, He|].
    by rewrite list_lookup_alter_ne.
Qed.

Section table.
Context (l : list syncs_event) (Hu : ids_unique ev_id l).

Lemma directory_update e f ev :
  l !! e = Some ev -> live ev -> (forall ev, ev_id (f ev) = ev_id ev) ->
  directory (alter f e l) = <[ev_id ev := variable_of (f ev)]> (directory l).
Proof.
  intros He Hl Hf. rewrite (list_alter_insert f e ev) by done. rewrite <- (Hf ev).
  apply (directory_insert l e ev); [done| |done| |by rewrite Hf].
  - apply ids_unique_insert; [done|]. intros b Hb. simplify_eq. left. apply Hf.
  - unfold live, used. by rewrite Hf.
Qed.

(** Taking slot [i] for a new identifier. *)
Lemma directory_create f i id :
  scan (fun ev => syncs_idcmp (ev_id ev) id) l = None -> id_is_free id = false ->
  scan (fun ev => id_is_free (ev_id ev)) l = Some i -> (forall ev, ev_id (f ev) = id) ->
  exists ev, alter f i l !! i = Some (f ev) /\ ids_unique ev_id (alter f i l) /\
    directory (alter f i l) = <[id := variable_of (f ev)]> (directory l).
Proof.
  intros Hn Hf Hi Hid. destruct (scan_lookup _ _ _ Hi) as (ev & Hev & Hfree).
  exists ev. rewrite (list_alter_insert f i ev) by done.
  assert (ids_unique ev_id (<[i := f ev]> l)) as Hu'
    by by apply (ids_unique_create _ _ _ id).
  split_and!; [by eapply list_lookup_insert_eq, lookup_lt_Some|done|].
  rewrite <- (Hid ev). apply (directory_insert l i ev); [done..| |].
  - unfold live, used. by rewrite Hid.
  - unfold live, used. by rewrite Hfree.
Qed.

Lemma open_refines id flags :
  length l = SYNCS_EVENT_MAXIMUM -> id_is_free id = false ->
  match open_event id flags l with
  | (inl err, l') => l' = l /\ spec_open id flags (directory l) = inl err
  | (inr e, l') => exists ev, l' !! e = Some ev /\ ev_id ev = id /\ ids_unique ev_id l' /\
      spec_open id flags (directory l) = inr (variable_of ev, directory l')
  end.
Proof.
  intros Hl Hf. unfold open_event, spec_open. rewrite directory_find by done.
  destruct (scan (fun ev => syncs_idcmp _ _) l) as [e|] eqn:E.
  { destruct (scan_lookup _ _ _ E) as (ev & He & Hid%syncs_idcmp_eq). rewrite He. simpl. eauto. }
  destruct (negb _); [done|].
  destruct (scan (fun ev => id_is_free _) l) as [i|] eqn:Ei; last first.
  { apply directory_full in Ei; [|done..]. by rewrite Ei. }
  destruct (full (directory l)) eqn:Efull.
  { apply directory_full in Efull; [|done..]. congruence. }
  destruct (directory_create (open_new id flags) i id) as (ev & He & Hu' & Hd); [done..| |].
  { intros ev. apply syncs_idcpy_eq. }
  rewrite variable_of_open in Hd. eexists. split_and!; [done| |done|].
  - apply syncs_idcpy_eq.
  - by rewrite variable_of_open, Hd.
Qed.
End table.

(** *** Slots *)

Lemma variable_of_write c data n uc ev :
  event_wf ev -> 0 <= n <= SYNCS_VARIABLE_SIZE_MAXIMUM -> n <= zlen data ->
  variable_of (write_event c data n uc ev) =
    variable_of ev <| var_value := ztake n data |> <| var_version := uc |>
                   <| var_producer := Some c |>.
Proof.
  intros Hwf Hn Hd. rewrite write_event_eq. unfold variable_of, set_with. simpl. f_equal.
  assert (zlen (ztake n data) = n) as Hz by zl. rewrite <- Hz at 1.
  apply (mem_sub_put 0). pose proof (ewf_data ev Hwf). clia.
Qed.

(** A client without a slot in the list always finds a free one. *)
Lemma subscribe_free ev c :
  event_wf ev -> (c < SYNCS_CLIENT_MAXIMUM)%nat -> c ∉ subscribers ev ->
  exists i, scan (fun x => bool_decide (x = None)) (ev_consumers ev) = Some i /\
    ev_consumers ev !! i = Some None.
Proof.
  intros Hwf Hc Hn. destruct (scan _ _) as [i|] eqn:E.
  { apply scan_lookup in E as (x & Hx & ->%bool_decide_eq_true). eauto. }
  exfalso. rewrite scan_None in E.
  assert (length (subscribers ev) = SYNCS_CLIENT_MAXIMUM) as Hl.
  { rewrite <- (ewf_slots ev Hwf). unfold subscribers. clear -E.
    induction (ev_consumers ev) as [|[x|] l IH]; [done|..].
    - simpl. f_equal. apply IH. intros i. apply (E (S i)).
    - specialize (E O None eq_refl). by apply bool_decide_eq_false in E. }
  assert (c :: subscribers ev ⊆+ seq 0 SYNCS_CLIENT_MAXIMUM) as Hsub.
  { apply NoDup_submseteq.
    - constructor; [done|apply Hwf].
    - intros x [->|Hx]%elem_of_cons; apply elem_of_seq; [lia|]. pose proof (ewf_clients ev Hwf x Hx). lia. }
  apply submseteq_length in Hsub. simpl in Hsub. rewrite Hl in Hsub. unfold SYNCS_CLIENT_MAXIMUM in *.
  simpl in Hsub. lia.
Qed.

Lemma variable_of_subscribe c ev :
  event_wf ev -> (c < SYNCS_CLIENT_MAXIMUM)%nat ->
  variable_of (subscribe_event c ev) = variable_of ev <| var_subs ::= fun s => {[c]} ∪ s |>.
Proof.
  intros Hwf Hc. unfold subscribe_event. destruct (scan _ _) as [i|] eqn:E.
  - assert (c ∈ subscribers ev) as Hin.
    { apply scan_lookup in E as (x & Hx & ->%bool_decide_eq_true).
      apply list_elem_of_omap. exists (Some c). split; [|done]. by eapply list_elem_of_lookup_2. }
    unfold variable_of, set_with. simpl. f_equal. set_solver.
  - apply scan_subscriber in E. destruct (subscribe_free ev c) as (i & -> & Hi); [done..|].
    unfold variable_of, set_with. simpl. f_equal.
    assert (subscribers (add_consumer i c ev) ≡ₚ c :: subscribers ev) as Hp by by apply omap_insert_Some.
    apply leibniz_equiv. rewrite Hp. simpl. set_solver.
Qed.

Lemma variable_of_unsubscribe c ev :
  event_wf ev -> variable_of (unsubscribe_event c ev) = variable_of ev <| var_subs ::= fun s => s ∖ {[c]} |>.
Proof.
  intros Hwf. unfold unsubscribe_event. destruct (scan _ _) as [i|] eqn:E.
  - apply scan_lookup in E as (x & Hx & ->%bool_decide_eq_true).
    unfold variable_of, set_with. simpl. f_equal.
    assert (subscribers ev ≡ₚ c :: subscribers (drop_consumer i ev)) as Hp by by apply omap_insert_None.
    pose proof (ewf_nodup ev Hwf) as Hnd. rewrite Hp in Hnd. apply NoDup_cons_1_1 in Hnd.
    apply leibniz_equiv. rewrite Hp. simpl. set_solver.
  - apply scan_subscriber in E. unfold variable_of, set_with. simpl. f_equal. set_solver.
Qed.

Lemma open_event_wf id flags l e ev :
  (forall i x, l !! i = Some x -> event_wf x) ->
  (open_event id flags l).2 !! e = Some ev -> event_wf ev.
Proof.
  intros Hwf. unfold open_event. destruct (scan _ l); [apply Hwf|]. destruct (negb _); [apply Hwf|].
  destruct (scan _ l) as [i|]; [|apply Hwf]. simpl. destruct (decide (e = i)) as [->|].
  - rewrite list_lookup_alter_eq, fmap_Some. intros (x & Hx & ->). specialize (Hwf i x Hx).
    apply (event_init_wf x id) in Hwf. rewrite event_init_eq in Hwf. rewrite open_new_eq.
    destruct Hwf as [H1 H2 H3 H4 H5 H6 _]. split; try assumption. apply var_mask_idem.
  - rewrite list_lookup_alter_ne by done. apply Hwf.
Qed.

(** *** Operations *)

Lemma abs_of w l uc : w_vars w = (l, uc) -> abs w = (directory l, uc).
Proof. unfold abs. by intros ->. Qed.

Section refine.
Context `{Env}.
Context (w : world) (Hw : winv w) (l : list syncs_event) (uc : Z) (Hv : w_vars w = (l, uc)).

Lemma table_unique : ids_unique ev_id l.
Proof. assert (sv_events (w_server w) = l) as <- by by injection Hv. apply Hw. Qed.

Lemma table_length : length l = SYNCS_EVENT_MAXIMUM.
Proof. assert (sv_events (w_server w) = l) as <- by by injection Hv. apply Hw. Qed.

Lemma table_wf i ev : l !! i = Some ev -> event_wf ev.
Proof. assert (sv_events (w_server w) = l) as <- by by injection Hv. apply Hw. Qed.

(** The slot an operation opens is well formed and live. *)
Lemma opened id flags :
  id_is_free id = false ->
  match open_event id flags l with
  | (inl err, l') => l' = l /\ spec_open id flags (directory l) = inl err
  | (inr e, l') => exists ev, l' !! e = Some ev /\ ev_id ev = id /\ live ev /\ event_wf ev /\
      ids_unique ev_id l' /\ spec_open id flags (directory l) = inr (variable_of ev, directory l')
  end.
Proof.
  intros Hf. pose proof (open_refines l table_unique id flags table_length Hf) as Ho.
  pose proof (open_event_wf id flags l) as Hwf.
  destruct (open_event id flags l) as [[err|e] l']; [done|].
  destruct Ho as (ev & He & Hid & Hu' & Ho). exists ev. split_and!; try done.
  - unfold live, used. by rewrite Hid.
  - apply (Hwf e); [apply table_wf|done].
Qed.

Lemma write_event_id c data n u ev : ev_id (write_event c data n u ev) = ev_id ev.
Proof. unfold write_event. by destruct (bool_decide _). Qed.

Lemma subscribe_event_id c ev : ev_id (subscribe_event c ev) = ev_id ev.
Proof. unfold subscribe_event. by repeat case_match. Qed.

Lemma unsubscribe_event_id c ev : ev_id (unsubscribe_event c ev) = ev_id ev.
Proof. unfold unsubscribe_event. by case_match. Qed.

Lemma write_refines c id flags data n :
  id_is_free id = false -> 0 <= n <= SYNCS_VARIABLE_SIZE_MAXIMUM -> n <= zlen data ->
  wlp (syncs_client_write c id flags data n) (fun code w' =>
    (code, abs w') = spec_write c id flags (ztake n data) (abs w)) w.
Proof.
  intros Hf Hn Hd. eapply wlp_mono; [by apply run_client_write|]. intros code w'.
  unfold spec_write. rewrite (abs_of w l uc) by done. simpl. pose proof (opened id flags Hf) as Ho.
  destruct (open_event id flags l) as [[err|e] l'].
  { destruct Ho as [-> ->]. intros [-> Hv']. by rewrite (abs_of w' l uc). }
  destruct Ho as (ev & He & Hid & Hlive & Hwf & Hu & ->). intros (ev' & He' & Hcase). simplify_eq.
  simpl. destruct (_ =? _).
  - destruct Hcase as (-> & _ & Hv'). rewrite (abs_of w' _ _ Hv').
    rewrite (directory_update _ Hu e _ ev) by (done || intros; apply write_event_id).
    by rewrite variable_of_write.
  - destruct Hcase as (-> & Hv'). by rewrite (abs_of w' _ _ Hv').
Qed.

Lemma subscribe_refines c id flags ucl :
  id_is_free id = false -> (c < SYNCS_CLIENT_MAXIMUM)%nat ->
  wlp (syncs_client_subscribe c id flags ucl) (fun code w' =>
    (code, abs w') = spec_subscribe c id flags (abs w)) w.
Proof.
  intros Hf Hc. eapply wlp_mono; [by apply run_client_subscribe|]. intros code w'.
  unfold spec_subscribe. rewrite (abs_of w l uc) by done. simpl. pose proof (opened id flags Hf) as Ho.
  destruct (open_event id flags l) as [[err|e] l'].
  { destruct Ho as [-> ->]. intros [-> Hv']. by rewrite (abs_of w' l uc). }
  destruct Ho as (ev & He & Hid & Hlive & Hwf & Hu & ->). intros (ev' & He' & Hcase). simplify_eq.
  simpl. destruct (types_compatible _ _).
  - destruct Hcase as (-> & Hv'). rewrite (abs_of w' _ _ Hv').
    rewrite (directory_update _ Hu e _ ev) by (done || intros; apply subscribe_event_id).
    by rewrite variable_of_subscribe.
  - destruct Hcase as (-> & Hv'). by rewrite (abs_of w' _ _ Hv').
Qed.

Lemma unsubscribe_refines c id :
  id_is_free id = false ->
  wlp (syncs_client_unsubscribe c id) (fun _ w' => abs w' = spec_unsubscribe c id (abs w)) w.
Proof.
  intros Hf. eapply wlp_mono; [by apply run_client_unsubscribe|]. intros code w' [_ Hv'].
  rewrite (abs_of w' _ _ Hv'), (abs_of w l uc) by done. unfold spec_unsubscribe. simpl. f_equal.
  pose proof (directory_find l id table_unique Hf) as Hd.
  destruct (scan _ l) as [e|] eqn:E.
  - destruct (scan_lookup _ _ _ E) as (ev & He & <-%syncs_idcmp_eq). rewrite He in Hd. simpl in Hd.
    rewrite (directory_update l table_unique e _ ev) by (done || intros; apply unsubscribe_event_id).
    rewrite variable_of_unsubscribe by by eapply table_wf.
    apply map_eq. intros i. destruct (decide (i = ev_id ev)) as [->|Hi].
    + by rewrite lookup_insert_eq, lookup_alter_eq, Hd.
    + by rewrite lookup_insert_ne, lookup_alter_ne.
  - symmetry. apply map_eq. intros i. destruct (decide (i = id)) as [->|Hi].
    + by rewrite lookup_alter_eq, Hd.
    + by rewrite lookup_alter_ne.
Qed.

Lemma undefine_refines id :
  id_is_free id = false ->
  wlp (syncs_free_event id) (fun _ w' => abs w' = spec_undefine id (abs w)) w.
Proof.
  intros Hf. eapply wlp_mono; [by apply run_free_event|]. intros u w' Hv'.
  rewrite (abs_of w' _ _ Hv'), (abs_of w l uc) by done. unfold spec_undefine. simpl. f_equal.
  pose proof (directory_find l id table_unique Hf) as Hd.
  destruct (scan _ l) as [e|] eqn:E.
  - destruct (scan_lookup _ _ _ E) as (ev & He & <-%syncs_idcmp_eq).
    rewrite (list_alter_insert _ e ev) by done.
    apply (directory_delete l e ev); [apply table_unique| |done|].
    + apply ids_unique_insert; [apply table_unique|]. intros b _. by right.
    + by unfold live, used.
  - symmetry. by apply delete_id.
Qed.

Lemma define_event_id flags n data ev : ev_id (define_event flags n data ev) = ev_id ev.
Proof. unfold define_event. by destruct data. Qed.

(** The bytes of the slot after a definition, over what it held. *)
Definition defined_bytes (flags size : Z) (data : option (list byte)) (old : list byte) : list byte :=
  match data with Some bs => mem_put 0 (ztake (define_size flags size) bs) old | None => old end.

Lemma define_refines_bytes id flags data size :
  id_is_free id = false ->
  wlp (syncs_add_event id flags data size) (fun code w' => exists old,
    (code, abs w') = spec_define id flags size (defined_bytes flags size data old) (abs w)) w.
Proof.
  intros Hf. eapply wlp_mono; [by apply run_add_event|]. intros code w'.
  rewrite (abs_of w l uc) by done. unfold define_slot, spec_define. simpl.
  rewrite (directory_find l id table_unique Hf).
  destruct (scan (fun ev => syncs_idcmp _ _) l) as [e|] eqn:E.
  - destruct (scan_lookup _ _ _ E) as (ev & He & <-%syncs_idcmp_eq). rewrite He. simpl.
    destruct (negb _).
    + intros [-> Hv']. exists []. by rewrite (abs_of w' _ _ Hv').
    + intros [-> Hv']. exists (ev_data ev). rewrite (abs_of w' _ _ Hv').
      rewrite (directory_update l table_unique e _ ev) by (done || intros; apply define_event_id).
      by rewrite define_event_eq.
  - destruct (full (directory l)) eqn:Efull.
    + apply directory_full in Efull; [|apply table_unique|apply table_length]. rewrite Efull.
      intros [-> Hv']. exists []. by rewrite (abs_of w' _ _ Hv').
    + destruct (scan (fun ev => id_is_free _) l) as [i|] eqn:Ei; last first.
      { apply directory_full in Ei; [congruence|apply table_unique|apply table_length]. }
      intros [-> Hv']. rewrite list_alter_alter_eq in Hv'.
      destruct (directory_create l table_unique
        (define_event flags (define_size flags size) data ∘ (fun ev => syncs_event_init ev id)) i id)
        as (ev & _ & _ & Hd); [done..| |].
      { intros ev. simpl. rewrite define_event_id. apply syncs_idcpy_eq. }
      exists (<[0%nat := Byte.x00]> (ev_data ev)). rewrite (abs_of w' _ _ Hv'), Hd.
      unfold compose. rewrite define_event_eq, event_init_eq. unfold variable_of, subscribers. simpl.
      by rewrite subscribers_none.
Qed.

(** Without a value the slot keeps its bytes, or what an earlier variable
    left in it. *)
Lemma define_refines id flags size :
  id_is_free id = false ->
  wlp (syncs_add_event id flags None size) (fun code w' => exists stale,
    (code, abs w') = spec_define id flags size stale (abs w)) w.
Proof. apply (define_refines_bytes id flags None size). Qed.

(** With one it holds that value. *)
Lemma define_value_refines id flags bs size :
  id_is_free id = false -> 0 <= define_size flags size <= zlen bs ->
  wlp (syncs_add_event id flags (Some bs) size) (fun code w' =>
    (code, abs w') = spec_define id flags size bs (abs w)) w.
Proof.
  intros Hf Hn. eapply wlp_mono; [by apply (define_refines_bytes id flags (Some bs) size)|].
  intros code w' [old ->]. unfold spec_define, defined_bytes.
  assert (forall n, 0 <= n <= zlen bs -> ztake n (mem_put 0 (ztake n bs) old) = ztake n bs) as Hput.
  { intros n Hb. unfold mem_put. rewrite ztake_0. cbn [app]. rewrite ztake_app_le by zl. apply ztake_ge. zl. }
  by rewrite Hput.
Qed.

Lemma remove_refines c :
  wlp (syncs_remove_client_from_events c) (fun _ w' => abs w' = spec_close c (abs w)) w.
Proof.
  eapply wlp_mono; [apply run_remove_from_events; [done|apply table_length]|]. intros u w' Hv'.
  rewrite (abs_of w' _ _ Hv'), (abs_of w l uc) by done. unfold spec_close. simpl. f_equal.
  apply directory_fmap; [apply table_unique|..].
  - intros ev. destruct (id_is_free _); [done|apply unsubscribe_event_id].
  - intros ev Hev Hl. rewrite Hl. apply variable_of_unsubscribe.
    apply list_elem_of_lookup in Hev as [i Hi]. by eapply table_wf.
Qed.
End refine.
