(* ===== verification/Refinement.v ===== *)
(** * Server: packets, streams and calls implement the abstract machine

    The refinement of Directory.v lifted to the packet dispatcher, to the
    receive handler over a byte stream and to the embedding application's
    calls. *)

From stdpp Require Import gmap.
From S2P Require Import Prelude.
From S2P Require Import Monad.
From S2P Require Import Types.
From S2P Require Import Net.
From S2P Require Import ServerState.
From S2P Require Import ServerEvents.
From S2P Require Import ServerPackets.
From S2P Require Import Framing.
From S2P Require Import Handler.
From S2P Require Import ServerInv.
From S2P Require Import ServerSafe.
From S2P Require Import ServerLoop.
From S2P Require Import EventSpec.
From S2P Require Import Directory.

Section refinement.
Context `{Env}.

Lemma w_vars_pair w : exists l uc, w_vars w = (l, uc).
Proof. by eexists _, _. Qed.

Lemma abs_keeps {A} (m : SM A) `{!Keeps w_vars m} w : wlp m (fun _ w' => abs w' = abs w) w.
Proof. apply (wlp_keeps w_vars m). intros a w' E. unfold abs. by rewrite E. Qed.

Lemma wlp_keeps_after {A B} (m : SM A) (k : A -> SM B) (P : world -> Prop) w :
  (forall a, Keeps w_vars (k a)) -> (forall w w', w_vars w = w_vars w' -> P w -> P w') ->
  wlp m (fun _ => P) w -> wlp (m ≫= k) (fun _ => P) w.
Proof.
  intros Hk HP Hm. wlp_step. eapply wlp_mono; [exact Hm|]. intros a w1 H1. cbn beta in *.
  apply (wlp_keeps w_vars (k a)). intros b w2 E. by apply (HP w1).
Qed.

Lemma abs_ext w w' : w_vars w = w_vars w' -> abs w = abs w'.
Proof. unfold abs. by intros ->. Qed.

Lemma close_refines c w :
  winv w -> wlp (syncs_close_client_socket c) (fun _ w' => abs w' = spec_close c (abs w)) w.
Proof.
  intros Hw. destruct (w_vars_pair w) as (l & uc & Hv). unfold syncs_close_client_socket.
  wlp_step. unfold client_at. wlp_step. apply wlp_server_get. apply wlp_deref. intros cl _.
  wlp_step. assert (winv (io_emit (IoEpollDel (cl_socketfd cl)) w)) as Hw1 by done.
  assert (w_vars (io_emit (IoEpollDel (cl_socketfd cl)) w) = (l, uc)) as Hv1 by done.
  unfold emit at 1. wlp_step. rewrite (abs_ext w (io_emit (IoEpollDel (cl_socketfd cl)) w)) by done.
  apply wlp_keeps_after; [unfold w_vars; apply _|by intros ?? <-%abs_ext|].
  by apply (remove_refines _ Hw1 l uc).
Qed.

(** The message is not an identification. *)
Ltac other :=
  lazymatch goal with H : (?m =? _) = true |- _ =>
    apply Z.eqb_eq in H; rewrite H
  end;
  lazymatch goal with |- context [?a =? SYNCS_TYPE_CLIENT_ID] =>
    change (a =? SYNCS_TYPE_CLIENT_ID) with false
  end; cbn [andb].

Lemma packet_refines c h data w op :
  winv w -> (c < SYNCS_CLIENT_MAXIMUM)%nat -> id_is_free (hd_id h) = false ->
  0 <= hd_data_size h <= SYNCS_VARIABLE_SIZE_MAXIMUM -> hd_data_size h <= zlen data ->
  packet_operation c h data = Some op ->
  wlp op (fun _ w' => exists stale,
    abs w' = spec_packet stale c (h, ztake (hd_data_size h) data) (abs w)) w.
Proof.
  intros Hw Hc Hid Hn Hd. destruct (w_vars_pair w) as (l & uc & Hv).
  assert (forall A (m : SM A) P, wlp m (fun _ w' => P w') w ->
    wlp (_ ← m; mret tt) (fun _ w' => P w') w) as Hvoid.
  { intros A m P Hm. wlp_step. eapply wlp_mono; [exact Hm|]. intros a w' HP. by wlp_step. }
  assert (forall A (m : SM A), Keeps w_vars m ->
    wlp m (fun _ w' => exists stale : list byte, abs w' = abs w) w) as Hkeep.
  { intros A m Hm. eapply wlp_mono; [by apply abs_keeps|]. intros a w' E. by exists []. }
  unfold packet_operation, spec_packet.
  set (msg := Z.land (hd_type h) SYNCS_TYPE_MSG_MASK).
  repeat (lazymatch goal with |- (if ?b then _ else _) = _ -> _ => destruct b eqn:? end;
    [intros E; apply (inj Some) in E; subst op|]); cbn [andb]; try done.
  - apply Hvoid. eapply wlp_mono; [by apply (subscribe_refines w Hw l uc)|].
    intros code w' E. exists []. by rewrite <- E.
  - apply Hvoid. eapply wlp_mono; [by apply (unsubscribe_refines w Hw l uc)|].
    intros code w' E. by exists [].
  - apply Hvoid. eapply wlp_mono; [by apply (define_refines w Hw l uc)|].
    intros code w' [stale E]. exists stale. by rewrite <- E.
  - eapply wlp_mono; [by apply (undefine_refines w Hw l uc)|]. intros u w' E. by exists [].
  - apply Hvoid. eapply wlp_mono; [by apply (write_refines w Hw l uc)|].
    intros code w' E. exists []. by rewrite <- E.
  - apply Hvoid. other. apply Hkeep, _.
  - other. apply Hkeep, keeps_send_clientlist.
  - other. apply Hkeep, keeps_send_eventlist.
  - apply wlp_keeps_after; [apply _|by intros ?? <-%abs_ext|].
    destruct (negb _).
    + wlp_step. eapply wlp_mono; [apply wp_to_wlp, (wp_keeps w_vars _ (fun _ => winv)); by apply safe_send_server_status|].
      intros code w1 [Hw1 E1]. rewrite (abs_ext w w1) by done. eapply wlp_mono; [by apply close_refines|].
      intros u w2 E2. by exists [].
    + apply Hvoid, Hkeep, _.
  - apply Hvoid, Hkeep, _.
  - apply Hkeep, keeps_send_channellist.
Qed.

Lemma process_refines c h data w :
  winv w -> (c < SYNCS_CLIENT_MAXIMUM)%nat -> id_is_free (hd_id h) = false ->
  0 <= hd_data_size h <= SYNCS_VARIABLE_SIZE_MAXIMUM -> hd_data_size h <= zlen data ->
  wlp (syncs_client_process_packet c h data) (fun _ w' => exists stale,
    abs w' = spec_packet stale c (h, ztake (hd_data_size h) data) (abs w)) w.
Proof.
  intros Hw Hc Hid Hn Hd. unfold syncs_client_process_packet.
  destruct (packet_operation c h data) as [op|] eqn:E.
  - apply wlp_keeps_after; [apply _|by intros ?? <-%abs_ext|]. by apply packet_refines.
  - wlp_step. exists []. revert E. unfold packet_operation, spec_packet.
    set (msg := Z.land (hd_type h) SYNCS_TYPE_MSG_MASK).
    repeat (lazymatch goal with |- (if ?b then _ else _) = _ -> _ => destruct b eqn:? end; [done|]).
    done.
Qed.

(** *** Streams *)

(** Packets the directory can name: no identifier with the free-slot mark. *)
Definition frame_ok (f : frame) : Prop := id_is_free (hd_id f.1) = false.

Lemma deliveries_refine c ds w :
  winv w -> (c < SYNCS_CLIENT_MAXIMUM)%nat ->
  Forall (fun d => frame_ok (delivered_frame d)) ds ->
  Forall (fun d => 0 <= hd_data_size d.1 <= SYNCS_VARIABLE_SIZE_MAXIMUM /\ hd_data_size d.1 <= zlen d.2 /\
    (is_announcement d.1 = true -> sizeof_channel_ticket <= zlen d.2)) ds ->
  wp (for_each ds (process_delivery c)) (fun _ w' => winv w' /\
    spec_packets c (delivered_frame <$> ds) (abs w) (abs w')) w.
Proof.
  intros Hw Hc Hids Hds. revert w Hw Hids. induction Hds as [|[h data] ds (Hn & Hd & Ht) _ IH];
    intros w Hw Hids; cbn [for_each].
  { wp_step. split; [done|constructor]. }
  apply list.Forall_cons in Hids as [Hid Hids]. simpl in *. wp_step. unfold process_delivery at 1. wp_step.
  eapply wp_mono; [apply wp_wlp; [by apply safe_process_packet_ticket|by apply process_refines]|].
  intros r w1 [Hw1 [stale E]]. wp_step. eapply wp_mono; [by apply IH|].
  intros u w2 [Hw2 Hs]. split; [done|]. cbn [fmap list_fmap]. econstructor.
  unfold delivered_frame. simpl in *. by rewrite <- E.
Qed.

Lemma run_client_upd c f w (Q : unit -> world -> Prop) :
  winv w -> (c < SYNCS_CLIENT_MAXIMUM)%nat ->
  (forall cl, w_clients w !! c = Some cl ->
    Q tt (w <| w_server ::= fun s => s <| sv_clients ::= <[c := f cl]> |> |>)) ->
  wp (client_upd c f) Q w.
Proof.
  intros Hw Hc HQ. unfold client_upd. wp_step. apply wp_client_at; [done..|].
  intros cl Hcl _. apply wp_server_upd. apply HQ. exact Hcl.
Qed.

Lemma store_pending_spec c buffer n w :
  winv w -> (c < SYNCS_CLIENT_MAXIMUM)%nat -> zlen buffer = SYNCS_CLIENT_BUFFER_SIZE ->
  wp (store_pending c buffer n) (fun r w' => r = 0 /\ abs w' = abs w /\
    exists cl, w_clients w' !! c = Some cl /\ pending cl = ztake n buffer) w.
Proof.
  intros Hw Hc Hb. unfold store_pending. wp_step. apply run_client_upd; [done..|]. intros cl Hcl.
  wp_step. apply run_client_upd; [|done|].
  { apply winv_client_insert; [done|]. pose proof (swf_client _ Hw c cl Hcl) as []. by split. }
  intros cl2 Hcl2. wp_step. split; [done|]. split; [by apply abs_ext|].
  assert (cl2 = cl <| cl_buffer := buffer |>) as ->.
  { apply (f_equal (fun o => o)) in Hcl2. unfold w_clients, on_server in *. simpl in Hcl2.
    rewrite list_lookup_insert_eq in Hcl2 by by eapply lookup_lt_Some. congruence. }
  exists (cl <| cl_buffer := buffer |> <| cl_buffer_recv := n |>).
  split; [|reflexivity]. unfold w_clients, on_server. simpl.
  apply list_lookup_insert_eq. rewrite length_insert. by eapply lookup_lt_Some.
Qed.

(** A chunk below a header: its bytes are lost. *)
Lemma handler_ignores c bs cl w :
  winv w -> w_clients w !! c = Some cl -> 1 <= zlen bs < 60 ->
  cl_buffer_recv cl + zlen bs <= SYNCS_CLIENT_BUFFER_SIZE ->
  wp (syncs_client_handler c (RecvData bs)) (fun r w' => r = 0 /\ winv w' /\ abs w' = abs w /\
    exists cl', w_clients w' !! c = Some cl' /\ pending cl' = pending cl) w.
Proof.
  intros Hw Hcl Hbs Hfit. assert (c < SYNCS_CLIENT_MAXIMUM)%nat as Hc.
  { apply lookup_lt_Some in Hcl. by rewrite <- (swf_clients (w_server w)). }
  destruct (swf_client _ Hw c cl Hcl) as [Hb Hn]. unfold syncs_client_handler.
  wp_step. apply wp_client_at; [done..|]. intros cl0 Hcl0 _. change (w_clients w !! c = Some cl0) in Hcl0.
  rewrite Hcl in Hcl0. injection Hcl0 as <-. wp_step. apply wp_memcpy; [clia..|]. rewrite ztake_ge by lia.
  wp_step. apply run_client_upd; [done..|]. intros cl1 Hcl1. rewrite Hcl in Hcl1. injection Hcl1 as <-.
  rewrite (proj2 (Z.ltb_lt _ _)), (proj2 (Z.eqb_neq _ _)) by clia. wp_step.
  set (b := mem_put _ _ _). assert (zlen b = SYNCS_CLIENT_BUFFER_SIZE) as Hzb
    by (subst b; rewrite zlen_mem_put by clia; done).
  split; [done|]. split; [apply winv_client_insert; [done|by split]|]. split; [by apply abs_ext|].
  exists (cl <| cl_buffer := b |>). split.
  - unfold w_clients, on_server. simpl. apply list_lookup_insert_eq. by eapply lookup_lt_Some.
  - unfold pending. simpl. subst b. unfold mem_put. rewrite ztake_app_le by zl. by rewrite ztake_ztake, Z.min_id.
Qed.

(** The handler on a chunk of at least a header: it runs the abstract machine
    over the packets of the stream and keeps the rest for the next chunk. *)
Lemma handler_refines c bs cl w :
  winv w -> w_clients w !! c = Some cl -> 60 <= zlen bs ->
  cl_buffer_recv cl + zlen bs <= SYNCS_CLIENT_BUFFER_SIZE -> tickets_fit (pending cl) bs ->
  Forall frame_ok (parse (pending cl ++ bs)).1 ->
  wp (syncs_client_handler c (RecvData bs)) (fun r w' => r = 0 /\
    spec_packets c (parse (pending cl ++ bs)).1 (abs w) (abs w') /\
    exists cl', w_clients w' !! c = Some cl' /\ pending cl' = (parse (pending cl ++ bs)).2) w.
Proof.
  intros Hw Hcl Hbs Hfit Htk Hok.
  assert (c < SYNCS_CLIENT_MAXIMUM)%nat as Hc.
  { apply lookup_lt_Some in Hcl. by rewrite <- (swf_clients (w_server w)). }
  destruct (swf_client _ Hw c cl Hcl) as [Hb Hn].
  destruct (client_handler_parse c bs cl w Hcl Hb ltac:(lia) Hbs ltac:(clia))
    as (ds & b & n & Hrun & Hfs & Hrest & Hzb & Hn0 & Hds).
  eapply wp_eq; [exact Hrun|]. clear Hrun.
  set (buf := mem_put (cl_buffer_recv cl) bs (cl_buffer cl)).
  wp_step. apply run_client_upd; [done..|]. intros cl1 Hcl1. rewrite Hcl in Hcl1.
  injection Hcl1 as <-. set (w1 := w <| w_server ::= _ |>).
  assert (winv w1) as Hw1.
  { apply winv_client_insert; [done|]. split; [|done]. simpl. rewrite zlen_mem_put; clia. }
  rewrite (abs_ext w w1) by done. wp_step.
  eapply wp_mono; [apply (deliveries_refine c ds w1 Hw1 Hc)|].
  - rewrite <- Hfs in Hok. exact (proj1 (Forall_fmap _ _ _) Hok).
  - eapply (deliveries_fit (SYNCS_CLIENT_BUFFER_SIZE - (cl_buffer_recv cl + zlen bs)));
      [exact Hfs|lia|rewrite zlen_pending; [done|by split]|done|done].
  - intros u w2 [Hw2 Hs]. eapply wp_mono; [by apply store_pending_spec|].
    intros r w3 (-> & E & cl3 & Hcl3 & Hp). rewrite E, <- Hfs, <- Hrest. eauto.
Qed.
End refinement.
