(* ===== verification/Publish.v ===== *)
(** * Server: what reaches the wire

    The output of the server over a network that loses nothing: which clients
    an event is sent to, and with which bytes. *)

From S2P Require Import Prelude.
From S2P Require Import Monad.
From S2P Require Import Types.
From S2P Require Import Net.
From S2P Require Import ServerState.
From S2P Require Import ServerEvents.
From S2P Require Import ServerPackets.
From S2P Require Import Framing.
From S2P Require Import Wire.
From S2P Require Import ServerInv.
From S2P Require Import ServerSafe.
From S2P Require Import EventSpec.

(** How [syncs_client_send] carries them to client [cl]. *)
Definition transmit (s : syncs_server) (cl : syncs_client) (bs : list byte) : list io :=
  if cl_socketfd cl >? -1 then [IoSend (cl_socketfd cl) bs]
  else if cl_socketfd cl =? UDP_SOCKET_STUB then [IoSendto (sv_usocketfd s) (cl_addr cl) bs]
  else [].

Definition transmit_to (s : syncs_server) (bs : list byte) (c : nat) : list io :=
  match sv_clients s !! c with Some cl => transmit s cl bs | None => [] end.

(** The clients a publication goes to, in slot order: every subscriber but
    the producer, and the producer too when it asked for an echo. *)
Definition publish_to (flags : Z) (ev : syncs_event) : list nat :=
  filter (fun c => ev_producer ev <> Some c \/ flag flags SYNCS_TYPE_ECHO = true) (subscribers ev).

Definition slot_targets (flags : Z) (ev : syncs_event) (slot : option nat) : list nat :=
  match slot with
  | None => []
  | Some c =>
      if bool_decide (ev_producer ev = Some c) && negb (flag flags SYNCS_TYPE_ECHO) then [] else [c]
  end.

Lemma publish_to_slots flags ev :
  publish_to flags ev = ev_consumers ev ≫= slot_targets flags ev.
Proof.
  unfold publish_to, subscribers. induction (ev_consumers ev) as [|[c|] l IH]; [done| |exact IH].
  transitivity (slot_targets flags ev (Some c) ++ filter (fun c =>
    ev_producer ev <> Some c \/ flag flags SYNCS_TYPE_ECHO = true) (omap (fun x => x) l)).
  - change (omap (fun x => x) (Some c :: l)) with (c :: omap (fun x => x) l).
    rewrite filter_cons. unfold slot_targets.
    destruct (bool_decide_reflect (ev_producer ev = Some c)) as [E|E], (flag flags SYNCS_TYPE_ECHO);
      first [rewrite decide_True by auto; done|rewrite decide_False by (intros [?|?]; congruence); done].
  - etransitivity; [|reflexivity]. cbn. f_equal. exact IH.
Qed.

(** What of the clients the network sees. *)
Definition endpoints (s : syncs_server) : list (Z * sockaddr_in) :=
  (fun cl => (cl_socketfd cl, cl_addr cl)) <$> sv_clients s.

Definition net_view (s : syncs_server) : list (Z * sockaddr_in) * Z := (endpoints s, sv_usocketfd s).
Definition w_net : world -> list (Z * sockaddr_in) * Z := on_server net_view.

Lemma transmit_to_view s s' bs c :
  net_view s = net_view s' -> transmit_to s bs c = transmit_to s' bs c.
Proof.
  intros E0. pose proof (f_equal fst E0) as E. pose proof (f_equal snd E0) as Eu.
  simpl in E, Eu. clear E0. unfold transmit_to.
  apply (f_equal (fun l => l !! c)) in E. unfold endpoints in E. rewrite !list_lookup_fmap in E.
  destruct (sv_clients s !! c) as [cl|], (sv_clients s' !! c) as [cl'|]; try done.
  injection E as E1 E2. unfold transmit. by rewrite E1, E2, Eu.
Qed.

(** *** Operations that send nothing and move no endpoint *)

Section quiet.
Context `{Env}.

#[export] Instance keeps_net_event_upd e f : Keeps w_net (event_upd e f).
Proof. apply keeps_bind; [apply _|]. intros x. by apply keeps_modify. Qed.

Lemma keeps_net_client_upd c f :
  (forall cl, cl_socketfd (f cl) = cl_socketfd cl /\ cl_addr (f cl) = cl_addr cl) ->
  Keeps w_net (client_upd c f).
Proof.
  intros Hf w u w' E. unfold client_upd, client_at, server_get, mbind, M_bind, gets, deref in E.
  destruct (sv_clients (w_server w) !! c) as [cl|] eqn:Hcl; [|done].
  injection E as <- <-.
  destruct (Hf cl) as [E1 E2]. unfold w_net, on_server, net_view, endpoints. simpl.
  apply (f_equal2 pair); [|done]. rewrite list_fmap_insert, E1, E2. apply list_insert_id. by rewrite list_lookup_fmap, Hcl.
Qed.

#[export] Instance keeps_log_create_event id : Keeps w_log (syncs_create_event id).
Proof.
  unfold syncs_create_event. apply keeps_bind; [apply _|]. intros s.
  destruct (scan _ _) as [i|]; [|apply _]. apply keeps_bind; [apply keeps_log_event_upd|]. intros u.
  apply keeps_bind; [apply keeps_log_server_upd|apply _].
Qed.
#[export] Instance keeps_net_create_event id : Keeps w_net (syncs_create_event id).
Proof.
  unfold syncs_create_event. apply keeps_bind; [apply _|]. intros s.
  destruct (scan _ _) as [i|]; [|apply _]. apply keeps_bind; [apply keeps_net_event_upd|]. intros u.
  apply keeps_bind; [by apply keeps_modify|apply _].
Qed.

#[export] Instance keeps_log_open id flags : Keeps w_log (find_or_create id flags (event_set_type flags)).
Proof. unfold find_or_create, event_set_type. apply _. Qed.
#[export] Instance keeps_net_open id flags : Keeps w_net (find_or_create id flags (event_set_type flags)).
Proof. unfold find_or_create, event_set_type. apply _. Qed.

#[export] Instance keeps_log_event_store e data n : Keeps w_log (event_store e data n).
Proof. unfold event_store. apply _. Qed.
#[export] Instance keeps_net_event_store e data n : Keeps w_net (event_store e data n).
Proof. unfold event_store. apply _. Qed.

#[export] Instance keeps_log_write_store c e data n : Keeps w_log (client_write_store c e data n).
Proof. unfold client_write_store. apply _. Qed.
#[export] Instance keeps_net_write_store c e data n : Keeps w_net (client_write_store c e data n).
Proof.
  unfold client_write_store. do 3 (apply keeps_bind; [apply _|intros ?]).
  apply keeps_bind; [by apply keeps_net_client_upd|intros ?].
  do 4 (apply keeps_bind; [apply _|intros ?]). by apply keeps_modify.
Qed.

(** Totality, function and frame of a quiet operation in one step. *)
Lemma wp_quiet {A} (m : SM A) (P Q : A -> world -> Prop) w :
  Keeps w_log m -> Keeps w_net m -> wp m P w -> wlp m Q w ->
  wp m (fun a w' => P a w' /\ Q a w' /\ w_net w' = w_net w /\ w_log w' = w_log w) w.
Proof.
  intros Hl Hn HP HQ. apply wp_run in HP as (a & w' & E & HP). apply wp_run. exists a, w'.
  split; [done|]. split; [done|]. split; [by apply (wlp_ok m Q w)|].
  split; [by apply (Hn w a)|by apply (Hl w a)].
Qed.
End quiet.

Section publish.
Context `{Env} `{!Lossless}.

Lemma run_client_send c p cl w (Q : Z -> world -> Prop) :
  sv_clients (w_server w) !! c = Some cl -> packet_full p ->
  (forall r, r = 0 \/ r = -1 ->
    Q r (io_emits (transmit (w_server w) cl (packet_wire p)) w)) ->
  wp (syncs_client_send c p) Q w.
Proof.
  intros Hcl Hp HQ. unfold syncs_client_send. wp_step. unfold client_at. wp_step.
  apply wp_server_get. apply (wp_deref _ cl); [done|]. pose proof (packet_size_bounds p Hp) as Hs.
  unfold transmit, packet_wire in HQ. destruct (cl_socketfd cl >? -1).
  - apply blocking_send_lossless; [|lia|by apply HQ; left].
    unfold packet_bytes, packet_full in *. clia.
  - destruct (_ =? UDP_SOCKET_STUB); [|by apply HQ; right].
    wp_step. apply wp_server_get. unfold syncs_udp_send, emit. repeat wp_step. by apply HQ; left.
Qed.

Lemma run_client_send' c p w (Q : Z -> world -> Prop) :
  winv w -> (c < SYNCS_CLIENT_MAXIMUM)%nat -> packet_full p ->
  (forall r, Q r (io_emits (transmit_to (w_server w) (packet_wire p) c) w)) ->
  wp (syncs_client_send c p) Q w.
Proof.
  intros Hw Hc Hp HQ.
  destruct (lookup_lt_is_Some_2 (sv_clients (w_server w)) c) as [cl Hcl].
  { by rewrite swf_clients. }
  eapply run_client_send; [done..|]. intros r _. specialize (HQ r).
  unfold transmit_to in HQ. by rewrite Hcl in HQ.
Qed.

Lemma run_event_at e ev w (Q : syncs_event -> world -> Prop) :
  w_events w !! e = Some ev -> Q ev w -> wp (event_at e) Q w.
Proof.
  intros He HQ. unfold event_at. wp_step. apply wp_server_get. by apply (wp_deref _ ev).
Qed.

(** ** Counters of a client *)

Lemma run_client_counter c f w (Q : unit -> world -> Prop) :
  winv w -> (c < SYNCS_CLIENT_MAXIMUM)%nat ->
  (forall cl, cl_buffer (f cl) = cl_buffer cl /\ cl_buffer_recv (f cl) = cl_buffer_recv cl /\
    cl_socketfd (f cl) = cl_socketfd cl /\ cl_addr (f cl) = cl_addr cl) ->
  (forall w', winv w' -> w_vars w' = w_vars w -> w_net w' = w_net w -> w_log w' = w_log w ->
    Q tt w') ->
  wp (client_upd c f) Q w.
Proof.
  intros Hw Hc Hf HQ. unfold client_upd. wp_step. apply wp_client_at; [done..|].
  intros cl Hcl [Hb Hr]. apply wp_server_upd. destruct (Hf cl) as (E1 & E2 & E3 & E4).
  apply HQ; [|done| |done].
  - apply winv_client_insert; [done|]. by split; rewrite ?E1, ?E2.
  - unfold w_net, on_server, net_view, endpoints. simpl. f_equal. rewrite list_fmap_insert, E3, E4.
    apply list_insert_id. by rewrite list_lookup_fmap, Hcl.
Qed.

(** ** Packets *)

Lemma payload_copy ev b :
  event_wf ev -> zlen b = SYNCS_EVENT_DATA_SIZE_MAXIMUM ->
  ztake (ev_data_size ev) (mem_put 0 (ztake (ev_data_size ev) (ev_data ev)) b) =
    ztake (ev_data_size ev) (ev_data ev).
Proof.
  intros Hwf Hb. pose proof (ewf_data ev Hwf). pose proof (ewf_size ev Hwf).
  assert (zlen (ztake (ev_data_size ev) (ev_data ev)) = ev_data_size ev) as Hz by zl.
  rewrite <- Hz at 1. apply (mem_sub_put 0). clia.
Qed.

(** The value an event holds. *)
Definition ev_value (ev : syncs_event) : list byte := ztake (ev_data_size ev) (ev_data ev).

Lemma zlen_ev_value ev : event_wf ev -> zlen (ev_value ev) = ev_data_size ev.
Proof. intros []. unfold ev_value. zl. Qed.

(** What identifies the packet of a publication. *)
Definition event_header (flags : Z) (ev : syncs_event) (h : syncs_header) : Prop :=
  hd_magic h = SYNCS_PACKET_MAGIC /\ hd_magic_data h = SYNCS_PACKET_MAGIC_DATA /\
  hd_id h = ev_id ev /\ hd_data_size h = ev_data_size ev /\
  hd_type h = (let t := Z.lor SYNCS_TYPE_EVENT (ev_data_type ev) in
               if flag flags SYNCS_TYPE_SYNC then Z.lor t SYNCS_TYPE_SYNC else t).

Lemma run_send_event e flags ev w :
  winv w -> w_events w !! e = Some ev ->
  wp (syncs_send_event e flags) (fun r w' => r = 0 /\ exists h, event_header flags ev h /\
    (id_wf (ev_id ev) -> 0 <= ev_data_type ev < 2 ^ 32 -> header_wf h) /\
    w_log w' = w_log w ++
      (publish_to flags ev ≫= transmit_to (w_server w) (encode_frame (h, ev_value ev)))) w.
Proof.
  intros Hw Hev. pose proof (swf_event _ Hw e ev Hev) as Hwf.
  unfold syncs_send_event. wp_step. apply run_stack_packet. intros p Hp Hph.
  wp_step. apply (run_event_at e ev); [done|]. rewrite syncs_fill_header_eq. wp_step. pose proof Hp as Hp'. unfold packet_full in Hp'.
  pose proof (ewf_data ev Hwf). pose proof (ewf_size ev Hwf).
  apply wp_memcpy; [clia..|]. rewrite u16_small by clia. wp_step.
  set (b := mem_put 0 _ _). assert (zlen b = SYNCS_EVENT_DATA_SIZE_MAXIMUM) as Hzb.
  { subst b. rewrite zlen_mem_put; [done|lia|]. autorewrite with zlen. clia. }
  apply (wp_mono _ (fun h w1 => w1 = w /\ event_header flags ev h /\
    (id_wf (ev_id ev) -> 0 <= ev_data_type ev < 2 ^ 32 -> header_wf h))).
  { destruct Hph as (? & Hh2 & ? & ? & ? & ? & Hh7 & ?).
    assert (forall t s0 s1, 0 <= s0 < 2 ^ 32 -> 0 <= s1 < 2 ^ 32 ->
      (0 <= ev_data_type ev < 2 ^ 32 -> 0 <= t < 2 ^ 32) ->
      id_wf (ev_id ev) -> 0 <= ev_data_type ev < 2 ^ 32 ->
      header_wf (mk_header SYNCS_PACKET_MAGIC (hd_crc (pk_header p)) t (ev_id ev) (mk_sync s0 s1)
        (hd_update_counter (pk_header p)) (ev_data_size ev) SYNCS_PACKET_MAGIC_DATA)) as Hwfh.
    { intros t s0 s1 Hs0 Hs1 Ht Hid Hty. unfold header_wf; simpl. split_and!; try lia; first [apply Ht; lia|done|clia]. }
    assert (0 <= ev_data_type ev < 2 ^ 32 -> 0 <= Z.lor SYNCS_TYPE_EVENT (ev_data_type ev) < 2 ^ 32) as Hty.
    { intros. apply lor_range; [lia|done|done]. }
    destruct (flag flags SYNCS_TYPE_SYNC) eqn:Es.
    - wp_step. apply wp_server_get. wp_step. unfold syncs_sync_calculate. wp_step. wp_step.
      destruct (env_realtime _). destruct (_ >? _); wp_step; wp_step; (split; [done|]);
        (split; [unfold event_header; by rewrite Es|]); intros; apply Hwfh; try apply u32_range;
        try done; intros; apply lor_range; auto; done.
    - wp_step. split; [done|]. split; [unfold event_header; by rewrite Es|]. intros. by apply Hwfh. }
  intros h ? (-> & Hh & Hhwf). wp_step.
  assert (packet_wire (mk_packet h b) = encode_frame (h, ev_value ev)) as Hwire.
  { apply (packet_wire_frame h b (ev_data_size ev)); [apply Hh|done|]. by apply payload_copy. }
  set (out := fun k => (take k (ev_consumers ev) ≫= slot_targets flags ev)
    ≫= transmit_to (w_server w) (encode_frame (h, ev_value ev))).
  eapply wp_mono; [apply (wp_for_each_index (fun k w' => winv w' /\ w_vars w' = w_vars w /\
    w_net w' = w_net w /\ w_log w' = w_log w ++ out k))|].
  - split_and!; try done. by rewrite app_nil_r.
  - intros k i w1 Hi (Hw1 & Hv1 & Hn1 & Hl1). apply lookup_seq in Hi as [-> Hk]. simpl.
    assert (w_events w1 !! e = Some ev) as Hev1.
    { rewrite <- Hev. f_equal. exact (f_equal fst Hv1). }
    wp_step. apply (run_event_at e ev); [done|].
    destruct (lookup_lt_is_Some_2 (ev_consumers ev) k) as [slot Hslot].
    { by rewrite ewf_slots. }
    wp_step. apply (wp_deref _ slot); [done|].
    assert (out (k + 1)%nat = out k ++ (slot_targets flags ev slot ≫=
      transmit_to (w_server w) (encode_frame (h, ev_value ev)))) as Hout.
    { subst out. cbn beta. rewrite Nat.add_1_r, (take_S_r _ k slot), !bind_app by done.
      simpl. by rewrite app_nil_r. }
    unfold slot_targets in Hout. destruct slot as [c|]; last first.
    { wp_step. rewrite Hout. simpl. by rewrite app_nil_r. }
    destruct (_ && _).
    { wp_step. rewrite Hout. simpl. by rewrite app_nil_r. }
    simpl in Hout. rewrite app_nil_r in Hout.
    assert (c < SYNCS_CLIENT_MAXIMUM)%nat as Hc.
    { eapply ewf_clients; [done|]. apply list_elem_of_omap. exists (Some c).
      split; [by eapply list_elem_of_lookup_2|done]. }
    wp_step. apply run_client_counter; [done..|]. intros w2 Hw2 Hv2 Hn2 Hl2.
    wp_step. apply run_client_send'; [done..|]. intros r.
    rewrite Hwire, (transmit_to_view (w_server w2) (w_server w)) by by (change (w_net w2 = w_net w); congruence).
    set (es := transmit_to _ _ _) in *.
    assert (winv (io_emits es w2)) as Hw3 by by apply winv_emits.
    assert (w_vars (io_emits es w2) = w_vars w /\ w_net (io_emits es w2) = w_net w) as [Hv3 Hn3].
    { unfold w_vars, w_net, on_server. rewrite io_emits_server. split; by etrans. }
    assert (w_log (io_emits es w2) = w_log w ++ out (k + 1)%nat) as Hl3.
    { change (io_log (io_emits es w2) = w_log w ++ out (k + 1)%nat).
      rewrite io_log_emits, Hout. simpl. by rewrite Hl2, Hl1, app_assoc. }
    destruct (negb _); [|by wp_step].
    apply run_client_counter; [done..|]. intros w4 Hw4 Hv4 Hn4 Hl4.
    split_and!; first [done|by etrans].
  - intros u w' (_ & _ & _ & Hl). wp_step. split; [done|]. exists h. split_and!; [done..|].
    rewrite Hl. subst out. cbn beta. rewrite length_seq, take_ge by (rewrite (ewf_slots ev Hwf); done).
    by rewrite publish_to_slots.
Qed.
End publish.
