(* ===== verification/Channels.v ===== *)
(** * Server: the channels as an abstract machine

    A channel is the announcement of a service by a client: the address and
    port a ticket carries.  The table of channels implements a finite map from
    names to announcements with two transitions, an announcement and the
    departure of a client; every packet makes at most one of them. *)

From stdpp Require Import gmap.
From S2P Require Import Prelude.
From S2P Require Import Monad.
From S2P Require Import Types.
From S2P Require Import Net.
From S2P Require Import ServerState.
From S2P Require Import ServerEvents.
From S2P Require Import ServerPackets.
From S2P Require Import ServerInv.
From S2P Require Import ServerSafe.
From S2P Require Import EventSpec.
From S2P Require Import Table.

(** ** The abstract machine *)

Record announced : Type := mk_announced {
  an_ticket : syncs_channel_ticket;
  an_producer : option nat;        (* the client that announced last *)
  an_count : Z;                    (* announcements *)
  an_producers : Z }.              (* changes of the producer *)

Abbreviation announcements := (gmap syncsid_t announced).

(** Client [c] at address [ip] announces a ticket; the address in it is not
    the client's choice. *)
Definition spec_announce (c : nat) (ip : Z) (id : syncsid_t) (ticket : syncs_channel_ticket) (m : announcements)
    : announcements :=
  let ticket := ticket <| tk_ip := ip |> in
  match m !! id with
  | Some a =>
      <[id := mk_announced ticket (Some c) (incr_u32 (an_count a))
                (if bool_decide (an_producer a = Some c) then an_producers a else incr_u32 (an_producers a))]> m
  | None =>
      if bool_decide (size m = SYNCS_CHANNEL_MAXIMUM) then m
      else <[id := mk_announced ticket (Some c) 1 1]> m
  end.

Definition spec_leave (c : nat) (m : announcements) : announcements :=
  filter (fun kv => ~ an_producer kv.2 = Some c) m.

(** One packet of client [c] at address [ip]. *)
Definition spec_channel_packet (c : nat) (ip : Z) (h : syncs_header) (data : list byte) (m : announcements)
    : announcements :=
  let msg := Z.land (hd_type h) SYNCS_TYPE_MSG_MASK in
  if msg =? SYNCS_TYPE_CHANNEL then
    if Z.land (hd_type h) SYNCS_CHANNEL_MASK =? SYNCS_CHANNEL_ANONS
    then spec_announce c ip (hd_id h) (decode_ticket (ztake sizeof_channel_ticket data)) m
    else m
  else if (msg =? SYNCS_TYPE_CLIENT_ID) && negb (data0 (hd_sync h) =? SYNCS_VERSION_MAJOR)
  then spec_leave c m
  else m.

(** ** The abstraction function *)

Definition announced_of (ch : syncs_channel) : announced :=
  mk_announced (ch_ticket ch) (ch_producer ch) (ch_anons_count ch) (ch_producers_count ch).

Definition announcement_map (l : list syncs_channel) : announcements := table_map ch_id announced_of l.

Definition channels_of (w : world) : announcements := announcement_map (w_channels w).

(** ** Frames *)

Section frames.
Context `{Env}.

#[export] Instance keeps_channels_client_upd c f : Keeps w_channels (client_upd c f).
Proof. unfold client_upd. apply keeps_bind; [apply _|]. intros cl. by apply keeps_modify. Qed.
#[export] Instance keeps_channels_event_upd e f : Keeps w_channels (event_upd e f).
Proof. unfold event_upd. apply keeps_bind; [apply _|]. intros ev. by apply keeps_modify. Qed.
#[export] Instance keeps_channels_send_event e flags : Keeps w_channels (syncs_send_event e flags).
Proof. unfold syncs_send_event. apply _. Qed.
#[export] Instance keeps_channels_resend_event c e : Keeps w_channels (syncs_resend_event c e).
Proof. unfold syncs_resend_event. apply _. Qed.
#[export] Instance keeps_channels_status c code : Keeps w_channels (syncs_send_server_status c code).
Proof. unfold syncs_send_server_status. apply _. Qed.
#[export] Instance keeps_channels_client_read c id : Keeps w_channels (syncs_client_read c id).
Proof. unfold syncs_client_read. apply _. Qed.

#[export] Instance keeps_channels_create_event id : Keeps w_channels (syncs_create_event id).
Proof.
  unfold syncs_create_event. apply keeps_bind; [apply _|]. intros s.
  destruct (scan _ _); [|apply _]. apply keeps_bind; [apply _|]. intros _.
  apply keeps_bind; [by apply keeps_modify|apply _].
Qed.
#[export] Instance keeps_channels_find_or_create id flags created :
  (forall e, Keeps w_channels (created e)) -> Keeps w_channels (find_or_create id flags created).
Proof. intros Hc. unfold find_or_create. apply _. Qed.
#[export] Instance keeps_channels_set_type flags e : Keeps w_channels (event_set_type flags e).
Proof. unfold event_set_type. apply _. Qed.
#[export] Instance keeps_channels_event_store e data n : Keeps w_channels (event_store e data n).
Proof. unfold event_store. apply _. Qed.
#[export] Instance keeps_channels_add_client c e : Keeps w_channels (syncs_add_client_to_event c e).
Proof. unfold syncs_add_client_to_event. apply _. Qed.
#[export] Instance keeps_channels_remove_client c e : Keeps w_channels (syncs_remove_client_from_event c e).
Proof. unfold syncs_remove_client_from_event. apply _. Qed.
#[export] Instance keeps_channels_remove_events c : Keeps w_channels (syncs_remove_client_from_events c).
Proof. unfold syncs_remove_client_from_events. apply _. Qed.
#[export] Instance keeps_channels_subscribe c id flags n : Keeps w_channels (syncs_client_subscribe c id flags n).
Proof. unfold syncs_client_subscribe. apply _. Qed.
#[export] Instance keeps_channels_unsubscribe c id : Keeps w_channels (syncs_client_unsubscribe c id).
Proof. unfold syncs_client_unsubscribe. apply _. Qed.
#[export] Instance keeps_channels_free_event id : Keeps w_channels (syncs_free_event id).
Proof.
  unfold syncs_free_event. apply keeps_bind; [apply _|]. intros s. destruct (syncs_find_event _ _); [|apply _].
  apply keeps_bind; [apply _|]. intros _. by apply keeps_modify.
Qed.
#[export] Instance keeps_channels_add_event id flags data size : Keeps w_channels (syncs_add_event id flags data size).
Proof. unfold syncs_add_event. apply _. Qed.
#[export] Instance keeps_channels_write_store c e data n : Keeps w_channels (client_write_store c e data n).
Proof.
  unfold client_write_store. repeat (apply keeps_bind; [apply _|intros ?]). by apply keeps_modify.
Qed.
#[export] Instance keeps_channels_write c id flags data n : Keeps w_channels (syncs_client_write c id flags data n).
Proof. unfold syncs_client_write. apply _. Qed.
#[export] Instance keeps_channels_request c id flags : Keeps w_channels (syncs_client_channel_request c id flags).
Proof. unfold syncs_client_channel_request. apply _. Qed.

Lemma keeps_channels_send_list ls c n :
  (forall i k b, Keeps w_channels (ls_fill ls i k b)) -> Keeps w_channels (syncs_client_send_list ls c n).
Proof. intros Hf. unfold syncs_client_send_list, list_step, list_flush. apply _. Qed.
#[export] Instance keeps_channels_send_clientlist c n : Keeps w_channels (syncs_client_send_clientlist c n).
Proof. apply keeps_channels_send_list. simpl. unfold client_info_fill, put_field. apply _. Qed.
#[export] Instance keeps_channels_send_eventlist c n : Keeps w_channels (syncs_client_send_eventlist c n).
Proof. apply keeps_channels_send_list. simpl. unfold event_info_fill, put_field. apply _. Qed.
#[export] Instance keeps_channels_send_channellist c n : Keeps w_channels (syncs_client_send_channellist c n).
Proof. apply keeps_channels_send_list. simpl. unfold channel_info_fill, put_field. apply _. Qed.
End frames.

(** ** The table, operation by operation *)

Definition release_channel (c : nat) (ch : syncs_channel) : syncs_channel :=
  if negb (id_is_free (ch_id ch)) && bool_decide (ch_producer ch = Some c)
  then ch <| ch_id ::= id_set_free |> else ch.

(** What an announcement leaves in the slot. *)
Definition announce_channel (c : nat) (ticket : syncs_channel_ticket) (ch : syncs_channel) : syncs_channel :=
  let ch := ch <| ch_anons_count ::= incr_u32 |> <| ch_ticket := ticket |> in
  if bool_decide (ch_producer ch = Some c) then ch
  else ch <| ch_producer := Some c |> <| ch_producers_count ::= incr_u32 |>.

Section operations.
Context `{Env}.
Implicit Types (w : world).

Lemma wlp_channel_at n w (Q : syncs_channel -> world -> Prop) :
  (forall ch, w_channels w !! n = Some ch -> Q ch w) -> wlp (channel_at n) Q w.
Proof. intros HQ. unfold channel_at. wlp_step. apply wlp_server_get. apply wlp_deref. intros ch. apply HQ. Qed.

Lemma wlp_channel_upd n f w (Q : unit -> world -> Prop) :
  (forall w', w_channels w' = alter f n (w_channels w) -> w_clients w' = w_clients w -> Q tt w') ->
  wlp (channel_upd n f) Q w.
Proof.
  intros HQ. unfold channel_upd. wlp_step. apply wlp_channel_at. intros ch Hch.
  apply wlp_server_upd, HQ; [|done]. unfold w_channels, on_server in *. simpl. by rewrite (list_alter_insert f n ch).
Qed.

Lemma run_leave c w (Q : unit -> world -> Prop) :
  winv w -> (forall w', w_channels w' = release_channel c <$> w_channels w -> Q tt w') ->
  wlp (syncs_remove_channels_of_client c) Q w.
Proof.
  intros Hw HQ. unfold syncs_remove_channels_of_client.
  eapply wlp_mono; [apply (wlp_for_each (fun k w' => length (w_channels w') = length (w_channels w) /\
    forall i ch, w_channels w !! i = Some ch ->
      w_channels w' !! i = Some (if (i <? k)%nat then release_channel c ch else ch)))|].
  - split; [done|]. intros i ch Hi. exact Hi.
  - intros k x w1 Hx [Hlen Hk]. apply lookup_seq in Hx as [-> Hlt]. simpl.
    wlp_step. apply wlp_channel_at. intros ch Hch.
    destruct (lookup_lt_is_Some_2 (w_channels w) k) as [ch0 Hch0]; [rewrite <- Hlen; by eapply lookup_lt_Some|].
    pose proof (Hk k ch0 Hch0) as Hk0. rewrite Nat.ltb_irrefl in Hk0. simplify_eq.
    assert (forall w2, w_channels w2 = alter (release_channel c) k (w_channels w1) ->
      length (w_channels w2) = length (w_channels w) /\ forall i ch, w_channels w !! i = Some ch ->
        w_channels w2 !! i = Some (if (i <? k + 1)%nat then release_channel c ch else ch)) as Hnext.
    { intros w2 E2. rewrite E2, length_alter. split; [done|]. intros i x Hi.
      destruct (decide (i = k)) as [->|Hne].
      - rewrite list_lookup_alter_eq, Hch. simplify_eq. by rewrite (proj2 (Nat.ltb_lt k (k + 1))) by lia.
      - rewrite list_lookup_alter_ne by done. rewrite (Hk i x Hi). do 2 f_equal.
        destruct (Nat.ltb_spec i k), (Nat.ltb_spec i (k + 1)); try lia; done. }
    destruct (negb _ && _) eqn:E.
    + apply wlp_channel_upd. intros w2 E2 _. apply Hnext. rewrite E2.
      apply (list_alter_agree _ _ k ch); [done|]. unfold release_channel. by rewrite E.
    + wlp_step. apply Hnext. rewrite (list_alter_fix _ k ch); [done..|]. unfold release_channel. by rewrite E.
  - intros u w' [Hlen Hk]. destruct u. apply HQ. apply list_eq. intros i. rewrite list_lookup_fmap.
    destruct (w_channels w !! i) as [ch|] eqn:Hi.
    + rewrite (Hk i ch Hi). apply lookup_lt_Some in Hi. unfold w_channels, on_server in Hi.
      rewrite swf_channels in Hi by done. by rewrite (proj2 (Nat.ltb_lt _ _)) by (rewrite length_seq; lia).
    + apply lookup_ge_None in Hi. apply lookup_ge_None. by rewrite Hlen.
Qed.

(** The assignments of an announcement to its slot. *)
Lemma run_announce_slot c n data w cl ch (Q : Z -> world -> Prop) :
  w_clients w !! c = Some cl -> w_channels w !! n = Some ch ->
  let ticket := decode_ticket (ztake sizeof_channel_ticket data) <| tk_ip := sin_addr (cl_addr cl) |> in
  (forall w', w_channels w' = <[n := announce_channel c ticket ch]> (w_channels w) -> Q 0 w') ->
  wlp (_ ← channel_upd n (fun ch => ch <| ch_anons_count ::= incr_u32 |>);
       bytes ← memcpy (zero_bytes sizeof_channel_ticket) 0 data sizeof_channel_ticket;
       _ ← channel_upd n (fun ch => ch <| ch_ticket := decode_ticket bytes |>);
       cl ← client_at c;
       _ ← channel_upd n (fun ch => ch <| ch_ticket ::= fun t => t <| tk_ip := sin_addr (cl_addr cl) |> |>);
       ch ← channel_at n;
       _ ← (if negb (bool_decide (ch_producer ch = Some c)) then
              _ ← channel_upd n (fun ch => ch <| ch_producer := Some c |>);
              channel_upd n (fun ch => ch <| ch_producers_count ::= incr_u32 |>)
            else mret tt);
       mret 0) Q w.
Proof.
  intros Hcl Hch ticket HQ. wlp_step. apply wlp_channel_upd. intros w1 E1 C1. wlp_step.
  apply wlp_memcpy. intros Hn _ _. wlp_step. apply wlp_channel_upd. intros w2 E2 C2. wlp_step.
  unfold client_at. wlp_step. apply wlp_server_get. apply wlp_deref. intros cl' Hcl'.
  change (w_clients w2 !! c = Some cl') in Hcl'. rewrite C2, C1, Hcl in Hcl'. injection Hcl' as <-.
  wlp_step. apply wlp_channel_upd. intros w3 E3 C3. wlp_step. apply wlp_channel_at. intros ch' Hch'.
  rewrite E3, E2, E1, !list_alter_alter_eq in Hch'. pose proof Hch' as Hch2.
  rewrite list_lookup_alter_eq, Hch in Hch2. injection Hch2 as <-. cbn.
  set (bytes := mem_put _ _ _) in *.
  assert (bytes = ztake sizeof_channel_ticket data) as Eb.
  { subst bytes. unfold mem_put. rewrite ztake_0, Z.add_0_l. assert (zlen (ztake sizeof_channel_ticket data) = sizeof_channel_ticket) as Ez by zl.
    rewrite Ez, zdrop_ge by done. by rewrite app_nil_r. }
  assert (forall f w', w_channels w' = alter f n (w_channels w3) ->
    f (ch <| ch_anons_count ::= incr_u32 |> <| ch_ticket := ticket |>) = announce_channel c ticket ch ->
    w_channels w' = <[n := announce_channel c ticket ch]> (w_channels w)) as Hfin.
  { intros f w' E Ef. rewrite E, E3, E2, E1, !list_alter_alter_eq. rewrite (list_alter_insert _ n ch) by done.
    f_equal. rewrite <- Ef. cbn. f_equal. subst ticket. by rewrite Eb. }
  wlp_step. destruct (bool_decide (ch_producer ch = Some c)) eqn:Ep; cbn [negb].
  - wlp_step. wlp_step. apply HQ. apply (Hfin (fun ch => ch)).
    + symmetry. apply list_eq. intros i. destruct (decide (i = n)) as [->|]; [|by rewrite list_lookup_alter_ne].
      rewrite list_lookup_alter_eq. by destruct (w_channels w3 !! n).
    + unfold announce_channel. cbn. by rewrite Ep.
  - wlp_step. apply wlp_channel_upd. intros w4 E4 _. apply wlp_channel_upd. intros w5 E5 _.
    wlp_step. apply HQ. rewrite E4, list_alter_alter_eq in E5. apply (Hfin _ _ E5).
    unfold announce_channel. cbn. by rewrite Ep.
Qed.
End operations.

(** ** Each operation implements its transition *)

Lemma announced_of_announce c ticket ch :
  announced_of (announce_channel c ticket ch) =
    mk_announced ticket (Some c) (incr_u32 (ch_anons_count ch))
      (if bool_decide (ch_producer ch = Some c) then ch_producers_count ch else incr_u32 (ch_producers_count ch)).
Proof.
  unfold announce_channel. cbn. destruct (bool_decide (ch_producer ch = Some c)) eqn:E; [|done].
  apply bool_decide_eq_true in E. unfold announced_of. cbn. by rewrite E.
Qed.

Lemma announce_channel_id c ticket ch : ch_id (announce_channel c ticket ch) = ch_id ch.
Proof. unfold announce_channel. cbn. by destruct (bool_decide _). Qed.

Lemma id_set_free_free a : id_is_free (id_set_free a) = true.
Proof. by destruct a. Qed.

Section refine.
Context `{Env}.

Lemma announce_refines c id flags data w cl :
  winv w -> w_clients w !! c = Some cl -> id_is_free id = false ->
  wlp (syncs_add_channel c id flags data) (fun _ w' =>
    channels_of w' = spec_announce c (sin_addr (cl_addr cl)) id
      (decode_ticket (ztake sizeof_channel_ticket data)) (channels_of w)) w.
Proof.
  intros Hw Hcl Hf. set (ticket := decode_ticket (ztake sizeof_channel_ticket data) <| tk_ip := sin_addr (cl_addr cl) |>).
  pose proof (swf_channel_ids _ Hw) as Hu. change (sv_channels (w_server w)) with (w_channels w) in Hu.
  pose proof (swf_channels _ Hw) as Hl. change (sv_channels (w_server w)) with (w_channels w) in Hl.
  unfold spec_announce, channels_of, announcement_map. fold ticket. rewrite table_find by done.
  unfold syncs_add_channel. wlp_step. apply wlp_server_get. unfold syncs_find_channel.
  change (sv_channels (w_server w)) with (w_channels w).
  destruct (scan (fun x => syncs_idcmp _ _) (w_channels w)) as [n|] eqn:E.
  - destruct (scan_lookup _ _ _ E) as (ch & Hch & Hid%syncs_idcmp_eq). wlp_step. wlp_step.
    apply (run_announce_slot c n data w cl ch); [done..|]. fold ticket. intros w' E'. rewrite E', Hch. cbn [fmap option_fmap option_map].
    rewrite (table_insert ch_id announced_of _ n ch).
    + by rewrite announce_channel_id, Hid, announced_of_announce.
    + done.
    + apply ids_unique_insert; [done|]. intros b Hb. left. simplify_eq. apply announce_channel_id.
    + done.
    + unfold used. by rewrite announce_channel_id, Hid.
    + intros _. by rewrite announce_channel_id.
  - wlp_step. unfold syncs_create_channel. wlp_step. apply wlp_server_get.
    change (sv_channels (w_server w)) with (w_channels w).
    destruct (scan (fun c => id_is_free _) (w_channels w)) as [i|] eqn:Ei.
    + rewrite bool_decide_false; last first.
      { intros Hs. apply (table_full ch_id announced_of) in Hs; [|done..]. congruence. }
      destruct (scan_lookup _ _ _ Ei) as (ch & Hch & Hfree).
      wlp_step. apply wlp_channel_upd. intros w1 E1 C1. wlp_step. apply wlp_server_upd. wlp_step.
      rewrite (list_alter_insert _ i ch) in E1 by done. set (ch1 := syncs_channel_init ch id) in *.
      assert (ch_id ch1 = id) as Hid1 by apply syncs_idcpy_eq.
      set (w2 := mk_world _ (w_log w1)). assert (w_channels w2 = <[i := ch1]> (w_channels w)) as E2 by exact E1.
      assert (w_clients w2 = w_clients w) as C2 by exact C1.
      apply (run_announce_slot c i data w2 cl ch1).
      * by rewrite C2.
      * rewrite E2. apply list_lookup_insert_eq. by eapply lookup_lt_Some.
      * fold ticket. intros w' E'. rewrite E', E2, list_insert_insert_eq.
        rewrite (table_insert ch_id announced_of _ i ch).
        -- rewrite announce_channel_id, Hid1, announced_of_announce. cbn. by rewrite bool_decide_false by done.
        -- done.
        -- apply (ids_unique_create _ _ _ id); [done..|]. by rewrite announce_channel_id.
        -- done.
        -- unfold used. by rewrite announce_channel_id, Hid1.
        -- unfold used. by rewrite Hfree.
    + wlp_step. wlp_step. rewrite bool_decide_true; [done|]. by apply (table_full ch_id announced_of).
Qed.

Lemma leave_refines c w :
  winv w -> wlp (syncs_remove_channels_of_client c) (fun _ w' => channels_of w' = spec_leave c (channels_of w)) w.
Proof.
  intros Hw. apply run_leave; [done|]. intros w' E. unfold channels_of, announcement_map, spec_leave. rewrite E.
  pose proof (table_release ch_id announced_of (w_channels w) (release_channel c) (fun a => an_producer a = Some c)) as Hr.
  apply Hr.
  - exact (swf_channel_ids _ Hw).
  - intros ch _ Hch. unfold release_channel. unfold used in *. rewrite Hch. cbn [negb andb announced_of an_producer].
    destruct (decide _) as [Hp|Hp].
    + rewrite bool_decide_true by done. cbn. by rewrite id_set_free_free.
    + by rewrite bool_decide_false.
  - intros ch Hch. unfold release_channel, used in *. apply not_false_iff_true in Hch. rewrite Hch. cbn [negb andb]. by rewrite Hch.
Qed.

Lemma close_leaves c w :
  winv w -> (c < SYNCS_CLIENT_MAXIMUM)%nat ->
  wlp (syncs_close_client_socket c) (fun _ w' => channels_of w' = spec_leave c (channels_of w)) w.
Proof.
  intros Hw Hc. unfold syncs_close_client_socket. wlp_step. unfold client_at. wlp_step. apply wlp_server_get.
  apply wlp_deref. intros cl _. wlp_step. unfold emit at 1. wlp_step. set (w1 := io_emit _ w). wlp_step.
  eapply wlp_mono; [by apply wp_to_wlp, (wp_keeps w_channels (syncs_remove_client_from_events c) (fun _ => winv)),
    safe_remove_client_from_events|].
  intros u w2 [Hw2 E2].
  wlp_step. eapply wlp_mono; [by apply leave_refines|]. intros u2 w3 E3.
  wlp_step. apply (wlp_keeps w_channels (client_upd c _)). intros u3 w4 E4. unfold emit. wlp_step.
  change (channels_of (io_emit _ w4)) with (channels_of w4). unfold channels_of in *. by rewrite E4, E3, E2.
Qed.

(** What keeps the channels makes no transition. *)
Lemma channels_keep {A} (m : SM A) `{!Keeps w_channels m} w : wlp m (fun _ w' => channels_of w' = channels_of w) w.
Proof. apply (wlp_keeps w_channels m). intros a w' E. unfold channels_of. by rewrite E. Qed.

Lemma channels_after {A B} (m : SM A) (k : A -> SM B) (chs : announcements) w :
  (forall a, Keeps w_channels (k a)) ->
  wlp m (fun _ w' => channels_of w' = chs) w -> wlp (m ≫= k) (fun _ w' => channels_of w' = chs) w.
Proof.
  intros Hk Hm. wlp_step. eapply wlp_mono; [exact Hm|]. intros a w1 <-. cbn beta in *.
  apply (wlp_keeps w_channels (k a)). intros b w2 E. unfold channels_of in *. by rewrite E.
Qed.

(** The packet is no channel packet. *)
Ltac no_channel :=
  lazymatch goal with H : (?m =? _) = true |- _ => apply Z.eqb_eq in H; try rewrite H end;
  try lazymatch goal with |- context [?a =? SYNCS_TYPE_CHANNEL] => change (a =? SYNCS_TYPE_CHANNEL) with false end;
  try lazymatch goal with |- context [?a =? SYNCS_TYPE_CLIENT_ID] => change (a =? SYNCS_TYPE_CLIENT_ID) with false end;
  cbn [andb].

Lemma channel_operation_refines c h data w cl op :
  winv w -> w_clients w !! c = Some cl -> id_is_free (hd_id h) = false ->
  packet_operation c h data = Some op ->
  wlp op (fun _ w' => channels_of w' = spec_channel_packet c (sin_addr (cl_addr cl)) h data (channels_of w)) w.
Proof.
  intros Hw Hcl Hid.
  assert (c < SYNCS_CLIENT_MAXIMUM)%nat as Hc.
  { apply lookup_lt_Some in Hcl. by rewrite <- (swf_clients (w_server w)). }
  unfold packet_operation, spec_channel_packet.
  set (msg := Z.land (hd_type h) SYNCS_TYPE_MSG_MASK).
  repeat (lazymatch goal with |- (if ?b then _ else _) = _ -> _ => destruct b eqn:? end;
    [intros E; apply (inj Some) in E; subst op|]); try done.
  all: try (no_channel; apply channels_keep; apply _).
  - lazymatch goal with H : (msg =? SYNCS_TYPE_CLIENT_ID) = true |- _ => apply Z.eqb_eq in H; rewrite H end.
    change (SYNCS_TYPE_CLIENT_ID =? SYNCS_TYPE_CHANNEL) with false. cbn [andb].
    apply channels_after; [intros ?; apply _|].
    destruct (negb _); [|by apply channels_keep, _].
    wlp_step. eapply wlp_mono; [by apply wp_to_wlp, (wp_keeps w_channels _ (fun _ => winv)), safe_send_server_status|].
    intros r w1 [Hw1 E1]. unfold channels_of at 2. rewrite <- E1. by apply close_leaves.
  - apply channels_after; [intros ?; apply _|]. unfold syncs_client_channel. cbn zeta.
    destruct (_ =? SYNCS_CHANNEL_ANONS).
    + apply channels_after; [intros ?; apply _|]. by apply announce_refines.
    + apply channels_keep. apply _.
Qed.

Lemma channel_process_refines c h data w cl :
  winv w -> w_clients w !! c = Some cl -> id_is_free (hd_id h) = false ->
  wlp (syncs_client_process_packet c h data) (fun _ w' =>
    channels_of w' = spec_channel_packet c (sin_addr (cl_addr cl)) h data (channels_of w)) w.
Proof.
  intros Hw Hcl Hid. unfold syncs_client_process_packet.
  destruct (packet_operation c h data) as [op|] eqn:E.
  - apply channels_after; [intros ?; apply _|]. by apply channel_operation_refines.
  - wlp_step. revert E. unfold packet_operation, spec_channel_packet.
    set (msg := Z.land (hd_type h) SYNCS_TYPE_MSG_MASK).
    repeat (lazymatch goal with |- (if ?b then _ else _) = _ -> _ => destruct b eqn:? end; [done|]). done.
Qed.
End refine.
