(* ===== verification/ServerProps.v ===== *)
(** * Properties of the server

    Each theorem is followed by an instance at a concrete input. *)

From stdpp Require Import gmap.
From S2P Require Import Prelude.
From S2P Require Import Monad.
From S2P Require Import Types.
From S2P Require Import Net.
From S2P Require Import ServerState.
From S2P Require Import ServerEvents.
From S2P Require Import ServerPackets.
From S2P Require Import Framing.
From S2P Require Import Wire.
From S2P Require Import Handler.
From S2P Require Import ServerInv.
From S2P Require Import ServerSafe.
From S2P Require Import ServerLoop.
From S2P Require Import EventSpec.
From S2P Require Import Directory.
From S2P Require Import Refinement.
From S2P Require Import Publish.

(** The state of a server that just started. *)
Definition server_start : world := mk_world (syncs_server_create None 7500 None) [].

(** Packets the instances use. *)
Definition sample_header (type : Z) (id : syncsid_t) (size : Z) : syncs_header :=
  mk_header SYNCS_PACKET_MAGIC 0 type id (mk_sync 0 0) 0 size SYNCS_PACKET_MAGIC_DATA.
Definition subscribe_a : frame :=
  (sample_header (Z.lor (Z.lor SYNCS_TYPE_SUBSCRIBE SYNCS_TYPE_FORCE) SYNCS_TYPE_VAR_INT32)
     (syncs_idstr name_a) 0, []).
Definition write_a : frame :=
  (sample_header (Z.lor (Z.lor SYNCS_TYPE_WRITE SYNCS_TYPE_FORCE) SYNCS_TYPE_VAR_INT32)
     (syncs_idstr name_a) 4, [Byte.x2a; Byte.x00; Byte.x00; Byte.x00]).

Lemma server_start_winv : winv server_start.
Proof. apply server_create_wf. Qed.

Lemma server_start_client c : (c < SYNCS_CLIENT_MAXIMUM)%nat -> w_clients server_start !! c = Some free_client.
Proof.
  intros Hc. unfold w_clients, on_server, server_start. cbn [w_server].
  destruct (server_create_tables None 7500 None) as (_ & -> & _). by apply lookup_replicate_2.
Qed.

Lemma server_start_event e : (e < SYNCS_EVENT_MAXIMUM)%nat -> w_events server_start !! e = Some free_event.
Proof.
  intros Hc. unfold w_events, on_server, server_start. cbn [w_server].
  destruct (server_create_tables None 7500 None) as (-> & _ & _). by apply lookup_replicate_2.
Qed.

Lemma free_client_pending : pending free_client = [].
Proof. reflexivity. Qed.

Section props.
Context `{Env}.

(** ** The event loop *)

(** C2: from every reachable state, every callback the event loop can run
    (connections, data, errors, datagrams) returns without an out-of-bounds
    access or an endless loop, in a state that is again reachable.  The input
    is whatever the kernel can deliver into the free part of the receive
    buffer, with one exception ([recv_tickets]): no announcement without its
    ticket in the last ten bytes of a filled buffer, for the code reads the
    ten bytes of the ticket without a check. *)
Theorem epoll_callback_total w e :
  reachable w -> epoll_event_ok w e ->
  exists w', epoll_callback e w = Ok (tt, w') /\ reachable w'.
Proof.
  intros Hr He. pose proof (safe_epoll_callback e w (reachable_winv w Hr) He) as Hs.
  apply wp_run in Hs as ([] & w' & E & _). exists w'. split; [done|].
  eapply reach_step; [done|]. by eapply step_epoll.
Qed.

(** C3: in every reachable state the tables have their declared sizes, every
    stored length and client index is in range, the subscriber list of an
    event has no duplicates and as many members as its counter says, and no
    two used slots of a table share an identifier. *)
Theorem reachable_well_formed w : reachable w -> server_wf (w_server w).
Proof. apply reachable_winv. Qed.

(** C19: the calls of the embedding application (define, undefine, subscribe,
    unsubscribe, write, the offset of synchronised events) return and keep the
    server reachable, provided the objects they pass hold the bytes that are
    copied from them (for a definition of size 0, 1 or 511 these are the bytes
    of its type, else its size; a larger size is refused) and a write is at
    most 511 bytes, for [syncs_server_write] copies larger ones past the
    variable. *)
Theorem api_call_total w a :
  reachable w -> api_ok a -> exists w', api_run a w = Ok (tt, w') /\ reachable w'.
Proof.
  intros Hr Ha. pose proof (safe_api_run a w (reachable_winv w Hr) Ha) as Hs.
  apply wp_run in Hs as ([] & w' & E & _). exists w'. split; [done|].
  eapply reach_step; [done|]. by eapply step_api.
Qed.

(** ** The variable directory *)

(** Receiving a chunk of at least one header runs the abstract directory
    over exactly the packets of the byte stream (bytes kept from earlier
    chunks, then this one), in order, and keeps the unfinished packet for
    the next chunk. *)
Theorem handler_refines_directory w c cl bs :
  winv w -> w_clients w !! c = Some cl -> sizeof_header <= zlen bs ->
  cl_buffer_recv cl + zlen bs <= SYNCS_CLIENT_BUFFER_SIZE -> tickets_fit (pending cl) bs ->
  Forall frame_ok (parse (pending cl ++ bs)).1 ->
  exists w', syncs_client_handler c (RecvData bs) w = Ok (0, w') /\
    spec_packets c (parse (pending cl ++ bs)).1 (abs w) (abs w') /\
    exists cl', w_clients w' !! c = Some cl' /\ pending cl' = (parse (pending cl ++ bs)).2.
Proof.
  intros Hw Hcl Hbs Hfit Ht Hok.
  pose proof (handler_refines c bs cl w Hw Hcl Hbs Hfit Ht Hok) as Hs.
  apply wp_run in Hs as (r & w' & E & -> & Hrest). eauto.
Qed.

(** The dispatcher on one packet of client [c] makes the transition of the
    abstract directory its type names, whatever the packet is, and returns. *)
Theorem packet_refines_directory w c h data :
  winv w -> (c < SYNCS_CLIENT_MAXIMUM)%nat -> id_is_free (hd_id h) = false ->
  0 <= hd_data_size h <= SYNCS_VARIABLE_SIZE_MAXIMUM -> hd_data_size h <= zlen data ->
  sizeof_channel_ticket <= zlen data ->
  exists r w' stale, syncs_client_process_packet c h data w = Ok (r, w') /\ winv w' /\
    abs w' = spec_packet stale c (h, ztake (hd_data_size h) data) (abs w).
Proof.
  intros Hw Hc Hid Hn Hd Ht.
  pose proof (wp_wlp _ _ _ _ (safe_client_process_packet c h data w Hw Hc Hn Hd Ht)
    (process_refines c h data w Hw Hc Hid Hn Hd)) as Hs.
  apply wp_run in Hs as (r & w' & E & Hw' & stale & Ha). eauto 10.
Qed.
End props.

Section instances.
#[local] Existing Instance perfect_env.

Lemma epoll_callback_total_witness :
  exists w', epoll_callback (EpAccept (AcceptFd 7 (mk_addr 1 2))) server_start = Ok (tt, w') /\
    reachable w'.
Proof. apply epoll_callback_total; [apply reach_init|exact I]. Defined.

Lemma reachable_well_formed_witness : server_wf (w_server server_start).
Proof. apply reachable_well_formed. apply reach_init. Defined.

Lemma api_call_total_witness :
  exists w', api_run (ApiWrite SYNCS_TYPE_VAR_INT32 name_a (le_split 4 42) 0) server_start = Ok (tt, w') /\
    reachable w'.
Proof. apply api_call_total; [apply reach_init|]. simpl. split; [by vm_compute|by vm_compute]. Defined.

Lemma handler_refines_directory_witness :
  exists w', syncs_client_handler 3 (RecvData (encode_frames [subscribe_a; write_a])) server_start = Ok (0, w') /\
    spec_packets 3 (parse (encode_frames [subscribe_a; write_a])).1 (abs server_start) (abs w') /\
    exists cl', w_clients w' !! 3%nat = Some cl' /\
      pending cl' = (parse (encode_frames [subscribe_a; write_a])).2.
Proof.
  apply (handler_refines_directory server_start 3 free_client).
  - apply server_start_winv.
  - apply server_start_client. unfold SYNCS_CLIENT_MAXIMUM. lia.
  - by vm_compute.
  - by vm_compute.
  - left. by vm_compute.
  - rewrite free_client_pending. vm_compute. repeat constructor.
Defined.

Lemma packet_refines_directory_witness :
  exists r w' stale,
    syncs_client_process_packet 3 subscribe_a.1 (zero_bytes 10) server_start = Ok (r, w') /\ winv w' /\
    abs w' = spec_packet stale 3 (subscribe_a.1, ztake 0 (zero_bytes 10)) (abs server_start).
Proof.
  apply (packet_refines_directory server_start 3 subscribe_a.1 (zero_bytes 10));
    [apply server_start_winv|unfold SYNCS_CLIENT_MAXIMUM; lia|by vm_compute..].
Defined.
End instances.

(** ** A server at work *)

(** The state after an operation; the operations used below return. *)
Definition after {A} (m : SM A) (w : world) : world :=
  match m w with Ok (_, w') => w' | Fault _ => w end.
Definition result {A} (m : SM A) (w : world) : option A :=
  match m w with Ok (a, _) => Some a | Fault _ => None end.

Lemma result_run {A} (m : SM A) w a : result m w = Some a -> m w = Ok (a, after m w).
Proof. unfold result, after. destruct (m w) as [[x w']|f]; by intros [= ->]. Qed.

Lemma winv_after {A} (m : SM A) w : wp m (fun _ w' => winv w') w -> winv (after m w).
Proof. intros (x & w' & E & Hw)%wp_run. unfold after. by rewrite E. Qed.

(** Facts of a concrete state as facts of its records. *)
Lemma client_view (l : list syncs_client) c fd :
  (fun cl => (pending cl, cl_socketfd cl)) <$> l !! c = Some ([], fd) ->
  exists cl, l !! c = Some cl /\ pending cl = [] /\ cl_socketfd cl = fd.
Proof. destruct (l !! c) as [cl|]; [|done]. intros [= E1 E2]. by exists cl. Qed.

Lemma subscriber_view (m : variables) id c :
  (fun v => bool_decide (c ∈ var_subs v)) <$> m !! id = Some true ->
  exists v, m !! id = Some v /\ c ∈ var_subs v.
Proof.
  destruct (m !! id) as [v|]; [|done]. intros [= Hv]. exists v. split; [done|].
  by apply bool_decide_eq_true in Hv.
Qed.

Lemma variable_view (m : variables) id ty ver :
  (fun v => (var_type v, var_version v)) <$> m !! id = Some (ty, ver) ->
  exists v, m !! id = Some v /\ var_type v = ty /\ var_version v = ver.
Proof. destruct (m !! id) as [v|]; [|done]. intros [= E1 E2]. by exists v. Qed.

Section demo.
#[local] Existing Instance perfect_env.

(** Clients 0 and 1 connect on descriptors 7 and 8, client 1 subscribes to
    the variable [a] and client 0 writes it. *)
Definition demo_connect : SM unit :=
  _ ← epoll_callback (EpAccept (AcceptFd 7 (mk_addr 1 2)));
  epoll_callback (EpAccept (AcceptFd 8 (mk_addr 3 4))).
Definition demo_connected : world := after demo_connect server_start.
Definition demo_subscribe : SM unit := epoll_callback (EpClient 1 (RecvData (encode_frame subscribe_a))).
Definition demo_subscribed : world := after demo_subscribe demo_connected.
Definition demo_write : SM unit := epoll_callback (EpClient 0 (RecvData (encode_frame write_a))).
Definition demo : world := after demo_write demo_subscribed.

Lemma demo_connected_winv : winv demo_connected.
Proof.
  apply winv_after. unfold demo_connect. wp_step.
  eapply wp_mono; [apply safe_epoll_callback; [apply server_start_winv|exact I]|].
  intros u w Hw. by apply safe_epoll_callback.
Qed.

Lemma chunk_ok w c bs k :
  winv w -> (c <? SYNCS_CLIENT_MAXIMUM)%nat = true -> cl_buffer_recv <$> (w_clients w !! c) = Some k ->
  k + zlen bs + sizeof_channel_ticket <=? SYNCS_CLIENT_BUFFER_SIZE = true ->
  epoll_event_ok w (EpClient c (RecvData bs)).
Proof.
  intros Hw Hc%Nat.ltb_lt Hk Hfit%Z.leb_le. split; [done|]. split; intros cl Hcl;
    pose proof (swf_client _ Hw c cl Hcl) as Hwf; change (w_clients w !! c = Some cl) in Hcl;
    rewrite Hcl in Hk; injection Hk as <-; [clia|].
  right. left. by rewrite zlen_pending.
Qed.

Lemma demo_subscribed_winv : winv demo_subscribed.
Proof.
  apply winv_after, safe_epoll_callback; [apply demo_connected_winv|].
  apply (chunk_ok _ _ _ 0); [apply demo_connected_winv|by vm_compute..].
Qed.

Lemma demo_winv : winv demo.
Proof.
  apply winv_after, safe_epoll_callback; [apply demo_subscribed_winv|].
  apply (chunk_ok _ _ _ 0); [apply demo_subscribed_winv|by vm_compute..].
Qed.

Example demo_value :
  var_value <$> ((abs demo).1 !! syncs_idstr name_a) = Some [Byte.x2a; Byte.x00; Byte.x00; Byte.x00].
Proof. by vm_compute. Qed.
End demo.
