(* ===== verification/ServerWire.v ===== *)
(** * Server: the types of what it sends

    Every packet the server ever sends is well-formed.  The proof is a type
    system for the operations: [Typed m] says that [m] keeps the sizes of the
    stored values in range and adds only transmissions of packets to the log,
    whole ones and ones a failing [send] cut short; instance search composes
    it over the code, and each function that fills a packet is proved to type
    it. *)

From S2P Require Import Prelude.
From S2P Require Import Monad.
From S2P Require Import Types.
From S2P Require Import Net.
From S2P Require Import Framing.
From S2P Require Import Wire.
From S2P Require Import ServerState.
From S2P Require Import ServerEvents.
From S2P Require Import ServerPackets.
From S2P Require Import ServerInv.
From S2P Require Import ServerSafe.
From S2P Require Import ServerLoop.
From S2P Require Import EventSpec.
From S2P Require Import Publish.
From S2P Require Import ServerProps.

(** ** Packets as bytes *)

(** The bytes of a packet whose fields are in range. *)
Definition on_wire (bs : list byte) : Prop := exists f, frame_wf f /\ bs = encode_frame f.

Definition header_typed (h : syncs_header) : Prop :=
  hd_magic h = SYNCS_PACKET_MAGIC /\ hd_magic_data h = SYNCS_PACKET_MAGIC_DATA /\
  0 <= hd_data_size h <= SYNCS_VARIABLE_SIZE_MAXIMUM.

Definition packet_typed (p : syncs_packet) : Prop := packet_full p /\ header_typed (pk_header p).

(** The other fields are cut to the width of their type when they are stored. *)
Lemma header_stored h : header_typed h ->
  exists h', header_wf h' /\ header_typed h' /\ hd_data_size h' = hd_data_size h /\ encode_header h' = encode_header h.
Proof.
  intros (Hm & Hmd & Hs). unfold SYNCS_VARIABLE_SIZE_MAXIMUM in *.
  exists (mk_header (hd_magic h) (hd_crc h mod 2 ^ 32) (hd_type h mod 2 ^ 32) (id_of_chars (id_chars (hd_id h)))
    (mk_sync (data0 (hd_sync h) mod 2 ^ 32) (data1 (hd_sync h) mod 2 ^ 32)) (hd_update_counter h mod 2 ^ 64)
    (hd_data_size h) (hd_magic_data h)).
  split; [|split; [done|split; [done|]]].
  - unfold header_wf. cbn [hd_magic hd_crc hd_type hd_id hd_sync hd_update_counter hd_data_size hd_magic_data data0 data1].
    rewrite Hm, Hmd. split_and!; first [by apply id_of_chars_wf, zlen_id_chars|by apply Z.mod_pos_bound|done|lia].
  - unfold encode_header. cbn [hd_magic hd_crc hd_type hd_id hd_sync hd_update_counter hd_data_size hd_magic_data data0 data1].
    rewrite id_chars_of_chars by apply zlen_id_chars.
    change (2 ^ 32) with (2 ^ (Z.of_nat 4 * 8)). change (2 ^ 64) with (2 ^ (Z.of_nat 8 * 8)). by rewrite <- !le_split_mod.
Qed.

Lemma packet_on_wire p : packet_typed p -> on_wire (packet_wire p).
Proof.
  intros [Hp Hh]. destruct (header_stored _ Hh) as (h & Hwf & (Hm & Hmd & Hs) & Hsz & He).
  destruct p as [h0 b]. cbn [pk_header] in *. unfold packet_full in Hp. cbn [pk_buffer] in Hp.
  exists (h, ztake (hd_data_size h) b). split.
  - split_and!; [done| |cbn [fst snd]; rewrite zlen_ztake; clia|cbn [snd]; rewrite zlen_ztake; clia].
    unfold header_good. cbn [fst]. by rewrite Hm, Hmd.
  - rewrite (packet_wire_frame h0 b (hd_data_size h0) (ztake (hd_data_size h) b)); [|done|clia|by rewrite Hsz].
    unfold encode_frame. cbn [fst snd]. by rewrite He.
Qed.

(** A header alone. *)
Lemma header_on_wire h : header_typed h -> hd_data_size h = 0 -> on_wire (encode_header h).
Proof.
  intros Hh H0. destruct (header_stored _ Hh) as (h' & Hwf & (Hm & Hmd & Hs) & Hsz & He). exists (h', []). split.
  - split_and!; [done| |cbn [fst snd]; by rewrite Hsz, H0|done]. unfold header_good. cbn [fst]. by rewrite Hm, Hmd.
  - unfold encode_frame. cbn [fst snd]. by rewrite He, app_nil_r.
Qed.

(** ** Typed states *)

(** I/O other than on a stream: a datagram is one packet. *)
Definition io_typed (e : io) : Prop :=
  match e with IoSend _ _ | IoSendError _ => False | IoSendto _ _ bs => on_wire bs | _ => True end.

(** What the server may have done: on a stream it only transmits packets,
    each whole or, when a [send] failed, up to the failure. *)
Inductive log_typed : list io -> Prop :=
  | log_empty : log_typed []
  | log_other log e : log_typed log -> io_typed e -> log_typed (log ++ [e])
  | log_transmit log sock f pieces rest : log_typed log -> frame_wf f -> encode_frame f = concat pieces ++ rest ->
      log_typed (log ++ transmission sock pieces rest).

Definition event_typed (ev : syncs_event) : Prop :=
  zlen (ev_data ev) = SYNCS_VARIABLE_SIZE_MAXIMUM /\ 0 <= ev_data_size ev <= SYNCS_VARIABLE_SIZE_MAXIMUM.

Record world_typed (w : world) : Prop := {
  wt_events : Forall event_typed (sv_events (w_server w));
  wt_log : log_typed (w_log w) }.

Class Typed {A} (m : SM A) : Prop := typed w : world_typed w -> wlp m (fun _ w' => world_typed w') w.

#[export] Hint Extern 2 (Typed (if ?b then _ else _)) => destruct b : typeclass_instances.
#[export] Hint Extern 2 (Typed (match ?x with _ => _ end)) => destruct x : typeclass_instances.

Lemma typed_view (w w' : world) :
  sv_events (w_server w') = sv_events (w_server w) -> w_log w' = w_log w -> world_typed w -> world_typed w'.
Proof. intros E1 E2 [H1 H2]. split; congruence. Qed.

Lemma typed_quiet {A} (m : SM A) : Keeps w_vars m -> Keeps w_log m -> Typed m.
Proof.
  intros He Hl w Hw. unfold wlp. destruct (m w) as [[a w']|] eqn:E; [|done].
  apply (typed_view w); [exact (f_equal fst (He _ _ _ E))|exact (Hl _ _ _ E)|done].
Qed.

#[export] Instance typed_bind {A B} (m : SM A) (f : A -> SM B) : Typed m -> (forall a, Typed (f a)) -> Typed (m ≫= f).
Proof. intros Hm Hf w Hw. wlp_step. eapply wlp_mono; [by apply Hm|]. intros a w'. apply Hf. Qed.

#[export] Instance typed_ret {A} (a : A) : Typed (mret a).
Proof. by intros w Hw. Qed.

#[export] Instance typed_for_each {A} (l : list A) (body : A -> SM unit) :
  (forall x, Typed (body x)) -> Typed (for_each l body).
Proof. intros Hb. induction l as [|x l IH]; [by intros w Hw|]. simpl. apply _. Qed.

Lemma typed_sequence {A} (m : SM A) : Typed m -> forall w, world_typed w -> wlp m (fun _ w' => world_typed w') w.
Proof. done. Qed.

Lemma typed_call {A} (m : SM A) `{!Typed m} (Q : A -> world -> Prop) w :
  world_typed w -> (forall a w', world_typed w' -> Q a w') -> wlp m Q w.
Proof. intros Hw HQ. eapply wlp_mono; [by apply typed|]. apply HQ. Qed.

#[export] Hint Extern 9 (Typed _) => apply typed_quiet; apply _ : typeclass_instances.

(** ** Updates *)

Section operations.
Context `{Env}.

Lemma typed_event_upd e f :
  (forall ev, event_typed ev -> event_typed (f ev)) -> Typed (event_upd e f).
Proof.
  intros Hf w [Hev Hl]. unfold event_upd, event_at, server_get, server_upd. repeat wlp_step. apply wlp_deref.
  intros ev Hlk. wlp_step. split; [|done]. simpl. apply Forall_insert; [done|]. apply Hf.
  by eapply (proj1 (Forall_lookup _ _) Hev).
Qed.

Lemma typed_server_upd f : (forall s, sv_events (f s) = sv_events s) -> Typed (server_upd f).
Proof. intros Hf w Hw. unfold server_upd. wlp_step. by apply (typed_view w); [apply Hf|..]. Qed.

Lemma typed_emit e : io_typed e -> Typed (emit e).
Proof.
  intros He w [Hev Hl]. unfold emit. wlp_step. split; [exact Hev|]. by apply log_other.
Qed.

(** A packet of the right type may be sent, whatever the kernel takes. *)
Lemma typed_client_send c p : packet_typed p -> Typed (syncs_client_send c p).
Proof.
  intros Hp w [Hev Hl]. pose proof (packet_on_wire p Hp) as (f & Hf & Hwire). destruct Hp as [Hfull _].
  pose proof (packet_size_bounds p Hfull) as Hs. unfold packet_wire in Hwire.
  unfold syncs_client_send, client_at. wlp_step. wlp_step. apply wlp_server_get. apply wlp_deref. intros cl _.
  destruct (_ >? _).
  - apply wp_to_wlp. unfold syncs_blocking_send. eapply wp_mono; [apply blocking_send_loop_pieces; [lia|lia|]|].
    { unfold packet_bytes, packet_full in *. clia. }
    intros ret w' (pieces & rest & -> & Hsplit & _). assert (w_log (io_emits (transmission (cl_socketfd cl) pieces rest) w) =
      w_log w ++ transmission (cl_socketfd cl) pieces rest) as Hlog by exact (io_log_emits _ w).
    split; [by rewrite io_emits_server|]. rewrite Hlog. eapply log_transmit; [done|exact Hf|]. congruence.
  - destruct (_ =? _); [|by wlp_step]. wlp_step. apply wlp_server_get. unfold syncs_udp_send, emit. repeat wlp_step.
    split; [done|]. apply log_other; [done|]. by exists f.
Qed.

Lemma wlp_stack_packet (Q : syncs_packet -> world -> Prop) w :
  (forall p, packet_full p -> Q p w) -> wlp stack_packet Q w.
Proof. intros HQ. apply wp_to_wlp, run_stack_packet. intros p Hp _. by apply HQ. Qed.

Lemma wlp_event_typed e (Q : syncs_event -> world -> Prop) w :
  world_typed w -> (forall ev, event_typed ev -> Q ev w) -> wlp (event_at e) Q w.
Proof.
  intros [Hev _] HQ. unfold event_at, server_get. wlp_step. wlp_step. apply wlp_deref. intros ev Hlk. apply HQ.
  by eapply (proj1 (Forall_lookup _ _) Hev).
Qed.
End operations.

#[export] Hint Extern 0 (Typed (event_upd _ _)) =>
  (apply typed_event_upd; exact (fun _ Hev => Hev)) : typeclass_instances.
#[export] Hint Extern 0 (Typed (server_upd _)) => (apply typed_server_upd; intros ?; reflexivity) : typeclass_instances.
#[export] Hint Extern 0 (Typed (emit _)) => (apply typed_emit; exact I) : typeclass_instances.

Section sending.
Context `{Env}.

(** The packet of a stored value. *)
Lemma payload_typed p ev h :
  packet_full p -> event_typed ev -> hd_magic h = SYNCS_PACKET_MAGIC -> hd_magic_data h = SYNCS_PACKET_MAGIC_DATA ->
  hd_data_size h = u16 (ev_data_size ev) ->
  packet_typed (mk_packet h (mem_put 0 (ztake (ev_data_size ev) (ev_data ev)) (pk_buffer p))).
Proof.
  intros Hp [Hd Hs] Hm Hmd Hsz. pose proof Hp as Hp'. unfold packet_full in Hp'. split.
  - apply packet_full_copy; [done|lia|]. autorewrite with zlen. clia.
  - split; [done|]. split; [done|]. cbn [pk_header]. rewrite Hsz, u16_small by clia. lia.
Qed.

#[export] Instance typed_send_event e flags : Typed (syncs_send_event e flags).
Proof.
  intros w Hw. unfold syncs_send_event. wlp_step. apply wlp_stack_packet. intros p Hp.
  wlp_step. apply wlp_event_typed; [done|]. intros ev Hev. wlp_step. apply wlp_memcpy. intros _ _ _.
  rewrite syncs_fill_header_eq. wlp_step.
  apply (wlp_mono _ (fun h w1 => w1 = w /\ hd_magic h = SYNCS_PACKET_MAGIC /\ hd_magic_data h = SYNCS_PACKET_MAGIC_DATA /\
    hd_data_size h = u16 (ev_data_size ev))).
  { destruct (flag flags SYNCS_TYPE_SYNC); [|by wlp_step].
    wlp_step. apply wlp_server_get. wlp_step. unfold syncs_sync_calculate. wlp_step. wlp_step.
    destruct (env_realtime _). destruct (_ >? _); wlp_step; by wlp_step. }
  intros h ? (-> & Hm & Hmd & Hsz). cbn beta zeta. set (q := mk_packet h _).
  assert (forall c, Typed (syncs_client_send c q)) by (intros c; by apply typed_client_send, payload_typed).
  clearbody q. apply typed_sequence; [apply _|exact Hw].
Qed.

#[export] Instance typed_resend_event c e : Typed (syncs_resend_event c e).
Proof.
  intros w Hw. unfold syncs_resend_event. wlp_step. apply wlp_stack_packet. intros p Hp.
  wlp_step. apply wlp_event_typed; [done|]. intros ev Hev. wlp_step. apply wlp_memcpy. intros _ _ _.
  rewrite syncs_fill_header_eq. set (q := mk_packet _ _).
  assert (Typed (syncs_client_send c q)) by (by apply typed_client_send, payload_typed).
  clearbody q. apply typed_sequence; [apply _|exact Hw].
Qed.

(** A status is a header. *)
Lemma status_typed p cid code :
  packet_full p -> let h := syncs_fill_header_request_str (pk_header p) cid SYNCS_TYPE_SERVER_STATUS in
  packet_typed (p <| pk_header := h <| hd_update_counter := code |> |>).
Proof.
  intros Hp h. subst h. rewrite syncs_fill_header_request_str_eq. split; [exact Hp|].
  split; [done|]. split; [done|]. done.
Qed.

#[export] Instance typed_send_server_status c code : Typed (syncs_send_server_status c code).
Proof.
  intros w Hw. unfold syncs_send_server_status. wlp_step. apply wlp_stack_packet. intros p Hp.
  wlp_step. apply wlp_server_get. cbn zeta. set (q := p <| pk_header := _ |>).
  assert (Typed (syncs_client_send c q)) by (by apply typed_client_send, status_typed).
  clearbody q. apply typed_sequence; [apply _|exact Hw].
Qed.

#[export] Instance typed_send_udp_status addr code : Typed (syncs_send_udp_server_status addr code).
Proof.
  intros w Hw. unfold syncs_send_udp_server_status. wlp_step. apply wlp_stack_packet. intros p Hp.
  wlp_step. apply wlp_server_get. cbn zeta.
  pose proof (status_typed p (id_chars (sv_id (w_server w))) (u64 code) Hp) as Hq. cbn zeta in Hq.
  set (q := p <| pk_header := _ |>) in *.
  assert (hd_data_size (pk_header q) = 0) as H0'.
  { subst q. by rewrite syncs_fill_header_request_str_eq. }
  assert (ztake sizeof_header (packet_bytes q) = encode_header (pk_header q)) as ->.
  { unfold packet_bytes. by rewrite ztake_app_le, ztake_ge by (rewrite zlen_encode_header; clia). }
  assert (Typed (emit (IoSendto (sv_usocketfd (w_server w)) addr (encode_header (pk_header q))))).
  { apply typed_emit. apply header_on_wire; [apply Hq|done]. }
  apply typed_sequence; [apply _|exact Hw].
Qed.

#[export] Instance typed_client_read c id : Typed (syncs_client_read c id).
Proof.
  intros w Hw. unfold syncs_client_read. wlp_step. apply wlp_stack_packet. intros p Hp. cbn zeta.
  rewrite syncs_fill_header_eq. wlp_step. apply wlp_server_get. wlp_step.
  apply (wlp_mono _ (fun q w1 => w1 = w /\ packet_typed q)).
  { destruct (syncs_find_event _ _) as [e|].
    - wlp_step. apply wlp_event_typed; [done|]. intros ev Hev. wlp_step. apply wlp_memcpy. intros _ _ _. wlp_step.
      split; [done|]. by apply payload_typed.
    - wlp_step. split; [done|]. by split. }
  intros q ? (-> & Hq). assert (Typed (syncs_client_send c q)) by (by apply typed_client_send).
  clear Hq. apply typed_sequence; [apply _|exact Hw].
Qed.

#[export] Instance typed_channel_request c id flags : Typed (syncs_client_channel_request c id flags).
Proof.
  intros w Hw. unfold syncs_client_channel_request. wlp_step. apply wlp_stack_packet. intros p Hp.
  wlp_step. apply wlp_server_get. destruct (syncs_find_channel _ _) as [n|]; [|by wlp_step]. cbn zeta.
  rewrite syncs_fill_header_eq. wlp_step. unfold channel_at at 1. wlp_step. apply wlp_server_get.
  apply wlp_deref. intros ch _. wlp_step. apply wlp_memcpy. intros _ _ _. set (q := mk_packet _ _).
  assert (Typed (syncs_client_send c q)).
  { apply typed_client_send. split; [|split; [done|split; [done|]]]; [|by vm_compute].
    apply packet_full_copy; [done|lia|]. unfold encode_ticket. autorewrite with zlen. clia. }
  clearbody q. apply typed_sequence; [apply _|exact Hw].
Qed.
End sending.

(** ** Lists *)

Section lists.
Context `{Env}.

(** Filling an entry writes inside the buffer of the packet and nowhere else. *)
Class FillTyped (ls : list_source) : Prop := {
  ft_size : 0 < ls_size ls;
  ft_max : 1 <= ls_max ls <= 11;
  ft_fill i n b w : wlp (ls_fill ls i n b) (fun b' w' => w' = w /\ zlen b' = zlen b) w }.

Lemma wlp_put_field off bs b w (Q : list byte -> world -> Prop) :
  (forall b', zlen b' = zlen b -> Q b' w) -> wlp (put_field off bs b) Q w.
Proof.
  intros HQ. unfold put_field. apply wlp_memcpy. intros Hn Ho Hl. apply HQ. rewrite ztake_ge by lia.
  by apply zlen_mem_put.
Qed.

Ltac fill_typed := repeat (wlp_step; apply wlp_put_field; intros ? ?);
  first [apply wlp_put_field; intros ? ?|apply wlp_memcpy; intros ? ? ?; rewrite zlen_mem_put by (rewrite ?zlen_ztake; lia)];
  split; [done|congruence].

#[export] Instance client_list_typed : FillTyped client_list.
Proof.
  split; [done|by vm_compute|]. intros i n b w. simpl. unfold client_info_fill, client_at. wlp_step. wlp_step.
  apply wlp_server_get. apply wlp_deref. intros cl _. cbn zeta. fill_typed.
Qed.

#[export] Instance channel_list_typed : FillTyped channel_list.
Proof.
  split; [done|by vm_compute|]. intros i n b w. simpl. unfold channel_info_fill, channel_at. wlp_step. wlp_step.
  apply wlp_server_get. apply wlp_deref. intros ch _. cbn zeta. fill_typed.
Qed.

#[export] Instance event_list_typed : FillTyped event_list.
Proof.
  split; [done|by vm_compute|]. intros i n b w. simpl. unfold event_info_fill, event_at. wlp_step. wlp_step.
  apply wlp_server_get. apply wlp_deref. intros ev _. cbn zeta. fill_typed.
Qed.

Context (ls : list_source) `{!FillTyped ls}.

(** The packet between two sends: its size is set when it is sent. *)
Definition list_packet (p : syncs_packet) : Prop :=
  packet_full p /\ hd_magic (pk_header p) = SYNCS_PACKET_MAGIC /\ hd_magic_data (pk_header p) = SYNCS_PACKET_MAGIC_DATA.

Lemma list_size n : 0 <= n <= ls_max ls -> 0 <= n * ls_size ls <= SYNCS_VARIABLE_SIZE_MAXIMUM.
Proof.
  intros Hn. pose proof ft_size as Hs. split; [nia|]. transitivity (ls_max ls * ls_size ls); [nia|].
  unfold ls_max. rewrite Z.mul_comm. apply Z.mul_div_le. lia.
Qed.

Lemma typed_list_flush c n p w :
  world_typed w -> list_packet p -> 0 <= n <= ls_max ls ->
  wlp (list_flush ls c n p) (fun q w' => world_typed w' /\ list_packet q) w.
Proof.
  intros Hw (Hp & Hm & Hmd) Hn. pose proof (list_size n Hn) as Hsz. unfold list_flush. set (q := _ <| pk_header ::= _ |>).
  assert (list_packet q) as Hq by by destruct p as [[] b].
  assert (Typed (syncs_client_send c q)) as Hsend.
  { apply typed_client_send. split; [apply Hq|]. split; [apply Hq|]. split; [apply Hq|].
    assert (hd_data_size (pk_header q) = u16 (n * ls_size ls)) as -> by by destruct p as [[] b].
    rewrite u16_small by clia. lia. }
  clearbody q. wlp_step. apply typed_call; [exact Hsend|done|]. intros r w1 Hw1.
  wlp_step. apply typed_call; [apply _|done|]. intros u w2 Hw2. by wlp_step.
Qed.

#[export] Instance typed_send_list c seqn : Typed (syncs_client_send_list ls c seqn).
Proof.
  intros w Hw. pose proof ft_max as Hmax. unfold syncs_client_send_list. wlp_step. apply wlp_stack_packet. intros p Hp.
  wlp_step. apply wlp_server_get. cbn zeta. wlp_step. set (q := set_id_char 4 0 _).
  assert (list_packet q) as Hq by by destruct p as [[] b]. clearbody q.
  eapply wlp_mono; [apply (wlp_fold_m (fun acc w => world_typed w /\ list_packet acc.1 /\ 0 <= acc.2 < ls_max ls))|].
  - split; [done|]. split; [done|]. simpl. lia.
  - intros [q1 n] i w1 (Hw1 & Hq1 & Hn). cbn [fst snd] in *. unfold list_step.
    wlp_step. apply wlp_server_get. wlp_step. apply wlp_deref. intros [] _; [|by wlp_step].
    wlp_step. eapply wlp_mono; [apply ft_fill|]. intros b ? [-> Hb]. cbn zeta. rewrite u8_small by lia.
    assert (list_packet (q1 <| pk_buffer := b |>)) as Hq2.
    { destruct Hq1 as (Hf & ? & ?). split; [|done]. unfold packet_full in *. simpl. by rewrite Hb. }
    destruct (_ >=? _) eqn:E; [apply Z.geb_le in E|rewrite Z.geb_leb, Z.leb_gt in E; wlp_step; split_and!; [done..|simpl; lia|simpl; lia]].
    wlp_step. eapply wlp_mono; [apply typed_list_flush; [done|done|lia]|]. intros q3 w2 [Hw2 Hq3]. wlp_step.
    split; [done|]. cbn [fst snd]. split; [by destruct q3 as [[] b3]|lia].
  - intros [q1 n] w1 (Hw1 & Hq1 & Hn). cbn [fst snd] in *. wlp_step.
    eapply wlp_mono; [apply typed_list_flush; [done|by destruct q1 as [[] b1]|lia]|]. intros q2 w2 [Hw2 _]. by wlp_step.
Qed.
End lists.

(** ** Operations *)

Section operations_typed.
Context `{Env}.

#[local] Instance typed_event_init e id : Typed (event_upd e (fun ev => syncs_event_init ev id)).
Proof. apply typed_event_upd. intros ev [Hd _]. split; [|done]. simpl. by rewrite zlen_insert. Qed.

#[export] Instance typed_create_event id : Typed (syncs_create_event id).
Proof. unfold syncs_create_event. apply _. Qed.

#[export] Instance typed_find_or_create id flags created :
  (forall e, Typed (created e)) -> Typed (find_or_create id flags created).
Proof. intros Hc. unfold find_or_create. apply _. Qed.

#[export] Instance typed_set_type flags e : Typed (event_set_type flags e).
Proof. unfold event_set_type. apply _. Qed.

(** Storing a value proves that its size is in range. *)
Lemma typed_store_size e data n w (Q : unit -> world -> Prop) :
  world_typed w ->
  (forall w', world_typed w' -> 0 <= n <= SYNCS_VARIABLE_SIZE_MAXIMUM -> Q tt w') ->
  wlp (event_store e data n) Q w.
Proof.
  intros Hw HQ. unfold event_store. wlp_step. apply wlp_event_typed; [done|]. intros ev [Hd Hs].
  wlp_step. apply wlp_memcpy. intros Hn _ Hl. assert (0 <= n <= SYNCS_VARIABLE_SIZE_MAXIMUM) as Hr by lia.
  assert (Typed (event_upd e (fun ev' => ev' <| ev_data := mem_put 0 (ztake n data) (ev_data ev) |>))).
  { apply typed_event_upd. intros ev' [Hd' Hs']. split; [|done]. simpl. rewrite zlen_mem_put; [done|lia|].
    rewrite zlen_ztake. lia. }
  eapply wlp_mono; [by apply typed|]. intros [] w' Hw'. by apply HQ.
Qed.

Lemma typed_event_size e n :
  0 <= n <= SYNCS_VARIABLE_SIZE_MAXIMUM -> Typed (event_upd e (fun ev => ev <| ev_data_size := n |>)).
Proof. intros Hn. apply typed_event_upd. intros ev [Hd _]. by split. Qed.

#[export] Instance typed_event_callback e id : Typed (event_callback e id).
Proof. unfold event_callback. apply _. Qed.

#[export] Instance typed_add_event id flags data size : Typed (syncs_add_event id flags data size).
Proof.
  unfold syncs_add_event. set (n := if _ && _ then size else _).
  assert (0 <= n <= SYNCS_VARIABLE_SIZE_MAXIMUM) as Hn.
  { subst n. pose proof (size_by_type_range flags). destruct (_ && _) eqn:E; [|clia].
    apply andb_true_iff in E as [?%Z.gtb_lt ?%Z.ltb_lt]. lia. }
  assert (forall e, Typed (event_upd e (fun ev => ev <| ev_data_size := n |>))) by (intros e; by apply typed_event_size).
  assert (forall e bytes, Typed (event_store e bytes n)).
  { intros e bytes w Hw. by apply typed_store_size. }
  clearbody n. apply _.
Qed.

#[export] Instance typed_free_event id : Typed (syncs_free_event id).
Proof.
  unfold syncs_free_event. apply typed_bind; [apply _|]. intros s. destruct (syncs_find_event s id); [|apply _].
  apply _.
Qed.

#[export] Instance typed_subscribe c id flags uc : Typed (syncs_client_subscribe c id flags uc).
Proof. unfold syncs_client_subscribe, syncs_add_client_to_event. apply _. Qed.

#[export] Instance typed_remove_client c e : Typed (syncs_remove_client_from_event c e).
Proof. unfold syncs_remove_client_from_event. apply _. Qed.

#[export] Instance typed_unsubscribe c id : Typed (syncs_client_unsubscribe c id).
Proof. unfold syncs_client_unsubscribe. apply _. Qed.

#[export] Instance typed_write_store c e data n : Typed (client_write_store c e data n).
Proof.
  unfold client_write_store. do 4 (apply typed_bind; [apply _|intros ?]).
  intros w Hw. wlp_step. apply typed_store_size; [done|]. intros w1 Hw1 Hn. pose proof (typed_event_size e n Hn).
  apply typed_sequence; [apply _|done].
Qed.

#[export] Instance typed_client_write c id flags data n : Typed (syncs_client_write c id flags data n).
Proof. unfold syncs_client_write. apply _. Qed.

#[export] Instance typed_create_channel id : Typed (syncs_create_channel id).
Proof. unfold syncs_create_channel. apply _. Qed.

#[export] Instance typed_add_channel c id flags data : Typed (syncs_add_channel c id flags data).
Proof. unfold syncs_add_channel. apply _. Qed.

#[export] Instance typed_channel c h data : Typed (syncs_client_channel c h data).
Proof.
  unfold syncs_client_channel. apply _.
Qed.

#[export] Instance typed_close c : Typed (syncs_close_client_socket c).
Proof. unfold syncs_close_client_socket, syncs_remove_client_from_events. apply _. Qed.

#[export] Instance typed_process c h data : Typed (syncs_client_process_packet c h data).
Proof.
  unfold syncs_client_process_packet. destruct (packet_operation c h data) as [op|] eqn:E; [|apply _].
  assert (Typed op); [|apply _]. revert E. unfold packet_operation. cbn zeta.
  repeat (lazymatch goal with |- (if ?b then _ else _) = _ -> _ => destruct b end;
    [intros E; apply (inj Some) in E; subst op; first [apply _|apply (typed_send_list _)]|]). done.
Qed.

(** ** The event loop *)

#[export] Instance typed_receive_loop process fuel buffer head recv :
  (forall h data, Typed (process h data)) -> Typed (receive_loop process fuel buffer head recv).
Proof.
  intros Hp. revert buffer head. induction fuel as [|fuel IH]; intros buffer head; cbn [receive_loop]; [apply typed_quiet; apply _|].
  apply _.
Qed.

#[export] Instance typed_client_handler c r : Typed (syncs_client_handler c r).
Proof. unfold syncs_client_handler, client_handler_loop. apply _. Qed.

#[export] Instance typed_add_client r : Typed (syncs_add_client r).
Proof. unfold syncs_add_client. apply _. Qed.

#[export] Instance typed_add_uclient addr : Typed (syncs_add_uclient addr).
Proof. unfold syncs_add_uclient. apply _. Qed.

#[export] Instance typed_uclient_process addr h data : Typed (syncs_uclient_process_packet addr h data).
Proof. unfold syncs_uclient_process_packet. apply _. Qed.

#[export] Instance typed_udp_handler addr r : Typed (syncs_udp_handler addr r).
Proof. unfold syncs_udp_handler. apply _. Qed.

#[export] Instance typed_callback e : Typed (epoll_callback e).
Proof. unfold epoll_callback. apply _. Qed.

#[export] Instance typed_server_write flags cid data size : Typed (syncs_server_write flags cid data size).
Proof.
  unfold syncs_server_write. apply typed_bind; [apply _|]. intros [code|e]; [apply _|]. cbn zeta.
  intros w Hw. wlp_step. apply typed_store_size; [done|]. intros w1 Hw1 Hn. pose proof (typed_event_size e _ Hn).
  apply typed_sequence; [apply _|done].
Qed.

#[export] Instance typed_api_run a : Typed (api_run a).
Proof.
  destruct a; simpl; unfold syncs_server_define, syncs_server_undefine, syncs_server_subscribe_event,
    syncs_server_unsubscribe_event, syncs_server_set_sync_offset; apply _.
Qed.

Lemma step_typed w w' : world_typed w -> server_step w w' -> world_typed w'.
Proof. intros Hw [e _ Hr|a _ Hr]; by apply (wlp_ok _ _ _ _ _ (typed _ Hw) Hr). Qed.

Lemma start_typed addr port cid : world_typed (mk_world (syncs_server_create addr port cid) []).
Proof.
  split; [|constructor]. apply Forall_lookup. intros i ev Hev.
  destruct (swf_event _ (server_create_wf addr port cid) i ev Hev). by split.
Qed.

Lemma reachable_typed w : reachable w -> world_typed w.
Proof. induction 1 as [addr port cid|w w' _ IH Hs]; [apply start_typed|by eapply step_typed]. Qed.

(** The bytes a socket was given. *)
Definition sent_on (fd : Z) (log : list io) : list byte :=
  log ≫= (fun e => match e with IoSend fd' bs => if fd' =? fd then bs else [] | _ => [] end).

(** The same, cut where a [send] on the socket failed; [cur] is what was sent
    since the last failure. *)
Fixpoint segments (fd : Z) (cur : list byte) (log : list io) : list (list byte) :=
  match log with
  | [] => [cur]
  | IoSend fd' bs :: log => segments fd (if fd' =? fd then cur ++ bs else cur) log
  | IoSendError fd' :: log => if fd' =? fd then cur :: segments fd [] log else segments fd cur log
  | _ :: log => segments fd cur log
  end.

Lemma segments_ne fd cur log : segments fd cur log <> [].
Proof. revert cur. induction log as [|[] log IH]; intros cur; cbn [segments]; try case_match; done. Qed.

Lemma segments_app fd cur log cut x log' :
  segments fd cur log = cut ++ [x] -> segments fd cur (log ++ log') = cut ++ segments fd x log'.
Proof.
  revert cur cut. induction log as [|e log IH]; intros cur cut E; cbn [segments app] in *.
  { destruct cut as [|y cut]; [by injection E as ->|]. apply (f_equal length) in E. rewrite length_app in E. simpl in E. lia. }
  destruct e; try (by apply IH). destruct (fd0 =? fd); [|by apply IH].
  destruct cut as [|y cut]; [by injection E as _ E%segments_ne|].
  injection E as <- E. cbn [app]. f_equal. by apply IH.
Qed.

Lemma segments_concat fd cur log : concat (segments fd cur log) = cur ++ sent_on fd log.
Proof.
  revert cur. induction log as [|e log IH]; intros cur; [done|]. unfold sent_on in *. cbn [mbind list_bind].
  destruct e; cbn [segments app]; try apply IH; destruct (_ =? fd); cbn [concat app]; rewrite ?IH; try done.
  by rewrite <- app_assoc.
Qed.

Lemma segments_whole fd cur log : IoSendError fd ∉ log -> exists x, segments fd cur log = [x].
Proof.
  revert cur. induction log as [|e log IH]; intros cur Hn; [by eexists|]. rewrite not_elem_of_cons in Hn.
  destruct Hn as [He Hn]. destruct e; cbn [segments]; try (by apply IH).
  destruct (Z.eqb_spec fd0 fd); [congruence|by apply IH].
Qed.

Lemma segments_transmission fd cur sock pieces rest :
  segments fd cur (transmission sock pieces rest) =
    if sock =? fd then (if decide (rest = []) then [cur ++ concat pieces] else [cur ++ concat pieces; []]) else [cur].
Proof.
  unfold transmission. revert cur. induction pieces as [|bs pieces IH]; intros cur; cbn [fmap list_fmap app segments concat].
  - rewrite app_nil_r. destruct (decide _); cbn [segments]; destruct (_ =? _); done.
  - rewrite IH. destruct (_ =? _); [|done]. by rewrite <- app_assoc.
Qed.

(** Whole packets, then one that was cut short. *)
Definition cut_short (bs : list byte) : Prop :=
  exists fs f part rest, Forall frame_wf fs /\ frame_wf f /\ encode_frame f = part ++ rest /\ rest <> [] /\
    bs = encode_frames fs ++ part.

Lemma log_segments fd log : log_typed log ->
  exists cut fs, segments fd [] log = cut ++ [encode_frames fs] /\ Forall cut_short cut /\ Forall frame_wf fs.
Proof.
  induction 1 as [|log e _ (cut & fs & E & Hcut & Hfs) He|log sock f pieces rest _ (cut & fs & E & Hcut & Hfs) Hf Hsplit].
  - by exists [], [].
  - exists cut, fs. split; [|done]. rewrite (segments_app _ _ _ _ _ _ E). by destruct e.
  - rewrite (segments_app _ _ _ _ _ _ E), segments_transmission. destruct (sock =? fd); [|by exists cut, fs].
    destruct (decide (rest = [])) as [->|Hr].
    + exists cut, (fs ++ [f]). rewrite app_nil_r in Hsplit. split; [|split; [done|by apply Forall_app; split; [|constructor]]].
      unfold encode_frames. rewrite fmap_app, concat_app. cbn [fmap list_fmap concat]. by rewrite app_nil_r, Hsplit.
    + exists (cut ++ [encode_frames fs ++ concat pieces]), []. split; [by rewrite <- app_assoc|]. split; [|constructor].
      apply Forall_app. split; [done|]. constructor; [|constructor]. by exists fs, f, (concat pieces), rest.
Qed.

Lemma log_datagrams fd addr bs log : log_typed log -> IoSendto fd addr bs ∈ log -> on_wire bs.
Proof.
  induction 1 as [|log e _ IH He|log sock f pieces rest _ IH _ _]; intros Hin; [by apply elem_of_nil in Hin|..];
    apply elem_of_app in Hin as [Hin|Hin]; [by apply IH| |by apply IH|].
  - apply list_elem_of_singleton in Hin as <-. exact He.
  - apply elem_of_app in Hin as [Hin|Hin]; [by apply list_elem_of_fmap in Hin as (y & ? & ?)|].
    case_decide; [by apply elem_of_nil in Hin|]. by apply list_elem_of_singleton in Hin.
Qed.

(** C8: in every reachable state of the server, whatever the clients, the
    application and the kernel did and whatever was left on the stack: since
    the last failed [send] on a socket, the bytes sent on it are a sequence of
    well-formed packets, which its receiver's parser takes apart with nothing
    left; what was sent up to each earlier failure is a sequence of packets
    and then one that was cut short; and every datagram sent is one
    well-formed packet.  The length in a header is that of the payload that
    follows it. *)
Theorem server_sends_packets w :
  reachable w ->
  (forall fd, exists cut fs, segments fd [] (w_log w) = cut ++ [encode_frames fs] /\
    sent_on fd (w_log w) = concat cut ++ encode_frames fs /\
    Forall frame_wf fs /\ parse (encode_frames fs) = (fs, []) /\
    Forall cut_short cut /\ (IoSendError fd ∉ w_log w -> cut = [])) /\
  (forall fd addr bs, IoSendto fd addr bs ∈ w_log w -> exists f, frame_wf f /\ bs = encode_frame f).
Proof.
  intros [_ Hlog]%reachable_typed. split; [|by intros fd addr bs; apply log_datagrams].
  intros fd. destruct (log_segments fd _ Hlog) as (cut & fs & E & Hcut & Hfs). exists cut, fs.
  split; [done|]. pose proof (segments_concat fd [] (w_log w)) as Hc. rewrite E, concat_app in Hc.
  cbn [concat app] in Hc. rewrite app_nil_r in Hc. split; [done|]. split; [done|]. split; [|split; [done|]].
  - rewrite <- (app_nil_r (encode_frames fs)), parse_encode, parse_short by done. simpl. by rewrite app_nil_r.
  - intros [x Hx]%(segments_whole fd []). rewrite E in Hx. destruct cut as [|y cut]; [done|].
    apply (f_equal length) in Hx. rewrite length_app in Hx. simpl in Hx. lia.
Qed.
End operations_typed.

Section instances.
#[local] Existing Instance perfect_env.

Lemma reachable_after e w : reachable w -> epoll_event_ok w e -> reachable (after (epoll_callback e) w).
Proof.
  intros Hr He. pose proof (safe_epoll_callback e w (reachable_winv w Hr) He) as Hs.
  apply wp_run in Hs as ([] & w' & E & _). unfold after. rewrite E.
  eapply reach_step; [done|]. by eapply step_epoll.
Qed.

(** A client asks for the variables of a server that has one. *)
Definition list_request : frame := (sample_header SYNCS_TYPE_EVENT_LIST id_zero 0, []).
Definition listed : world :=
  after (epoll_callback (EpClient 0 (RecvData (encode_frame list_request))))
    (after (epoll_callback (EpClient 0 (RecvData (encode_frame write_a))))
      (after (epoll_callback (EpAccept (AcceptFd 7 (mk_addr 1 2)))) server_start)).

Lemma listed_reachable : reachable listed.
Proof.
  apply reachable_after; [apply reachable_after; [apply reachable_after; [apply reach_init|exact I]|]|];
    (apply (chunk_ok _ _ _ 0); [apply reachable_winv|by vm_compute..]).
  - by apply reachable_after; [apply reach_init|].
  - apply reachable_after; [by apply reachable_after; [apply reach_init|]|].
    apply (chunk_ok _ _ _ 0); [apply reachable_winv|by vm_compute..]. by apply reachable_after; [apply reach_init|].
Qed.

Lemma server_sends_packets_witness :
  (forall fd, exists cut fs, segments fd [] (w_log listed) = cut ++ [encode_frames fs] /\
    sent_on fd (w_log listed) = concat cut ++ encode_frames fs /\
    Forall frame_wf fs /\ parse (encode_frames fs) = (fs, []) /\
    Forall cut_short cut /\ (IoSendError fd ∉ w_log listed -> cut = [])) /\
  (forall fd addr bs, IoSendto fd addr bs ∈ w_log listed -> exists f, frame_wf f /\ bs = encode_frame f).
Proof. apply (server_sends_packets listed listed_reachable). Defined.

(** What it sends is not nothing. *)
Example listed_sends : zlen (sent_on 7 (w_log listed)) > 60.
Proof. by vm_compute. Qed.
End instances.
