(* ===== verification/ServerData.v ===== *)
(** * Properties of the server: values, subscriptions, publication

    Each theorem is followed by an instance at a concrete input. *)

From stdpp Require Import gmap.
From S2P Require Import Prelude.
From S2P Require Import Monad.
From S2P Require Import Types.
From S2P Require Import Net.
From S2P Require Import ServerState.
From S2P Require Import ServerEvents.
From S2P Require Import ServerPackets.
From S2P Require Import Framing.
From S2P Require Import Wire.
From S2P Require Import Handler.
From S2P Require Import ServerInv.
From S2P Require Import ServerSafe.
From S2P Require Import ServerLoop.
From S2P Require Import EventSpec.
From S2P Require Import Directory.
From S2P Require Import Refinement.
From S2P Require Import Publish.
From S2P Require Import ServerProps.

Section data.
Context `{Env}.

(** The slot a variable of the directory lives in. *)
Lemma directory_slot w id v :
  winv w -> id_is_free id = false -> (abs w).1 !! id = Some v ->
  exists e ev, syncs_find_event (w_server w) id = Some e /\ w_events w !! e = Some ev /\
    ev_id ev = id /\ variable_of ev = v /\ event_wf ev.
Proof.
  intros Hw Hf. destruct (w_vars_pair w) as (l & uc & Hv). rewrite (abs_of w l uc) by done. simpl.
  rewrite directory_find by (done || by eapply table_unique).
  unfold syncs_find_event. assert (sv_events (w_server w) = l) as El by by injection Hv.
  assert (w_events w = l) as -> by exact El. rewrite El.
  destruct (scan _ l) as [e|] eqn:E; [|done].
  destruct (scan_lookup _ _ _ E) as (ev & He & Hid%syncs_idcmp_eq). rewrite He. intros [= <-].
  exists e, ev. split_and!; try done. by eapply table_wf.
Qed.

Lemma ev_value_variable ev v : variable_of ev = v -> ev_value ev = var_value v.
Proof. by intros <-. Qed.

(** Reading a variable of the directory. *)
Lemma run_server_read flags cid buf size w v :
  winv w -> id_is_free (syncs_idstr cid) = false -> (abs w).1 !! syncs_idstr cid = Some v ->
  0 <= size <= zlen buf ->
  let n := Z.min size (zlen (var_value v)) in
  syncs_server_read flags cid buf size w = Ok ((0, mem_put 0 (ztake n (var_value v)) buf, n), w).
Proof.
  intros Hw Hf Hv Hs. cbn zeta. destruct (directory_slot w _ v Hw Hf Hv) as (e & ev & E & Hev & Hid & Hval & Hwf).
  apply ev_value_variable in Hval. rewrite <- Hval.
  set (n := Z.min size (zlen (ev_value ev))). pose proof (zlen_ev_value ev Hwf) as Hz.
  assert (wp (syncs_server_read flags cid buf size) (fun r w' => r = (0, mem_put 0 (ztake n (ev_value ev)) buf, n) /\ w' = w) w) as Hr.
  { unfold syncs_server_read. wp_step. apply wp_server_get. rewrite E. wp_step.
    apply (run_event_at e ev); [done|]. wp_step.
    assert ((if size >? ev_data_size ev then ev_data_size ev else size) = n) as En.
    { subst n. rewrite Hz. destruct (size >? _) eqn:Eg; [apply Z.gtb_lt in Eg; lia|].
      rewrite Z.gtb_ltb, Z.ltb_ge in Eg. lia. }
    rewrite En. pose proof (ewf_data ev Hwf). pose proof (ewf_size ev Hwf).
    apply wp_memcpy; [lia..|]. wp_step. split; [|done]. do 3 f_equal.
    unfold ev_value. rewrite ztake_ztake. f_equal. lia. }
  apply wp_run in Hr as (r & w' & -> & -> & ->). done.
Qed.

(** A value a client writes is the value the application reads: after an
    accepted [WRITE] packet, [syncs_server_read] returns success, the payload
    and its size, and the reader's buffer is otherwise untouched. *)
Theorem write_then_read w c cid flags data n w1 rflags buf size :
  winv w -> (c < SYNCS_CLIENT_MAXIMUM)%nat -> id_is_free (syncs_idstr cid) = false ->
  0 <= n <= SYNCS_VARIABLE_SIZE_MAXIMUM -> n <= zlen data -> n <= size <= zlen buf ->
  syncs_client_write c (syncs_idstr cid) flags data n w = Ok (0, w1) ->
  syncs_server_read rflags cid buf size w1 = Ok ((0, mem_put 0 (ztake n data) buf, n), w1).
Proof.
  intros Hw Hc Hf Hn Hd Hs Hrun. destruct (w_vars_pair w) as (l & uc & Hv).
  pose proof (wlp_ok _ _ _ _ _ (write_refines w Hw l uc Hv c _ flags data n Hf Hn Hd) Hrun) as Ha.
  pose proof (wlp_ok _ _ _ _ _ (wp_to_wlp _ _ _ (safe_client_write c _ flags data n w Hw Hc Hn Hd)) Hrun) as Hw1.
  assert (exists v, (abs w1).1 !! syncs_idstr cid = Some v /\ var_value v = ztake n data) as (v & Hlook & Hval).
  { unfold spec_write in Ha. destruct (spec_open _ _ _) as [err|[v m]] eqn:E.
    - unfold spec_open in E. destruct (_ !! _); [done|]. destruct (negb _); [simplify_eq|].
      destruct (full _); simplify_eq.
    - destruct (_ =? _); [|done].
      apply (f_equal snd) in Ha. cbn [snd] in Ha. rewrite Ha. simpl. rewrite lookup_insert_eq. eauto. }
  pose proof (run_server_read rflags cid buf size w1 v Hw1 Hf Hlook ltac:(lia)) as Hr. cbn zeta in Hr.
  rewrite Hval in Hr. assert (zlen (ztake n data) = n) as Hz by zl. rewrite Hz, Z.min_r in Hr by lia.
  by rewrite ztake_ztake, Z.min_id in Hr.
Qed.

(** ** Closing *)

(** No channel in use has client [c] as its producer. *)
Definition channels_without (c : nat) (chs : list syncs_channel) : Prop :=
  forall i ch, chs !! i = Some ch -> id_is_free (ch_id ch) = false -> ch_producer ch <> Some c.

Lemma run_remove_channels c w :
  winv w -> wlp (syncs_remove_channels_of_client c) (fun _ w' => channels_without c (w_channels w')) w.
Proof.
  intros Hw. unfold syncs_remove_channels_of_client.
  eapply wlp_mono; [apply (wlp_for_each (fun k w' => length (w_channels w') = SYNCS_CHANNEL_MAXIMUM /\
    forall i ch, (i < k)%nat -> w_channels w' !! i = Some ch -> id_is_free (ch_id ch) = false ->
      ch_producer ch <> Some c))|].
  - split; [apply Hw|lia].
  - intros k x w1 Hx [Hl Hk]. apply lookup_seq in Hx as [-> Hlt]. simpl.
    wlp_step. unfold channel_at at 1. wlp_step. apply wlp_server_get. apply wlp_deref. intros ch Hch.
    change (sv_channels (w_server w1)) with (w_channels w1) in Hch.
    destruct (negb (id_is_free (ch_id ch)) && bool_decide (ch_producer ch = Some c)) eqn:E.
    + unfold channel_upd. wlp_step. unfold channel_at. wlp_step. apply wlp_server_get.
      apply wlp_deref. intros ch' Hch'. apply wlp_server_upd.
      split; [unfold w_channels, on_server; simpl; by rewrite length_insert|].
      intros i d Hi Hd. unfold w_channels, on_server in Hd. simpl in Hd.
      apply list_lookup_insert_Some in Hd as [(-> & <- & _)|[Hne Hd]]; [done|].
      apply (Hk i); [lia|done].
    + wlp_step. split; [done|]. intros i d Hi Hd Hf. destruct (decide (i = k)) as [->|].
      * rewrite Hch in Hd. injection Hd as <-. rewrite Hf in E. simpl in E.
        by apply bool_decide_eq_false in E.
      * by apply (Hk i); [lia|..].
  - intros u w' [Hl Hk] i ch Hi Hf. apply (Hk i ch); [|done..]. apply lookup_lt_Some in Hi.
    rewrite length_seq. lia.
Qed.

(** Closing a client's socket leaves no trace of it in the tables: no
    variable has it as a subscriber, no channel in use has it as producer and
    its slot is free; the kernel is asked to forget the descriptor, then to
    close it. *)
Theorem close_releases_client w c cl :
  winv w -> w_clients w !! c = Some cl ->
  exists w', syncs_close_client_socket c w = Ok (tt, w') /\
    (forall id v, (abs w').1 !! id = Some v -> c ∉ var_subs v) /\
    channels_without c (w_channels w') /\
    (exists cl', w_clients w' !! c = Some cl' /\ cl_socketfd cl' = -1) /\
    w_log w' = w_log w ++ [IoEpollDel (cl_socketfd cl); IoClose (cl_socketfd cl)].
Proof.
  intros Hw Hcl. assert (c < SYNCS_CLIENT_MAXIMUM)%nat as Hc.
  { apply lookup_lt_Some in Hcl. by rewrite <- (swf_clients (w_server w)). }
  pose proof (safe_close_client_socket c w Hw Hc) as Hsafe.
  apply wp_run in Hsafe as ([] & w' & E & _). exists w'. split; [done|].
  pose proof (wlp_ok _ _ _ _ _ (close_refines c w Hw) E) as Ha. split.
  { rewrite Ha. unfold spec_close. simpl. intros id v. rewrite lookup_fmap, fmap_Some.
    intros (v' & _ & ->). simpl. set_solver. }
  assert (wlp (syncs_close_client_socket c) (fun _ w' =>
    channels_without c (w_channels w') /\
    (exists cl', w_clients w' !! c = Some cl' /\ cl_socketfd cl' = -1) /\
    w_log w' = w_log w ++ [IoEpollDel (cl_socketfd cl); IoClose (cl_socketfd cl)]) w) as Hrest;
    [|exact (wlp_ok _ _ _ _ _ Hrest E)].
  unfold syncs_close_client_socket. wlp_step. unfold client_at at 1. wlp_step. apply wlp_server_get.
  apply wlp_deref. intros cl0 Hcl0. change (w_clients w !! c = Some cl0) in Hcl0. simplify_eq.
  wlp_step. unfold emit at 1. wlp_step. set (w1 := io_emit _ w). wlp_step.
  eapply wlp_mono; [by apply wp_to_wlp, (wp_keeps w_log (syncs_remove_client_from_events c) (fun _ => winv)),
    safe_remove_client_from_events|].
  intros u w2 [Hw2 Hl2]. wlp_step.
  eapply wlp_mono; [apply wp_to_wlp, (wp_keeps w_log (syncs_remove_channels_of_client c)
    (fun _ w' => winv w' /\ channels_without c (w_channels w'))), wp_wlp;
    [by apply safe_remove_channels_of_client|by apply run_remove_channels]|].
  intros u' w3 [[Hw3 Hch3] Hl3]. wlp_step. apply wp_to_wlp, run_client_upd; [done..|].
  intros cl3 Hcl3. unfold emit. wlp_step. split; [exact Hch3|]. split.
  - exists (cl3 <| cl_socketfd := -1 |>). split; [|reflexivity]. unfold w_clients, on_server. simpl.
    apply list_lookup_insert_eq. by apply lookup_lt_Some in Hcl3.
  - simpl. rewrite Hl3, Hl2. simpl. by rewrite <- app_assoc.
Qed.

(** ** Publication *)

(** A publication over a lossless network reaches, in slot order, every
    subscriber other than the producer (the producer too when it asked for an
    echo), each with one packet that carries the variable's identifier, type
    and value; nothing else is sent. *)
Theorem publication_reaches_subscribers `{!Lossless} w e ev flags :
  winv w -> w_events w !! e = Some ev -> id_wf (ev_id ev) -> 0 <= ev_data_type ev < 2 ^ 32 ->
  exists w' h, syncs_send_event e flags w = Ok (0, w') /\
    event_header flags ev h /\ frame_wf (h, ev_value ev) /\
    w_log w' = w_log w ++
      (publish_to flags ev ≫= transmit_to (w_server w) (encode_frame (h, ev_value ev))).
Proof.
  intros Hw Hev Hid Hty. pose proof (run_send_event e flags ev w Hw Hev) as Hs.
  apply wp_run in Hs as (r & w' & E & -> & h & Hh & Hwf & Hlog). exists w', h.
  split; [done|]. split; [done|]. split; [|done].
  split; [by apply Hwf|]. split_and!.
  - unfold header_good. cbn [fst]. destruct Hh as (-> & -> & _). done.
  - pose proof (swf_event _ Hw e ev Hev) as Hevwf. simpl.
    destruct Hh as (_ & _ & _ & -> & _). by rewrite zlen_ev_value.
  - pose proof (swf_event _ Hw e ev Hev) as Hevwf. simpl. rewrite zlen_ev_value by done. apply Hevwf.
Qed.

(** *** The log of a write *)

(** What [event_callback] leaves in the log. *)
Definition callback_io (ev : syncs_event) (id : syncsid_t) : list io :=
  if ev_cb ev =? NULL then [] else [IoCallback (ev_cb ev) (ev_args ev) id (ev_value ev)].

Lemma run_event_callback e ev id w (Q : unit -> world -> Prop) :
  winv w -> w_events w !! e = Some ev ->
  Q tt (io_emits (callback_io ev id) w) -> wp (event_callback e id) Q w.
Proof.
  intros Hw Hev HQ. pose proof (swf_event _ Hw e ev Hev) as Hwf.
  unfold event_callback. wp_step. apply (run_event_at e ev); [done|]. unfold callback_io in HQ.
  destruct (ev_cb ev =? NULL); [exact HQ|]. simpl. wp_step.
  pose proof (ewf_data ev Hwf). pose proof (ewf_size ev Hwf).
  apply wp_memcpy; rewrite ?zero_bytes_len by lia; [lia..|].
  assert (mem_put 0 (ztake (ev_data_size ev) (ev_data ev)) (zero_bytes (ev_data_size ev)) = ev_value ev) as ->.
  { unfold mem_put, ev_value. rewrite ztake_0, zdrop_ge, app_nil_r; [done|].
    rewrite zero_bytes_len by lia. zl. }
  exact HQ.
Qed.

Lemma run_publication `{!Lossless} e pflags ev w :
  winv w -> w_events w !! e = Some ev ->
  wp (syncs_send_event e pflags) (fun r w' => (r = 0 /\ exists h, event_header pflags ev h /\
      (id_wf (ev_id ev) -> 0 <= ev_data_type ev < 2 ^ 32 -> header_wf h) /\
      w_log w' = w_log w ++ (publish_to pflags ev ≫= transmit_to (w_server w) (encode_frame (h, ev_value ev)))) /\
    w_vars w' = w_vars w) w.
Proof.
  intros Hw Hev. eapply (wp_keeps w_vars (syncs_send_event e pflags)). by apply run_send_event.
Qed.

(** The flags of the publication a write causes. *)
Definition write_pflags (flags : Z) : Z :=
  Z.land flags (Z.lor (Z.lor SYNCS_TYPE_VAR_MASK SYNCS_TYPE_SYNC) SYNCS_TYPE_ECHO).

Lemma run_client_write_io `{!Lossless} w c id flags data n :
  winv w -> (c < SYNCS_CLIENT_MAXIMUM)%nat -> id_is_free id = false ->
  0 <= n <= SYNCS_VARIABLE_SIZE_MAXIMUM -> n <= zlen data ->
  wp (syncs_client_write c id flags data n) (fun code w1 => code = 0 ->
    exists e ev h, w_events w1 !! e = Some ev /\ ev_id ev = id /\ ev_value ev = ztake n data /\
    ev_producer ev = Some c /\ event_header (write_pflags flags) ev h /\
    (id_wf (ev_id ev) -> 0 <= ev_data_type ev < 2 ^ 32 -> header_wf h) /\
    w_log w1 = w_log w ++ callback_io ev id ++
      (publish_to (write_pflags flags) ev ≫= transmit_to (w_server w) (encode_frame (h, ztake n data)))) w.
Proof.
  intros Hw Hc Hf Hn Hd. destruct (w_vars_pair w) as (l & uc & Hv).
  pose proof (opened w Hw l uc Hv id flags Hf) as Ho.
  unfold syncs_client_write. wp_step.
  eapply wp_mono; [eapply wp_quiet with (Q := (fun r w' => w_vars w' = ((open_event id flags l).2, uc) /\
    r = (open_event id flags l).1)); [apply _|apply _|apply safe_find_or_create;
      [done|auto using safe_event_set_type]|by apply (run_open id flags w l uc)]|].
  intros r w2 ([Hw2 _] & [Hv2 ->] & Hn2 & Hl2).
  destruct (open_event id flags l) as [[err|e] l']; simpl in *.
  { destruct Ho as [-> Ho]. wp_step. intros ->. unfold spec_open in Ho.
    repeat case_match; simplify_eq. }
  destruct Ho as (ev & Hev & Hid & Hlive & Hwf & Hu & _).
  assert (w_events w2 = l') as Hev2 by by injection Hv2.
  wp_step. apply (run_event_at e ev); [by rewrite Hev2|].
  destruct (negb _); [by wp_step|].
  assert (e < SYNCS_EVENT_MAXIMUM)%nat as He.
  { rewrite <- (swf_events _ Hw2). change (sv_events (w_server w2)) with (w_events w2).
    rewrite Hev2. by eapply lookup_lt_Some. }
  wp_step. eapply wp_mono; [eapply wp_quiet with (Q := (fun _ w' =>
    w_vars w' = (alter (write_event c data n uc) e l', incr_u64 uc))); [apply _|apply _|
      by apply safe_client_write_store|by apply (run_write_store c e data n w2 l' uc ev)]|].
  intros u w3 (Hw3 & Hv3 & Hn3 & Hl3).
  assert (w_events w3 !! e = Some (write_event c data n uc ev)) as Hev3.
  { assert (w_events w3 = alter (write_event c data n uc) e l') as -> by by injection Hv3.
    by rewrite list_lookup_alter_eq, Hev. }
  wp_step. apply (run_event_callback e (write_event c data n uc ev) id); [done..|].
  set (w4 := io_emits _ w3). assert (w_events w4 = w_events w3) as Hev4.
  { unfold w_events, on_server. subst w4. by rewrite io_emits_server. }
  wp_step. eapply wp_mono; [apply (run_publication e (write_pflags flags) (write_event c data n uc ev));
    [by apply winv_emits|by rewrite Hev4]|].
  intros r w5 ((_ & h & Hh & Hwfh & Hlog) & Hv5). wp_step. intros _.
  exists e, (write_event c data n uc ev), h.
  assert (ev_value (write_event c data n uc ev) = ztake n data) as Hval.
  { pose proof (variable_of_write c data n uc ev Hwf Hn Hd) as Hval.
    by apply (f_equal var_value) in Hval. }
  split_and!.
  - rewrite <- Hev3, <- Hev4. f_equal. exact (f_equal fst Hv5).
  - by rewrite write_event_id.
  - exact Hval.
  - by rewrite write_event_eq.
  - exact Hh.
  - exact Hwfh.
  - rewrite Hlog, Hval. subst w4. change w_log with (@io_log world _) at 1.
    rewrite io_log_emits. change (@io_log world _ w3) with (w_log w3). rewrite Hl3, Hl2.
    rewrite <- app_assoc. do 2 f_equal. apply list_bind_ext; [|done]. intros d.
    apply transmit_to_view. rewrite io_emits_server. change (w_net w3 = w_net w). congruence.
Qed.

(** C35: an accepted [WRITE] packet of client [c] over a lossless network has
    exactly these effects outside the tables: the application's callback, if
    the variable has one, runs on the new value; then the value goes to every
    subscriber of the variable except [c] itself (and to [c] too on an echo). *)
Theorem write_publishes `{!Lossless} w c id flags data n w1 :
  winv w -> (c < SYNCS_CLIENT_MAXIMUM)%nat -> id_is_free id = false ->
  0 <= n <= SYNCS_VARIABLE_SIZE_MAXIMUM -> n <= zlen data ->
  syncs_client_write c id flags data n w = Ok (0, w1) ->
  exists e ev h, w_events w1 !! e = Some ev /\ ev_id ev = id /\ ev_value ev = ztake n data /\
    ev_producer ev = Some c /\ event_header (write_pflags flags) ev h /\
    w_log w1 = w_log w ++ callback_io ev id ++
      (publish_to (write_pflags flags) ev ≫= transmit_to (w_server w) (encode_frame (h, ztake n data))).
Proof.
  intros Hw Hc Hf Hn Hd Hrun.
  destruct (wp_at _ _ _ _ _ (run_client_write_io w c id flags data n Hw Hc Hf Hn Hd) Hrun eq_refl)
    as (e & ev & h & ? & ? & ? & ? & ? & _ & ?). by exists e, ev, h.
Qed.
End data.

Section instances.
#[local] Existing Instance perfect_env.

Definition int32_flags : Z := Z.lor SYNCS_TYPE_FORCE SYNCS_TYPE_VAR_INT32.
Definition demo_data : list byte := [Byte.x07; Byte.x00; Byte.x01; Byte.x02].
Definition demo_rewrite : SM Z := syncs_client_write 0 (syncs_idstr name_a) int32_flags demo_data 4.

Lemma demo_rewrite_run :
  syncs_client_write 0 (syncs_idstr name_a) int32_flags demo_data 4 demo = Ok (0, after demo_rewrite demo).
Proof. unfold demo_rewrite. apply result_run. by vm_compute. Qed.

Lemma demo_client : exists cl, w_clients demo !! 1%nat = Some cl.
Proof. apply lookup_lt_is_Some_2. pose proof (swf_clients _ demo_winv) as E. unfold w_clients, on_server. rewrite E. by apply Nat.ltb_lt. Qed.

Lemma demo_event : exists ev, w_events demo !! 0%nat = Some ev /\
  id_wf (ev_id ev) /\ 0 <= ev_data_type ev < 2 ^ 32.
Proof.
  assert (is_Some (w_events demo !! 0%nat)) as [ev E].
  { apply lookup_lt_is_Some_2. pose proof (swf_events _ demo_winv) as E. unfold w_events, on_server. rewrite E. by apply Nat.ltb_lt. }
  exists ev. split; [done|].
  assert ((fun ev => (ev_id ev, ev_data_type ev)) <$> w_events demo !! 0%nat =
    Some (syncs_idstr name_a, SYNCS_TYPE_VAR_INT32)) as Hv by by vm_compute.
  rewrite E in Hv. simpl in Hv. injection Hv as -> ->. clear E.
  split; [apply syncs_idstr_wf|unfold SYNCS_TYPE_VAR_INT32; lia].
Qed.

Lemma write_then_read_witness :
  syncs_server_read 0 name_a (zero_bytes 8) 8 (after demo_rewrite demo) =
    Ok ((0, mem_put 0 (ztake 4 demo_data) (zero_bytes 8), 4), after demo_rewrite demo).
Proof.
  apply (write_then_read demo 0 name_a int32_flags demo_data 4).
  - apply demo_winv.
  - by apply Nat.ltb_lt.
  - by vm_compute.
  - by vm_compute.
  - by vm_compute.
  - by vm_compute.
  - apply demo_rewrite_run.
Defined.

Lemma close_releases_client_witness :
  exists cl w', syncs_close_client_socket 1 demo = Ok (tt, w') /\
    (forall id v, (abs w').1 !! id = Some v -> 1%nat ∉ var_subs v) /\
    channels_without 1 (w_channels w') /\
    (exists cl', w_clients w' !! 1%nat = Some cl' /\ cl_socketfd cl' = -1) /\
    w_log w' = w_log demo ++ [IoEpollDel (cl_socketfd cl); IoClose (cl_socketfd cl)].
Proof.
  destruct demo_client as [cl E]. exists cl. exact (close_releases_client demo 1 cl demo_winv E).
Defined.

Lemma publication_reaches_subscribers_witness :
  exists ev w' h, w_events demo !! 0%nat = Some ev /\ syncs_send_event 0 0 demo = Ok (0, w') /\
    event_header 0 ev h /\ frame_wf (h, ev_value ev) /\
    w_log w' = w_log demo ++
      (publish_to 0 ev ≫= transmit_to (w_server demo) (encode_frame (h, ev_value ev))).
Proof.
  destruct demo_event as (ev & E & Hid & Hty).
  destruct (publication_reaches_subscribers demo 0 ev 0 demo_winv E Hid Hty) as (w' & h & Hr).
  exists ev, w', h. exact (conj E Hr).
Defined.

Lemma write_publishes_witness :
  exists e ev h, w_events (after demo_rewrite demo) !! e = Some ev /\
    ev_id ev = syncs_idstr name_a /\ ev_value ev = ztake 4 demo_data /\
    ev_producer ev = Some 0%nat /\ event_header (write_pflags int32_flags) ev h /\
    w_log (after demo_rewrite demo) = w_log demo ++ callback_io ev (syncs_idstr name_a) ++
      (publish_to (write_pflags int32_flags) ev ≫= transmit_to (w_server demo) (encode_frame (h, ztake 4 demo_data))).
Proof.
  apply (write_publishes demo 0 (syncs_idstr name_a) int32_flags demo_data 4).
  - apply demo_winv.
  - by apply Nat.ltb_lt.
  - by vm_compute.
  - by vm_compute.
  - by vm_compute.
  - apply demo_rewrite_run.
Defined.
End instances.
