(* ===== verification/ServerStream.v ===== *)
(** * Server: a whole conversation

    The handler over the successive chunks of a connection: however the
    stream is cut, the directory makes the transitions of the packets in the
    chunks of at least a header; the bytes of shorter chunks are lost. *)

From stdpp Require Import gmap.
From S2P Require Import Prelude.
From S2P Require Import Monad.
From S2P Require Import Types.
From S2P Require Import Net.
From S2P Require Import Framing.
From S2P Require Import Wire.
From S2P Require Import ServerState.
From S2P Require Import ServerEvents.
From S2P Require Import ServerPackets.
From S2P Require Import Handler.
From S2P Require Import ServerInv.
From S2P Require Import ServerSafe.
From S2P Require Import ServerLoop.
From S2P Require Import EventSpec.
From S2P Require Import Directory.
From S2P Require Import Refinement.
From S2P Require Import ServerProps.

Lemma spec_packets_app c fs fs' st st1 st2 :
  spec_packets c fs st st1 -> spec_packets c fs' st1 st2 -> spec_packets c (fs ++ fs') st st2.
Proof. induction 1 as [|stale f fs st st1 _ IH]; [done|]. intros. econstructor. by apply IH. Qed.

Lemma spec_packets_one c f st st' : spec_packets c [f] st st' <-> exists stale, st' = spec_packet stale c f st.
Proof.
  split.
  - inversion 1 as [|stale ? ? ? ? Hs]; subst. inversion Hs; subst. by exists stale.
  - intros [stale ->]. econstructor. constructor.
Qed.

Section stream.
Context `{Env}.

(** The chunks [recv] returns on the socket of client [c], in order. *)
Definition receive_chunks (c : nat) (chunks : list (list byte)) : SM unit :=
  for_each chunks (fun bs => _ ← syncs_client_handler c (RecvData bs); mret tt).

(** A chunk of at least a header that fits the free part of the buffer. *)
Definition chunk_fits (bs : list byte) : Prop :=
  sizeof_header <= zlen bs /\
  sizeof_header + SYNCS_VARIABLE_SIZE_MAXIMUM + zlen bs + sizeof_channel_ticket <= SYNCS_CLIENT_BUFFER_SIZE.

Lemma pending_range w c cl :
  winv w -> w_clients w !! c = Some cl ->
  (c < SYNCS_CLIENT_MAXIMUM)%nat /\ zlen (pending cl) = cl_buffer_recv cl.
Proof.
  intros Hw Hcl. split; [|apply zlen_pending, (swf_client _ Hw c cl Hcl)].
  apply lookup_lt_Some in Hcl. by rewrite <- (swf_clients (w_server w)).
Qed.

(** One chunk, counted or not. *)
Lemma receive_chunk_spec bs w c cl :
  winv w -> w_clients w !! c = Some cl -> parse (pending cl) = ([], pending cl) ->
  1 <= zlen bs -> zlen (pending cl) + zlen bs <= SYNCS_CLIENT_BUFFER_SIZE ->
  (sizeof_header <= zlen bs -> tickets_fit (pending cl) bs) ->
  Forall frame_ok (parse (pending cl ++ concat (counted [bs]))).1 ->
  wp (syncs_client_handler c (RecvData bs)) (fun _ w' => winv w' /\
    spec_packets c (parse (pending cl ++ concat (counted [bs]))).1 (abs w) (abs w') /\
    exists cl', w_clients w' !! c = Some cl' /\ pending cl' = (parse (pending cl ++ concat (counted [bs]))).2) w.
Proof.
  intros Hw Hcl Hp Hlen Hfit Htk. destruct (pending_range w c cl Hw Hcl) as [Hc Hz]. rewrite Hz in Hfit.
  unfold counted. rewrite filter_cons, filter_nil. destruct (decide (sizeof_header <= zlen bs)) as [Hs|Hs].
  - specialize (Htk Hs). cbn [concat]. rewrite app_nil_r. intros Hok.
    eapply wp_mono; [apply wp_and; [apply safe_client_handler; [done..| |]|by apply handler_refines]|].
    + intros cl0 Hcl0. change (w_clients w !! c = Some cl0) in Hcl0. rewrite Hcl in Hcl0. by injection Hcl0 as <-.
    + intros cl0 Hcl0. change (w_clients w !! c = Some cl0) in Hcl0. rewrite Hcl in Hcl0.
      injection Hcl0 as <-. by right.
    + intros r w1 (Hw1 & _ & Hspec). done.
  - cbn [concat]. rewrite app_nil_r, Hp. intros _.
    eapply wp_mono; [apply (handler_ignores c bs cl w); [done..|clia|done]|].
    intros r w1 (_ & Hw1 & -> & Hend). split; [done|]. split; [constructor|done].
Qed.

Lemma receive_chunks_all chunks w c cl :
  winv w -> w_clients w !! c = Some cl -> parse (pending cl) = ([], pending cl) ->
  deliverable tickets_fit (pending cl) chunks ->
  Forall frame_ok (parse (pending cl ++ concat (counted chunks))).1 ->
  wp (receive_chunks c chunks) (fun _ w' => winv w' /\
    spec_packets c (parse (pending cl ++ concat (counted chunks))).1 (abs w) (abs w') /\
    exists cl', w_clients w' !! c = Some cl' /\ pending cl' = (parse (pending cl ++ concat (counted chunks))).2) w.
Proof.
  revert w cl. induction chunks as [|bs chunks IH]; intros w cl Hw Hcl Hp Hdel Hok.
  { apply wp_run. exists tt, w. cbn in *. rewrite app_nil_r, Hp in *. split_and!; try done; [constructor|eauto]. }
  cbn [deliverable] in Hdel. destruct Hdel as (Hlen & Hfit & Hrest).
  assert (concat (counted (bs :: chunks)) = concat (counted [bs]) ++ concat (counted chunks)) as Hcat.
  { unfold counted. rewrite !filter_cons, filter_nil. case_decide; cbn [concat]; by rewrite ?app_nil_r. }
  rewrite Hcat, app_assoc, parse_app in Hok |- *. cbn [fst snd] in *. apply Forall_app in Hok as [Hok1 Hok2].
  assert ((sizeof_header <= zlen bs -> tickets_fit (pending cl) bs) /\
    deliverable tickets_fit (parse (pending cl ++ concat (counted [bs]))).2 chunks) as [Htk Hnext].
  { unfold counted. rewrite filter_cons, filter_nil. destruct (Z.ltb_spec (zlen bs) sizeof_header);
      destruct (decide (sizeof_header <= zlen bs)); try lia; cbn [concat]; rewrite app_nil_r.
    - rewrite Hp. split; [lia|done].
    - by destruct Hrest. }
  unfold receive_chunks. cbn [for_each]. wp_step. wp_step.
  eapply wp_mono; [by apply receive_chunk_spec|].
  intros r w1 (Hw1 & Hspec & cl1 & Hcl1 & Hp1). wp_step. rewrite <- Hp1 in Hok2, Hnext |- *.
  eapply wp_mono; [apply (IH w1 cl1 Hw1 Hcl1); [rewrite Hp1; apply parse_rest|done|done]|].
  intros u w2 (Hw2 & Hspec2 & Hend). split; [done|]. split; [by eapply spec_packets_app|done].
Qed.

(** Chunks of at least a header that fit beside the longest unfinished packet
    all count and are deliverable. *)
Lemma chunks_deliverable kept chunks :
  Forall chunk_fits chunks -> parse kept = ([], kept) ->
  deliverable tickets_fit kept chunks /\ counted chunks = chunks.
Proof.
  intros Hchunks. revert kept. induction Hchunks as [|bs chunks [Hlen Hfit] _ IH]; intros kept Hp; [done|].
  pose proof (parse_rest_short kept) as Hs. rewrite Hp in Hs. cbn [snd] in Hs.
  destruct (IH (parse (kept ++ bs)).2 (parse_rest _)) as [Hdel Hall].
  unfold counted in *. rewrite filter_cons, Hall. case_decide as Hd; [|lia]. split; [|done].
  cbn [deliverable]. rewrite (proj2 (Z.ltb_ge _ _)) by lia. split; [clia|]. split; [clia|]. split; [left; clia|done].
Qed.

Lemma receive_chunks_spec chunks w c cl :
  Forall chunk_fits chunks -> winv w -> w_clients w !! c = Some cl -> parse (pending cl) = ([], pending cl) ->
  Forall frame_ok (parse (pending cl ++ concat chunks)).1 ->
  wp (receive_chunks c chunks) (fun _ w' => winv w' /\
    spec_packets c (parse (pending cl ++ concat chunks)).1 (abs w) (abs w') /\
    exists cl', w_clients w' !! c = Some cl' /\ pending cl' = (parse (pending cl ++ concat chunks)).2) w.
Proof.
  intros Hchunks Hw Hcl Hp Hok. destruct (chunks_deliverable _ _ Hchunks Hp) as [Hdel Hall].
  pose proof (receive_chunks_all chunks w c cl Hw Hcl Hp Hdel) as Hs. rewrite Hall in Hs. by apply Hs.
Qed.

(** C1: over the whole life of a connection the directory makes exactly the
    transitions of the packets in the received stream, in order, and what is
    left of the stream waits in the receive buffer.  The chunks are whatever
    [recv] can return on an open connection (from a byte to all of the free
    part of the buffer), except that no announcement is read past a full
    buffer ([tickets_fit]); the stream is that of the chunks of at least a
    header, for the bytes of shorter chunks are lost.  No packet names the
    identifier that marks a free slot ([frame_ok]). *)
Theorem stream_refines_directory w c cl chunks :
  winv w -> w_clients w !! c = Some cl -> parse (pending cl) = ([], pending cl) ->
  deliverable tickets_fit (pending cl) chunks ->
  let stream := pending cl ++ concat (counted chunks) in
  Forall frame_ok (parse stream).1 ->
  exists w', receive_chunks c chunks w = Ok (tt, w') /\ winv w' /\
    spec_packets c (parse stream).1 (abs w) (abs w') /\
    exists cl', w_clients w' !! c = Some cl' /\ pending cl' = (parse stream).2.
Proof.
  intros Hw Hcl Hp Hdel stream Hok.
  destruct (proj1 (wp_run _ _ _) (receive_chunks_all chunks w c cl Hw Hcl Hp Hdel Hok))
    as ([] & w' & E & Hrest). by exists w'.
Qed.

(** A client whose requests arrive whole, from an empty buffer. *)
Corollary requests_refine_directory w c cl fs :
  winv w -> w_clients w !! c = Some cl -> pending cl = [] -> chunk_fits (encode_frames fs) ->
  Forall frame_wf fs -> Forall frame_ok fs ->
  exists w', syncs_client_handler c (RecvData (encode_frames fs)) w = Ok (0, w') /\ winv w' /\
    spec_packets c fs (abs w) (abs w') /\
    exists cl', w_clients w' !! c = Some cl' /\ pending cl' = [].
Proof.
  intros Hw Hcl Hp [Hlen Hfit] Hfs Hok.
  assert (c < SYNCS_CLIENT_MAXIMUM)%nat as Hc.
  { apply lookup_lt_Some in Hcl. by rewrite <- (swf_clients (w_server w)). }
  pose proof (cwf_recv cl (swf_client _ Hw c cl Hcl)) as Hr.
  assert (parse (pending cl ++ encode_frames fs) = (fs, [])) as Hparse.
  { rewrite Hp. cbn [app]. rewrite <- (app_nil_r (encode_frames fs)).
    rewrite parse_encode, parse_short by done. simpl. by rewrite app_nil_r. }
  assert (wp (syncs_client_handler c (RecvData (encode_frames fs))) (fun r w1 => winv w1 /\ r = 0 /\
    spec_packets c fs (abs w) (abs w1) /\
    exists cl1, w_clients w1 !! c = Some cl1 /\ pending cl1 = []) w) as Hs.
  { apply wp_and; [apply safe_client_handler; [done|done| |]|].
    - intros cl0 Hcl0. change (w_clients w !! c = Some cl0) in Hcl0. rewrite Hcl in Hcl0.
      injection Hcl0 as <-. clia.
    - intros cl0 Hcl0. change (w_clients w !! c = Some cl0) in Hcl0. rewrite Hcl in Hcl0.
      injection Hcl0 as <-. right. left. rewrite Hp. change (zlen (@nil byte)) with 0. clia.
    - eapply wp_mono; [apply (handler_refines c _ cl); [done..|clia| |by rewrite Hparse]|].
      { left. rewrite Hp. change (zlen (@nil byte)) with 0. clia. }
      intros r w1. by rewrite Hparse. }
  apply wp_run in Hs as (r & w1 & E1 & Hw1 & -> & Hrest). by exists w1.
Qed.
End stream.

Section instances.
#[local] Existing Instance perfect_env.

(** The first chunk ends inside the second packet; the next three bytes come
    alone and are lost. *)
Lemma stream_refines_directory_witness :
  let bs := encode_frames [subscribe_a; write_a] in
  let chunks := [ztake 62 bs; ztake 3 bs; zdrop 62 bs] in
  let stream := pending free_client ++ concat (counted chunks) in
  exists w', receive_chunks 3 chunks server_start = Ok (tt, w') /\ winv w' /\
    spec_packets 3 (parse stream).1 (abs server_start) (abs w') /\
    exists cl', w_clients w' !! 3%nat = Some cl' /\ pending cl' = (parse stream).2.
Proof.
  intros bs chunks. apply (stream_refines_directory server_start 3 free_client chunks).
  - apply server_start_winv.
  - apply server_start_client. by apply Nat.ltb_lt.
  - rewrite free_client_pending. by vm_compute.
  - rewrite free_client_pending. subst bs chunks. unfold tickets_fit.
    set (extra := fun kept bs => _). cbn [deliverable app].
    split; [by vm_compute|]. split; [by vm_compute|]. 
    replace (zlen (ztake 62 _) <? sizeof_header) with false by by vm_compute.
    split; [left; by vm_compute|]. split; [by vm_compute|]. split; [by vm_compute|].
    replace (zlen (ztake 3 _) <? sizeof_header) with true by by vm_compute.
    split; [by vm_compute|]. split; [by vm_compute|].
    replace (zlen (zdrop 62 _) <? sizeof_header) with false by by vm_compute.
    split; [left; by vm_compute|done].
  - rewrite free_client_pending. vm_compute. repeat constructor.
Defined.
End instances.
