(* ===== verification/ServerReply.v ===== *)
(** * Server: the answer to a request

    What the receive handler sends back for one packet of a client. *)

From stdpp Require Import gmap.
From S2P Require Import Prelude.
From S2P Require Import Monad.
From S2P Require Import Types.
From S2P Require Import Net.
From S2P Require Import Framing.
From S2P Require Import Wire.
From S2P Require Import ServerState.
From S2P Require Import ServerEvents.
From S2P Require Import ServerPackets.
From S2P Require Import Handler.
From S2P Require Import ServerInv.
From S2P Require Import ServerSafe.
From S2P Require Import ServerLoop.
From S2P Require Import EventSpec.
From S2P Require Import Directory.
From S2P Require Import Refinement.
From S2P Require Import Publish.
From S2P Require Import ServerProps.
From S2P Require Import ServerData.

(** What an observer sees of the server: variables, endpoints and I/O. *)
Definition observed (w : world) : (list syncs_event * Z) * (list (Z * sockaddr_in) * Z) * list io :=
  (w_vars w, w_net w, w_log w).

(** Two states that differ in receive buffers and counters of clients only. *)
Definition same_view (w w' : world) : Prop := observed w' = observed w /\ w_channels w' = w_channels w.

Lemma same_view_trans w1 w2 w3 : same_view w1 w2 -> same_view w2 w3 -> same_view w1 w3.
Proof. unfold same_view. intuition congruence. Qed.

Section reply.
Context `{Env}.

Lemma observed_insert w c cl cl' :
  w_clients w !! c = Some cl -> cl_socketfd cl' = cl_socketfd cl -> cl_addr cl' = cl_addr cl ->
  observed (w <| w_server ::= fun s => s <| sv_clients ::= <[c := cl']> |> |>) = observed w.
Proof.
  intros Hcl E1 E2. unfold observed. apply (f_equal2 pair); [apply (f_equal2 pair); [done|]|done].
  unfold w_net, on_server, net_view, endpoints. simpl.
  apply (f_equal2 pair); [|done]. rewrite list_fmap_insert, E1, E2.
  apply list_insert_id. unfold w_clients, on_server in Hcl. by rewrite list_lookup_fmap, Hcl.
Qed.

Lemma observed_client_upd c f w (Q : unit -> world -> Prop) :
  winv w -> (c < SYNCS_CLIENT_MAXIMUM)%nat ->
  (forall cl, cl_socketfd (f cl) = cl_socketfd cl /\ cl_addr (f cl) = cl_addr cl) ->
  (forall cl, client_wf cl -> client_wf (f cl)) ->
  (forall w', winv w' -> same_view w w' -> Q tt w') ->
  wp (client_upd c f) Q w.
Proof.
  intros Hw Hc Hf Hwf HQ. apply run_client_upd; [done..|]. intros cl Hcl. apply HQ.
  - apply winv_client_insert; [done|]. by apply Hwf, (swf_client _ Hw c).
  - destruct (Hf cl). split; [by eapply observed_insert|done].
Qed.

(** Putting the rest of the stream back is not observable. *)
Lemma observed_store_pending c buffer n w :
  winv w -> (c < SYNCS_CLIENT_MAXIMUM)%nat -> zlen buffer = SYNCS_CLIENT_BUFFER_SIZE ->
  wp (store_pending c buffer n) (fun r w' => r = 0 /\ same_view w w') w.
Proof.
  intros Hw Hc Hb. unfold store_pending. wp_step. apply run_client_upd; [done..|]. intros cl Hcl.
  wp_step. set (w1 := w <| w_server ::= _ |>).
  assert (winv w1) as Hw1.
  { apply winv_client_insert; [done|]. pose proof (swf_client _ Hw c cl Hcl) as []. by split. }
  apply run_client_upd; [done..|]. intros cl2 Hcl2. wp_step. split; [done|]. split; [|done].
  rewrite (observed_insert w1 c cl2) by done. by apply (observed_insert w c cl).
Qed.

(** One packet, received whole on an idle connection. *)
Lemma run_handler_world c cl f w (R : world -> Prop) :
  winv w -> w_clients w !! c = Some cl -> pending cl = [] -> frame_wf f ->
  (forall w1 w2, same_view w1 w2 -> R w1 -> R w2) ->
  (forall w1 data, winv w1 -> same_view w w1 ->
    hd_data_size f.1 <= zlen data -> sizeof_channel_ticket <= zlen data ->
    ztake (hd_data_size f.1) data = f.2 ->
    wp (syncs_client_process_packet c f.1 data) (fun _ w2 => R w2) w1) ->
  wp (syncs_client_handler c (RecvData (encode_frame f))) (fun r w' => r = 0 /\ winv w' /\ R w') w.
Proof.
  intros Hw Hcl Hp Hf Hext HR. pose proof Hf as (_ & _ & Hsz & Hmax).
  assert (c < SYNCS_CLIENT_MAXIMUM)%nat as Hc.
  { apply lookup_lt_Some in Hcl. by rewrite <- (swf_clients (w_server w)). }
  destruct (swf_client _ Hw c cl Hcl) as [Hb Hr]. pose proof (zlen_encode_frame f) as Hz. pose proof (zlen_nonneg f.2).
  eapply (wp_mono _ (fun r w' => winv w' /\ r = 0 /\ R w')); [apply wp_and|by intros r w' (? & ? & ?)].
  { apply safe_client_handler; [done|done| |]; intros cl' Hcl'; change (w_clients w !! c = Some cl') in Hcl'; simplify_eq; [clia|].
    right. left. rewrite Hp. change (zlen (@nil byte)) with 0. clia. }
  destruct (client_handler_parse c (encode_frame f) cl w Hcl Hb ltac:(lia) ltac:(lia) ltac:(clia))
    as (ds & b & n & Hrun & Hfs & _ & Hzb & Hn0 & Hds).
  rewrite Hp in Hfs. cbn [app] in Hfs. rewrite <- (app_nil_r (encode_frame f)) in Hfs.
  rewrite parse_frame, parse_short in Hfs by done. cbn [fst] in Hfs.
  destruct ds as [|d [|]]; try done. cbn [fmap list_fmap] in Hfs. injection Hfs as Hd.
  apply list.Forall_cons in Hds as [[Hd1 Hd2] _]. subst f. cbn [delivered_frame fst snd] in *.
  eapply wp_eq; [exact Hrun|]. clear Hrun. wp_step.
  apply observed_client_upd; [done|done|done| |].
  { intros x [Hx1 Hx2]. split; [|done]. simpl. rewrite zlen_mem_put; [done|lia|clia]. }
  intros w1 Hw1 Ho1. wp_step. unfold for_each, process_delivery. wp_step. wp_step.
  eapply wp_mono; [apply wp_and; [apply (safe_client_process_packet c d.1 d.2); first [done|clia]|
    apply (HR w1 d.2); first [done|clia]]|].
  intros r2 w2 [Hw2 HR2]. repeat wp_step.
  eapply wp_mono; [by apply observed_store_pending|]. intros r w3 [-> Hsame]. split; [done|]. by apply (Hext w2).
Qed.

(** The same for what an observer sees. *)
Lemma run_handler_frame c cl f w (R : (list syncs_event * Z) * (list (Z * sockaddr_in) * Z) * list io -> Prop) :
  winv w -> w_clients w !! c = Some cl -> pending cl = [] -> frame_wf f ->
  (forall w1 data, winv w1 -> observed w1 = observed w ->
    hd_data_size f.1 <= zlen data -> sizeof_channel_ticket <= zlen data ->
    ztake (hd_data_size f.1) data = f.2 ->
    wp (syncs_client_process_packet c f.1 data) (fun _ w2 => R (observed w2)) w1) ->
  wp (syncs_client_handler c (RecvData (encode_frame f))) (fun r w' => r = 0 /\ R (observed w')) w.
Proof.
  intros Hw Hcl Hp Hf HR. eapply wp_mono; [apply (run_handler_world c cl f w (fun w' => R (observed w'))); [done..| |]|].
  - by intros w1 w2 [-> _].
  - intros w1 data Hw1 [Ho _]. by apply HR.
  - by intros r w' (-> & _ & HR').
Qed.


(** ** READ *)

(** What a client is told of a variable, or of none: its type and value. *)
Definition reply_type (v : option variable) : Z :=
  Z.lor SYNCS_TYPE_READ (match v with
    | Some v => Z.land (var_type v) SYNCS_TYPE_VAR_MASK
    | None => SYNCS_TYPE_VAR_NOT_DEFINED
    end).
Definition reply_value (v : option variable) : list byte :=
  match v with Some v => var_value v | None => [] end.

(** The client at slot [c] gets one packet. *)
Lemma run_reply `{!Lossless} c p h v w (Q : Z -> world -> Prop) :
  winv w -> (c < SYNCS_CLIENT_MAXIMUM)%nat -> packet_full p -> packet_wire p = encode_frame (h, v) ->
  (forall w', winv w' -> w_vars w' = w_vars w -> w_net w' = w_net w ->
    w_log w' = w_log w ++ transmit_to (w_server w) (encode_frame (h, v)) c -> Q 0 w') ->
  wp (_ ← syncs_client_send c p;
      _ ← client_upd c (fun cl => cl <| cl_tx_event_count ::= incr_i32 |>);
      mret 0) Q w.
Proof.
  intros Hw Hc Hp Hwire HQ. wp_step. apply run_client_send'; [done..|]. intros r. rewrite Hwire.
  set (es := transmit_to _ _ _) in *. wp_step.
  apply run_client_counter; [by apply winv_emits|done|done|]. intros w2 Hw2 Hv2 Hn2 Hl2. wp_step.
  unfold w_vars, w_net, on_server in Hv2, Hn2. rewrite io_emits_server in Hv2, Hn2.
  apply HQ; [done..|]. rewrite Hl2. exact (io_log_emits es w).
Qed.

Lemma run_client_read `{!Lossless} c id w :
  winv w -> (c < SYNCS_CLIENT_MAXIMUM)%nat -> id_wf id -> id_is_free id = false ->
  let v := (abs w).1 !! id in
  wp (syncs_client_read c id) (fun r w' => r = 0 /\ w_vars w' = w_vars w /\ w_net w' = w_net w /\
    exists h, request_header (reply_type v) id (zlen (reply_value v)) h /\
      w_log w' = w_log w ++ transmit_to (w_server w) (encode_frame (h, reply_value v)) c) w.
Proof.
  intros Hw Hc Hid Hf. cbn zeta. unfold syncs_client_read. wp_step. apply run_stack_packet.
  intros p Hp (_ & Hcrc & _ & _ & Hd0 & Hd1 & Huc & _ & _). wp_step. apply wp_server_get.
  rewrite syncs_fill_header_eq. unfold packet_full in Hp.
  destruct p as [[m0 crc t0 i0 sync uc n0 m1] b]. cbn [pk_header pk_buffer] in *. simpl in Hcrc, Hd0, Hd1, Huc.
  destruct (w_vars_pair w) as (l & n & Hv).
  assert ((abs w).1 !! id = match syncs_find_event (w_server w) id with
    | Some e => variable_of <$> w_events w !! e | None => None end) as ->.
  { rewrite (abs_of w l n) by done. simpl. rewrite directory_find by (done || by eapply table_unique).
    assert (w_events w = l) as -> by by injection Hv. unfold syncs_find_event.
    by assert (sv_events (w_server w) = l) as -> by by injection Hv. }
  destruct (syncs_find_event (w_server w) id) as [e|] eqn:E.
  - apply scan_lookup in E as (ev & Hev & _). change (w_events w !! e = Some ev) in Hev. rewrite Hev.
    pose proof (swf_event _ Hw e ev Hev) as Hwf. pose proof (ewf_data ev Hwf). pose proof (ewf_size ev Hwf).
    wp_step. wp_step. apply (run_event_at e ev); [done|]. wp_step. apply wp_memcpy; [clia..|]. wp_step.
    rewrite u16_small by clia. unfold set_with. cbn [hd_type hd_magic].
    eapply run_reply; [done|done| | |].
    { unfold packet_full. cbn [pk_buffer]. rewrite zlen_mem_put; [done|lia|clia]. }
    { apply (packet_wire_frame _ _ (ev_data_size ev)); [done|clia|by apply payload_copy]. }
    intros w' _ Hv' Hn' Hl'. split_and!; [done..|]. eexists. split; [|exact Hl'].
    cbn [fmap option_fmap option_map reply_value].
    change (var_value (variable_of ev)) with (ev_value ev). rewrite zlen_ev_value by done.
    apply made_header_request; try done; [|simpl; clia]. unfold reply_type. cbn [var_type variable_of].
    rewrite (ewf_type ev Hwf). apply lor_range; [lia|done|]. pose proof (ewf_type ev Hwf) as Ht.
    rewrite <- Ht. change SYNCS_TYPE_VAR_MASK with (Z.land 0xf00 (2 ^ 32 - 1)). rewrite Z.land_assoc, land_mask by lia.
    by apply Z.mod_pos_bound.
  - wp_step. wp_step. unfold set_with. cbn [hd_type hd_magic pk_header pk_buffer].
    eapply run_reply; [done|done|done|by apply (packet_wire_frame _ _ 0 []); [|clia|apply ztake_0]|].
    intros w' _ Hv' Hn' Hl'. split_and!; [done..|]. eexists. split; [|exact Hl'].
    by apply made_header_request.
Qed.

(** ** Requests that arrive whole *)

(** Counting the packet changes nothing else. *)
Lemma run_packet_counted c (m : SM unit) h data w (Q : Z -> world -> Prop) :
  packet_operation c h data = Some m -> (c < SYNCS_CLIENT_MAXIMUM)%nat ->
  wp m (fun _ w1 => winv w1 /\
    forall w2, winv w2 -> observed w2 = observed w1 -> Q 0 w2) w ->
  wp (syncs_client_process_packet c h data) Q w.
Proof.
  intros Hop Hc Hm. unfold syncs_client_process_packet. rewrite Hop. wp_step.
  eapply wp_mono; [exact Hm|]. intros u w1 [Hw1 HQ]. wp_step.
  apply run_client_counter; [done|done|done|]. intros w2 Hw2 Hv Hn Hl. wp_step. apply HQ; [done|].
  unfold observed. by rewrite Hv, Hn, Hl.
Qed.

Lemma handler_read `{!Lossless} c cl f w :
  winv w -> w_clients w !! c = Some cl -> pending cl = [] -> frame_wf f ->
  id_is_free (hd_id f.1) = false -> Z.land (hd_type f.1) SYNCS_TYPE_MSG_MASK = SYNCS_TYPE_READ ->
  let v := (abs w).1 !! hd_id f.1 in
  wp (syncs_client_handler c (RecvData (encode_frame f))) (fun r w' => r = 0 /\ abs w' = abs w /\
    exists h, request_header (reply_type v) (hd_id f.1) (zlen (reply_value v)) h /\
      w_log w' = w_log w ++ transmit_to (w_server w) (encode_frame (h, reply_value v)) c) w.
Proof.
  intros Hw Hcl Hp Hf Hid Hmsg. cbn zeta. set (v := (abs w).1 !! hd_id f.1).
  assert (c < SYNCS_CLIENT_MAXIMUM)%nat as Hc.
  { apply lookup_lt_Some in Hcl. by rewrite <- (swf_clients (w_server w)). }
  eapply wp_mono; [apply (run_handler_frame c cl f w (fun o => o.1.1 = w_vars w /\
    exists h, request_header (reply_type v) (hd_id f.1) (zlen (reply_value v)) h /\
      o.2 = w_log w ++ transmit_to (w_server w) (encode_frame (h, reply_value v)) c)); [done..|]|].
  - intros w1 data Hw1 Ho _ _ _. pose proof (f_equal (fun o => o.1.1) Ho) as Hv1. cbn in Hv1.
    pose proof (f_equal (fun o => o.1.2) Ho) as Hn1. pose proof (f_equal snd Ho) as Hl1. cbn in Hn1, Hl1.
    eapply run_packet_counted; [unfold packet_operation; cbn zeta; by rewrite Hmsg|done|].
    wp_step. eapply wp_mono; [apply wp_and; [apply (safe_client_read c (hd_id f.1)); done|
      apply (run_client_read c (hd_id f.1)); [done|done|apply Hf|done]]|].
    intros r w2 (Hw2 & _ & Hv2 & Hn2 & h & Hh & Hl2). wp_step. split; [done|].
    intros w3 Hw3 Ho3. rewrite Ho3. unfold observed. cbn [fst snd]. split; [congruence|].
    rewrite (abs_ext w1 w Hv1) in Hh, Hl2. fold v in Hh, Hl2.
    exists h. split; [done|]. by rewrite Hl2, Hl1, (transmit_to_view (w_server w1) (w_server w)).
  - intros r w' (-> & Hv' & Hrest). split; [done|]. split; [by apply abs_ext|done].
Qed.

(** What an accepted write leaves: the slot [ev] of the variable, and the log
    with the callback and the publication. *)
Definition write_effect (c : nat) (f : frame) (w : world)
    (o : (list syncs_event * Z) * (list (Z * sockaddr_in) * Z) * list io) : Prop :=
  let st := (spec_write c (hd_id f.1) (hd_type f.1) f.2 (abs w)).2 in
  (directory o.1.1.1, o.1.1.2) = st /\
  exists ev h, st.1 !! hd_id f.1 = Some (variable_of ev) /\ event_wf ev /\ ev_id ev = hd_id f.1 /\
    ev_producer ev = Some c /\ event_header (write_pflags (hd_type f.1)) ev h /\ frame_wf (h, f.2) /\
    o.2 = w_log w ++ callback_io ev (hd_id f.1) ++
      (publish_to (write_pflags (hd_type f.1)) ev ≫= transmit_to (w_server w) (encode_frame (h, f.2))).

(** What the dispatcher makes of an accepted write. *)
Lemma process_write `{!Lossless} c f data w w1 :
  winv w1 -> observed w1 = observed w -> (c < SYNCS_CLIENT_MAXIMUM)%nat -> frame_wf f ->
  id_is_free (hd_id f.1) = false -> Z.land (hd_type f.1) SYNCS_TYPE_MSG_MASK = SYNCS_TYPE_WRITE ->
  (spec_write c (hd_id f.1) (hd_type f.1) f.2 (abs w)).1 = 0 ->
  hd_data_size f.1 <= zlen data -> ztake (hd_data_size f.1) data = f.2 ->
  wp (syncs_client_process_packet c f.1 data) (fun _ w2 => write_effect c f w (observed w2)) w1.
Proof.
  intros Hw1 Ho Hc Hf Hid Hmsg Hok Hd Hval. pose proof Hf as (Hwf & _ & Hsz & Hmax).
  pose proof (f_equal (fun o => o.1.1) Ho) as Hv1. cbn in Hv1.
  pose proof (f_equal (fun o => o.1.2) Ho) as Hn1. pose proof (f_equal snd Ho) as Hl1. cbn in Hn1, Hl1.
  pose proof (abs_ext w1 w Hv1) as Ha1. pose proof (zlen_nonneg f.2).
  eapply run_packet_counted; [unfold packet_operation; cbn zeta; by rewrite Hmsg|done|].
  wp_step. destruct (w_vars_pair w1) as (l & uc & Hv).
  eapply wp_mono; [apply wp_and; [apply wp_wlp; [apply (safe_client_write c (hd_id f.1)); first [done|lia]|
    apply (write_refines w1 Hw1 l uc Hv c (hd_id f.1) (hd_type f.1) data (hd_data_size f.1)); first [done|lia]]|
    apply (run_client_write_io w1 c (hd_id f.1) (hd_type f.1) data (hd_data_size f.1)); first [done|lia]]|].
  intros r w2 ((Hw2 & Hspec) & Hio). rewrite Ha1, Hval in Hspec. wp_step. split; [done|].
  intros w3 Hw3 Ho3. rewrite Ho3. pose proof (f_equal fst Hspec) as Hr. cbn [fst] in Hr.
  rewrite Hok in Hr. destruct (Hio Hr) as (e & ev & h & Hev & Hide & Hvale & Hprod & Hh & Hwfh & Hlog).
  pose proof (f_equal snd Hspec) as Ha2. cbn [snd] in Ha2.
  pose proof (swf_event _ Hw2 e ev Hev) as Hevwf.
  assert (frame_wf (h, f.2)) as Hfh.
  { pose proof (ewf_type ev Hevwf) as Ht. pose proof Hh as (Hm & Hmd & _ & Hs & _). split_and!.
    - apply Hwfh; [rewrite Hide; apply Hwf|]. rewrite <- Ht.
      change SYNCS_TYPE_VAR_MASK with (Z.land 0xf00 (2 ^ 32 - 1)).
      rewrite Z.land_assoc, land_mask by lia. by apply Z.mod_pos_bound.
    - unfold header_good. cbn [fst]. by rewrite Hm, Hmd.
    - cbn [fst snd]. by rewrite Hs, <- (zlen_ev_value ev Hevwf), Hvale, Hval.
    - exact Hmax. }
  split; [exact Ha2|]. exists ev, h. split_and!; [|done..|].
  - cbn zeta. rewrite <- Ha2. unfold abs, w_vars, on_server, vars_view. simpl.
    apply directory_lookup_Some; [apply Hw2|]. split; [done|]. by exists e, ev.
  - unfold observed. cbn [snd]. rewrite Hlog, Hval, Hl1. do 2 f_equal.
    apply list_bind_ext; [|done]. intros d. by apply transmit_to_view.
Qed.

Lemma handler_write `{!Lossless} c cl f w :
  winv w -> w_clients w !! c = Some cl -> pending cl = [] -> frame_wf f ->
  id_is_free (hd_id f.1) = false -> Z.land (hd_type f.1) SYNCS_TYPE_MSG_MASK = SYNCS_TYPE_WRITE ->
  (spec_write c (hd_id f.1) (hd_type f.1) f.2 (abs w)).1 = 0 ->
  wp (syncs_client_handler c (RecvData (encode_frame f))) (fun r w' => r = 0 /\
    write_effect c f w (observed w')) w.
Proof.
  intros Hw Hcl Hp Hf Hid Hmsg Hok.
  apply (run_handler_frame c cl f w (write_effect c f w)); [done..|]. intros w1 data Hw1 Ho Hd _ Hval.
  apply process_write; try done. apply lookup_lt_Some in Hcl. by rewrite <- (swf_clients (w_server w)).
Qed.
End reply.
