(* ===== verification/ServerResend.v ===== *)
(** * Server: a subscription to a variable that has a value

    A client that subscribes says which version of the variable it has seen;
    the server sends it the value when there is a newer one, and only then. *)

From stdpp Require Import gmap.
From S2P Require Import Prelude.
From S2P Require Import Monad.
From S2P Require Import Types.
From S2P Require Import Net.
From S2P Require Import Framing.
From S2P Require Import Wire.
From S2P Require Import ServerState.
From S2P Require Import ServerEvents.
From S2P Require Import ServerPackets.
From S2P Require Import Handler.
From S2P Require Import ServerInv.
From S2P Require Import ServerSafe.
From S2P Require Import ServerLoop.
From S2P Require Import EventSpec.
From S2P Require Import Directory.
From S2P Require Import Refinement.
From S2P Require Import Publish.
From S2P Require Import ServerProps.
From S2P Require Import ServerData.
From S2P Require Import ServerReply.

(** The type word of a value sent again. *)
Definition resend_type : Z := Z.lor SYNCS_TYPE_EVENT SYNCS_STATUS_LOST.

(** The packet a subscription with counter [uc] causes, if any. *)
Definition resend_log (id : syncsid_t) (v : variable) (uc : Z) (s : syncs_server) (c : nat) (log log' : list io) : Prop :=
  if uc <? var_version v then
    exists h, request_header resend_type id (zlen (var_value v)) h /\
      log' = log ++ transmit_to s (encode_frame (h, var_value v)) c
  else log' = log.

Section resend.
Context `{Env}.

#[export] Instance keeps_log_add_client c e : Keeps w_log (syncs_add_client_to_event c e).
Proof.
  unfold syncs_add_client_to_event. apply keeps_bind; [apply _|]. intros ev.
  destruct (scan _ _); [apply _|]. destruct (scan _ _); [|apply _].
  apply keeps_bind; [apply keeps_log_event_upd|intros ?]. apply keeps_bind; [apply keeps_log_event_upd|intros ?].
  apply keeps_bind; [apply keeps_log_client_upd|intros ?]. apply _.
Qed.

#[export] Instance keeps_net_add_client c e : Keeps w_net (syncs_add_client_to_event c e).
Proof.
  unfold syncs_add_client_to_event. apply keeps_bind; [apply _|]. intros ev.
  destruct (scan _ _); [apply _|]. destruct (scan _ _); [|apply _].
  apply keeps_bind; [apply keeps_net_event_upd|intros ?]. apply keeps_bind; [apply keeps_net_event_upd|intros ?].
  apply keeps_bind; [by apply keeps_net_client_upd|intros ?]. apply _.
Qed.

Context `{!Lossless}.

Lemma run_resend_event c e ev w (Q : Z -> world -> Prop) :
  winv w -> (c < SYNCS_CLIENT_MAXIMUM)%nat -> w_events w !! e = Some ev -> id_wf (ev_id ev) ->
  (forall w' h, winv w' -> w_vars w' = w_vars w -> w_net w' = w_net w ->
    request_header resend_type (ev_id ev) (ev_data_size ev) h ->
    w_log w' = w_log w ++ transmit_to (w_server w) (encode_frame (h, ev_value ev)) c -> Q 0 w') ->
  wp (syncs_resend_event c e) Q w.
Proof.
  intros Hw Hc Hev Hid HQ. pose proof (swf_event _ Hw e ev Hev) as Hwf.
  pose proof (ewf_data ev Hwf). pose proof (ewf_size ev Hwf).
  unfold syncs_resend_event. wp_step. apply run_stack_packet.
  intros p Hp (_ & Hcrc & _ & _ & Hd0 & Hd1 & Huc & _ & _). wp_step. apply (run_event_at e ev); [done|]. cbn zeta.
  rewrite syncs_fill_header_eq. destruct p as [[m0 crc t0 i0 sync uc n0 m1] b]. unfold packet_full in Hp.
  cbn [pk_header pk_buffer] in *. simpl in Hcrc, Hd0, Hd1, Huc.
  wp_step. apply wp_memcpy; [clia..|]. rewrite u16_small by clia.
  eapply run_reply; [done|done| | |].
  { unfold packet_full. cbn [pk_buffer]. rewrite zlen_mem_put; [done|lia|clia]. }
  { apply (packet_wire_frame _ _ (ev_data_size ev)); [done|clia|by apply payload_copy]. }
  intros w' Hw' Hv' Hn' Hl'. eapply HQ; [done..| |exact Hl'].
  apply made_header_request; try done. simpl. clia.
Qed.

Lemma run_subscribe c id flags uc v w :
  winv w -> (c < SYNCS_CLIENT_MAXIMUM)%nat -> id_is_free id = false -> id_wf id ->
  (abs w).1 !! id = Some v -> types_compatible flags (var_type v) = true ->
  wp (syncs_client_subscribe c id flags uc) (fun r w' => r = 0 /\ winv w' /\
    abs w' = (spec_subscribe c id flags (abs w)).2 /\ resend_log id v uc (w_server w) c (w_log w) (w_log w')) w.
Proof.
  intros Hw Hc Hf Hid Hv Ht. destruct (w_vars_pair w) as (l & n & Hvars).
  destruct (directory_slot w id v Hw Hf Hv) as (e & ev & Efind & Hev & Hide & Hval & Hwf).
  assert (wp (syncs_client_subscribe c id flags uc) (fun r w' => r = 0 /\
    resend_log id v uc (w_server w) c (w_log w) (w_log w')) w) as Hio.
  { unfold syncs_client_subscribe, find_or_create. wp_step. wp_step. apply wp_server_get. rewrite Efind. wp_step.
    wp_step. apply (run_event_at e ev); [done|]. fold (types_compatible flags (ev_data_type ev)).
    assert (ev_data_type ev = var_type v) as -> by by rewrite <- Hval. rewrite Ht.
    assert (w_events w = l) as El by by injection Hvars.
    assert (e < SYNCS_EVENT_MAXIMUM)%nat as He.
    { rewrite <- (swf_events _ Hw). by eapply lookup_lt_Some. }
    wp_step. eapply wp_mono; [eapply wp_quiet with (Q := fun _ w' => w_vars w' = (alter (subscribe_event c) e l, n));
      [apply _|apply _|by apply safe_add_client_to_event|by eapply run_add_client_to_event]|].
    intros r w1 (Hw1 & Hv1 & Hn1 & Hl1).
    assert (w_events w1 !! e = Some (subscribe_event c ev)) as Hev1.
    { assert (w_events w1 = alter (subscribe_event c) e l) as -> by by injection Hv1.
      by rewrite list_lookup_alter_eq, <- El, Hev. }
    wp_step. apply (run_event_at e (subscribe_event c ev)); [done|].
    pose proof (variable_of_subscribe c ev Hwf Hc) as Hsub. rewrite Hval in Hsub.
    pose proof (f_equal var_version Hsub) as Hver. pose proof (f_equal var_value Hsub) as Hvalue. simpl in Hver, Hvalue.
    unfold resend_log. rewrite Hver. destruct (uc <? var_version v).
    - wp_step. eapply (run_resend_event c e); [done..|rewrite subscribe_event_id; congruence|].
      intros w' h _ _ _ Hh Hl'. wp_step. split; [done|]. exists h. rewrite subscribe_event_id, Hide in Hh.
      change (ev_value (subscribe_event c ev)) with (ztake (ev_data_size (subscribe_event c ev)) (ev_data (subscribe_event c ev))) in Hl'.
      rewrite Hvalue in Hl'. split.
      + rewrite <- Hvalue. pose proof (swf_event _ Hw1 e _ Hev1) as Hwf1.
        change (ztake _ _) with (ev_value (subscribe_event c ev)). by rewrite zlen_ev_value.
      + by rewrite Hl', Hl1, (transmit_to_view (w_server w1) (w_server w)).
    - wp_step. by rewrite Hl1. }
  pose proof (wp_wlp _ _ _ _ (wp_and _ _ _ _ (safe_client_subscribe c id flags uc w Hw Hc) Hio)
    (subscribe_refines w Hw l n Hvars c id flags uc Hf Hc)) as Hs.
  eapply wp_mono; [exact Hs|]. intros r w' ((Hw' & Hr & Hlog) & Ha). split_and!; [done..| |done].
  exact (f_equal snd Ha).
Qed.

Lemma handler_subscribe c cl f v w :
  winv w -> w_clients w !! c = Some cl -> pending cl = [] -> frame_wf f ->
  id_is_free (hd_id f.1) = false -> Z.land (hd_type f.1) SYNCS_TYPE_MSG_MASK = SYNCS_TYPE_SUBSCRIBE ->
  (abs w).1 !! hd_id f.1 = Some v -> types_compatible (hd_type f.1) (var_type v) = true ->
  wp (syncs_client_handler c (RecvData (encode_frame f))) (fun r w' => r = 0 /\
    abs w' = (spec_subscribe c (hd_id f.1) (hd_type f.1) (abs w)).2 /\
    resend_log (hd_id f.1) v (hd_update_counter f.1) (w_server w) c (w_log w) (w_log w')) w.
Proof.
  intros Hw Hcl Hp Hf Hid Hmsg Hv Ht.
  assert (c < SYNCS_CLIENT_MAXIMUM)%nat as Hc.
  { apply lookup_lt_Some in Hcl. by rewrite <- (swf_clients (w_server w)). }
  eapply wp_mono; [apply (run_handler_frame c cl f w (fun o =>
    (directory o.1.1.1, o.1.1.2) = (spec_subscribe c (hd_id f.1) (hd_type f.1) (abs w)).2 /\
    resend_log (hd_id f.1) v (hd_update_counter f.1) (w_server w) c (w_log w) o.2)); [done..|]|].
  - intros w1 data Hw1 Ho _ _ _. pose proof (f_equal (fun o => o.1.1) Ho) as Hv1. cbn in Hv1.
    pose proof (f_equal (fun o => o.1.2) Ho) as Hn1. pose proof (f_equal snd Ho) as Hl1. cbn in Hn1, Hl1.
    pose proof (abs_ext w1 w Hv1) as Ha1.
    eapply run_packet_counted; [unfold packet_operation; cbn zeta; by rewrite Hmsg|done|].
    wp_step. eapply wp_mono; [apply (run_subscribe c (hd_id f.1) (hd_type f.1) (hd_update_counter f.1) v);
      [done|done|done|apply Hf|by rewrite Ha1|done]|].
    intros r w2 (_ & Hw2 & Ha2 & Hlog). wp_step. split; [done|]. intros w3 Hw3 ->. rewrite Ha1 in Ha2.
    split; [exact Ha2|]. unfold observed. cbn [snd]. rewrite Hl1 in Hlog. unfold resend_log in *.
    destruct (_ <? _); [|done]. destruct Hlog as (h & Hh & Hlog). exists h. split; [done|].
    by rewrite Hlog, (transmit_to_view (w_server w1) (w_server w)).
  - intros r w' (-> & Ha & Hlog). by split_and!.
Qed.
End resend.

(** C13: a subscription to a variable of a compatible type makes the client a
    subscriber; the server then sends it the variable's value, in one packet,
    when the client's counter is below the variable's version, and otherwise
    sends nothing. *)
Theorem subscribe_resends `{Env} `{!Lossless} c cl f v w :
  winv w -> w_clients w !! c = Some cl -> pending cl = [] -> frame_wf f ->
  id_is_free (hd_id f.1) = false -> Z.land (hd_type f.1) SYNCS_TYPE_MSG_MASK = SYNCS_TYPE_SUBSCRIBE ->
  (abs w).1 !! hd_id f.1 = Some v -> types_compatible (hd_type f.1) (var_type v) = true ->
  exists w', syncs_client_handler c (RecvData (encode_frame f)) w = Ok (0, w') /\
    abs w' = (spec_subscribe c (hd_id f.1) (hd_type f.1) (abs w)).2 /\
    if hd_update_counter f.1 <? var_version v then
      exists h, request_header resend_type (hd_id f.1) (zlen (var_value v)) h /\
        w_log w' = w_log w ++ transmit_to (w_server w) (encode_frame (h, var_value v)) c
    else w_log w' = w_log w.
Proof.
  intros Hw Hcl Hp Hf Hid Hmsg Hv Ht.
  destruct (proj1 (wp_run _ _ _) (handler_subscribe c cl f v w Hw Hcl Hp Hf Hid Hmsg Hv Ht))
    as (r & w' & E & -> & Ha & Hlog). by exists w'.
Qed.

Section instances.
#[local] Existing Instance perfect_env.

(** The value is written a second time: its version becomes 1. *)
Definition demo_again : world := after demo_write demo.

Lemma demo_again_winv : winv demo_again.
Proof.
  apply winv_after, safe_epoll_callback; [apply demo_winv|].
  apply (chunk_ok _ _ _ 0); [apply demo_winv|by vm_compute..].
Qed.

Lemma subscribe_a_request : frame_wf subscribe_a /\ id_is_free (hd_id subscribe_a.1) = false /\
  Z.land (hd_type subscribe_a.1) SYNCS_TYPE_MSG_MASK = SYNCS_TYPE_SUBSCRIBE /\
  types_compatible (hd_type subscribe_a.1) SYNCS_TYPE_VAR_INT32 = true.
Proof. by vm_compute. Qed.

Lemma subscribe_resends_witness :
  exists cl v, w_clients demo_again !! 1%nat = Some cl /\ (abs demo_again).1 !! syncs_idstr name_a = Some v /\
    var_version v = 1 /\
  exists w', syncs_client_handler 1 (RecvData (encode_frame subscribe_a)) demo_again = Ok (0, w') /\
    abs w' = (spec_subscribe 1 (syncs_idstr name_a) (hd_type subscribe_a.1) (abs demo_again)).2 /\
    if 0 <? var_version v then
      exists h, request_header resend_type (syncs_idstr name_a) (zlen (var_value v)) h /\
        w_log w' = w_log demo_again ++ transmit_to (w_server demo_again) (encode_frame (h, var_value v)) 1
    else w_log w' = w_log demo_again.
Proof.
  destruct (client_view (w_clients demo_again) 1 8) as (cl & Hcl & Hp & _); [by vm_compute|].
  destruct (variable_view (abs demo_again).1 (syncs_idstr name_a) SYNCS_TYPE_VAR_INT32 1) as (v & Hv & Ht & Hver); [by vm_compute|].
  destruct subscribe_a_request as (Hf & Hid & Hmsg & Hty). rewrite <- Ht in Hty.
  exists cl, v. split; [exact Hcl|]. split; [exact Hv|]. split; [exact Hver|].
  exact (subscribe_resends 1 cl subscribe_a v demo_again demo_again_winv Hcl Hp Hf Hid Hmsg Hv Hty).
Defined.
End instances.
