(* ===== verification/ServerLists.v ===== *)
(** * Server: the answer to a list request

    A list reply is a sequence of packets: full ones of [ls_max] entries, then
    one with the rest, marked as the last.  Their payloads together are one
    entry for each slot in use, in slot order. *)

From S2P Require Import Prelude.
From S2P Require Import Monad.
From S2P Require Import Types.
From S2P Require Import Net.
From S2P Require Import Framing.
From S2P Require Import Wire.
From S2P Require Import ServerState.
From S2P Require Import ServerEvents.
From S2P Require Import ServerPackets.
From S2P Require Import ServerInv.
From S2P Require Import ServerSafe.
From S2P Require Import EventSpec.
From S2P Require Import Directory.
From S2P Require Import Refinement.
From S2P Require Import Publish.
From S2P Require Import Handler.
From S2P Require Import ServerReply.

(** ** Packets of a list *)

(** What both ends fix in the header of a list packet. *)
Definition list_header (type seqn : Z) (h : syncs_header) : Prop :=
  header_wf h /\ header_good h = true /\ hd_type h = type /\ id_char (hd_id h) 3 = u8 seqn.

(** Packet number [k], with the entries [es]. *)
Definition list_frame (type seqn k last : Z) (es : list (list byte)) (f : frame) : Prop :=
  list_header type seqn f.1 /\ id_char (hd_id f.1) 0 = u8 k /\
  id_char (hd_id f.1) 2 = Z.of_nat (length es) /\ id_char (hd_id f.1) 4 = last /\
  frame_wf f /\ f.2 = concat es.

(** The first [k] packets, all full. *)
Inductive full_frames (type seqn max : Z) : Z -> list (list byte) -> list frame -> Prop :=
  | full_nil : full_frames type seqn max 0 [] []
  | full_snoc k es fs chunk f :
      full_frames type seqn max k es fs -> list_frame type seqn k 0 chunk f ->
      Z.of_nat (length chunk) = max ->
      full_frames type seqn max (k + 1) (es ++ chunk) (fs ++ [f]).

Definition list_frames (type seqn max : Z) (es : list (list byte)) (fs : list frame) : Prop :=
  exists k es0 fs0 chunk f, full_frames type seqn max k es0 fs0 /\
    list_frame type seqn k 1 chunk f /\ Z.of_nat (length chunk) < max /\
    es = es0 ++ chunk /\ fs = fs0 ++ [f].

(** ** The three lists *)

(** [V] is the part of the server the list shows, [live] its slots in use and
    [entry] what an entry says of its slot. *)
Class ListView `{Env} (ls : list_source) {B} (V : syncs_server -> B) (live : B -> nat -> bool)
    (entry : B -> nat -> list byte -> Prop) : Prop := {
  lv_max : 1 <= ls_max ls <= 11;
  lv_size : 1 <= ls_size ls;
  lv_type : 0 <= ls_type ls < 2 ^ 32;
  lv_counter s c cl :
    sv_clients s !! c = Some cl ->
    V (s <| sv_clients ::= <[c := cl <| cl_tx_event_count ::= incr_i32 |>]> |>) = V s;
  lv_live s i : server_wf s -> (i < ls_slots ls)%nat -> ls_live ls s i = Some (live (V s) i);
  lv_fill i n b w : winv w -> (i < ls_slots ls)%nat -> 0 <= n < ls_max ls ->
    zlen b = SYNCS_EVENT_DATA_SIZE_MAXIMUM ->
    wp (ls_fill ls i n b) (fun b' w' => w' = w /\ zlen b' = SYNCS_EVENT_DATA_SIZE_MAXIMUM /\
      ztake (n * ls_size ls) b' = ztake (n * ls_size ls) b /\
      entry (V (w_server w)) i (mem_sub (n * ls_size ls) (ls_size ls) b')) w }.

(** The slots shown, in order. *)
Definition list_slots (live : nat -> bool) (n : nat) : list nat := filter (fun i => live i = true) (seq 0 n).

Lemma list_slots_S live n :
  list_slots live (n + 1) = list_slots live n ++ (if live n then [n] else []).
Proof.
  unfold list_slots. rewrite seq_app, list.filter_app. f_equal. simpl. rewrite filter_cons, filter_nil.
  by destruct (live n).
Qed.

(** An event as [struct syncs_event_info] shows it; [time] is unspecified. *)
Definition event_entry (l : list syncs_event) (i : nat) (e : list byte) : Prop :=
  exists ev, l !! i = Some ev /\
    mem_sub 0 32 e = id_chars (ev_id ev) /\
    mem_sub 32 4 e = le_split 4 (ev_data_type ev) /\
    (let n := Z.min (ev_data_size ev) SYNCS_VARIABLE_INFO_SIZE_MAXIMUM in
     mem_sub 36 n e = ztake n (ev_data ev)) /\
    mem_sub 68 2 e = le_split 2 (ev_data_size ev) /\
    mem_sub 78 4 e = le_split 4 (ev_count ev) /\
    mem_sub 82 4 e = le_split 4 (ev_consumers_count ev) /\
    mem_sub 86 4 e = le_split 4 (ev_producers_count ev).

(** Runs the assignments of an entry. *)
Ltac fill := repeat (wp_step; apply wp_put_field; [zl..|intros ?Hz]).

(** Reads a field of a buffer written field by field. *)
Ltac read_field :=
  repeat first
    [ rewrite mem_sub_put_at by (zl || lia)
    | rewrite mem_sub_put_ne by (zl || lia || (first [left; zl|right; zl])) ].

Section views.
Context `{Env}.

#[export] Instance event_list_view :
  ListView event_list sv_events (fun l i => from_option (fun e => negb (id_is_free (ev_id e))) false (l !! i))
    event_entry.
Proof.
  split; [done|done|done|done| |].
  - intros s i Hs Hi. simpl in *. destruct (lookup_lt_is_Some_2 (sv_events s) i) as [ev E]; [by rewrite swf_events|].
    by rewrite E.
  - intros i n b w Hw Hi Hn Hb. change (ls_max event_list) with 5 in Hn. simpl.
    unfold event_info_fill. wp_step. apply wp_event_at; [done..|]. intros ev Hev Hwf.
    pose proof (ewf_data ev Hwf). pose proof (ewf_size ev Hwf).
    consts. fill. apply wp_memcpy; [zl..|].
    set (m := Z.min (ev_data_size ev) 32).
    assert (zlen (ztake m (ev_data ev)) = m) as Hm by zl.
    split; [done|]. split; [rewrite zlen_mem_put; zl|].
    assert (forall b : list byte, ztake (n * 90) b = mem_sub 0 (n * 90) b) as Ht by (intros ?; unfold mem_sub; by rewrite zdrop_0).
    split; [rewrite !Ht; read_field; done|]. exists ev. split; [done|]. cbn zeta.
    change SYNCS_VARIABLE_INFO_SIZE_MAXIMUM with 32. fold m.
    split_and!; rewrite mem_sub_sub by lia; rewrite ?Z.add_0_r; by read_field.
Qed.

(** A channel, as [struct syncs_channel_info] shows it. *)
Definition channel_entry (l : list syncs_channel) (i : nat) (e : list byte) : Prop :=
  exists ch, l !! i = Some ch /\
    mem_sub 0 32 e = id_chars (ch_id ch) /\
    mem_sub 32 4 e = le_split 4 (ch_anons_count ch) /\
    mem_sub 36 4 e = le_split 4 (ch_request_count ch) /\
    mem_sub 40 4 e = le_split 4 (tk_ip (ch_ticket ch)) /\
    mem_sub 44 2 e = le_split 2 (tk_port (ch_ticket ch)).

#[export] Instance channel_list_view :
  ListView channel_list sv_channels (fun l i => from_option (fun c => negb (id_is_free (ch_id c))) false (l !! i))
    channel_entry.
Proof.
  split; [done|done|done|done| |].
  - intros s i Hs Hi. simpl in *. destruct (lookup_lt_is_Some_2 (sv_channels s) i) as [ch E]; [by rewrite swf_channels|].
    by rewrite E.
  - intros i n b w Hw Hi Hn Hb. change (ls_max channel_list) with 11 in Hn. simpl.
    unfold channel_info_fill. wp_step. apply wp_channel_at; [done..|]. intros ch Hch.
    consts. fill. apply wp_put_field; [zl..|intros Hz4].
    split; [done|]. split; [zl|].
    assert (forall b : list byte, ztake (n * 46) b = mem_sub 0 (n * 46) b) as Ht by (intros ?; unfold mem_sub; by rewrite zdrop_0).
    split; [rewrite !Ht; read_field; done|]. exists ch. split; [done|].
    split_and!; rewrite mem_sub_sub by lia; rewrite ?Z.add_0_r; by read_field.
Qed.

(** What of a client the list of clients shows: its identifier and address.
    The counters change while the list is sent. *)
Definition shown_client (cl : syncs_client) : syncsid_t * Z * sockaddr_in := (cl_id cl, cl_socketfd cl, cl_addr cl).

Definition client_entry (l : list (syncsid_t * Z * sockaddr_in)) (i : nat) (e : list byte) : Prop :=
  exists id fd addr, l !! i = Some (id, fd, addr) /\
    mem_sub 0 32 e = id_chars id /\ mem_sub 48 4 e = le_split 4 (sin_addr addr).

#[export] Instance client_list_view :
  ListView client_list (fun s => shown_client <$> sv_clients s)
    (fun l i => from_option (fun c => negb (c.1.2 =? -1)) false (l !! i)) client_entry.
Proof.
  split; [done|done|done| | |].
  - intros s c cl Hcl. simpl. rewrite list_fmap_insert. apply list_insert_id. by rewrite list_lookup_fmap, Hcl.
  - intros s i Hs Hi. simpl in *. destruct (lookup_lt_is_Some_2 (sv_clients s) i) as [cl E]; [by rewrite swf_clients|].
    by rewrite list_lookup_fmap, E.
  - intros i n b w Hw Hi Hn Hb. change (ls_max client_list) with 9 in Hn. simpl.
    unfold client_info_fill. wp_step. apply wp_client_at; [done..|]. intros cl Hcl _.
    unfold sizeof_client_info. consts. fill. apply wp_put_field; [zl..|intros Hz5].
    split; [done|]. split; [zl|].
    assert (forall b : list byte, ztake (n * 52) b = mem_sub 0 (n * 52) b) as Ht by (intros ?; unfold mem_sub; by rewrite zdrop_0).
    split; [rewrite !Ht; read_field; done|]. exists (cl_id cl), (cl_socketfd cl), (cl_addr cl).
    rewrite list_lookup_fmap, Hcl. split; [done|].
    split_and!; rewrite mem_sub_sub by lia; rewrite ?Z.add_0_r; by read_field.
Qed.
End views.

(** ** Sending *)

Section send.
Context `{Env} `{!Lossless} (ls : list_source) {B : Type} (V : syncs_server -> B).
Context (live : B -> nat -> bool) (entry : B -> nat -> list byte -> Prop).
Context `{!ListView ls V live entry}.

Definition list_view (w : world) : B * (list (Z * sockaddr_in) * Z) := (V (w_server w), w_net w).

(** The packet as [list_flush] sends it. *)
Definition flushed (n : Z) (p : syncs_packet) : syncs_packet :=
  set_id_char 2 n p <| pk_header ::= fun h => h <| hd_data_size := u16 (n * ls_size ls) |> |>.

Lemma run_list_flush c n p v w (Q : syncs_packet -> world -> Prop) :
  winv w -> (c < SYNCS_CLIENT_MAXIMUM)%nat -> packet_full p -> 0 <= n <= ls_max ls ->
  ztake (n * ls_size ls) (pk_buffer p) = v ->
  (forall w', winv w' -> list_view w' = list_view w ->
    w_log w' = w_log w ++ transmit_to (w_server w) (encode_frame (pk_header (flushed n p), v)) c ->
    Q (flushed n p) w') ->
  wp (list_flush ls c n p) Q w.
Proof.
  intros Hw Hc Hp Hn Hv HQ. unfold list_flush. cbn zeta. fold (flushed n p).
  assert (0 <= n * ls_size ls <= SYNCS_VARIABLE_SIZE_MAXIMUM) as Hsz.
  { pose proof (lv_size (ls := ls)). unfold ls_max in Hn.
    pose proof (Z.mul_div_le SYNCS_VARIABLE_SIZE_MAXIMUM (ls_size ls)). nia. }
  assert (packet_wire (flushed n p) = encode_frame (pk_header (flushed n p), v)) as Hwire.
  { destruct p as [h b]. apply (packet_wire_frame _ _ (n * ls_size ls)); [|done|done].
    cbn. by rewrite u16_small by clia. }
  wp_step. apply run_client_send'; [done|done|exact Hp|]. intros r. rewrite Hwire.
  set (es := transmit_to _ _ _) in *. wp_step.
  apply run_client_upd; [by apply winv_emits|done|]. intros cl Hcl. wp_step.
  unfold w_clients, on_server in Hcl. rewrite io_emits_server in Hcl. apply HQ.
  - apply winv_client_insert; [by apply winv_emits|]. pose proof (swf_client _ Hw c cl Hcl) as []. by split.
  - unfold list_view, w_net, on_server. simpl. rewrite io_emits_server. f_equal; [by apply lv_counter|].
    unfold net_view, endpoints. simpl. f_equal. rewrite list_fmap_insert. apply list_insert_id.
    by rewrite list_lookup_fmap, Hcl.
  - exact (io_log_emits es w).
Qed.

(** The header that goes with each packet. *)
Definition packet_header (seqn k last : Z) (p : syncs_packet) : Prop :=
  list_header (ls_type ls) seqn (pk_header p) /\ id_char (hd_id (pk_header p)) 0 = u8 k /\
  id_char (hd_id (pk_header p)) 4 = last.

Lemma list_header_id type seqn h a :
  list_header type seqn h -> id_wf a -> id_char a 3 = id_char (hd_id h) 3 ->
  list_header type seqn (h <| hd_id := a |>).
Proof.
  intros (Hwf & Hg & Hty & Hs) Ha H3. split_and!; [|exact Hg|exact Hty|by rewrite <- Hs, <- H3].
  unfold header_wf, id_wf in *. simpl. tauto.
Qed.

Lemma flushed_frame seqn k last p es v :
  packet_header seqn k last p -> packet_full p -> Z.of_nat (length es) <= ls_max ls ->
  Forall (fun e => zlen e = ls_size ls) es -> v = concat es ->
  list_frame (ls_type ls) seqn k last es (pk_header (flushed (Z.of_nat (length es)) p), v).
Proof.
  intros ((Hwf & Hg & Hty & Hseq) & Hno & Hlast) Hp Hn Hes ->. pose proof (lv_max (ls := ls)) as Hmax.
  assert (zlen (concat es) = Z.of_nat (length es) * ls_size ls) as Hz.
  { clear -Hes. induction Hes as [|e es He _ IH]; [done|]. cbn [concat length]. rewrite zlen_app. nia. }
  assert (0 <= Z.of_nat (length es) * ls_size ls <= SYNCS_VARIABLE_SIZE_MAXIMUM) as Hsz.
  { pose proof (lv_size (ls := ls)). unfold ls_max in Hn.
    pose proof (Z.mul_div_le SYNCS_VARIABLE_SIZE_MAXIMUM (ls_size ls)). nia. }
  destruct p as [[m0 crc t0 i0 sync uc n0 m1] b]. cbn in *.
  destruct Hwf as (Hw1 & Hw2 & Hw3 & Hw4 & Hw5 & Hw6 & Hw7 & Hw8 & Hw9).
  assert (header_wf (mk_header m0 crc t0 (id_set_char i0 2 (Z.of_nat (length es))) sync uc
    (u16 (Z.of_nat (length es) * ls_size ls)) m1)) as Hwf'.
  { pose proof (id_set_char_wf i0 2 (Z.of_nat (length es))).
    pose proof (u16_range (Z.of_nat (length es) * ls_size ls)). unfold header_wf. simpl in *. tauto. }
  refine (conj (conj Hwf' (conj Hg (conj Hty _))) (conj _ (conj _ (conj _ (conj (conj Hwf' (conj Hg (conj _ _))) eq_refl)))));
    simpl; rewrite ?id_char_set by lia; try done.
  - rewrite decide_True by done. apply u8_small. lia.
  - rewrite u16_small by clia. by rewrite Hz.
  - rewrite Hz. apply Hsz.
Qed.

Lemma flushed_header seqn k last n p :
  packet_header seqn k last p -> packet_header seqn k last (flushed n p).
Proof.
  intros (Hh & Hno & Hlast). destruct p as [h b]. unfold packet_header, flushed, set_id_char. cbn [pk_header].
  assert (list_header (ls_type ls) seqn (h <| hd_id := id_set_char (hd_id h) 2 n |>)) as (Hwf & Hg & Hty & Hs).
  { apply list_header_id; [done|apply id_set_char_wf|by rewrite id_char_set by lia]. }
  split_and!; [|by cbn; rewrite id_char_set by lia|by cbn; rewrite id_char_set by lia].
  refine (conj _ (conj Hg (conj Hty Hs))). pose proof (u16_range (n * ls_size ls)).
  unfold header_wf in *. simpl in *. tauto.
Qed.

Lemma set_char_header seqn k last k' last' j v p :
  packet_header seqn k last p -> (j = 0 \/ j = 4)%nat ->
  (if decide (j = 0)%nat then u8 v else u8 k) = u8 k' -> (if decide (j = 4)%nat then u8 v else last) = last' ->
  packet_header seqn k' last' (set_id_char j v p).
Proof.
  intros (Hh & Hno & Hlast) Hj E0 E4. destruct p as [h b]. unfold packet_header, set_id_char. cbn [pk_header].
  split.
  - apply list_header_id; [done|apply id_set_char_wf|]. rewrite id_char_set by lia. by rewrite decide_False by lia.
  - cbn in *. rewrite !id_char_set by lia. split; [by rewrite Hno|by rewrite Hlast].
Qed.

(** The frames sent so far, the entries of the packet being filled. *)
Definition sending (c : nat) (seqn : Z) (w : world) (k : nat) (acc : syncs_packet * Z) (w1 : world) : Prop :=
  exists no fs es chunk, acc.2 = Z.of_nat (length chunk) /\ acc.2 < ls_max ls /\ packet_full acc.1 /\
    packet_header seqn no 0 acc.1 /\ ztake (acc.2 * ls_size ls) (pk_buffer acc.1) = concat chunk /\
    full_frames (ls_type ls) seqn (ls_max ls) no es fs /\
    Forall2 (fun i e => zlen e = ls_size ls /\ entry (V (w_server w)) i e)
      (list_slots (live (V (w_server w))) k) (es ++ chunk) /\
    winv w1 /\ list_view w1 = list_view w /\
    w_log w1 = w_log w ++ (fs ≫= fun f => transmit_to (w_server w) (encode_frame f) c).

Lemma run_list_step c seqn w k acc w1 :
  (c < SYNCS_CLIENT_MAXIMUM)%nat -> (k < ls_slots ls)%nat -> sending c seqn w k acc w1 ->
  wp (list_step ls c acc k) (sending c seqn w (k + 1)) w1.
Proof.
  intros Hc Hk (no & fs & es & chunk & Hn & Hlt & Hp & Hh & Hb & Hfs & Hes & Hw1 & Hview & Hlog).
  destruct acc as [p n]. cbn [fst snd] in *. pose proof (lv_max (ls := ls)) as Hmax. pose proof (lv_size (ls := ls)) as Hsz.
  pose proof (f_equal fst Hview) as HV. pose proof (f_equal snd Hview) as Hnet. cbn in HV, Hnet.
  unfold list_step. wp_step. apply wp_server_get. wp_step.
  eapply wp_deref; [by apply lv_live; [apply Hw1|]|]. rewrite HV.
  pose proof (list_slots_S (live (V (w_server w))) k) as Hslots.
  destruct (live (V (w_server w)) k); [|rewrite app_nil_r in Hslots; wp_step;
    by exists no, fs, es, chunk; rewrite Hslots].
  wp_step. eapply wp_mono; [apply lv_fill; [done|done|lia|exact Hp]|].
  intros b' w2 (-> & Hb' & Hpre & Hent). rewrite HV in Hent. set (e := mem_sub _ _ b') in *.
  assert (n * ls_size ls + ls_size ls <= SYNCS_VARIABLE_SIZE_MAXIMUM) as Hroom.
  { unfold ls_max in Hlt. pose proof (Z.mul_div_le SYNCS_VARIABLE_SIZE_MAXIMUM (ls_size ls)). nia. }
  assert (zlen e = ls_size ls) as Hze by (subst e; apply zlen_mem_sub; clia || nia).
  assert (ztake ((n + 1) * ls_size ls) b' = concat (chunk ++ [e])) as Hb2.
  { rewrite concat_app. cbn [concat]. rewrite app_nil_r, <- Hb, <- Hpre. subst e.
    rewrite Z.mul_add_distr_r, Z.mul_1_l.
    assert (forall m (l : list byte), ztake m l = mem_sub 0 m l) as Ht by (intros; unfold mem_sub; by rewrite zdrop_0).
    rewrite !Ht. symmetry. apply mem_sub_split; nia. }
  assert (Z.of_nat (length (chunk ++ [e])) = n + 1) as Hlen by (rewrite length_app; simpl; lia).
  assert (Forall2 (fun i e => zlen e = ls_size ls /\ entry (V (w_server w)) i e)
    (list_slots (live (V (w_server w))) (k + 1)) (es ++ chunk ++ [e])) as Hes'.
  { rewrite Hslots, app_assoc. apply Forall2_app; [done|]. by repeat constructor. }
  assert (Forall (fun e => zlen e = ls_size ls) (chunk ++ [e])) as Hsizes.
  { apply (Forall2_Forall_r _ (fun e => zlen e = ls_size ls)) in Hes'; [by apply Forall_app in Hes' as [_ ?]|].
    apply Forall_true. by intros i x []. }
  rewrite u8_small by lia. destruct (Z.geb_spec (n + 1) (ls_max ls)) as [Hge|Hlt'].
  - wp_step. set (p' := p <| pk_buffer := b' |>).
    assert (packet_header seqn no 0 p') as Hh' by exact Hh.
    eapply (run_list_flush c (n + 1) p' (concat (chunk ++ [e])) w1); [done|done|exact Hb'|lia|exact Hb2|].
    intros w3 Hw3 Hview3 Hlog3. wp_step.
    set (f := (pk_header (flushed (n + 1) p'), concat (chunk ++ [e]))).
    exists (no + 1), (fs ++ [f]), (es ++ (chunk ++ [e])), []. split_and!; try done.
    + simpl. lia.
    + eapply (set_char_header seqn no 0); [by apply flushed_header|by left| |done].
      pose proof (flushed_header _ _ _ (n + 1) _ Hh') as (_ & -> & _). simpl. unfold u8.
      by rewrite Zplus_mod_idemp_l.
    + constructor; [done| |lia]. subst f. rewrite <- Hlen. apply flushed_frame; [done|exact Hb'|lia|exact Hsizes|done].
    + by rewrite app_nil_r.
    + congruence.
    + rewrite Hlog3, Hlog, bind_app, <- app_assoc. do 2 f_equal. subst f. simpl. rewrite app_nil_r.
      by apply transmit_to_view.
  - wp_step. exists no, fs, es, (chunk ++ [e]). split_and!; try done; lia.
Qed.

Lemma first_header seqn total p :
  header_wf (pk_header p) ->
  packet_header seqn 0 0 (set_id_char 4 0 (set_id_char 3 seqn (set_id_char 1 total (set_id_char 0 0
    (p <| pk_header ::= fun h => syncs_fill_basic_header h (ls_type ls) |>))))).
Proof.
  intros Hph. pose proof (lv_type (ls := ls)). destruct p as [[m0 crc t0 i0 sync uc n0 m1] b]. cbn [pk_header] in Hph.
  set (i1 := id_set_char i0 0 0). set (i2 := id_set_char i1 1 total). set (i3 := id_set_char i2 3 seqn).
  change (packet_header seqn 0 0 (mk_packet (mk_header SYNCS_PACKET_MAGIC crc (ls_type ls) (id_set_char i3 4 0) sync uc n0
    SYNCS_PACKET_MAGIC_DATA) b)).
  unfold packet_header, list_header. cbn [pk_header hd_id hd_type].
  split; [split; [|split; [done|split; [done|]]]|split].
  - pose proof (id_set_char_wf i3 4 0). unfold header_wf in *. simpl in *.
    repeat (split; [first [tauto|done]|]). done.
  - subst i3. by rewrite !id_char_set by lia.
  - subst i3 i2 i1. by rewrite !id_char_set by lia.
  - by rewrite id_char_set by lia.
Qed.

Lemma run_send_list c seqn w :
  winv w -> (c < SYNCS_CLIENT_MAXIMUM)%nat ->
  wp (syncs_client_send_list ls c seqn) (fun _ w' => winv w' /\ list_view w' = list_view w /\
    exists es fs, list_frames (ls_type ls) seqn (ls_max ls) es fs /\
      Forall2 (fun i e => zlen e = ls_size ls /\ entry (V (w_server w)) i e)
        (list_slots (live (V (w_server w))) (ls_slots ls)) es /\
      w_log w' = w_log w ++ (fs ≫= fun f => transmit_to (w_server w) (encode_frame f) c)) w.
Proof.
  intros Hw Hc. pose proof (lv_max (ls := ls)) as Hmax. unfold syncs_client_send_list.
  wp_step. apply run_stack_packet. intros p Hp Hph. wp_step. apply wp_server_get. cbn zeta. wp_step.
  eapply wp_mono; [apply (wp_fold_m_index (sending c seqn w))|].
  - exists 0, [], [], []. cbn [fst snd app]. split; [done|]. split; [lia|]. split; [exact Hp|].
    split; [by apply first_header|]. split; [by rewrite Z.mul_0_l, ztake_0|]. split; [constructor|].
    split; [constructor|]. split; [done|]. split; [done|]. by rewrite app_nil_r.
  - intros k i acc w1 Hk Hs. apply lookup_seq in Hk as [-> Hk]. by apply run_list_step.
  - intros [p1 n] w1 (no & fs & es & chunk & Hn & Hlt & Hp1 & Hh & Hb & Hfs & Hes & Hw1 & Hview & Hlog).
    rewrite length_seq in Hes. cbn [fst snd] in *. wp_step.
    eapply (run_list_flush c n (set_id_char 4 1 p1) (concat chunk) w1); [done|done|exact Hp1|lia|exact Hb|].
    intros w2 Hw2 Hview2 Hlog2. wp_step. split; [done|]. split; [congruence|].
    set (f := (pk_header (flushed n (set_id_char 4 1 p1)), concat chunk)).
    exists (es ++ chunk), (fs ++ [f]). split.
    + exists no, es, fs, chunk, f. split_and!; try done; [|lia]. subst f. rewrite Hn.
      apply flushed_frame; [|done|lia| |done].
      * eapply (set_char_header seqn no 0); [done|by right|done|done].
      * apply (Forall2_Forall_r _ (fun e => zlen e = ls_size ls)) in Hes; [by apply Forall_app in Hes as [_ ?]|].
        apply Forall_true. by intros i x [].
    + split; [done|]. rewrite Hlog2, Hlog, bind_app, <- app_assoc. do 2 f_equal. simpl. rewrite app_nil_r.
      apply transmit_to_view. exact (f_equal snd Hview).
Qed.
End send.

(** ** The request for the list of variables *)

(** The slots of the variables in use. *)
Definition event_slots (l : list syncs_event) : list nat :=
  list_slots (fun i => from_option (fun e => negb (id_is_free (ev_id e))) false (l !! i)) SYNCS_EVENT_MAXIMUM.

(** One entry for each variable in use. *)
Definition event_entries (l : list syncs_event) (es : list (list byte)) : Prop :=
  Forall2 (fun i e => zlen e = sizeof_event_info /\ event_entry l i e) (event_slots l) es.

Lemma handler_eventlist `{Env} `{!Lossless} c cl f w :
  winv w -> w_clients w !! c = Some cl -> pending cl = [] -> frame_wf f ->
  Z.land (hd_type f.1) SYNCS_TYPE_MSG_MASK = SYNCS_TYPE_EVENT_LIST ->
  wp (syncs_client_handler c (RecvData (encode_frame f))) (fun r w' => r = 0 /\ exists es fs,
    list_frames SYNCS_TYPE_EVENT_LIST (id_char (hd_id f.1) 0) (ls_max event_list) es fs /\
    event_entries (w_events w) es /\
    w_log w' = w_log w ++ (fs ≫= fun f => transmit_to (w_server w) (encode_frame f) c)) w.
Proof.
  intros Hw Hcl Hp Hf Hmsg.
  assert (c < SYNCS_CLIENT_MAXIMUM)%nat as Hc.
  { apply lookup_lt_Some in Hcl. by rewrite <- (swf_clients (w_server w)). }
  apply (run_handler_frame c cl f w (fun o => exists es fs,
    list_frames SYNCS_TYPE_EVENT_LIST (id_char (hd_id f.1) 0) (ls_max event_list) es fs /\
    event_entries (w_events w) es /\
    o.2 = w_log w ++ (fs ≫= fun f => transmit_to (w_server w) (encode_frame f) c))); [done..|].
  intros w1 data Hw1 Ho _ _ _.
  pose proof (f_equal (fun o => o.1.1.1) Ho) as He1. pose proof (f_equal (fun o => o.1.2) Ho) as Hn1.
  pose proof (f_equal snd Ho) as Hl1. cbn in He1, Hn1, Hl1.
  eapply run_packet_counted; [unfold packet_operation; cbn zeta; by rewrite Hmsg|done|].
  eapply wp_mono; [apply (run_send_list event_list sv_events _ _ c _ w1 Hw1 Hc)|].
  intros u w2 (Hw2 & _ & es & fs & Hfs & Hes & Hlog). split; [done|]. intros w3 Hw3 ->.
  exists es, fs. split; [done|]. split; [by rewrite He1 in Hes|].
  unfold observed. cbn [snd]. rewrite Hlog, Hl1. f_equal. apply list_bind_ext; [|done]. intros g.
  by apply transmit_to_view.
Qed.
