(* ===== verification/Datagram.v ===== *)
(** * Server: datagrams

    A client without a connection is known by the address its datagrams come
    from: what the UDP handler makes of a datagram, and how an identification
    opens a session. *)

From stdpp Require Import gmap.
From S2P Require Import Prelude.
From S2P Require Import Monad.
From S2P Require Import Types.
From S2P Require Import Net.
From S2P Require Import Framing.
From S2P Require Import Wire.
From S2P Require Import ServerState.
From S2P Require Import ServerEvents.
From S2P Require Import ServerPackets.
From S2P Require Import ServerInv.
From S2P Require Import ServerSafe.
From S2P Require Import ServerLoop.
From S2P Require Import EventSpec.
From S2P Require Import Directory.
From S2P Require Import Refinement.
From S2P Require Import Publish.
From S2P Require Import ServerProps.

Definition is_identification (h : syncs_header) : bool :=
  Z.land (hd_type h) SYNCS_TYPE_MSG_MASK =? SYNCS_TYPE_CLIENT_ID.

(** The slot a datagram of [addr] is processed for: that of the address, or,
    for an identification, that of the identifier or a free one. *)
Definition datagram_slot (s : syncs_server) (addr : sockaddr_in) (h : syncs_header) : option nat :=
  match syncs_find_uclient_addr s addr with
  | Some c => Some c
  | None =>
      if is_identification h then
        match syncs_find_uclient_id s (hd_id h) with
        | Some c => Some c
        | None => syncs_get_free_client s
        end
      else None
  end.

(** The addresses of the UDP clients are part of the network's view. *)
Definition peer_slot (l : list (Z * sockaddr_in)) (addr : sockaddr_in) : option nat :=
  scan (fun e => (e.1 =? UDP_SOCKET_STUB) && (sin_addr e.2 =? sin_addr addr) && (sin_port e.2 =? sin_port addr)) l.

Lemma find_uclient_addr_view s addr : syncs_find_uclient_addr s addr = peer_slot (endpoints s) addr.
Proof. unfold peer_slot, endpoints. by rewrite scan_fmap. Qed.

Section datagram.
Context `{Env}.

(** A datagram that holds one packet. *)
Lemma run_udp_handler addr f w (Q : Z -> world -> Prop) :
  winv w -> frame_wf f ->
  (forall w1 data b, w1 = mk_world (w_server w <| sv_ubuffer := b |>) (w_log w) -> winv w1 ->
    hd_data_size f.1 <= zlen data -> sizeof_channel_ticket <= zlen data ->
    ztake (hd_data_size f.1) data = f.2 ->
    wp (syncs_uclient_process_packet addr f.1 data) Q w1) ->
  wp (syncs_udp_handler addr (RecvData (encode_frame f))) Q w.
Proof.
  intros Hw Hf HQ. pose proof Hf as (Hwf & Hgood & Hsz & Hmax). pose proof (zlen_encode_frame f) as Hz. pose proof (zlen_nonneg f.2).
  pose proof (swf_ubuffer _ Hw) as Hub. unfold header_good in Hgood. apply andb_true_iff in Hgood as [Hm1 Hm2].
  unfold syncs_udp_handler. wp_step. apply wp_server_get. wp_step. apply wp_memcpy; [clia..|].
  rewrite ztake_ge by lia. wp_step. apply wp_server_upd.
  destruct (datagram_memory f (sv_ubuffer (w_server w)) Hf Hub) as (Hzb & Hdec & Hmdec & Hzm & Hdrop).
  set (b := mem_put 0 (encode_frame f) _) in *. rewrite (proj2 (Z.ltb_ge _ _)) by clia.
  rewrite !decode_header_sub, !zdrop_0 by clia. rewrite Hdec, Hm1, Hm2. cbn [negb]. wp_step. apply wp_server_upd.
  rewrite Hmdec, Hdrop.
  apply (HQ _ _ (mask_data_size 0 b)); [done| | | |].
  - apply (winv_ubuffer _ w Hw). by rewrite zlen_mask_data_size by clia.
  - rewrite zlen_app. pose proof (zlen_nonneg (zdrop (zlen (encode_frame f)) (sv_ubuffer (w_server w)))). lia.
  - rewrite zlen_app, zlen_zdrop. clia.
  - rewrite ztake_app_le, ztake_ge by lia. done.
Qed.

Lemma header_of_packet p : ztake sizeof_header (packet_bytes p) = encode_header (pk_header p).
Proof. unfold packet_bytes. by rewrite ztake_app_le, ztake_ge by (rewrite zlen_encode_header; clia). Qed.

(** What an unknown address is told: the status 2 of this server. *)
Definition refusal (s : syncs_server) (h : syncs_header) : Prop :=
  request_header SYNCS_TYPE_SERVER_STATUS (syncs_idstr (id_chars (sv_id s))) 0 h /\ hd_update_counter h = 2.

Lemma run_udp_status addr w (Q : Z -> world -> Prop) :
  (forall h, refusal (w_server w) h ->
    Q 0 (io_emit (IoSendto (sv_usocketfd (w_server w)) addr (encode_header h)) w)) ->
  wp (syncs_send_udp_server_status addr 2) Q w.
Proof.
  intros HQ. unfold syncs_send_udp_server_status. wp_step. apply run_stack_packet.
  intros p Hp (_ & Hcrc & _ & _ & Hd0 & Hd1 & _ & _ & _). wp_step. apply wp_server_get. cbn zeta.
  rewrite syncs_fill_header_request_str_eq. destruct p as [[m0 crc t0 i0 sync uc n0 m1] b].
  wp_step. apply wp_emit. wp_step. rewrite header_of_packet.
  set (h := pk_header _).
  assert (h = mk_header SYNCS_PACKET_MAGIC crc SYNCS_TYPE_SERVER_STATUS (syncs_idstr (id_chars (sv_id (w_server w))))
    sync 2 0 SYNCS_PACKET_MAGIC_DATA) as Eh by reflexivity.
  apply HQ. rewrite Eh. split; [|done]. apply made_header_request; try done. apply syncs_idstr_wf.
Qed.

(** What became of a datagram. *)
Definition datagram_outcome (addr : sockaddr_in) (f : frame) (w : world) (r : Z) (w' : world) : Prop :=
  match datagram_slot (w_server w) addr f.1 with
  | Some c => r = 0 /\ exists stale, abs w' = spec_packet stale c f (abs w)
  | None => r = -1 /\ abs w' = abs w /\ w_channels w' = w_channels w /\
      endpoints (w_server w') = endpoints (w_server w) /\
      if is_identification f.1 then w_log w' = w_log w
      else exists h, refusal (w_server w) h /\
        w_log w' = w_log w ++ [IoSendto (sv_usocketfd (w_server w)) addr (encode_header h)]
  end.

Lemma client_slot_lt w c cl : winv w -> sv_clients (w_server w) !! c = Some cl -> (c < SYNCS_CLIENT_MAXIMUM)%nat.
Proof. intros Hw Hcl%lookup_lt_Some. by rewrite <- (swf_clients (w_server w)). Qed.

Lemma endpoints_client_insert w c cl :
  endpoints (w_server (w <| w_server ::= fun s => s <| sv_clients ::= <[c := cl]> |> |>)) =
    <[c := (cl_socketfd cl, cl_addr cl)]> (endpoints (w_server w)).
Proof. unfold endpoints. simpl. by rewrite list_fmap_insert. Qed.

(** An update of a client, as far as the network sees it. *)
Lemma run_client_endpoint c f w (Q : unit -> world -> Prop) :
  winv w -> (c < SYNCS_CLIENT_MAXIMUM)%nat ->
  (forall cl, cl_buffer (f cl) = cl_buffer cl /\ cl_buffer_recv (f cl) = cl_buffer_recv cl) ->
  (forall cl w1, winv w1 -> w_vars w1 = w_vars w -> w_log w1 = w_log w ->
    sv_clients (w_server w) !! c = Some cl -> endpoints (w_server w) !! c = Some (cl_socketfd cl, cl_addr cl) ->
    endpoints (w_server w1) = <[c := (cl_socketfd (f cl), cl_addr (f cl))]> (endpoints (w_server w)) -> Q tt w1) ->
  wp (client_upd c f) Q w.
Proof.
  intros Hw Hc Hf HQ. apply run_client_upd; [done..|]. intros cl Hcl. apply (HQ cl); [|done|done|done| |].
  - apply winv_client_insert; [done|]. destruct (swf_client _ Hw c cl Hcl) as [Hb Hr], (Hf cl) as [Eb Er].
    split; [by rewrite Eb|by rewrite Er].
  - unfold endpoints. rewrite list_lookup_fmap. change (sv_clients (w_server w) !! c = Some cl) in Hcl. by rewrite Hcl.
  - unfold endpoints. simpl. by rewrite list_fmap_insert.
Qed.

(** A new client takes the free slot. *)
Lemma run_add_uclient addr w c (Q : option nat -> world -> Prop) :
  syncs_get_free_client (w_server w) = Some c -> winv w ->
  (forall w1, winv w1 -> w_vars w1 = w_vars w -> w_log w1 = w_log w ->
    endpoints (w_server w1) = <[c := (UDP_SOCKET_STUB, addr)]> (endpoints (w_server w)) -> Q (Some c) w1) ->
  wp (syncs_add_uclient addr) Q w.
Proof.
  intros Ef Hw HQ. pose proof (get_free_client_lt _ c Hw Ef) as Hc. unfold syncs_add_uclient.
  wp_step. apply wp_server_get. rewrite Ef.
  wp_step. apply run_client_endpoint; [done..|]. intros cl w1 Hw1 Hv1 Hl1 _ He0 He1. cbn in He1.
  wp_step. apply run_client_endpoint; [done..|]. intros cl2 w2 Hw2 Hv2 Hl2 _ He1' He2. cbn in He2.
  rewrite He1, list_lookup_insert_eq in He1' by by eapply lookup_lt_Some. injection He1' as _ Ea.
  rewrite He1, <- Ea, list_insert_insert_eq in He2.
  wp_step. apply run_client_endpoint; [done..|]. intros cl3 w3 Hw3 Hv3 Hl3 _ He2' He3. cbn in He3.
  rewrite (list_insert_id _ _ _ He2') in He3.
  wp_step. apply wp_server_upd. wp_step. apply wp_server_upd. wp_step. apply HQ.
  - by destruct Hw3.
  - change (w_vars w3 = w_vars w). congruence.
  - simpl. congruence.
  - change (endpoints (w_server w3) = <[c := (UDP_SOCKET_STUB, addr)]> (endpoints (w_server w))). by rewrite He3.
Qed.

(** The part before the dispatcher. *)
Lemma run_uclient_slot addr h data w (Q : Z -> world -> Prop) :
  winv w ->
  match datagram_slot (w_server w) addr h with
  | Some c => (c < SYNCS_CLIENT_MAXIMUM)%nat -> forall w1, winv w1 -> w_vars w1 = w_vars w -> w_log w1 = w_log w ->
      endpoints (w_server w1) = <[c := (UDP_SOCKET_STUB, addr)]> (endpoints (w_server w)) ->
      wp (syncs_client_process_packet c h data) (fun _ w' => Q 0 w') w1
  | None =>
      if is_identification h then Q (-1) w
      else forall st, refusal (w_server w) st ->
        Q (-1) (io_emit (IoSendto (sv_usocketfd (w_server w)) addr (encode_header st)) w)
  end ->
  wp (syncs_uclient_process_packet addr h data) Q w.
Proof.
  intros Hw HQ. set (s := w_server w) in *. unfold datagram_slot in HQ. unfold syncs_uclient_process_packet.
  wp_step. apply wp_server_get. fold s. fold (is_identification h). wp_step.
  destruct (syncs_find_uclient_addr s addr) as [c|] eqn:Ea.
  { wp_step. wp_step. apply scan_lookup in Ea as (cl & Hcl & Hp).
    eapply wp_mono; [apply HQ; [by eapply client_slot_lt|done..|]|intros r w' Hq; by apply wp_ret].
    symmetry. apply list_insert_id. unfold endpoints. rewrite list_lookup_fmap. unfold s in Hcl. rewrite Hcl. simpl.
    rewrite !andb_true_iff, !Z.eqb_eq in Hp. destruct cl as [? fd [a p]], addr. simpl in *. naive_solver. }
  destruct (is_identification h).
  2: { wp_step. apply run_udp_status. intros st Hst. wp_step. wp_step. by apply HQ. }
  destruct (syncs_find_uclient_id s (hd_id h)) as [c|] eqn:Ei.
  { apply scan_lookup in Ei as (cl & Hcl & Hp). pose proof (client_slot_lt w c cl Hw Hcl) as Hc.
    wp_step. apply run_client_upd; [done..|]. intros cl' Hcl'. wp_step. wp_step.
    eapply wp_mono; [apply HQ; [done| |done|done|]|intros r w' Hq; by apply wp_ret].
    - apply winv_client_insert; [done|]. by destruct (swf_client _ Hw c cl' Hcl').
    - unfold endpoints. simpl. rewrite list_fmap_insert. simpl.
      change (sv_clients s !! c = Some cl') in Hcl'. simplify_eq.
      rewrite andb_true_iff, Z.eqb_eq in Hp. by destruct Hp as [-> _]. }
  destruct (syncs_get_free_client s) as [c|] eqn:Ef.
  - apply (run_add_uclient addr w c _ Ef Hw). intros w1 Hw1 Hv Hl He.
    wp_step. eapply wp_mono; [apply HQ; [by apply (get_free_client_lt (w_server w))|done..]|intros r w' Hq; by apply wp_ret].
  - unfold syncs_add_uclient. wp_step. apply wp_server_get. fold s. rewrite Ef. wp_step. by wp_step.
Qed.

(** C6: every datagram that holds a packet makes the transition of the
    directory for the client of its address; an identification from a new
    address for the client of that identifier, or a new client; a new address
    that does not identify itself changes nothing and is told so by one
    status packet, and a full client table changes nothing either. *)
Theorem datagram_refines_directory w addr f :
  winv w -> frame_wf f -> frame_ok f ->
  exists r w', syncs_udp_handler addr (RecvData (encode_frame f)) w = Ok (r, w') /\ winv w' /\
    match datagram_slot (w_server w) addr f.1 with
    | Some c => r = 0 /\ exists stale, abs w' = spec_packet stale c f (abs w)
    | None => r = -1 /\ abs w' = abs w /\ endpoints (w_server w') = endpoints (w_server w) /\
        if is_identification f.1 then w_log w' = w_log w
        else exists h, refusal (w_server w) h /\
          w_log w' = w_log w ++ [IoSendto (sv_usocketfd (w_server w)) addr (encode_header h)]
    end.
Proof.
  intros Hw Hf Hid. apply wp_run. pose proof Hf as (_ & _ & Hsz & Hmax). pose proof (zlen_nonneg f.2).
  apply run_udp_handler; [done..|]. intros w0 data b Hw0 Hwi Hn Ht Hdata.
  assert (w_vars w0 = w_vars w) as Hv0 by (by rewrite Hw0).
  assert (datagram_slot (w_server w) addr f.1 = datagram_slot (w_server w0) addr f.1) as -> by (by rewrite Hw0).
  apply run_uclient_slot; [done|]. destruct (datagram_slot (w_server w0) addr f.1) as [c|].
  - intros Hc w1 Hw1 Hv1 _ _.
    eapply wp_mono; [apply wp_wlp; [apply safe_client_process_packet; first [done|lia]|by apply process_refines; first [done|lia]]|].
    intros r w' [Hw' [stale E]]. split; [done|]. split; [done|]. exists stale.
    rewrite E, (abs_ext w1 w) by congruence. rewrite Hdata. by destruct f.
  - subst w0. destruct (is_identification f.1); [by split_and!|].
    intros st Hst. split_and!; try done. by exists st.
Qed.

(** ** Sessions *)

#[export] Instance keeps_net_server_status c code : Keeps w_net (syncs_send_server_status c code).
Proof.
  unfold syncs_send_server_status. do 3 (apply keeps_bind; [apply _|intros ?]).
  apply keeps_bind; [by apply keeps_net_client_upd|apply _].
Qed.

Lemma endpoints_view w w' : w_net w' = w_net w -> endpoints (w_server w') = endpoints (w_server w).
Proof. intros E. exact (f_equal fst E). Qed.

(** An update that moves no endpoint, and the client it leaves. *)
Lemma run_client_set c f w (Q : unit -> world -> Prop) :
  winv w -> (c < SYNCS_CLIENT_MAXIMUM)%nat ->
  (forall cl, cl_buffer (f cl) = cl_buffer cl /\ cl_buffer_recv (f cl) = cl_buffer_recv cl) ->
  (forall cl, (cl_socketfd (f cl), cl_addr (f cl)) = (cl_socketfd cl, cl_addr cl)) ->
  (forall w1 cl, winv w1 -> w_vars w1 = w_vars w -> endpoints (w_server w1) = endpoints (w_server w) ->
    sv_clients (w_server w) !! c = Some cl -> sv_clients (w_server w1) !! c = Some (f cl) -> Q tt w1) ->
  wp (client_upd c f) Q w.
Proof.
  intros Hw Hc Hf He HQ. apply run_client_upd; [done..|]. intros cl Hcl. apply (HQ _ cl); [|done| |done|].
  - apply winv_client_insert; [done|]. destruct (swf_client _ Hw c cl Hcl) as [Hb Hr], (Hf cl) as [Eb Er].
    split; [by rewrite Eb|by rewrite Er].
  - rewrite endpoints_client_insert, He. apply list_insert_id. unfold endpoints. rewrite list_lookup_fmap.
    change (sv_clients (w_server w) !! c = Some cl) in Hcl. by rewrite Hcl.
  - simpl. apply list_lookup_insert_eq. by eapply lookup_lt_Some.
Qed.

(** An identification of this version stores the name and moves nothing. *)
Lemma run_identification c h data w :
  winv w -> (c < SYNCS_CLIENT_MAXIMUM)%nat -> is_identification h = true ->
  data0 (hd_sync h) = SYNCS_VERSION_MAJOR ->
  wp (syncs_client_process_packet c h data) (fun _ w' => winv w' /\ w_vars w' = w_vars w /\
    endpoints (w_server w') = endpoints (w_server w) /\
    exists cl, sv_clients (w_server w') !! c = Some cl /\ cl_id cl = hd_id h) w.
Proof.
  intros Hw Hc Hid%Z.eqb_eq Hver. unfold syncs_client_process_packet.
  assert (packet_operation c h data = Some (
    _ ← (_ ← syncs_send_server_status c SYNCS_ERROR_NOTFOUND; mret tt);
    _ ← client_upd c (fun cl => cl <| cl_id := hd_id h |>);
    client_upd c (fun cl => cl <| cl_version := Z.lor (Z.shiftl (Z.land (data0 (hd_sync h)) 0xff) 8)
      (Z.land (data1 (hd_sync h)) 0xff) |>))) as ->.
  { unfold packet_operation. cbn zeta. rewrite Hid, Hver. reflexivity. }
  wp_step. wp_step. wp_step.
  assert (wp (syncs_send_server_status c SYNCS_ERROR_NOTFOUND) (fun _ w1 => (winv w1 /\ w_vars w1 = w_vars w) /\ w_net w1 = w_net w) w) as Hs.
  { by apply (wp_keeps w_net _ (fun _ w1 => winv w1 /\ w_vars w1 = w_vars w)),
      (wp_keeps w_vars _ (fun _ => winv)), safe_send_server_status. }
  eapply wp_mono; [exact Hs|]. intros r w1 [[Hw1 Hv1] Hn1%endpoints_view]. wp_step. wp_step.
  apply run_client_set; [done..|]. intros w2 cl2 Hw2 Hv2 He2 _ Hid2.
  apply run_client_set; [done..|]. intros w3 cl3 Hw3 Hv3 He3 Hcl3 Hid3.
  wp_step. apply run_client_set; [done..|]. intros w4 cl4 Hw4 Hv4 He4 Hcl4 Hid4. wp_step.
  split; [done|]. split; [congruence|]. split; [congruence|].
  eexists. split; [exact Hid4|]. rewrite Hid3 in Hcl4. rewrite Hid2 in Hcl3. simplify_eq. done.
Qed.

(** Looking an address up after its slot was given that address. *)
Lemma peer_slot_insert (l : list (Z * sockaddr_in)) c addr :
  (c < length l)%nat -> (forall c', peer_slot l addr = Some c' -> c' = c) ->
  peer_slot (<[c := (UDP_SOCKET_STUB, addr)]> l) addr = Some c.
Proof.
  intros Hc Hu. unfold peer_slot. apply scan_Some. exists (UDP_SOCKET_STUB, addr).
  split; [by apply list_lookup_insert_eq|]. split; [by rewrite !Z.eqb_refl|].
  intros j y Hj Hy. rewrite list_lookup_insert_ne in Hy by lia.
  destruct (peer_slot l addr) as [c'|] eqn:E.
  - rewrite (Hu c' eq_refl) in E. apply scan_Some in E as (_ & _ & _ & Hlt). by eapply Hlt.
  - by eapply (proj1 (scan_None _ _)) in E.
Qed.

(** An address and the client of another slot keep their session. *)
Lemma peer_slot_insert_ne (l : list (Z * sockaddr_in)) c addr addr' :
  addr' <> addr -> peer_slot l addr' <> Some c ->
  peer_slot (<[c := (UDP_SOCKET_STUB, addr)]> l) addr' = peer_slot l addr'.
Proof.
  intros Hne. unfold peer_slot. set (p := fun e => _). 
  assert (p (UDP_SOCKET_STUB, addr) = false) as Hp.
  { subst p. simpl. destruct addr as [a1 p1], addr' as [a2 p2]. simpl.
    destruct (Z.eqb_spec a1 a2) as [->|]; [|done]. destruct (Z.eqb_spec p1 p2) as [->|]; done. }
  clearbody p. revert c. induction l as [|e l IH]; intros [|c] Hc; csimpl; [done..| |].
  - csimpl in Hc. rewrite Hp. by destruct (p e).
  - csimpl in Hc. destruct (p e); [done|]. rewrite IH; [done|]. intros E. by rewrite E in Hc.
Qed.

(** An identification of this version opens a session: the directory does
    not change, the slot stores the name and the address, from now on the
    datagrams of the address are processed for that slot, and the sessions of
    the other slots stay. *)
Theorem identification_opens_session w addr f c :
  winv w -> frame_wf f -> is_identification f.1 = true -> data0 (hd_sync f.1) = SYNCS_VERSION_MAJOR ->
  datagram_slot (w_server w) addr f.1 = Some c ->
  exists w', syncs_udp_handler addr (RecvData (encode_frame f)) w = Ok (0, w') /\ winv w' /\ abs w' = abs w /\
    syncs_find_uclient_addr (w_server w') addr = Some c /\
    (exists cl, w_clients w' !! c = Some cl /\ cl_id cl = hd_id f.1 /\ cl_addr cl = addr) /\
    (forall addr', addr' <> addr -> syncs_find_uclient_addr (w_server w) addr' <> Some c ->
      syncs_find_uclient_addr (w_server w') addr' = syncs_find_uclient_addr (w_server w) addr').
Proof.
  intros Hw Hf Hid Hver Hslot.
  set (P := fun w' => winv w' /\ w_vars w' = w_vars w /\
    endpoints (w_server w') = <[c := (UDP_SOCKET_STUB, addr)]> (endpoints (w_server w)) /\
    exists cl, sv_clients (w_server w') !! c = Some cl /\ cl_id cl = hd_id f.1).
  assert (wp (syncs_udp_handler addr (RecvData (encode_frame f))) (fun r w' => r = 0 /\ P w' /\ (c < SYNCS_CLIENT_MAXIMUM)%nat) w) as Hs.
  { apply run_udp_handler; [done..|]. intros w0 data b -> Hwi _ _ _. apply run_uclient_slot; [done|].
    change (datagram_slot (w_server (mk_world _ _)) addr f.1) with (datagram_slot (w_server w) addr f.1). rewrite Hslot.
    intros Hc w1 Hw1 Hv1 _ He1. eapply wp_mono; [by apply run_identification|].
    intros r w2 (Hw2 & Hv2 & He2 & Hcl2). split; [done|]. split; [|done]. split; [done|]. split; [by etrans|].
    split; [by rewrite He2|done]. }
  apply wp_run in Hs as (r & w' & E & -> & (Hw' & Hv & He & cl & Hcl & Hclid) & Hc). exists w'.
  assert (length (endpoints (w_server w)) = SYNCS_CLIENT_MAXIMUM) as Hlen
    by (unfold endpoints; rewrite length_fmap; apply Hw).
  split; [done|]. split; [done|]. split; [by apply abs_ext|]. rewrite find_uclient_addr_view, He. split; [|split].
  - apply peer_slot_insert; [by rewrite Hlen|]. intros c' Hc'. rewrite <- find_uclient_addr_view in Hc'.
    unfold datagram_slot in Hslot. rewrite Hc' in Hslot. by injection Hslot.
  - exists cl. split; [exact Hcl|]. split; [done|].
    pose proof (f_equal (fun l => l !! c) He) as Hn. unfold endpoints in Hn at 1. cbn beta in Hn.
    rewrite list_lookup_fmap, Hcl, list_lookup_insert_eq in Hn by by rewrite Hlen. by injection Hn.
  - intros addr' Hne. rewrite !find_uclient_addr_view, He. by apply peer_slot_insert_ne.
Qed.
End datagram.

Section instances.
#[local] Existing Instance perfect_env.

(** An address that introduces itself as [a], and one that does not. *)
Definition hello_a : frame :=
  (mk_header SYNCS_PACKET_MAGIC 0 SYNCS_TYPE_CLIENT_ID (syncs_idstr name_a)
     (mk_sync SYNCS_VERSION_MAJOR SYNCS_VERSION_MINOR) 0 0 SYNCS_PACKET_MAGIC_DATA, []).
Definition peer : sockaddr_in := mk_addr 0x0100007f 0x1234.

Lemma hello_a_wf : frame_wf hello_a.
Proof. repeat split; by vm_compute. Qed.

Lemma hello_slot : datagram_slot (w_server server_start) peer hello_a.1 = Some O.
Proof. by vm_compute. Qed.

Lemma stranger_slot : datagram_slot (w_server server_start) peer write_a.1 = None.
Proof. by vm_compute. Qed.

Lemma write_a_wf : frame_wf write_a.
Proof. repeat split; by vm_compute. Qed.

Lemma datagram_refines_directory_witness :
  exists r w', syncs_udp_handler peer (RecvData (encode_frame write_a)) server_start = Ok (r, w') /\ winv w' /\
    r = -1 /\ abs w' = abs server_start /\ endpoints (w_server w') = endpoints (w_server server_start) /\
    exists h, refusal (w_server server_start) h /\
      w_log w' = w_log server_start ++ [IoSendto (sv_usocketfd (w_server server_start)) peer (encode_header h)].
Proof.
  pose proof (datagram_refines_directory server_start peer write_a server_start_winv write_a_wf eq_refl) as Hd.
  rewrite stranger_slot in Hd. exact Hd.
Defined.

Lemma identification_opens_session_witness :
  exists w', syncs_udp_handler peer (RecvData (encode_frame hello_a)) server_start = Ok (0, w') /\ winv w' /\
    abs w' = abs server_start /\ syncs_find_uclient_addr (w_server w') peer = Some O /\
    (exists cl, w_clients w' !! O = Some cl /\ cl_id cl = hd_id hello_a.1 /\ cl_addr cl = peer) /\
    (forall addr', addr' <> peer -> syncs_find_uclient_addr (w_server server_start) addr' <> Some O ->
      syncs_find_uclient_addr (w_server w') addr' = syncs_find_uclient_addr (w_server server_start) addr').
Proof.
  apply (identification_opens_session server_start peer hello_a O server_start_winv hello_a_wf eq_refl eq_refl).
  exact hello_slot.
Defined.
End instances.
