(* ===== verification/UdpSession.v ===== *)
(** * Server: UDP sessions

    A session is an address that names a slot.  It lasts through every packet
    but an identification of another version, so a sequence of datagrams of
    one address makes the transitions of its packets for one client. *)

From stdpp Require Import gmap.
From S2P Require Import Prelude.
From S2P Require Import Monad.
From S2P Require Import Types.
From S2P Require Import Net.
From S2P Require Import Framing.
From S2P Require Import Wire.
From S2P Require Import ServerState.
From S2P Require Import ServerEvents.
From S2P Require Import ServerPackets.
From S2P Require Import ServerInv.
From S2P Require Import ServerSafe.
From S2P Require Import ServerLoop.
From S2P Require Import EventSpec.
From S2P Require Import Directory.
From S2P Require Import Refinement.
From S2P Require Import Publish.
From S2P Require Import ServerProps.
From S2P Require Import ServerStream.
From S2P Require Import Datagram.

(** ** No packet moves an endpoint, but one that ends the connection *)

#[export] Hint Extern 0 (Keeps w_net (client_upd _ _)) =>
  (apply keeps_net_client_upd; by intros ?) : typeclass_instances.

(** An identification of another version. *)
Definition ends_session (h : syncs_header) : bool :=
  is_identification h && negb (data0 (hd_sync h) =? SYNCS_VERSION_MAJOR).

Section endpoints.
Context `{Env}.

#[local] Instance keeps_net_channel_upd n f : Keeps w_net (channel_upd n f).
Proof. unfold channel_upd. apply keeps_bind; [apply _|]. intros ch. by apply keeps_modify. Qed.
#[local] Instance keeps_net_send_event e flags : Keeps w_net (syncs_send_event e flags).
Proof. unfold syncs_send_event. apply _. Qed.
#[local] Instance keeps_net_resend_event c e : Keeps w_net (syncs_resend_event c e).
Proof. unfold syncs_resend_event. apply _. Qed.
#[local] Instance keeps_net_subscribe c id type uc : Keeps w_net (syncs_client_subscribe c id type uc).
Proof. unfold syncs_client_subscribe. apply _. Qed.
#[local] Instance keeps_net_unsubscribe c id : Keeps w_net (syncs_client_unsubscribe c id).
Proof. unfold syncs_client_unsubscribe, syncs_remove_client_from_event. apply _. Qed.
#[local] Instance keeps_net_find id flags created :
  (forall e, Keeps w_net (created e)) -> Keeps w_net (find_or_create id flags created).
Proof. intros Hc. unfold find_or_create. apply _. Qed.
#[local] Instance keeps_net_add_event id type data n : Keeps w_net (syncs_add_event id type data n).
Proof. unfold syncs_add_event, event_set_type. apply _. Qed.
#[local] Instance keeps_net_free_event id : Keeps w_net (syncs_free_event id).
Proof.
  unfold syncs_free_event. apply keeps_bind; [apply _|]. intros s. destruct (syncs_find_event s id); [|apply _].
  apply keeps_bind; [apply _|]. intros u. by apply keeps_modify.
Qed.
#[local] Instance keeps_net_client_write c id type data n : Keeps w_net (syncs_client_write c id type data n).
Proof. unfold syncs_client_write, event_callback. apply _. Qed.
#[local] Instance keeps_net_client_read c id : Keeps w_net (syncs_client_read c id).
Proof. unfold syncs_client_read. apply _. Qed.
#[local] Instance keeps_net_create_channel id : Keeps w_net (syncs_create_channel id).
Proof.
  unfold syncs_create_channel. apply keeps_bind; [apply _|]. intros s.
  destruct (scan _ _); [|apply _]. apply keeps_bind; [apply _|]. intros _.
  apply keeps_bind; [by apply keeps_modify|apply _].
Qed.
#[local] Instance keeps_net_client_channel c h data : Keeps w_net (syncs_client_channel c h data).
Proof. unfold syncs_client_channel, syncs_add_channel, syncs_client_channel_request. apply _. Qed.

Lemma keeps_net_send_list ls c n :
  (forall i k b, Keeps w_net (ls_fill ls i k b)) -> Keeps w_net (syncs_client_send_list ls c n).
Proof. intros Hf. unfold syncs_client_send_list, list_step, list_flush. apply _. Qed.
#[local] Instance keeps_net_send_clientlist c n : Keeps w_net (syncs_client_send_clientlist c n).
Proof. apply keeps_net_send_list. simpl. unfold client_info_fill, put_field. apply _. Qed.
#[local] Instance keeps_net_send_eventlist c n : Keeps w_net (syncs_client_send_eventlist c n).
Proof. apply keeps_net_send_list. simpl. unfold event_info_fill, put_field. apply _. Qed.
#[local] Instance keeps_net_send_channellist c n : Keeps w_net (syncs_client_send_channellist c n).
Proof. apply keeps_net_send_list. simpl. unfold channel_info_fill, put_field. apply _. Qed.

Lemma operation_keeps_endpoints c h data op :
  ends_session h = false -> packet_operation c h data = Some op -> Keeps w_net op.
Proof.
  unfold ends_session, is_identification, packet_operation. set (msg := Z.land _ _). intros He. cbn zeta.
  repeat (lazymatch goal with |- (if ?b then _ else _) = _ -> _ => destruct b eqn:? end;
    [intros E; apply (inj Some) in E; subst op; try apply _|]); try done.
  cbn [andb] in He. rewrite He. apply _.
Qed.

Lemma process_keeps_endpoints c h data :
  ends_session h = false -> Keeps w_net (syncs_client_process_packet c h data).
Proof.
  intros He. unfold syncs_client_process_packet. destruct (packet_operation c h data) as [op|] eqn:E; [|apply _].
  pose proof (operation_keeps_endpoints c h data op He E). apply _.
Qed.
End endpoints.

(** ** A sequence of datagrams *)

Section session.
Context `{Env}.

(** The datagrams the event loop hands to the handler one after the other. *)
Definition receive_datagrams (addr : sockaddr_in) (fs : list frame) : M world unit :=
  for_each fs (fun f => _ ← syncs_udp_handler addr (RecvData (encode_frame f)); mret tt).

(** A packet of a session. *)
Definition session_frame (f : frame) : Prop := frame_wf f /\ frame_ok f /\ ends_session f.1 = false.

Lemma datagram_slot_known s addr h c : syncs_find_uclient_addr s addr = Some c -> datagram_slot s addr h = Some c.
Proof. unfold datagram_slot. by intros ->. Qed.

Lemma run_datagram addr c f w :
  winv w -> frame_wf f -> frame_ok f -> ends_session f.1 = false ->
  datagram_slot (w_server w) addr f.1 = Some c ->
  wp (syncs_udp_handler addr (RecvData (encode_frame f))) (fun r w' => r = 0 /\ winv w' /\
    spec_packets c [f] (abs w) (abs w') /\
    endpoints (w_server w') = <[c := (UDP_SOCKET_STUB, addr)]> (endpoints (w_server w)) /\
    syncs_find_uclient_addr (w_server w') addr = Some c) w.
Proof.
  intros Hw Hf Hid Hend Hslot. pose proof Hf as (_ & _ & Hsz & Hmax). pose proof (zlen_nonneg f.2).
  apply run_udp_handler; [done..|]. intros w0 data b -> Hwi Hn Ht Hdata. apply run_uclient_slot; [done|].
  change (datagram_slot (w_server (mk_world _ _)) addr f.1) with (datagram_slot (w_server w) addr f.1). rewrite Hslot.
  intros Hc w1 Hw1 Hv1 _ He1. change (endpoints (w_server (mk_world _ _))) with (endpoints (w_server w)) in He1.
  pose proof (process_keeps_endpoints c f.1 data Hend) as Hkeep.
  eapply wp_mono; [apply (wp_keeps w_net _ (fun _ w' => winv w' /\ exists stale, abs w' = spec_packet stale c f (abs w)))|].
  - eapply wp_mono; [apply wp_wlp; [apply safe_client_process_packet|apply process_refines]; first [done|lia]|].
    intros r w' [Hw' [stale E]]. split; [done|]. exists stale.
    rewrite E, (abs_ext w1 w) by done. rewrite Hdata. by destruct f.
  - intros r w' [[Hw' Hstep] He%endpoints_view]. rewrite He1 in He.
    split; [done|]. split; [done|]. split; [by apply spec_packets_one|]. split; [exact He|].
    rewrite find_uclient_addr_view, He. apply peer_slot_insert.
    + unfold endpoints. rewrite length_fmap. eapply Nat.lt_le_trans; [exact Hc|]. apply Nat.eq_le_incl. symmetry. apply Hw.
    + intros c' Hc'. rewrite <- find_uclient_addr_view in Hc'.
      rewrite (datagram_slot_known _ _ f.1 _ Hc') in Hslot. by injection Hslot.
Qed.

Lemma receive_datagrams_cons addr f fs :
  receive_datagrams addr (f :: fs) =
    (_ ← (_ ← syncs_udp_handler addr (RecvData (encode_frame f)); mret tt); receive_datagrams addr fs).
Proof. done. Qed.

(** The first datagram gives the address its slot, and from then on the order
    of the datagrams is all that matters. *)
Lemma run_datagrams addr c fs : forall f w,
  winv w -> datagram_slot (w_server w) addr f.1 = Some c -> Forall session_frame (f :: fs) ->
  wp (receive_datagrams addr (f :: fs)) (fun _ w' => winv w' /\ spec_packets c (f :: fs) (abs w) (abs w') /\
    syncs_find_uclient_addr (w_server w') addr = Some c /\
    endpoints (w_server w') = <[c := (UDP_SOCKET_STUB, addr)]> (endpoints (w_server w))) w.
Proof.
  induction fs as [|f' fs IH]; intros f w Hw Hslot [(Hf & Hid & Hend) Hfs]%list.Forall_cons;
    rewrite receive_datagrams_cons; wp_step; wp_step;
    (eapply wp_mono; [apply (run_datagram addr c f w Hw Hf Hid Hend Hslot)|]);
    intros r w1 (_ & Hw1 & Hstep & He1 & Hs1); wp_step.
  - change (receive_datagrams addr []) with (mret (M:=M world) tt). wp_step. by split_and!.
  - eapply wp_mono; [apply (IH f' w1 Hw1 (datagram_slot_known _ _ _ _ Hs1) Hfs)|].
    intros [] w2 (Hw2 & Hsteps & Hs2 & He2). rewrite He1, list_insert_insert_eq in He2.
    split; [done|]. split; [|done]. exact (spec_packets_app c [f] (f' :: fs) _ (abs w1) _ Hstep Hsteps).
Qed.

(** C7: the datagrams of one address, from the one that the address, its
    identifier or a free slot gives a client, make the transitions of their
    packets for that client in the order they arrive, the address keeps its
    session, and the sessions of the other clients stay; only an
    identification of another version ends a session. *)
Theorem udp_session_refines_directory addr c f fs w :
  winv w -> datagram_slot (w_server w) addr f.1 = Some c -> Forall session_frame (f :: fs) ->
  exists w', receive_datagrams addr (f :: fs) w = Ok (tt, w') /\ winv w' /\
    spec_packets c (f :: fs) (abs w) (abs w') /\ syncs_find_uclient_addr (w_server w') addr = Some c /\
    (forall addr', addr' <> addr -> syncs_find_uclient_addr (w_server w) addr' <> Some c ->
      syncs_find_uclient_addr (w_server w') addr' = syncs_find_uclient_addr (w_server w) addr').
Proof.
  intros Hw Hslot Hfs. destruct (proj1 (wp_run _ _ _) (run_datagrams addr c fs f w Hw Hslot Hfs))
    as ([] & w' & E & Hw' & Hsteps & Hs & He).
  exists w'. split_and!; [done..|]. intros addr' Hne. rewrite !find_uclient_addr_view, He. by apply peer_slot_insert_ne.
Qed.
End session.

Section instances.
#[local] Existing Instance perfect_env.

Lemma session_frames : Forall session_frame [hello_a; write_a].
Proof. repeat constructor; try (by vm_compute); by intros ?. Qed.

Lemma udp_session_refines_directory_witness :
  exists w', receive_datagrams peer [hello_a; write_a] server_start = Ok (tt, w') /\ winv w' /\
    spec_packets 0 [hello_a; write_a] (abs server_start) (abs w') /\
    syncs_find_uclient_addr (w_server w') peer = Some 0%nat /\
    (forall addr', addr' <> peer -> syncs_find_uclient_addr (w_server server_start) addr' <> Some 0%nat ->
      syncs_find_uclient_addr (w_server w') addr' = syncs_find_uclient_addr (w_server server_start) addr').
Proof.
  apply (udp_session_refines_directory peer 0 hello_a [write_a] server_start).
  - exact server_start_winv.
  - exact hello_slot.
  - exact session_frames.
Defined.
End instances.
