(* ===== verification/ProtocolProps.v ===== *)
(** * Properties of the protocol layer

    Identifiers, headers, framing and blocking sends; each theorem is followed
    by an instance at a concrete input. *)

From S2P Require Import Prelude.
From S2P Require Import Monad.
From S2P Require Import Types.
From S2P Require Import Net.
From S2P Require Import ServerState.
From S2P Require Import ServerEvents.
From S2P Require Import ServerPackets.
From S2P Require Import Framing.

(** The inputs of the instances. *)
Definition sample_id : syncsid_t := syncs_idstr [Byte.x61; Byte.x62].
Definition sample_packet_header (size : Z) : syncs_header :=
  mk_header SYNCS_PACKET_MAGIC 7 SYNCS_TYPE_WRITE sample_id (mk_sync 1 2) 3 size SYNCS_PACKET_MAGIC_DATA.
Definition sample_frames : list frame :=
  [(sample_packet_header 0, []); (sample_packet_header 2, [Byte.x53; Byte.x44])].

Lemma sample_frames_wf : Forall frame_wf sample_frames.
Proof.
  repeat constructor; try (vm_compute; by intros); vm_compute; intros [=].
Qed.

(** ** Headers and identifiers *)

(** The 60-byte layout of [struct syncs_header] loses nothing: decoding an
    encoded header gives it back, and encoding a decoded one gives its bytes. *)
Theorem header_roundtrip :
  (forall h, header_wf h -> decode_header (encode_header h) = h) /\
  (forall m, zlen m = sizeof_header -> header_wf (decode_header m) /\ encode_header (decode_header m) = m).
Proof.
  split; [exact decode_encode_header|]. intros m Hm. change sizeof_header with 60 in Hm.
  split; [apply decode_header_wf; lia|by apply encode_decode_header].
Qed.

(** Two names give the same identifier exactly when their first 31
    characters agree, and the identifier found by [syncs_idcmp] is that one. *)
Theorem idstr_identifies a b :
  syncs_idcmp (syncs_idstr a) (syncs_idstr b) = true <-> take 31 (cstr a) = take 31 (cstr b).
Proof.
  rewrite syncs_idcmp_eq. split; intros E.
  - apply syncs_idstr_name_inj. by rewrite E.
  - rewrite <- (id_of_chars_chars (syncs_idstr a)), <- (id_of_chars_chars (syncs_idstr b))
      by apply syncs_idstr_wf. by rewrite !syncs_idstr_chars, E.
Qed.

(** [syncs_idcmp_str] accepts a name exactly when the identifier holds the
    whole of it: a name of more than 31 characters is never found again,
    although [syncs_idstr] stored its first 31 characters. *)
Theorem idcmp_str_matches_short_names a b :
  syncs_idcmp_str (syncs_idstr a) b = true <->
  (length (cstr b) <= 31)%nat /\ take 31 (cstr a) = cstr b.
Proof. apply syncs_idcmp_str_spec. Qed.

(** ** Framing *)

(** The receive loop on a buffer whose first [recv] bytes are the packets
    [fs] and the beginning [rest] of another one. *)
Lemma receive_loop_stream {W} (process : syncs_header -> list byte -> M W unit) bs buffer recv :
  0 <= recv <= zlen buffer -> ztake recv buffer = bs ->
  exists ds buffer' head',
    (forall w, receive_loop process (Z.to_nat recv + 1) buffer 0 recv w =
      (_ ← for_each ds (deliver process); mret (buffer', head')) w) /\
    delivered_frame <$> ds = (parse bs).1 /\ mem_sub head' (recv - head') buffer' = (parse bs).2.
Proof.
  intros Hr <-. destruct (receive_loop_parse process (Z.to_nat recv + 1) buffer 0 recv)
    as (ds & b & hd & Hl & Hfs & Hrest & _); [lia..|].
  rewrite Z.sub_0_r in Hfs, Hrest. exists ds, b, hd. done.
Qed.

(** C21: the packets a sender encodes are processed, in order and with their
    headers and payloads unchanged, and the bytes of the packet that follows
    stay in the buffer. *)
Theorem framing_roundtrip {W} (process : syncs_header -> list byte -> M W unit) fs rest buffer recv :
  Forall frame_wf fs -> zlen rest < sizeof_header ->
  0 <= recv <= zlen buffer -> ztake recv buffer = encode_frames fs ++ rest ->
  exists ds buffer' head',
    (forall w, receive_loop process (Z.to_nat recv + 1) buffer 0 recv w =
      (_ ← for_each ds (deliver process); mret (buffer', head')) w) /\
    delivered_frame <$> ds = fs /\ mem_sub head' (recv - head') buffer' = rest.
Proof.
  intros Hfs Hrest Hr E. destruct (receive_loop_stream process _ buffer recv Hr E) as (ds & b & hd & Hl & Hd & Hb).
  exists ds, b, hd. rewrite Hd, Hb, parse_encode, parse_short by done. simpl. by rewrite app_nil_r.
Qed.

Lemma framing_roundtrip_witness :
  let buffer := encode_frames sample_frames ++ [Byte.x53; Byte.x01; Byte.x00] in
  exists ds buffer' head',
    (forall w : unit, receive_loop (fun h data => mret tt) (Z.to_nat 125 + 1) buffer 0 125 w =
      (_ ← for_each ds (deliver (fun h data => mret tt)); mret (buffer', head')) w) /\
    delivered_frame <$> ds = sample_frames /\
    mem_sub head' (125 - head') buffer' = [Byte.x53; Byte.x01; Byte.x00].
Proof.
  apply (framing_roundtrip (fun h data => mret tt) sample_frames [Byte.x53; Byte.x01; Byte.x00] _ 125);
    [apply sample_frames_wf|by vm_compute..].
Defined.

(** C36: after bytes that cannot start a header the receiver finds the packets
    that follow. *)
Theorem framing_resynchronises {W} (process : syncs_header -> list byte -> M W unit) junk f fs buffer recv :
  Forall (fun b => byte.unsigned b <> SYNCS_PACKET_MAGIC) junk -> Forall frame_wf (f :: fs) ->
  0 <= recv <= zlen buffer -> ztake recv buffer = junk ++ encode_frames (f :: fs) ->
  exists ds buffer' head',
    (forall w, receive_loop process (Z.to_nat recv + 1) buffer 0 recv w =
      (_ ← for_each ds (deliver process); mret (buffer', head')) w) /\
    delivered_frame <$> ds = f :: fs /\ mem_sub head' (recv - head') buffer' = [].
Proof.
  intros Hj Hfs Hr E. destruct (receive_loop_stream process _ buffer recv Hr E) as (ds & b & hd & Hl & Hd & Hb).
  exists ds, b, hd. rewrite Hd, Hb.
  assert (60 <= zlen (encode_frames (f :: fs))) as Hlen.
  { unfold encode_frames. cbn [fmap list_fmap concat]. rewrite zlen_app, zlen_encode_frame. zl. }
  rewrite parse_garbage by done. rewrite <- (app_nil_r (encode_frames _)).
  rewrite parse_encode, parse_short by done. simpl. by rewrite app_nil_r.
Qed.

Lemma framing_resynchronises_witness :
  let buffer := [Byte.x44; Byte.x00] ++ encode_frames sample_frames in
  exists ds buffer' head',
    (forall w : unit, receive_loop (fun h data => mret tt) (Z.to_nat 124 + 1) buffer 0 124 w =
      (_ ← for_each ds (deliver (fun h data => mret tt)); mret (buffer', head')) w) /\
    delivered_frame <$> ds = sample_frames /\ mem_sub head' (124 - head') buffer' = [].
Proof.
  apply (framing_resynchronises (fun h data => mret tt) [Byte.x44; Byte.x00] (sample_packet_header 0, [])
    [(sample_packet_header 2, [Byte.x53; Byte.x44])] _ 124); [|apply sample_frames_wf|by vm_compute..].
  repeat constructor; by vm_compute.
Defined.

(** ** Sending *)

Section sending.
Context `{Env} {W : Type} `{IOWorld W}.

(** C38: [syncs_blocking_send] returns; it sends on its own socket only, and
    either all of the buffer (result 0) or a proper prefix of it, after an
    error of [send] (result -1). *)
Theorem blocking_send_contract sock buffer len w :
  0 <= len < 2 ^ 32 -> len <= zlen buffer ->
  exists ret es rest, syncs_blocking_send sock buffer len w = Ok (ret, io_emits es w) /\
    sends_on sock es /\ ztake len buffer = wire sock es ++ rest /\
    ((ret = 0 /\ rest = []) \/ (ret = -1 /\ rest <> [])).
Proof.
  intros Hl Hb. unfold syncs_blocking_send.
  pose proof (blocking_send_loop_spec (Z.to_nat len) sock buffer len w ltac:(lia) Hb ltac:(lia)) as Hs.
  apply wp_run in Hs as (ret & w' & E & es & sent & rest & -> & Hon & <- & Hsplit & Hret). eauto 10.
Qed.
End sending.

Section instances.
#[local] Existing Instance perfect_env.

Lemma blocking_send_contract_witness :
  let w := mk_world calloc_server [] in
  exists ret es rest, syncs_blocking_send 5 [Byte.x01; Byte.x02; Byte.x03] 2 w = Ok (ret, io_emits es w) /\
    sends_on 5 es /\ ztake 2 [Byte.x01; Byte.x02; Byte.x03] = wire 5 es ++ rest /\
    ((ret = 0 /\ rest = []) \/ (ret = -1 /\ rest <> [])).
Proof.
  cbn zeta. generalize calloc_server. intros s.
  apply (blocking_send_contract 5 [Byte.x01; Byte.x02; Byte.x03] 2); [lia|by vm_compute].
Defined.
End instances.
