(* ===== verification/ClientState.v ===== *)
(** * Client: data structures and state

    src/libsyncs/syncs-client-types.h and the searches and initialisation of
    src/libsyncs/syncs-client.c.  Pointers into the tables of
    [struct syncs_connect] are slot numbers; mutexes and condition variables
    have no state of their own. *)

From S2P Require Import Prelude.
From S2P Require Import Monad.
From S2P Require Import Types.
From S2P Require Import Net.

(** ** Structures *)

(** [data] is [NULL] or the memory it points to. *)
Record syncs_client_event : Type := mk_client_event {
  ce_id : syncsid_t;
  ce_cb : Z;
  ce_args : Z;
  ce_update_counter : Z;
  ce_flags : Z;
  ce_data : option (list byte);
  ce_data_size : Z;
  ce_data_user_size : Z }.

Record syncs_connect_channel : Type := mk_connect_channel {
  cc_id : syncsid_t;
  cc_ticket : syncs_channel_ticket }.

(** The five fields the structure has for each of the three lists:
    [eventlist_sequence], ..., [eventlist_wait] and [events_info], which is
    [NULL] or the memory of the array. *)
Record list_state : Type := mk_list_state {
  li_sequence : Z;
  li_wait_packet : Z;
  li_recv : Z;
  li_wait : Z;
  li_info : option (list byte) }.

Record syncs_connect : Type := mk_connect {
  cn_id : syncsid_t;
  cn_server_id : syncsid_t;
  cn_addr : list byte;
  cn_port : Z;
  cn_socketfd : Z;
  cn_usocketfd : Z;
  cn_buffer : list byte;
  cn_read_data : list byte;
  cn_onexit : Z;
  cn_ready : Z;
  cn_connect_wait : Z;
  cn_read_size : Z;
  cn_read_id : syncsid_t;
  cn_read_wait : Z;
  cn_saddr : sockaddr_in;
  cn_event_wait : Z;
  cn_ticket_data : syncs_channel_ticket;
  cn_ticket_id : syncsid_t;
  cn_ticket_wait : Z;
  cn_events : list syncs_client_event;
  cn_events_queue : option nat;
  cn_channels : list syncs_connect_channel;
  cn_connect_cb_status : Z;
  cn_connect_cb : Z;
  cn_connect_arg : Z;
  cn_eventlist : list_state;
  cn_clientlist : list_state;
  cn_channellist : list_state }.

#[export] Instance syncs_client_event_settable : Settable syncs_client_event := fun e =>
  mk_client_event (ce_id e) (ce_cb e) (ce_args e) (ce_update_counter e) (ce_flags e)
    (ce_data e) (ce_data_size e) (ce_data_user_size e).
#[export] Instance syncs_connect_channel_settable : Settable syncs_connect_channel := fun c =>
  mk_connect_channel (cc_id c) (cc_ticket c).
#[export] Instance list_state_settable : Settable list_state := fun l =>
  mk_list_state (li_sequence l) (li_wait_packet l) (li_recv l) (li_wait l) (li_info l).
#[export] Instance syncs_connect_settable : Settable syncs_connect := fun s =>
  mk_connect (cn_id s) (cn_server_id s) (cn_addr s) (cn_port s) (cn_socketfd s) (cn_usocketfd s)
    (cn_buffer s) (cn_read_data s) (cn_onexit s) (cn_ready s) (cn_connect_wait s) (cn_read_size s)
    (cn_read_id s) (cn_read_wait s) (cn_saddr s) (cn_event_wait s) (cn_ticket_data s)
    (cn_ticket_id s) (cn_ticket_wait s) (cn_events s) (cn_events_queue s) (cn_channels s)
    (cn_connect_cb_status s) (cn_connect_cb s) (cn_connect_arg s) (cn_eventlist s)
    (cn_clientlist s) (cn_channellist s).

(** ** The client monad: the connection object and the I/O performed *)

Record cworld : Type := mk_cworld { c_connect : syncs_connect; c_log : list io }.
#[export] Instance cworld_settable : Settable cworld := fun w => mk_cworld (c_connect w) (c_log w).

#[export] Program Instance cworld_io : IOWorld cworld := {|
  io_log := c_log;
  io_emit e w := w <| c_log ::= fun l => l ++ [e] |> |}.
Next Obligation. done. Qed.

Abbreviation CM := (M cworld).

Definition connect_get : CM syncs_connect := gets c_connect.
Definition connect_upd (f : syncs_connect -> syncs_connect) : CM unit :=
  modify (fun w => w <| c_connect ::= f |>).

(** [s->events[e]], read and modified in place. *)
Definition cevent_at (e : nat) : CM syncs_client_event :=
  s ← connect_get; deref (cn_events s !! e).
Definition cevent_upd (e : nat) (f : syncs_client_event -> syncs_client_event) : CM unit :=
  ev ← cevent_at e; connect_upd (fun s => s <| cn_events ::= <[e := f ev]> |>).

(** ** Initial state *)

Definition ENOMEM : Z := 12.
Definition EBADFD : Z := 77.
Definition ETIMEDOUT : Z := 110.

(** What [calloc] leaves in the structure. *)
Definition calloc_client_event : syncs_client_event :=
  mk_client_event id_zero NULL NULL 0 0 None 0 0.
Definition calloc_list_state : list_state := mk_list_state 0 0 0 0 None.
Definition calloc_connect : syncs_connect := {|
  cn_id := id_zero;
  cn_server_id := id_zero;
  cn_addr := zero_bytes 20;
  cn_port := 0;
  cn_socketfd := 0;
  cn_usocketfd := 0;
  cn_buffer := zero_bytes SYNCS_CLIENT_BUFFER_SIZE;
  cn_read_data := zero_bytes SYNCS_VARIABLE_SIZE_MAXIMUM;
  cn_onexit := 0;
  cn_ready := 0;
  cn_connect_wait := 0;
  cn_read_size := 0;
  cn_read_id := id_zero;
  cn_read_wait := 0;
  cn_saddr := mk_addr 0 0;
  cn_event_wait := 0;
  cn_ticket_data := mk_ticket 0 0 0;
  cn_ticket_id := id_zero;
  cn_ticket_wait := 0;
  cn_events := replicate SYNCS_EVENT_MAXIMUM calloc_client_event;
  cn_events_queue := None;
  cn_channels := replicate SYNCS_CHANNEL_MAXIMUM (mk_connect_channel id_zero (mk_ticket 0 0 0));
  cn_connect_cb_status := 0;
  cn_connect_cb := NULL;
  cn_connect_arg := NULL;
  cn_eventlist := calloc_list_state;
  cn_clientlist := calloc_list_state;
  cn_channellist := calloc_list_state |}.

Definition syncs_connect_structure_init (s : syncs_connect) : syncs_connect :=
  let s := s <| cn_socketfd := -1 |> in
  let s := s <| cn_usocketfd := -1 |> in
  let s := s <| cn_connect_cb := NULL |> in
  let s := s <| cn_connect_arg := NULL |> in
  let s := s <| cn_onexit := 0 |> in
  let s := s <| cn_port := 0 |> in
  let s := s <| cn_addr ::= <[0%nat := Byte.x00]> |> in
  let s := s <| cn_connect_wait := 1 |> in
  let s := s <| cn_event_wait := 1 |> in
  let s := s <| cn_events ::= fmap (fun e => e <| ce_id ::= id_set_free |> <| ce_data := None |>) |> in
  s <| cn_channels ::= fmap (fun c => c <| cc_id ::= id_set_free |>) |>.

(** [syncs_udpconnect] and [syncs_connect] up to the creation of the receiver
    thread; [size] is [sizeof(struct syncs_connect)].  [None] when the
    allocation fails. *)
Section create.
Context `{Env}.

Definition connect_object (addr : option (list byte)) (port : Z) (id : option (list byte)) : syncs_connect :=
  let s := syncs_connect_structure_init calloc_connect in
  let s := match addr with
           | Some a => let s := s <| cn_addr := strncpy 20 a |> in s <| cn_port := port |>
           | None => s
           end in
  match id with Some i => s <| cn_id := syncs_idstr i |> | None => s end.

Definition syncs_udpconnect (size : Z) (addr : option (list byte)) (port : Z) (id : option (list byte))
    : option syncs_connect :=
  if negb (env_alloc [] size) then None else Some (connect_object addr port id).

Definition syncs_connect_new (size : Z) (addr : option (list byte)) (port : Z) (id : option (list byte))
    (cb arg : Z) : option syncs_connect :=
  if negb (env_alloc [] size) then None
  else
    let s := connect_object addr port id in
    let s := s <| cn_connect_cb := cb |> in
    Some (s <| cn_connect_arg := arg |>).

Definition syncs_connect_simple (size : Z) (addr : option (list byte)) (port : Z) (id : option (list byte))
    : option syncs_connect :=
  syncs_connect_new size addr port id NULL NULL.
End create.

(** ** Searches *)

Definition syncs_find_event (s : syncs_connect) (id : syncsid_t) : option nat :=
  scan (fun e => syncs_idcmp (ce_id e) id) (cn_events s).

Definition syncs_find_event_str (s : syncs_connect) (cid : list byte) : option nat :=
  scan (fun e => syncs_idcmp_str (ce_id e) cid) (cn_events s).

Definition syncs_get_free_event (s : syncs_connect) : option nat :=
  scan (fun e => id_is_free (ce_id e)) (cn_events s).

Definition syncs_get_event_str (s : syncs_connect) (cid : list byte) : option nat :=
  match syncs_find_event_str s cid with
  | None => syncs_get_free_event s
  | Some e => Some e
  end.

Definition syncs_find_free_channel (s : syncs_connect) : option nat :=
  scan (fun c => id_is_free (cc_id c)) (cn_channels s).

(** ** Status *)

Definition syncs_isconnect (s : option syncs_connect) : Z :=
  match s with
  | None => 0
  | Some s => if cn_ready s =? 0 then 0 else 1
  end.

(** The result and the caller's string. *)
Definition syncs_connect_status (s : option syncs_connect) (id : list byte) : Z * list byte :=
  match s with
  | None => (-1, id)
  | Some s => if cn_ready s =? 0 then (-1, id) else (0, syncs_stridcpy id (cn_server_id s))
  end.
