(* ===== verification/ClientOps.v ===== *)
(** * Client: requests, events and packets

    The part of src/libsyncs/syncs-client.c that sends requests, keeps the
    subscriptions and processes one received packet. *)

From S2P Require Import Prelude.
From S2P Require Import Monad.
From S2P Require Import Types.
From S2P Require Import Net.
From S2P Require Import ClientState.

(** Runs [body] up to [2 ^ n] times, while it returns [true]; the result is
    [false] when the loop ended by itself. *)
Fixpoint loop_upto {W} (n : nat) (body : M W bool) : M W bool :=
  match n with
  | O => body
  | S n => again ← loop_upto n body; if (again : bool) then loop_upto n body else mret false
  end.

Section ops.
Context `{Env}.

(** ** Sending *)

Definition syncs_connect_send (buffer : list byte) (size : Z) : CM Z :=
  c ← connect_get;
  if cn_socketfd c >? 0 then syncs_blocking_send (cn_socketfd c) buffer size
  else if cn_usocketfd c >? 0 then
    _ ← syncs_udp_send (cn_usocketfd c) buffer size (cn_saddr c);
    mret 0
  else mret (-1).

(** [struct syncs_header packet;] on the stack. *)
Definition stack_header : CM syncs_header := packet ← stack_packet; mret (pk_header packet).

(** ** Waiting for a point in time *)

Definition clock_gettime : CM (Z * Z) :=
  log ← gets c_log;
  _ ← emit IoClock;
  mret (env_realtime log).

(** One iteration of [while (1)]; [false] is [break]. *)
Definition wait_sync_round (sync : syncdata) : CM bool :=
  system_time ← clock_gettime;
  let sec := data0 sync - system_time.1 in
  let nsec := data1 sync - system_time.2 in
  if (sec <? 0) || ((sec =? 0) && (nsec <? 0)) || (sec >? 1) then mret false
  else
    let '(sec, nsec) := if nsec <? 0 then (sec - 1, nsec + 1000000000) else (sec, nsec) in
    _ ← (if (sec >? 0) || (nsec >? 1000000) then emit (IoSleep sec nsec) else mret tt);
    mret true.

(** [2 ^ 33] rounds are enough for a clock that advances
    ([syncs_wait_sync_returns]). *)
Definition syncs_wait_sync (sync : syncdata) : CM unit :=
  again ← loop_upto 33 (wait_sync_round sync);
  if (again : bool) then raise Diverges else mret tt.

(** ** Write, define *)

Definition VAR_FLAGS_MASK : Z := Z.lor SYNCS_TYPE_VAR_MASK SYNCS_TYPE_FLAGS_MASK.

(** [data] is [NULL] or the memory it points to. *)
Definition syncs_write (flags : Z) (cid : list byte) (data : option (list byte)) (data_size : Z) : CM Z :=
  packet ← stack_packet;
  let header := pk_header packet <| hd_id := syncs_idstr cid |> in
  let header := syncs_fill_header_str header cid
                  (Z.lor SYNCS_TYPE_WRITE (Z.land flags VAR_FLAGS_MASK)) in
  let data_size := if data_size =? 0 then syncs_get_size_by_type flags else data_size in
  match data with
  | Some data =>
      if data_size =? 0 then
        syncs_connect_send (packet_bytes (mk_packet (header <| hd_data_size := 0 |>) (pk_buffer packet)))
          sizeof_header
      else
        buffer ← memcpy (pk_buffer packet) 0 data data_size;
        let size := Z.land data_size SYNCS_VARIABLE_SIZE_MAXIMUM in
        syncs_connect_send (packet_bytes (mk_packet (header <| hd_data_size := size |>) buffer))
          (sizeof_header + size)
  | None =>
      syncs_connect_send (packet_bytes (mk_packet (header <| hd_data_size := 0 |>) (pk_buffer packet)))
        sizeof_header
  end.

(** The scalar writers: [data] is the memory of the argument. *)
Definition syncs_write_int32 (flags : Z) (id : list byte) (data : Z) : CM Z :=
  syncs_write (Z.lor flags SYNCS_TYPE_VAR_INT32) id (Some (le_split 4 data)) 0.
Definition syncs_write_int64 (flags : Z) (id : list byte) (data : Z) : CM Z :=
  syncs_write (Z.lor flags SYNCS_TYPE_VAR_INT64) id (Some (le_split 8 data)) 0.
Definition syncs_write_float (flags : Z) (id data : list byte) : CM Z :=
  syncs_write (Z.lor flags SYNCS_TYPE_VAR_FLOAT) id (Some data) 0.
Definition syncs_write_double (flags : Z) (id data : list byte) : CM Z :=
  syncs_write (Z.lor flags SYNCS_TYPE_VAR_DOUBLE) id (Some data) 0.
Definition syncs_write_str (flags : Z) (id data : list byte) : CM Z :=
  syncs_write (Z.lor flags SYNCS_TYPE_VAR_STRING) id (Some (cstr data ++ [Byte.x00]))
    (zlen (cstr data) + 1).
Definition syncs_write_event (flags : Z) (id : list byte) : CM Z :=
  syncs_write (Z.lor flags SYNCS_TYPE_VAR_EMPTY) id None 0.

Definition syncs_define (cid : list byte) (flags : Z) : CM Z :=
  packet ← stack_packet;
  let header := syncs_fill_header_request_str (pk_header packet) cid
                  (Z.lor SYNCS_TYPE_DEFINE (Z.land flags VAR_FLAGS_MASK)) in
  _ ← syncs_connect_send (packet_bytes (packet <| pk_header := header |>)) sizeof_header;
  mret 0.

Definition syncs_undefine (cid : list byte) : CM Z :=
  packet ← stack_packet;
  let header := syncs_fill_header_request_str (pk_header packet) cid SYNCS_TYPE_DEFINE in
  _ ← syncs_connect_send (packet_bytes (packet <| pk_header := header |>)) sizeof_header;
  mret 0.

(** ** Subscriptions *)

Definition syncs_client_send_subscribe (id : syncsid_t) (flags update_counter : Z) : CM Z :=
  packet ← stack_packet;
  let header := syncs_fill_header_request_id (pk_header packet) id
                  (Z.lor SYNCS_TYPE_SUBSCRIBE (Z.land flags VAR_FLAGS_MASK)) in
  let header := header <| hd_update_counter := update_counter |> in
  _ ← syncs_connect_send (packet_bytes (packet <| pk_header := header |>)) sizeof_header;
  mret 0.

Definition syncs_client_send_unsubscribe (id : syncsid_t) (flags : Z) : CM Z :=
  packet ← stack_packet;
  let header := syncs_fill_header_request_id (pk_header packet) id
                  (Z.lor SYNCS_TYPE_UNSUBSCRIBE (Z.land flags VAR_FLAGS_MASK)) in
  _ ← syncs_connect_send (packet_bytes (packet <| pk_header := header |>)) sizeof_header;
  mret 0.

Definition syncs_client_send_id (id : syncsid_t) : CM Z :=
  packet ← stack_header;
  let packet := syncs_fill_header_request_id packet id SYNCS_TYPE_CLIENT_ID in
  let packet := packet <| hd_sync := mk_sync SYNCS_VERSION_MAJOR SYNCS_VERSION_MINOR |> in
  _ ← syncs_connect_send (encode_header packet) sizeof_header;
  mret 0.

Definition syncs_client_send_channel_anons (id : syncsid_t) (ticket : syncs_channel_ticket) : CM Z :=
  packet ← stack_packet;
  let header := syncs_fill_header (pk_header packet) id
                  (Z.lor SYNCS_TYPE_CHANNEL SYNCS_CHANNEL_ANONS) in
  let header := header <| hd_data_size := sizeof_channel_ticket |> in
  buffer ← memcpy (pk_buffer packet) 0 (encode_ticket ticket) sizeof_channel_ticket;
  _ ← syncs_connect_send (packet_bytes (mk_packet header buffer)) (sizeof_header + sizeof_channel_ticket);
  mret 0.

(** Identification, then every subscription and every announced channel. *)
Definition syncs_send_id : CM unit :=
  s ← connect_get;
  _ ← syncs_client_send_id (cn_id s);
  _ ← for_each (seq 0 SYNCS_EVENT_MAXIMUM) (fun i =>
    event ← cevent_at i;
    if negb (id_is_free (ce_id event)) then
      _ ← syncs_client_send_subscribe (ce_id event) (ce_flags event) (ce_update_counter event); mret tt
    else mret tt);
  for_each (seq 0 SYNCS_CHANNEL_MAXIMUM) (fun i =>
    s ← connect_get;
    channel ← deref (cn_channels s !! i);
    if negb (id_is_free (cc_id channel)) then
      _ ← syncs_client_send_channel_anons (cc_id channel) (cc_ticket channel); mret tt
    else mret tt).

(** The common end of the three subscribe calls. *)
Definition subscribe_send (e : nat) (flags : Z) (cid : list byte) : CM Z :=
  _ ← cevent_upd e (fun ev => ev <| ce_flags := flags |>);
  _ ← cevent_upd e (fun ev => ev <| ce_id := syncs_idstr cid |>);
  s ← connect_get;
  if cn_socketfd s >=? 0 then
    event ← cevent_at e;
    _ ← syncs_client_send_subscribe (ce_id event) flags (ce_update_counter event);
    mret 0
  else mret 0.

Definition syncs_subscribe_event (flags : Z) (cid : list byte) (cb args : Z) : CM Z :=
  s ← connect_get;
  match syncs_get_event_str s cid with
  | None => mret (- ENOMEM)
  | Some e =>
      _ ← cevent_upd e (fun ev => ev <| ce_cb := cb |>);
      _ ← cevent_upd e (fun ev => ev <| ce_args := args |>);
      subscribe_send e flags cid
  end.

(** [if (event->data != NULL) free(event->data); event->data = data; ...] *)
Definition event_set_data (e : nat) (data : option (list byte)) (size : Z) : CM unit :=
  event ← cevent_at e;
  _ ← (match ce_data event with Some _ => emit IoFree | None => mret tt end);
  _ ← cevent_upd e (fun ev => ev <| ce_data := data |>);
  cevent_upd e (fun ev => ev <| ce_data_user_size := size |>).

Definition syncs_subscribe_event_sync_user (flags : Z) (cid : list byte) (user_data : option (list byte))
    (user_data_size : Z) : CM Z :=
  s ← connect_get;
  match syncs_get_event_str s cid with
  | None => mret (- ENOMEM)
  | Some e =>
      _ ← event_set_data e user_data user_data_size;
      subscribe_send e flags cid
  end.

(** [malloc] returns fresh memory, or [NULL] unchecked; its contents are
    what the stack of the next packet would hold. *)
Definition syncs_subscribe_event_sync (flags : Z) (cid : list byte) : CM Z :=
  s ← connect_get;
  match syncs_get_event_str s cid with
  | None => mret (- ENOMEM)
  | Some e =>
      log ← gets c_log;
      _ ← emit (IoAlloc SYNCS_EVENT_DATA_SIZE_MAXIMUM);
      let event_data := if env_alloc log SYNCS_EVENT_DATA_SIZE_MAXIMUM
                        then Some (ztake SYNCS_EVENT_DATA_SIZE_MAXIMUM (env_stack log)) else None in
      _ ← event_set_data e event_data SYNCS_EVENT_DATA_SIZE_MAXIMUM;
      subscribe_send e flags cid
  end.

Definition syncs_unsubscribe_event (cid : list byte) : CM unit :=
  s ← connect_get;
  match syncs_find_event s (syncs_idstr cid) with
  | None => mret tt
  | Some e =>
      event ← cevent_at e;
      _ ← syncs_client_send_unsubscribe (ce_id event) (ce_flags event);
      cevent_upd e (fun ev => ev <| ce_id ::= id_set_free |>)
  end.

(** ** Channels *)

Definition syncs_channel_anons (id : list byte) (flags port : Z) : CM Z :=
  s ← connect_get;
  c ← deref (syncs_find_free_channel s);
  let channel := mk_connect_channel (syncs_idstr id) (mk_ticket 0 (u16 port) (u32 flags)) in
  _ ← connect_upd (fun s => s <| cn_channels ::= <[c := channel]> |>);
  _ ← (if cn_socketfd s >=? 0 then
         _ ← syncs_client_send_channel_anons (cc_id channel) (cc_ticket channel); mret tt
       else mret tt);
  mret 0.

(** ** Received packets

    A packet is its header and the memory [packet->buffer] points to, up to
    the end of the receive buffer. *)

Definition syncs_process_event (header : syncs_header) (data : list byte) : CM unit :=
  s ← connect_get;
  match syncs_find_event s (hd_id header) with
  | None => mret tt
  | Some e =>
      let data_size := hd_data_size header in
      event ← cevent_at e;
      _ ← (if ce_cb event =? NULL then mret tt
           else emit (IoCallback (ce_cb event) (ce_args event) (ce_id event) (ztake data_size data)));
      _ ← (match ce_data event with
           | None => mret tt
           | Some memory =>
               memory ← memcpy memory 0 data data_size;
               _ ← cevent_upd e (fun ev => ev <| ce_data := Some memory |>);
               _ ← cevent_upd e (fun ev => ev <| ce_data_size := data_size |>);
               _ ← connect_upd (fun s => s <| cn_events_queue := Some e |>);
               connect_upd (fun s => s <| cn_event_wait := 0 |>)
           end);
      cevent_upd e (fun ev => ev <| ce_update_counter := hd_update_counter header |>)
  end.

Definition syncs_channel_process_packet (header : syncs_header) (data : list byte) : CM unit :=
  if Z.land (hd_type header) SYNCS_TYPE_CHANNEL_MASK =? SYNCS_CHANNEL_TICKET then
    s ← connect_get;
    if negb (cn_ticket_wait s =? 0) && syncs_idcmp (hd_id header) (cn_ticket_id s) then
      bytes ← memcpy (zero_bytes sizeof_channel_ticket) 0 data sizeof_channel_ticket;
      _ ← connect_upd (fun s => s <| cn_ticket_data := decode_ticket bytes |>);
      connect_upd (fun s => s <| cn_ticket_wait := 0 |>)
    else mret tt
  else mret tt.

Definition syncs_process_error (header : syncs_header) : CM unit :=
  let code := hd_update_counter header in
  if code =? SYNCS_ERROR_NOTSUPPORT then connect_upd (fun s => s <| cn_onexit := 1 |>)
  else if code =? SYNCS_ERROR_CRYPT then connect_upd (fun s => s <| cn_onexit := 1 |>)
  else if code =? SYNCS_ERROR_UNKNOWNCLIENT then syncs_send_id
  else mret tt.

(** The three list cases of [syncs_process_packet]: [get] and [put] select
    the fields of the list, [size] is the size of an entry.  [char] fields
    are kept as their byte; [id.c[2]] is added as a signed [char]. *)
Definition process_list (get : syncs_connect -> list_state)
    (put : (list_state -> list_state) -> syncs_connect -> syncs_connect) (size : Z)
    (header : syncs_header) (data : list byte) : CM unit :=
  s ← connect_get;
  let l := get s in
  let id := hd_id header in
  match li_info l with
  | None => mret tt
  | Some info =>
      if negb (id_char id 3 =? li_sequence l) then mret tt
      else if negb (id_char id 0 =? li_wait_packet l) then mret tt
      else
        info ← memcpy info (li_recv l * size) data (hd_data_size header);
        _ ← connect_upd (put (fun l => l <| li_info := Some info |>));
        _ ← connect_upd (put (fun l => l <| li_recv ::= fun n => i32 (n + i8 (id_char id 2)) |>));
        _ ← connect_upd (put (fun l => l <| li_wait_packet ::= fun n => u8 (n + 1) |>));
        if id_char id 4 =? 1 then connect_upd (put (fun l => l <| li_wait := 0 |>)) else mret tt
  end.

Definition put_eventlist (f : list_state -> list_state) (s : syncs_connect) : syncs_connect :=
  s <| cn_eventlist ::= f |>.
Definition put_clientlist (f : list_state -> list_state) (s : syncs_connect) : syncs_connect :=
  s <| cn_clientlist ::= f |>.
Definition put_channellist (f : list_state -> list_state) (s : syncs_connect) : syncs_connect :=
  s <| cn_channellist ::= f |>.

(** The [SYNCS_TYPE_READ] case. *)
Definition process_read (header : syncs_header) (data : list byte) : CM unit :=
  s ← connect_get;
  if negb (cn_read_wait s =? 0) && syncs_idcmp (hd_id header) (cn_read_id s) then
    _ ← connect_upd (fun s => s <| cn_read_size := hd_data_size header |>);
    read_data ← memcpy (cn_read_data s) 0 data (hd_data_size header);
    _ ← connect_upd (fun s => s <| cn_read_data := read_data |>);
    connect_upd (fun s => s <| cn_read_wait := 0 |>)
  else mret tt.

Definition syncs_process_packet (header : syncs_header) (data : list byte) : CM unit :=
  let msg := Z.land (hd_type header) SYNCS_TYPE_MSG_MASK in
  if msg =? SYNCS_TYPE_EVENT then
    _ ← (if flag (hd_type header) SYNCS_TYPE_SYNC then syncs_wait_sync (hd_sync header) else mret tt);
    syncs_process_event header data
  else if msg =? SYNCS_TYPE_CHANNEL then syncs_channel_process_packet header data
  else if msg =? SYNCS_TYPE_SERVER_STATUS then
    _ ← connect_upd (fun s => s <| cn_server_id ::= fun a => syncs_idcpy a (hd_id header) |>);
    syncs_process_error header
  else if msg =? SYNCS_TYPE_READ then process_read header data
  else if msg =? SYNCS_TYPE_EVENT_LIST then
    process_list cn_eventlist put_eventlist sizeof_event_info header data
  else if msg =? SYNCS_TYPE_CLIENT_LIST then
    process_list cn_clientlist put_clientlist sizeof_client_info header data
  else if msg =? SYNCS_TYPE_CHANNEL_LIST then
    process_list cn_channellist put_channellist sizeof_channel_info header data
  else mret tt.
End ops.
