(* ===== verification/ClientCalls.v ===== *)
(** * Client: blocking calls and the receiver thread

    The part of src/libsyncs/syncs-client.c that waits for an answer, and the
    threads that receive.  The application's thread and the receiver thread
    share [struct syncs_connect]; while a call sleeps on a condition variable
    the receiver thread processes packets, given by the call's [wakeups]. *)

From S2P Require Import Prelude.
From S2P Require Import Monad.
From S2P Require Import Types.
From S2P Require Import Net.
From S2P Require Import Framing.
From S2P Require Import ClientState.
From S2P Require Import ClientOps.

(** One return of [pthread_cond_timedwait]: the packets the receiver thread
    processed since the call, and whether it returned [ETIMEDOUT]. *)
Record wakeup : Type := mk_wakeup { wk_packets : list delivery; wk_timeout : bool }.

Section calls.
Context `{Env}.

(** ** Waiting *)

Definition receive_packets (ds : list delivery) : CM unit :=
  for_each ds (deliver syncs_process_packet).

(** [while ( *wait ) ...]; a schedule that ends before the wait does is no
    execution of the call. *)
Fixpoint wait_loop (wait : syncs_connect -> Z) (wakeups : list wakeup) : CM Z :=
  s ← connect_get;
  if wait s =? 0 then mret 0
  else
    match wakeups with
    | [] => raise Diverges
    | wk :: wakeups =>
        _ ← receive_packets (wk_packets wk);
        if wk_timeout wk then mret (- ETIMEDOUT) else wait_loop wait wakeups
    end.

Definition syncs_wait_for (wait : syncs_connect -> Z) (wakeups : list wakeup) : CM Z :=
  _ ← emit IoClock;
  wait_loop wait wakeups.

Definition syncs_connect_wait (wakeups : list wakeup) : CM Z := syncs_wait_for cn_connect_wait wakeups.
Definition syncs_wait_for_read (wakeups : list wakeup) : CM Z := syncs_wait_for cn_read_wait wakeups.
Definition syncs_wait_for_ticket (wakeups : list wakeup) : CM Z := syncs_wait_for cn_ticket_wait wakeups.
Definition syncs_wait_for_eventlist (wakeups : list wakeup) : CM Z :=
  syncs_wait_for (fun s => li_wait (cn_eventlist s)) wakeups.
Definition syncs_wait_for_clientlist (wakeups : list wakeup) : CM Z :=
  syncs_wait_for (fun s => li_wait (cn_clientlist s)) wakeups.
Definition syncs_wait_for_channellist (wakeups : list wakeup) : CM Z :=
  syncs_wait_for (fun s => li_wait (cn_channellist s)) wakeups.

(** ** Reading a variable *)

(** The result, the caller's buffer and its size variable. *)
Definition read_result : Type := Z * list byte * Z.

Definition syncs_read (flags : Z) (cid : list byte) (data : list byte) (data_size : Z)
    (wakeups : list wakeup) : CM read_result :=
  packet ← stack_packet;
  s ← connect_get;
  if cn_socketfd s <? 0 then mret (- EBADFD, data, data_size)
  else
    _ ← connect_upd (fun s => s <| cn_read_wait := 1 |>);
    let header := syncs_fill_header_request_str (pk_header packet) cid
                    (Z.lor SYNCS_TYPE_READ (Z.land flags SYNCS_TYPE_VAR_MASK)) in
    _ ← connect_upd (fun s => s <| cn_read_id ::= fun a => syncs_idcpy a (hd_id header) |>);
    _ ← syncs_connect_send (packet_bytes (packet <| pk_header := header |>)) sizeof_header;
    ret ← syncs_wait_for_read wakeups;
    if negb (ret =? 0) then mret (- ETIMEDOUT, data, data_size)
    else
      s ← connect_get;
      let data_size := if data_size >? cn_read_size s then cn_read_size s else data_size in
      data ← memcpy data 0 (cn_read_data s) data_size;
      mret (0, data, data_size).

Definition syncs_read_int32 (flags : Z) (id data : list byte) (wakeups : list wakeup) : CM read_result :=
  syncs_read (Z.lor flags SYNCS_TYPE_VAR_INT32) id data (syncs_get_size_by_type SYNCS_TYPE_VAR_INT32) wakeups.
Definition syncs_read_int64 (flags : Z) (id data : list byte) (wakeups : list wakeup) : CM read_result :=
  syncs_read (Z.lor flags SYNCS_TYPE_VAR_INT64) id data (syncs_get_size_by_type SYNCS_TYPE_VAR_INT64) wakeups.
Definition syncs_read_float (flags : Z) (id data : list byte) (wakeups : list wakeup) : CM read_result :=
  syncs_read (Z.lor flags SYNCS_TYPE_VAR_FLOAT) id data (syncs_get_size_by_type SYNCS_TYPE_VAR_FLOAT) wakeups.
Definition syncs_read_double (flags : Z) (id data : list byte) (wakeups : list wakeup) : CM read_result :=
  syncs_read (Z.lor flags SYNCS_TYPE_VAR_DOUBLE) id data (syncs_get_size_by_type SYNCS_TYPE_VAR_DOUBLE) wakeups.
Definition syncs_read_str (flags : Z) (id data : list byte) (size : Z) (wakeups : list wakeup) : CM read_result :=
  syncs_read (Z.lor flags SYNCS_TYPE_VAR_STRING) id data size wakeups.

(** ** Waiting for an event *)

(** The identifier returned, [NULL] as [None], and the three variables the
    caller passed. *)
Definition syncs_wait_event (flags : Z) (data : list byte) (data_size : Z) (wakeups : list wakeup)
    : CM (option syncsid_t * Z * list byte * Z) :=
  s ← connect_get;
  queue ←
    match cn_events_queue s with
    | Some e => mret (Some e)
    | None =>
        ret ← syncs_wait_for cn_event_wait wakeups;
        if negb (ret =? 0) then mret None
        else s ← connect_get; mret (cn_events_queue s)
    end;
  match queue with
  | None => mret (None, flags, data, data_size)
  | Some e =>
      event ← cevent_at e;
      let data_size := if data_size >? ce_data_size event then ce_data_size event else data_size in
      memory ← deref (ce_data event);
      data ← memcpy data 0 memory data_size;
      _ ← connect_upd (fun s => s <| cn_events_queue := None |>);
      _ ← connect_upd (fun s => s <| cn_event_wait := 1 |>);
      mret (Some (ce_id event), ce_flags event, data, data_size)
  end.

(** ** Lists *)

(** [syncs_request_clientslist], [..._eventslist] and [..._channelslist]:
    [get] and [put] select the fields of the list, [slots] and [size] are
    the dimensions of its array.  The result is the array and the caller's
    [count]; [NULL] is [None]. *)
Definition request_list (get : syncs_connect -> list_state)
    (put : (list_state -> list_state) -> syncs_connect -> syncs_connect)
    (type slots size : Z) (wait : list wakeup -> CM Z) (count : Z) (wakeups : list wakeup)
    : CM (option (list byte) * Z) :=
  packet ← stack_header;
  s ← connect_get;
  allocated ←
    (match li_info (get s) with
     | Some _ => mret true
     | None =>
         log ← gets c_log;
         _ ← emit (IoAlloc (slots * size));
         if env_alloc log (slots * size) then
           _ ← connect_upd (put (fun l => l <| li_info := Some (zero_bytes (slots * size)) |>));
           mret true
         else mret false
     end);
  if negb allocated then mret (None, count)
  else
    s ← connect_get;
    if cn_socketfd s <? 0 then mret (None, 0)
    else
      _ ← connect_upd (put (fun l => l <| li_sequence ::= fun n => u8 (n + 1) |>));
      s ← connect_get;
      let packet := packet <| hd_id ::= fun a => id_set_char a 0 (li_sequence (get s)) |> in
      let packet := syncs_fill_basic_header_request packet type in
      _ ← connect_upd (put (fun l => l <| li_recv := 0 |>));
      _ ← connect_upd (put (fun l => l <| li_wait_packet := 0 |>));
      _ ← connect_upd (put (fun l => l <| li_wait := 1 |>));
      _ ← syncs_connect_send (encode_header packet) sizeof_header;
      ret ← wait wakeups;
      if negb (ret =? 0) then mret (None, count)
      else
        s ← connect_get;
        mret (li_info (get s), u32 (li_recv (get s))).

Definition syncs_request_clientslist : Z -> list wakeup -> CM (option (list byte) * Z) :=
  request_list cn_clientlist put_clientlist SYNCS_TYPE_CLIENT_LIST
    (Z.of_nat SYNCS_CLIENT_MAXIMUM) sizeof_client_info syncs_wait_for_clientlist.
Definition syncs_request_eventslist : Z -> list wakeup -> CM (option (list byte) * Z) :=
  request_list cn_eventlist put_eventlist SYNCS_TYPE_EVENT_LIST
    (Z.of_nat SYNCS_EVENT_MAXIMUM) sizeof_event_info syncs_wait_for_eventlist.

(** [htonl(INADDR_LOOPBACK)] on a little-endian machine: 127.0.0.1. *)
Definition LOOPBACK : Z := 0x0100007f.

(** Channels announced by a client on the server's own machine. *)
Definition channels_fix_ip (s : syncs_connect) (i : nat) (info : list byte) : CM (list byte) :=
  let off := Z.of_nat i * sizeof_channel_info + 40 in
  if off + 4 >? zlen info then raise OutOfBounds
  else if (le_combine (mem_sub off 4 info) =? LOOPBACK) && negb (is_nul (chr (cn_addr s))) then
    memcpy info off (le_split 4 (env_inet_addr (cn_addr s))) 4
  else mret info.

Definition syncs_request_channelslist (count : Z) (wakeups : list wakeup) : CM (option (list byte) * Z) :=
  answer ← request_list cn_channellist put_channellist SYNCS_TYPE_CHANNEL_LIST
    (Z.of_nat SYNCS_CHANNEL_MAXIMUM) sizeof_channel_info syncs_wait_for_channellist count wakeups;
  match answer with
  | (None, count) => mret (None, count)
  | (Some info, _) =>
      s ← connect_get;
      info ← fold_m (fun info i => channels_fix_ip s i info) info
               (seq 0 (Z.to_nat (li_recv (cn_channellist s))));
      _ ← connect_upd (put_channellist (fun l => l <| li_info := Some info |>));
      mret (Some info, u32 (li_recv (cn_channellist s)))
  end.

Definition free_list (get : syncs_connect -> list_state)
    (put : (list_state -> list_state) -> syncs_connect -> syncs_connect) : CM unit :=
  s ← connect_get;
  match li_info (get s) with
  | None => mret tt
  | Some _ => _ ← emit IoFree; connect_upd (put (fun l => l <| li_info := None |>))
  end.
Definition syncs_free_clientslist : CM unit := free_list cn_clientlist put_clientlist.
Definition syncs_free_eventslist : CM unit := free_list cn_eventlist put_eventlist.
Definition syncs_free_channelslist : CM unit := free_list cn_channellist put_channellist.

(** ** Channels *)

(** [ticket_wait] is not raised before the wait. *)
Definition syncs_channel_request (id : list byte) (ticket : syncs_channel_ticket) (wakeups : list wakeup)
    : CM (Z * syncs_channel_ticket) :=
  packet ← stack_packet;
  s ← connect_get;
  if cn_socketfd s <? 0 then mret (- EBADFD, ticket)
  else
    let header := syncs_fill_header_request_str (pk_header packet) id
                    (Z.lor SYNCS_TYPE_CHANNEL SYNCS_CHANNEL_REQUEST) in
    _ ← connect_upd (fun s => s <| cn_ticket_id := hd_id header |>);
    _ ← syncs_connect_send (packet_bytes (packet <| pk_header := header |>)) sizeof_header;
    ret ← syncs_wait_for_ticket wakeups;
    if negb (ret =? 0) then mret (- ETIMEDOUT, ticket)
    else
      s ← connect_get;
      let ticket := cn_ticket_data s in
      mret (0, if tk_ip ticket =? LOOPBACK then ticket <| tk_ip := env_inet_addr (cn_addr s) |> else ticket).

(** ** The receiver thread *)

(** One return of [select], and of the [recv] that follows. *)
Inductive select_result : Type :=
  | SelectTimeout
  | SelectEINTR
  | SelectRecv (r : recv_result).

(** The thread that runs the application's connection callback. *)
Definition syncs_connect_cb_thread : CM unit :=
  s ← connect_get;
  _ ← emit (IoConnectCb (cn_connect_cb s) (cn_connect_arg s));
  connect_upd (fun s => s <| cn_connect_cb_status := 0 |>).

(** The start of [syncs_recv]. *)
Definition recv_start : CM unit :=
  _ ← syncs_send_id;
  s ← connect_get;
  _ ← (if negb (cn_connect_cb s =? NULL) && (cn_connect_cb_status s =? 0) then
         _ ← connect_upd (fun s => s <| cn_connect_cb_status := 1 |>);
         emit (IoThread (cn_connect_cb s) (cn_connect_arg s))
       else mret tt);
  _ ← connect_upd (fun s => s <| cn_connect_wait := 0 |>);
  connect_upd (fun s => s <| cn_ready := 1 |>).

(** One iteration of the loop of [syncs_recv]: [buffer_recv] before and
    after; [None] is [break]. *)
Definition recv_round (buffer_recv : Z) (r : select_result) : CM (option Z) :=
  match r with
  | SelectTimeout => mret (Some buffer_recv)
  | SelectEINTR => mret (Some buffer_recv)
  | SelectRecv (RecvError errno) =>
      if (errno =? EAGAIN) || (errno =? EINTR) then mret (Some buffer_recv) else mret None
  | SelectRecv (RecvData bs) =>
      let read_size := zlen bs in
      s ← connect_get;
      buffer ← memcpy (cn_buffer s) buffer_recv bs read_size;
      _ ← connect_upd (fun s => s <| cn_buffer := buffer |>);
      if read_size <? sizeof_header then
        if read_size =? 0 then mret None else mret (Some buffer_recv)
      else
        let buffer_recv := buffer_recv + read_size in
        res ← receive_loop syncs_process_packet (Z.to_nat buffer_recv + 1) buffer 0 buffer_recv;
        let '(buffer, buffer_head) := res in
        if buffer_head <? buffer_recv then
          let rest := mem_sub buffer_head (buffer_recv - buffer_head) buffer in
          let buffer := if buffer_head =? 0 then buffer else mem_put 0 rest buffer in
          _ ← connect_upd (fun s => s <| cn_buffer := buffer |>);
          mret (Some (buffer_recv - buffer_head))
        else
          _ ← connect_upd (fun s => s <| cn_buffer := buffer |>);
          mret (Some 0)
  end.

(** [while (!s->onexit)] over what [select] and [recv] return; the result
    is [None] after a [break] or an exit, else the [buffer_recv] with which
    the thread waits for more. *)
Fixpoint recv_rounds (round : Z -> select_result -> CM (option Z)) (buffer_recv : Z)
    (rs : list select_result) : CM (option Z) :=
  s ← connect_get;
  if negb (cn_onexit s =? 0) then mret None
  else
    match rs with
    | [] => mret (Some buffer_recv)
    | r :: rs =>
        res ← round buffer_recv r;
        match res with None => mret None | Some buffer_recv => recv_rounds round buffer_recv rs end
    end.

Definition syncs_recv (rs : list select_result) : CM unit :=
  _ ← recv_start;
  _ ← recv_rounds recv_round 0 rs;
  connect_upd (fun s => s <| cn_ready := 0 |>).

(** UDP: the datagram overwrites the start of the buffer; [data_size] is not
    compared with the size received. *)
Definition udprecv_start : CM unit :=
  _ ← syncs_send_id;
  _ ← connect_upd (fun s => s <| cn_connect_wait := 0 |>);
  connect_upd (fun s => s <| cn_ready := 1 |>).

Definition udprecv_round (buffer_recv : Z) (r : select_result) : CM (option Z) :=
  match r with
  | SelectTimeout => mret (Some buffer_recv)
  | SelectEINTR => mret (Some buffer_recv)
  | SelectRecv (RecvError errno) =>
      if (errno =? EAGAIN) || (errno =? EINTR) then mret (Some buffer_recv) else mret None
  | SelectRecv (RecvData bs) =>
      let read_size := zlen bs in
      s ← connect_get;
      buffer ← memcpy (cn_buffer s) 0 bs read_size;
      _ ← connect_upd (fun s => s <| cn_buffer := buffer |>);
      if read_size <? sizeof_header then
        if read_size =? 0 then mret None else mret (Some buffer_recv)
      else
        let packet_header := decode_header (mem_sub 0 sizeof_header buffer) in
        if negb (hd_magic packet_header =? SYNCS_PACKET_MAGIC) then mret (Some buffer_recv)
        else if negb (hd_magic_data packet_header =? SYNCS_PACKET_MAGIC_DATA) then mret (Some buffer_recv)
        else
          let buffer := mask_data_size 0 buffer in
          _ ← connect_upd (fun s => s <| cn_buffer := buffer |>);
          let packet_header := decode_header (mem_sub 0 sizeof_header buffer) in
          _ ← syncs_process_packet packet_header (zdrop sizeof_header buffer);
          mret (Some buffer_recv)
  end.

Definition syncs_udprecv (rs : list select_result) : CM unit :=
  _ ← udprecv_start;
  _ ← recv_rounds udprecv_round 0 rs;
  connect_upd (fun s => s <| cn_ready := 0 |>).

(** The connection loops of the two threads: what each attempt to connect
    returned, and what its connection then received. *)
Fixpoint syncs_connect_thread (sessions : list (Z * list select_result)) : CM unit :=
  s ← connect_get;
  if negb (cn_onexit s =? 0) then mret tt
  else
    match sessions with
    | [] => mret tt
    | (fd, rs) :: sessions =>
        _ ← connect_upd (fun s => s <| cn_socketfd := fd |>);
        if fd <? 0 then syncs_connect_thread sessions
        else
          _ ← syncs_recv rs;
          _ ← emit (IoShutdown fd);
          _ ← connect_upd (fun s => s <| cn_socketfd := -1 |>);
          syncs_connect_thread sessions
    end.

Fixpoint syncs_udpconnect_thread (sessions : list (Z * sockaddr_in * list select_result)) : CM unit :=
  s ← connect_get;
  if negb (cn_onexit s =? 0) then mret tt
  else
    match sessions with
    | [] => mret tt
    | (fd, addr, rs) :: sessions =>
        _ ← connect_upd (fun s => s <| cn_saddr := addr |>);
        _ ← connect_upd (fun s => s <| cn_usocketfd := fd |>);
        if fd <? 0 then syncs_udpconnect_thread sessions
        else
          _ ← syncs_udprecv rs;
          _ ← emit (IoClose fd);
          _ ← connect_upd (fun s => s <| cn_usocketfd := -1 |>);
          syncs_udpconnect_thread sessions
    end.

(** ** Disconnection *)

Definition syncs_event_data_release : CM Z :=
  _ ← for_each (seq 0 SYNCS_EVENT_MAXIMUM) (fun i =>
    event ← cevent_at i;
    match ce_data event with
    | None => mret tt
    | Some _ => _ ← emit IoFree; cevent_upd i (fun ev => ev <| ce_data := None |>)
    end);
  mret 0.

(** [rest] is what the receiver thread still processes until
    [pthread_join] returns. *)
Definition syncs_disconnect (rest : list delivery) : CM unit :=
  _ ← connect_upd (fun s => s <| cn_onexit := 1 |>);
  s ← connect_get;
  _ ← (if cn_connect_cb_status s =? 1 then emit IoCancel else mret tt);
  _ ← emit (IoShutdown (cn_usocketfd s));
  _ ← emit (IoShutdown (cn_socketfd s));
  _ ← receive_packets rest;
  _ ← syncs_free_clientslist;
  _ ← syncs_free_eventslist;
  _ ← syncs_free_channelslist;
  _ ← syncs_event_data_release;
  emit IoFree.
End calls.
