(* ===== verification/ClientWait.v ===== *)
(** * Client: the wait for a synchronised event ends

    [syncs_wait_sync] polls the real-time clock until the moment a packet
    names; over a clock that advances it returns. *)

From S2P Require Import Prelude.
From S2P Require Import Monad.
From S2P Require Import Types.
From S2P Require Import Net.
From S2P Require Import ClientState.
From S2P Require Import ClientOps.

(** A bounded loop with a decreasing measure [I k]: after [2 ^ n] rounds
    that did not end it the measure went down by as much. *)
Lemma wp_loop_upto {W} (I : Z -> W -> Prop) (Q : W -> Prop) (body : M W bool) n k w :
  (forall k w, 0 <= k -> I k w -> wp body (fun again w' =>
    if (again : bool) then exists k', 0 <= k' <= k - 1 /\ I k' w' else Q w') w) ->
  0 <= k -> I k w ->
  wp (loop_upto n body) (fun again w' =>
    if (again : bool) then exists k', 0 <= k' <= k - 2 ^ Z.of_nat n /\ I k' w' else Q w') w.
Proof.
  intros Hb. revert k w. induction n as [|n IH]; intros k w Hk HI; [by apply Hb|].
  assert (2 ^ Z.of_nat (S n) = 2 ^ Z.of_nat n + 2 ^ Z.of_nat n) as E.
  { rewrite Nat2Z.inj_succ, Z.pow_succ_r by lia. lia. }
  cbn [loop_upto]. wp_step. eapply wp_mono; [by apply IH|]. intros [] w1; [|done].
  intros (k1 & Hk1 & HI1). eapply wp_mono; [apply (IH k1); [lia|done]|]. intros [] w2; [|done].
  intros (k2 & Hk2 & HI2). exists k2. split; [lia|done].
Qed.

(** ** The clock *)

Definition nanoseconds (t : Z * Z) : Z := t.1 * 1000000000 + t.2.

(** Time has passed between two readings. *)
Class ClockAdvances `{Env} : Prop :=
  clock_advances h es : es <> [] ->
    nanoseconds (env_realtime h) < nanoseconds (env_realtime (h ++ es)).

(** What a wait does: it reads the clock and sleeps. *)
Definition clock_io (e : io) : bool :=
  match e with IoClock => true | IoSleep _ _ => true | _ => false end.

Definition sync_time (sync : syncdata) : Z * Z := (data0 sync, data1 sync).

(** The last reading showed that the moment is past, or two seconds away at
    least, which the client takes for a clock that is off. *)
Definition wait_over `{Env} (sync : syncdata) (h : list io) : Prop :=
  let t := env_realtime h in
  data0 sync < t.1 \/ (data0 sync = t.1 /\ data1 sync < t.2) \/ data0 sync > t.1 + 1.

Section wait.
Context `{Env} `{!ClockAdvances}.
Context (sync : syncdata) (Hnsec : 0 <= data1 sync < 2 ^ 32).

(** Rounds left: none when the wait is about to be given up. *)
Definition rounds_left (h : list io) : Z :=
  let d := nanoseconds (sync_time sync) - nanoseconds (env_realtime h) + 1 in
  if d >=? 2 ^ 33 then 0 else Z.max 0 d.

(** The state of the wait: [w0] with some readings and sleeps more. *)
Definition waited (w0 w : cworld) : Prop :=
  c_connect w = c_connect w0 /\ exists es, c_log w = c_log w0 ++ es /\ Forall clock_io es.

Definition wait_done (w0 w : cworld) : Prop :=
  waited w0 w /\ exists h, c_log w = h ++ [IoClock] /\ wait_over sync h.

Lemma waited_emit w0 w e : clock_io e -> waited w0 w -> waited w0 (io_emit e w).
Proof.
  intros He (Hc & es & Hlog & Hes). split; [done|]. exists (es ++ [e]). split.
  - simpl. by rewrite Hlog, app_assoc.
  - apply Forall_app. auto.
Qed.

Lemma rounds_left_advance h es n :
  es <> [] -> nanoseconds (sync_time sync) - nanoseconds (env_realtime h) + 1 = n ->
  1 <= n < 2 ^ 33 -> 0 <= rounds_left (h ++ es) <= rounds_left h - 1.
Proof.
  intros Hes <- Hn. pose proof (clock_advances h es Hes) as Ht. unfold rounds_left.
  set (T := nanoseconds (sync_time sync)) in *. set (a := nanoseconds (env_realtime h)) in *.
  set (b := nanoseconds (env_realtime (h ++ es))) in *. clearbody T a b.
  change (2 ^ 33) with 8589934592 in *. cbn zeta. rewrite !Z.geb_leb.
  rewrite !(proj2 (Z.leb_gt _ _)) by lia. lia.
Qed.

Lemma wait_sync_round_spec w0 k w :
  0 <= k -> waited w0 w /\ k = rounds_left (c_log w) ->
  wp (wait_sync_round sync) (fun again w' =>
    if (again : bool) then exists k', 0 <= k' <= k - 1 /\ waited w0 w' /\ k' = rounds_left (c_log w')
    else wait_done w0 w') w.
Proof.
  intros _ [Hw ->]. unfold wait_sync_round, clock_gettime, emit. do 6 wp_step. cbn zeta.
  pose proof (env_realtime_range (c_log w)) as Ht. destruct (env_realtime (c_log w)) as [ts tn] eqn:Et.
  cbn [fst snd] in *. apply (waited_emit w0 w IoClock) in Hw as Hw1; [|done].
  destruct (_ || _ || _) eqn:E.
  { wp_step. split; [done|]. exists (c_log w). split; [done|]. unfold wait_over. rewrite Et. simpl.
    rewrite !orb_true_iff, andb_true_iff, Z.gtb_lt, !Z.ltb_lt, Z.eqb_eq in E. lia. }
  rewrite !orb_false_iff, andb_false_iff, Z.gtb_ltb, !Z.ltb_ge, Z.eqb_neq in E.
  assert (forall es, es <> [] -> 0 <= rounds_left (c_log w ++ es) <= rounds_left (c_log w) - 1) as Hr.
  { intros es Hes. eapply rounds_left_advance; [done|done|].
    rewrite Et. unfold nanoseconds, sync_time. simpl. lia. }
  destruct (if data1 sync - tn <? 0 then _ else _) as [s n]. wp_step. wp_step.
  - wp_step. wp_step. eexists. split; [|split; [|done]]; [|by apply waited_emit].
    simpl. rewrite <- app_assoc. by apply Hr.
  - wp_step. wp_step. eexists. split; [|split; [|done]]; [by apply Hr|done].
Qed.

Lemma syncs_wait_sync_spec w :
  wp (syncs_wait_sync sync) (fun _ w' => wait_done w w') w.
Proof.
  unfold syncs_wait_sync. wp_step.
  eapply wp_mono; [apply (wp_loop_upto (fun k w' => waited w w' /\ k = rounds_left (c_log w'))
    (wait_done w) _ 33 (rounds_left (c_log w)))|].
  - apply wait_sync_round_spec.
  - unfold rounds_left. destruct (_ >=? _); lia.
  - split; [|done]. split; [done|]. exists []. by rewrite app_nil_r.
  - intros [] w1; [|done]. intros (k' & Hk' & _). exfalso. unfold rounds_left in Hk'.
    change (2 ^ Z.of_nat 33) with (2 ^ 33) in Hk'. destruct (_ >=? _) eqn:E; rewrite ?Z.geb_leb, ?Z.leb_gt in E; lia.
Qed.
End wait.

(** C37: over a clock that advances, the wait for a synchronised event returns:
    it only reads the clock and sleeps, and the last reading shows that the
    moment is past, or at least two seconds ahead (not waited for). *)
Theorem syncs_wait_sync_returns `{Env} `{!ClockAdvances} sync w :
  0 <= data1 sync < 2 ^ 32 ->
  exists w' es h, syncs_wait_sync sync w = Ok (tt, w') /\ c_connect w' = c_connect w /\
    c_log w' = c_log w ++ es /\ Forall clock_io es /\
    c_log w' = h ++ [IoClock] /\ wait_over sync h.
Proof.
  intros Hnsec. pose proof (syncs_wait_sync_spec sync Hnsec w) as Hs.
  apply wp_run in Hs as ([] & w' & E & (Hc & es & Hlog & Hes) & h & Hh & Hover). exists w', es, h. done.
Qed.

(** A clock that advances by a tenth of a second with each request to the
    system. *)
Program Definition ticking_env : Env := {|
  env_send _ _ bs := zlen bs;
  env_stack _ := replicate (Z.to_nat (sizeof_header + SYNCS_EVENT_DATA_SIZE_MAXIMUM)) Byte.xaa;
  env_realtime h := (1700000000 + zlen h / 10, zlen h mod 10 * 100000000);
  env_alloc _ _ := true;
  env_inet_addr _ := 0 |}.
Next Obligation.
  intros. right. destruct bs as [|b bs]; [done|]. rewrite zlen_cons. pose proof (zlen_nonneg bs). lia.
Qed.
Next Obligation. intros. cbn beta. rewrite zlen_replicate. clia. Qed.
Next Obligation.
  intros h. pose proof (zlen_nonneg h). pose proof (Z.div_pos (zlen h) 10). 
  pose proof (Z.mod_pos_bound (zlen h) 10). simpl. lia.
Qed.
Next Obligation. done. Qed.

#[export] Instance ticking_clock : @ClockAdvances ticking_env.
Proof.
  intros h es Hes. unfold nanoseconds; simpl. rewrite zlen_app.
  assert (1 <= zlen es) by (destruct es; [done|rewrite zlen_cons; pose proof (zlen_nonneg es); lia]).
  pose proof (Z.div_mod (zlen h) 10). pose proof (Z.div_mod (zlen h + zlen es) 10). lia.
Qed.

Lemma syncs_wait_sync_returns_witness :
  exists w' es h, @syncs_wait_sync ticking_env (mk_sync 1700000001 500) (mk_cworld calloc_connect []) = Ok (tt, w') /\
    c_connect w' = calloc_connect /\ c_log w' = [] ++ es /\ Forall clock_io es /\
    c_log w' = h ++ [IoClock] /\ @wait_over ticking_env (mk_sync 1700000001 500) h.
Proof.
  apply (@syncs_wait_sync_returns ticking_env _ (mk_sync 1700000001 500) (mk_cworld calloc_connect []));
    simpl; lia.
Defined.
