(* ===== verification/ClientInv.v ===== *)
(** * Client: the representation invariant and memory safety

    [connect_wf] is the type invariant of [struct syncs_connect].  Every
    operation preserves it and runs without an out-of-bounds access, provided
    the list packets of the server fit the arrays they are copied to. *)

From S2P Require Import Prelude.
From S2P Require Import Monad.
From S2P Require Import Types.
From S2P Require Import Net.
From S2P Require Import Framing.
From S2P Require Import Wire.
From S2P Require Import ClientState.
From S2P Require Import ClientOps.
From S2P Require Import ClientCalls.

(** ** The invariant *)

Record cevent_wf (ev : syncs_client_event) : Prop := {
  cewf_id : id_wf (ce_id ev);
  cewf_counter : 0 <= ce_update_counter ev < 2 ^ 64;
  cewf_data m : ce_data ev = Some m -> SYNCS_VARIABLE_SIZE_MAXIMUM <= zlen m;
  cewf_size : 0 <= ce_data_size ev <= SYNCS_VARIABLE_SIZE_MAXIMUM }.

Record ticket_wf (t : syncs_channel_ticket) : Prop := {
  tkwf_ip : 0 <= tk_ip t < 2 ^ 32;
  tkwf_port : 0 <= tk_port t < 2 ^ 16;
  tkwf_flags : 0 <= tk_flags t < 2 ^ 32 }.

Definition list_wf (slots : nat) (size : Z) (l : list_state) : Prop :=
  forall info, li_info l = Some info -> zlen info = Z.of_nat slots * size.

Record connect_wf (s : syncs_connect) : Prop := {
  cwf_events : length (cn_events s) = SYNCS_EVENT_MAXIMUM;
  cwf_event e ev : cn_events s !! e = Some ev -> cevent_wf ev;
  cwf_channels : length (cn_channels s) = SYNCS_CHANNEL_MAXIMUM;
  cwf_channel n c : cn_channels s !! n = Some c -> id_wf (cc_id c) /\ ticket_wf (cc_ticket c);
  cwf_id : id_wf (cn_id s);
  cwf_buffer : zlen (cn_buffer s) = SYNCS_CLIENT_BUFFER_SIZE;
  cwf_read : zlen (cn_read_data s) = SYNCS_VARIABLE_SIZE_MAXIMUM;
  cwf_read_size : 0 <= cn_read_size s <= SYNCS_VARIABLE_SIZE_MAXIMUM;
  cwf_eventlist : list_wf SYNCS_EVENT_MAXIMUM sizeof_event_info (cn_eventlist s);
  cwf_clientlist : list_wf SYNCS_CLIENT_MAXIMUM sizeof_client_info (cn_clientlist s);
  cwf_channellist : list_wf SYNCS_CHANNEL_MAXIMUM sizeof_channel_info (cn_channellist s) }.

Definition cwinv (w : cworld) : Prop := connect_wf (c_connect w).

(** The chunk of a list packet fits the rest of the array. *)
Definition list_fits (size : Z) (h : syncs_header) (l : list_state) : Prop :=
  forall info, li_info l = Some info -> id_char (hd_id h) 3 = li_sequence l ->
    id_char (hd_id h) 0 = li_wait_packet l ->
    0 <= li_recv l /\ li_recv l * size + hd_data_size h <= zlen info.

Definition packet_fits (s : syncs_connect) (h : syncs_header) : Prop :=
  let msg := Z.land (hd_type h) SYNCS_TYPE_MSG_MASK in
  (msg = SYNCS_TYPE_EVENT_LIST -> list_fits sizeof_event_info h (cn_eventlist s)) /\
  (msg = SYNCS_TYPE_CLIENT_LIST -> list_fits sizeof_client_info h (cn_clientlist s)) /\
  (msg = SYNCS_TYPE_CHANNEL_LIST -> list_fits sizeof_channel_info h (cn_channellist s)).

(** ** State access *)

Lemma connect_emits es (w : cworld) : c_connect (io_emits es w) = c_connect w.
Proof. revert w. induction es as [|e es IH]; intros w; [done|]. simpl. by rewrite IH. Qed.

Lemma cwinv_emits es w : cwinv (io_emits es w) <-> cwinv w.
Proof. unfold cwinv. by rewrite connect_emits. Qed.

Lemma cwinv_emit e w : cwinv w -> cwinv (io_emit e w).
Proof. done. Qed.

Lemma wp_connect_get w (Q : syncs_connect -> cworld -> Prop) :
  Q (c_connect w) w -> wp connect_get Q w.
Proof. done. Qed.

Lemma wp_connect_upd f w (Q : unit -> cworld -> Prop) :
  Q tt (mk_cworld (f (c_connect w)) (c_log w)) -> wp (connect_upd f) Q w.
Proof. done. Qed.

Lemma wp_connect_field f w (Q : unit -> cworld -> Prop) :
  cwinv w -> (forall s, connect_wf s -> connect_wf (f s)) ->
  (forall w', cwinv w' -> Q tt w') -> wp (connect_upd f) Q w.
Proof. intros Hw Hf HQ. apply wp_connect_upd, HQ, Hf, Hw. Qed.

Lemma cevent_lookup w e :
  cwinv w -> (e < SYNCS_EVENT_MAXIMUM)%nat -> exists ev, cn_events (c_connect w) !! e = Some ev /\ cevent_wf ev.
Proof.
  intros Hw He. destruct (lookup_lt_is_Some_2 (cn_events (c_connect w)) e) as [ev Hev].
  { by rewrite (cwf_events _ Hw). }
  exists ev. split; [done|]. by eapply cwf_event.
Qed.

Lemma wp_cevent_at e w (Q : syncs_client_event -> cworld -> Prop) :
  cwinv w -> (e < SYNCS_EVENT_MAXIMUM)%nat ->
  (forall ev, cn_events (c_connect w) !! e = Some ev -> cevent_wf ev -> Q ev w) ->
  wp (cevent_at e) Q w.
Proof.
  intros Hw He HQ. destruct (cevent_lookup w e Hw He) as (ev & Hev & Hwf).
  unfold cevent_at. wp_step. apply wp_connect_get. apply (wp_deref _ ev); [done|]. by apply HQ.
Qed.

Lemma connect_wf_event s e ev :
  connect_wf s -> cevent_wf ev -> connect_wf (s <| cn_events ::= <[e := ev]> |>).
Proof.
  intros [] Hev. split; simpl; try done; [by rewrite length_insert|].
  intros i x [(-> & <- & _)|[_ Hx]]%list_lookup_insert_Some; eauto.
Qed.

Lemma wp_cevent_upd e f w (Q : unit -> cworld -> Prop) :
  cwinv w -> (e < SYNCS_EVENT_MAXIMUM)%nat -> (forall ev, cevent_wf ev -> cevent_wf (f ev)) ->
  (forall w', cwinv w' -> Q tt w') -> wp (cevent_upd e f) Q w.
Proof.
  intros Hw He Hf HQ. unfold cevent_upd. wp_step. apply wp_cevent_at; [done..|].
  intros ev _ Hev. apply wp_connect_upd, HQ, connect_wf_event; auto.
Qed.

(** Updates of fields the invariant does not constrain. *)
Ltac cwf_field := solve [intros ? []; split; simpl in *; first [done|clia]].

Lemma find_cevent_lt s id e : connect_wf s -> syncs_find_event s id = Some e -> (e < SYNCS_EVENT_MAXIMUM)%nat.
Proof. intros Hs He. rewrite <- (cwf_events s Hs). by eapply scan_lt. Qed.

Lemma get_event_lt s cid e : connect_wf s -> syncs_get_event_str s cid = Some e -> (e < SYNCS_EVENT_MAXIMUM)%nat.
Proof.
  intros Hs. unfold syncs_get_event_str. rewrite <- (cwf_events s Hs).
  destruct (syncs_find_event_str s cid) eqn:E; [intros [= <-]|intros He]; by eapply scan_lt.
Qed.

Lemma id_set_free_wf a : id_wf a -> id_wf (id_set_free a).
Proof. intros (_ & ? & ? & ?). unfold id_wf, id_set_free, id_free_mark; simpl. lia. Qed.

Section safe.
Context `{Env}.

(** ** Sending *)

Lemma safe_connect_send buffer size w :
  cwinv w -> 0 <= size < 2 ^ 32 -> size <= zlen buffer ->
  wp (syncs_connect_send buffer size) (fun _ => cwinv) w.
Proof.
  intros Hw Hs Hb. unfold syncs_connect_send. wp_step. apply wp_connect_get. wp_step.
  - unfold syncs_blocking_send. eapply wp_mono; [apply blocking_send_loop_spec; lia|].
    intros r w' (es & _ & _ & -> & _). by apply cwinv_emits.
  - wp_step; [|done]. unfold syncs_udp_send, emit. by repeat wp_step.
Qed.

(** Sending the header of a full packet. *)
Lemma safe_send_request p w :
  cwinv w -> packet_full p -> wp (syncs_connect_send (packet_bytes p) sizeof_header) (fun _ => cwinv) w.
Proof. intros Hw Hp. apply safe_connect_send; [done|clia|]. unfold packet_bytes. clia. Qed.

(** [call L] runs the sub-operation proved safe by [L]. *)
Tactic Notation "ccall" uconstr(L) := eapply wp_mono; [apply L|]; cbn beta.

Lemma safe_send_subscribe id flags uc w :
  cwinv w -> wp (syncs_client_send_subscribe id flags uc) (fun _ => cwinv) w.
Proof.
  intros Hw. unfold syncs_client_send_subscribe. wp_step. apply run_stack_packet. intros p Hp _.
  wp_step. ccall safe_send_request; [done|done|]. intros r w' Hw'. by wp_step.
Qed.

Lemma safe_send_unsubscribe id flags w :
  cwinv w -> wp (syncs_client_send_unsubscribe id flags) (fun _ => cwinv) w.
Proof.
  intros Hw. unfold syncs_client_send_unsubscribe. wp_step. apply run_stack_packet. intros p Hp _.
  wp_step. ccall safe_send_request; [done|done|]. intros r w' Hw'. by wp_step.
Qed.

Lemma safe_send_client_id id w : cwinv w -> wp (syncs_client_send_id id) (fun _ => cwinv) w.
Proof.
  intros Hw. unfold syncs_client_send_id, stack_header. wp_step. wp_step. apply run_stack_packet.
  intros p Hp _. wp_step. wp_step.
  ccall safe_connect_send; [done|clia|rewrite zlen_encode_header; clia|]. intros r w' Hw'. by wp_step.
Qed.

Lemma safe_send_channel_anons id t w :
  cwinv w -> wp (syncs_client_send_channel_anons id t) (fun _ => cwinv) w.
Proof.
  intros Hw. unfold syncs_client_send_channel_anons. wp_step. apply run_stack_packet. intros p Hp _.
  unfold packet_full in Hp. wp_step.
  assert (zlen (encode_ticket t) = 10) as Ht by (unfold encode_ticket; zl).
  apply wp_memcpy; [clia..|]. wp_step.
  ccall safe_connect_send; [done|clia| |].
  { unfold packet_bytes. cbn [pk_header pk_buffer]. rewrite zlen_app, zlen_encode_header, zlen_mem_put by clia. clia. }
  intros r w' Hw'. by wp_step.
Qed.

Lemma safe_send_id w : cwinv w -> wp syncs_send_id (fun _ => cwinv) w.
Proof.
  intros Hw. unfold syncs_send_id. wp_step. apply wp_connect_get. wp_step.
  ccall safe_send_client_id; [done|]. intros r w1 Hw1. wp_step.
  eapply wp_mono; [apply (wp_for_each cwinv); [done|]|].
  { intros i w2 [_ Hi]%elem_of_seq Hw2. wp_step. apply wp_cevent_at; [done|lia|]. intros ev _ _.
    wp_step; [|done]. wp_step. ccall safe_send_subscribe; [done|]. intros ? w3 Hw3. by wp_step. }
  intros u w2 Hw2. cbn beta in *. apply (wp_for_each cwinv); [done|].
  intros i w3 [_ Hi]%elem_of_seq Hw3. wp_step. apply wp_connect_get.
  destruct (lookup_lt_is_Some_2 (cn_channels (c_connect w3)) i) as [c Hc].
  { rewrite (cwf_channels _ Hw3). lia. }
  wp_step. apply (wp_deref _ c); [done|]. wp_step; [|done].
  wp_step. ccall safe_send_channel_anons; [done|]. intros ? w4 Hw4. by wp_step.
Qed.
End safe.

(** ** A fresh connection *)

Lemma connect_object_wf addr port id : connect_wf (connect_object addr port id).
Proof.
  assert (forall s, connect_wf s -> forall i, connect_wf (s <| cn_id := syncs_idstr i |>)) as Hid.
  { intros s [] i. split; try done. apply syncs_idstr_wf. }
  assert (forall s, connect_wf s -> forall a p, connect_wf (s <| cn_addr := a |> <| cn_port := p |>)) as Haddr.
  { intros s [] a p. by split. }
  assert (connect_wf (syncs_connect_structure_init calloc_connect)) as H0.
  { split.
    - change (length ((fun e => e <| ce_id ::= id_set_free |> <| ce_data := None |>) <$>
        replicate SYNCS_EVENT_MAXIMUM calloc_client_event) = SYNCS_EVENT_MAXIMUM).
      by rewrite length_fmap, length_replicate.
    - intros e ev He.
      change (((fun e => e <| ce_id ::= id_set_free |> <| ce_data := None |>) <$>
        replicate SYNCS_EVENT_MAXIMUM calloc_client_event) !! e = Some ev) in He.
      rewrite fmap_replicate in He. apply lookup_replicate in He as [-> _]. by split.
    - change (length ((fun c => c <| cc_id ::= id_set_free |>) <$>
        replicate SYNCS_CHANNEL_MAXIMUM (mk_connect_channel id_zero (mk_ticket 0 0 0))) = SYNCS_CHANNEL_MAXIMUM).
      by rewrite length_fmap, length_replicate.
    - intros n ch Hn.
      change (((fun c => c <| cc_id ::= id_set_free |>) <$>
        replicate SYNCS_CHANNEL_MAXIMUM (mk_connect_channel id_zero (mk_ticket 0 0 0))) !! n = Some ch) in Hn.
      rewrite fmap_replicate in Hn. apply lookup_replicate in Hn as [-> _]. split; [done|by split].
    - done.
    - change (zlen (zero_bytes SYNCS_CLIENT_BUFFER_SIZE) = SYNCS_CLIENT_BUFFER_SIZE). unfold zero_bytes. by rewrite zlen_replicate.
    - change (zlen (zero_bytes SYNCS_VARIABLE_SIZE_MAXIMUM) = SYNCS_VARIABLE_SIZE_MAXIMUM). unfold zero_bytes. by rewrite zlen_replicate.
    - done.
    - intros info. discriminate.
    - intros info. discriminate.
    - intros info. discriminate. }
  unfold connect_object. generalize dependent (syncs_connect_structure_init calloc_connect).
  intros s Hs. cbn zeta. destruct addr as [a|], id as [i|].
  - exact (Hid _ (Haddr _ Hs _ _) _).
  - exact (Haddr _ Hs _ _).
  - exact (Hid _ Hs _).
  - exact Hs.
Qed.
