(* ===== verification/ClientSafe.v ===== *)
(** * Client: processing a packet preserves the invariant *)

From S2P Require Import Prelude.
From S2P Require Import Monad.
From S2P Require Import Types.
From S2P Require Import Net.
From S2P Require Import Framing.
From S2P Require Import Wire.
From S2P Require Import ClientState.
From S2P Require Import ClientOps.
From S2P Require Import ClientCalls.
From S2P Require Import ClientWait.
From S2P Require Import ClientInv.

Section safe.
Context `{Env}.

Tactic Notation "ccall" uconstr(L) := eapply wp_mono; [apply L|]; cbn beta.

(** ** Received packets *)

Lemma safe_process_event h data w :
  cwinv w -> header_wf h -> hd_data_size h <= SYNCS_VARIABLE_SIZE_MAXIMUM -> hd_data_size h <= zlen data ->
  wp (syncs_process_event h data) (fun _ => cwinv) w.
Proof.
  intros Hw (_ & _ & _ & _ & _ & _ & Huc & Hsz & _) Hmax Hd. unfold syncs_process_event.
  wp_step. apply wp_connect_get. destruct (syncs_find_event _ _) as [e|] eqn:E; [|done].
  apply find_cevent_lt in E; [|done]. wp_step. apply wp_cevent_at; [done..|]. intros ev _ Hev. wp_step.
  eapply (wp_mono _ (fun _ => cwinv)); [destruct (ce_cb ev =? NULL); done|].
  intros u w1 Hw1. wp_step. eapply (wp_mono _ (fun _ => cwinv)).
  { destruct (ce_data ev) as [m|] eqn:Em; [|done]. pose proof (cewf_data ev Hev m Em) as Hm.
    wp_step. apply wp_memcpy; [lia..|]. wp_step. apply wp_cevent_upd; [done..| |].
    { intros ? []. split; try done. simpl. intros m' [= <-]. by rewrite zlen_mem_put by zl. }
    intros w2 Hw2. wp_step. apply wp_cevent_upd; [done..| |].
    { intros ? []. split; try done. simpl. lia. }
    intros w3 Hw3. wp_step. apply wp_connect_field; [done|cwf_field|]. intros w4 Hw4.
    apply wp_connect_field; [done|cwf_field|]. done. }
  intros u2 w2 Hw2. apply wp_cevent_upd; [done..| |done]. intros ? []. by split.
Qed.

Lemma safe_process_error h w : cwinv w -> wp (syncs_process_error h) (fun _ => cwinv) w.
Proof.
  intros Hw. unfold syncs_process_error. cbn zeta.
  repeat wp_step; try done; try (apply wp_connect_field; [done|cwf_field|done]). by apply safe_send_id.
Qed.

Lemma safe_process_read h data w :
  cwinv w -> header_wf h -> hd_data_size h <= SYNCS_VARIABLE_SIZE_MAXIMUM -> hd_data_size h <= zlen data ->
  wp (process_read h data) (fun _ => cwinv) w.
Proof.
  intros Hw (_ & _ & _ & _ & _ & _ & _ & Hsz & _) Hmax Hd. unfold process_read.
  wp_step. apply wp_connect_get. wp_step; [|done].
  wp_step. apply wp_connect_field; [done|cwf_field|]. intros w1 Hw1.
  pose proof (cwf_read _ Hw) as Hr. wp_step. apply wp_memcpy; [lia..|].
  wp_step. apply wp_connect_field; [done| |].
  { intros ? []. split; try done. simpl. rewrite zlen_mem_put; [done|lia|zl]. }
  intros w2 Hw2. apply wp_connect_field; [done|cwf_field|done].
Qed.

(** Access to one of the three lists. *)
Record list_access (get : syncs_connect -> list_state)
    (put : (list_state -> list_state) -> syncs_connect -> syncs_connect) (slots : nat) (size : Z) : Prop := {
  la_get f s : get (put f s) = f (get s);
  la_wf s : connect_wf s -> list_wf slots size (get s);
  la_put f s : connect_wf s -> list_wf slots size (f (get s)) -> connect_wf (put f s) }.

Ltac list_access := split; [done|by intros ? []|intros ? ? [] ?; by split].

Lemma eventlist_access : list_access cn_eventlist put_eventlist SYNCS_EVENT_MAXIMUM sizeof_event_info.
Proof. list_access. Qed.
Lemma clientlist_access : list_access cn_clientlist put_clientlist SYNCS_CLIENT_MAXIMUM sizeof_client_info.
Proof. list_access. Qed.
Lemma channellist_access :
  list_access cn_channellist put_channellist SYNCS_CHANNEL_MAXIMUM sizeof_channel_info.
Proof. list_access. Qed.

Lemma safe_process_list get put slots size h data w :
  list_access get put slots size -> cwinv w -> header_wf h -> hd_data_size h <= zlen data -> 0 <= size ->
  list_fits size h (get (c_connect w)) ->
  wp (process_list get put size h data) (fun _ => cwinv) w.
Proof.
  intros La Hw (_ & _ & _ & _ & _ & _ & _ & Hsz & _) Hd Hs Hfit. unfold process_list.
  wp_step. apply wp_connect_get. destruct (li_info (get (c_connect w))) as [info|] eqn:Ei; [|done].
  destruct (Z.eqb_spec (id_char (hd_id h) 3) (li_sequence (get (c_connect w)))) as [E3|]; cbn [negb]; [|done].
  destruct (Z.eqb_spec (id_char (hd_id h) 0) (li_wait_packet (get (c_connect w)))) as [E0|]; cbn [negb]; [|done].
  destruct (Hfit info Ei E3 E0) as [Hr Hend]. pose proof (la_wf _ _ _ _ La _ Hw info Ei) as Hinfo.
  wp_step. apply wp_memcpy; [nia|lia..|].
  assert (forall f, (forall l, li_info (f l) = li_info l) -> forall s, connect_wf s -> connect_wf (put f s)) as Hkeep.
  { intros f Hf s Hwf. apply (la_put _ _ _ _ La); [done|]. intros i Hi. rewrite Hf in Hi.
    by apply (la_wf _ _ _ _ La _ Hwf). }
  wp_step. apply wp_connect_field; [done| |].
  { intros s Hwf. apply (la_put _ _ _ _ La); [done|]. intros i [= <-]. by rewrite zlen_mem_put by (nia || zl). }
  intros w1 Hw1. wp_step. apply wp_connect_field; [done|by apply Hkeep|].
  intros w2 Hw2. wp_step. apply wp_connect_field; [done|by apply Hkeep|].
  intros w3 Hw3. wp_step; [|done]. apply wp_connect_field; [done|by apply Hkeep|done].
Qed.

Lemma safe_channel_packet h data w :
  cwinv w -> wp (syncs_channel_process_packet h data) (fun _ => cwinv) w.
Proof.
  intros Hw. unfold syncs_channel_process_packet.
  assert (Z.land (hd_type h) SYNCS_TYPE_CHANNEL_MASK <> SYNCS_CHANNEL_TICKET) as Hne.
  { intros E. apply (f_equal (fun x => Z.testbit x 13)) in E. rewrite Z.land_spec in E.
    change (Z.testbit SYNCS_TYPE_CHANNEL_MASK 13) with false in E. by rewrite andb_false_r in E. }
  by rewrite (proj2 (Z.eqb_neq _ _) Hne).
Qed.

Lemma safe_process_packet `{!ClockAdvances} h data w :
  cwinv w -> header_wf h -> hd_data_size h <= SYNCS_VARIABLE_SIZE_MAXIMUM -> hd_data_size h <= zlen data ->
  packet_fits (c_connect w) h ->
  wp (syncs_process_packet h data) (fun _ => cwinv) w.
Proof.
  intros Hw Hh Hmax Hd (Hev & Hcl & Hch). unfold syncs_process_packet. cbn zeta.
  destruct (Z.eqb_spec (Z.land (hd_type h) SYNCS_TYPE_MSG_MASK) SYNCS_TYPE_EVENT).
  { wp_step. eapply (wp_mono _ (fun _ => cwinv)); [|intros u w1 Hw1; by apply safe_process_event].
    destruct (flag _ _); [|done]. eapply wp_mono; [apply syncs_wait_sync_spec; apply Hh|].
    intros u w1 [[Hc _] _]. unfold cwinv. by rewrite Hc. }
  destruct (_ =? SYNCS_TYPE_CHANNEL); [by apply safe_channel_packet|].
  destruct (_ =? SYNCS_TYPE_SERVER_STATUS).
  { wp_step. apply wp_connect_field; [done|cwf_field|]. intros w1 Hw1. by apply safe_process_error. }
  destruct (_ =? SYNCS_TYPE_READ); [by apply safe_process_read|].
  destruct (Z.eqb_spec (Z.land (hd_type h) SYNCS_TYPE_MSG_MASK) SYNCS_TYPE_EVENT_LIST).
  { eapply safe_process_list; [apply eventlist_access|..]; first [done|by apply Hev|clia]. }
  destruct (Z.eqb_spec (Z.land (hd_type h) SYNCS_TYPE_MSG_MASK) SYNCS_TYPE_CLIENT_LIST).
  { eapply safe_process_list; [apply clientlist_access|..]; first [done|by apply Hcl|clia]. }
  destruct (Z.eqb_spec (Z.land (hd_type h) SYNCS_TYPE_MSG_MASK) SYNCS_TYPE_CHANNEL_LIST); [|done].
  eapply safe_process_list; [apply channellist_access|..]; first [done|by apply Hch|clia].
Qed.
End safe.
