(* ===== verification/ClientReceiver.v ===== *)
(** * Client: what packets do to the lists and to the event queue

    [receiver_of] is the part of [struct syncs_connect] that decides where a
    list packet is copied to: per list, whether the array exists and which
    packet comes next.  [receiver_next] is what a packet does to it, so that
    the packets of a whole schedule can be checked against the arrays before
    the schedule is run ([packets_fit]). *)

From S2P Require Import Prelude.
From S2P Require Import Monad.
From S2P Require Import Types.
From S2P Require Import Net.
From S2P Require Import Framing.
From S2P Require Import Wire.
From S2P Require Import ClientState.
From S2P Require Import ClientOps.
From S2P Require Import ClientCalls.
From S2P Require Import ClientWait.
From S2P Require Import ClientInv.
From S2P Require Import ClientSafe.

(** ** The counters of the lists *)

Record list_counters : Type := mk_counters { lc_array : bool; lc_sequence : Z; lc_next : Z; lc_recv : Z }.

Definition counters_of (l : list_state) : list_counters :=
  mk_counters (bool_decide (li_info l <> None)) (li_sequence l) (li_wait_packet l) (li_recv l).

Record receiver : Type := mk_receiver {
  rc_event : list_counters;
  rc_client : list_counters;
  rc_channel : list_counters }.

Definition receiver_of (s : syncs_connect) : receiver :=
  mk_receiver (counters_of (cn_eventlist s)) (counters_of (cn_clientlist s)) (counters_of (cn_channellist s)).

(** Whether a packet of the list is the one it waits for. *)
Definition counters_accept (h : syncs_header) (c : list_counters) : bool :=
  lc_array c && (id_char (hd_id h) 3 =? lc_sequence c) && (id_char (hd_id h) 0 =? lc_next c).

Definition counters_next (h : syncs_header) (c : list_counters) : list_counters :=
  if counters_accept h c
  then mk_counters true (lc_sequence c) (u8 (lc_next c + 1)) (i32 (lc_recv c + i8 (id_char (hd_id h) 2)))
  else c.

Definition receiver_next (h : syncs_header) (r : receiver) : receiver :=
  let msg := Z.land (hd_type h) SYNCS_TYPE_MSG_MASK in
  if msg =? SYNCS_TYPE_EVENT_LIST then mk_receiver (counters_next h (rc_event r)) (rc_client r) (rc_channel r)
  else if msg =? SYNCS_TYPE_CLIENT_LIST then mk_receiver (rc_event r) (counters_next h (rc_client r)) (rc_channel r)
  else if msg =? SYNCS_TYPE_CHANNEL_LIST then mk_receiver (rc_event r) (rc_client r) (counters_next h (rc_channel r))
  else r.

(** The chunk of an accepted packet fits the rest of the array. *)
Definition counters_fit (slots : nat) (size : Z) (h : syncs_header) (c : list_counters) : Prop :=
  counters_accept h c = true -> 0 <= lc_recv c /\ lc_recv c * size + hd_data_size h <= Z.of_nat slots * size.

(** The number of entries it announces fits too: the list of channels is
    walked over afterwards. *)
Definition count_fits (slots : nat) (h : syncs_header) (c : list_counters) : Prop :=
  counters_accept h c = true -> 0 <= lc_recv c + i8 (id_char (hd_id h) 2) <= Z.of_nat slots.

Definition receiver_fits (h : syncs_header) (r : receiver) : Prop :=
  let msg := Z.land (hd_type h) SYNCS_TYPE_MSG_MASK in
  (msg = SYNCS_TYPE_EVENT_LIST -> counters_fit SYNCS_EVENT_MAXIMUM sizeof_event_info h (rc_event r)) /\
  (msg = SYNCS_TYPE_CLIENT_LIST -> counters_fit SYNCS_CLIENT_MAXIMUM sizeof_client_info h (rc_client r)) /\
  (msg = SYNCS_TYPE_CHANNEL_LIST -> counters_fit SYNCS_CHANNEL_MAXIMUM sizeof_channel_info h (rc_channel r) /\
    count_fits SYNCS_CHANNEL_MAXIMUM h (rc_channel r)).

(** A packet the framing layer can deliver. *)
Definition packet_ok (d : delivery) : Prop :=
  header_wf d.1 /\ hd_data_size d.1 <= SYNCS_VARIABLE_SIZE_MAXIMUM /\ hd_data_size d.1 <= zlen d.2.

(** A sequence of packets whose list packets fit their arrays. *)
Fixpoint packets_fit (r : receiver) (ds : list delivery) : Prop :=
  match ds with
  | [] => True
  | d :: ds => packet_ok d /\ receiver_fits d.1 r /\ packets_fit (receiver_next d.1 r) ds
  end.

Definition receiver_after (r : receiver) (ds : list delivery) : receiver :=
  foldl (fun r d => receiver_next d.1 r) r ds.

Lemma packets_fit_app r ds ds' :
  packets_fit r (ds ++ ds') <-> packets_fit r ds /\ packets_fit (receiver_after r ds) ds'.
Proof.
  revert r. induction ds as [|d ds IH]; intros r; [naive_solver|]. cbn [packets_fit app]. rewrite IH. naive_solver.
Qed.

Lemma receiver_fits_packet s h : connect_wf s -> receiver_fits h (receiver_of s) -> packet_fits s h.
Proof.
  intros Hs (Hev & Hcl & Hch).
  assert (forall slots size l, list_wf slots size l -> counters_fit slots size h (counters_of l) -> list_fits size h l) as Hl.
  { intros slots size l Hwf Hfit info Hi H3 H0. rewrite (Hwf info Hi). apply Hfit.
    unfold counters_accept, counters_of. cbn [lc_array lc_sequence lc_next].
    by rewrite Hi, H3, H0, !Z.eqb_refl. }
  split_and!; intros Hm.
  - eapply Hl; [apply (cwf_eventlist _ Hs)|by apply Hev].
  - eapply Hl; [apply (cwf_clientlist _ Hs)|by apply Hcl].
  - eapply Hl; [apply (cwf_channellist _ Hs)|by apply Hch].
Qed.

(** Entries of the list of channels, whatever part of a schedule has run. *)
Definition channels_in_range (r : receiver) : Prop :=
  0 <= lc_recv (rc_channel r) <= Z.of_nat SYNCS_CHANNEL_MAXIMUM.

Lemma channels_in_range_after r ds k :
  channels_in_range r -> packets_fit r ds -> channels_in_range (receiver_after r (take k ds)).
Proof.
  revert r k. induction ds as [|d ds IH]; intros r k Hr Hds; [by rewrite take_nil|].
  destruct k as [|k]; [done|]. destruct Hds as (_ & (_ & _ & Hch) & Hds). cbn [take].
  apply (IH (receiver_next d.1 r)); [|done]. unfold channels_in_range, receiver_next in *.
  destruct (_ =? _); [done|]. destruct (_ =? _); [done|]. destruct (Z.eqb_spec (Z.land (hd_type d.1) SYNCS_TYPE_MSG_MASK) SYNCS_TYPE_CHANNEL_LIST) as [E|]; [|done].
  cbn [rc_channel]. unfold counters_next. destruct (counters_accept d.1 (rc_channel r)) eqn:Ea; [|done].
  destruct (Hch E) as [_ Hc]. specialize (Hc Ea). cbn [lc_recv]. unfold SYNCS_CHANNEL_MAXIMUM in *. rewrite i32_small by lia. done.
Qed.

(** ** The event queue *)

(** Which subscriptions have memory for a value. *)
Definition has_data (s : syncs_connect) : list bool := (fun ev => bool_decide (ce_data ev <> None)) <$> cn_events s.

(** The event that waits to be fetched has its memory. *)
Definition queue_ok (s : syncs_connect) : Prop :=
  forall e, cn_events_queue s = Some e -> has_data s !! e = Some true.

Lemma queue_ok_event s e :
  queue_ok s -> cn_events_queue s = Some e -> exists ev m, cn_events s !! e = Some ev /\ ce_data ev = Some m.
Proof.
  intros Hq He. specialize (Hq e He). unfold has_data in Hq. rewrite list_lookup_fmap in Hq.
  destruct (cn_events s !! e) as [ev|]; [|done]. injection Hq as Hq. apply bool_decide_eq_true in Hq.
  destruct (ce_data ev) as [m|] eqn:Em; [|done]. by exists ev, m.
Qed.

(** ** Frames *)

Definition list_view (w : cworld) : receiver := receiver_of (c_connect w).
Definition queue_view (w : cworld) : option nat * list bool := (cn_events_queue (c_connect w), has_data (c_connect w)).

#[export] Instance keeps_connect_get {B} (view : cworld -> B) : Keeps view connect_get.
Proof. unfold connect_get. apply _. Qed.
#[export] Instance keeps_cevent_at {B} (view : cworld -> B) e : Keeps view (cevent_at e).
Proof. unfold cevent_at. apply _. Qed.
#[export] Instance keeps_cstack_packet `{Env} {B} (view : cworld -> B) : Keeps view stack_packet.
Proof. unfold stack_packet. apply _. Qed.

Section frames.
Context `{Env} {B : Type} (view : syncs_connect -> B).
Local Notation seen := (fun w : cworld => view (c_connect w)).

Lemma keeps_connect_upd f : (forall s, view (f s) = view s) -> Keeps seen (connect_upd f).
Proof. intros Hf. apply keeps_modify. intros w. apply Hf. Qed.

#[export] Instance keeps_cemit e : Keeps seen (emit e).
Proof. by apply keeps_modify. Qed.

#[export] Instance keeps_cblocking_send sock buffer len : Keeps seen (syncs_blocking_send sock buffer len).
Proof.
  unfold syncs_blocking_send. generalize (Z.to_nat len) as fuel. intros fuel. revert buffer len.
  induction fuel as [|fuel IH]; intros buffer len; simpl; unfold os_send; apply _.
Qed.

#[export] Instance keeps_connect_send buffer size : Keeps seen (syncs_connect_send buffer size).
Proof. unfold syncs_connect_send, syncs_udp_send. apply _. Qed.

#[export] Instance keeps_loop_upto n body : Keeps seen body -> Keeps seen (loop_upto n body).
Proof. intros Hb. induction n; simpl; apply _. Qed.

#[export] Instance keeps_wait_sync sync : Keeps seen (syncs_wait_sync sync).
Proof. unfold syncs_wait_sync, wait_sync_round, clock_gettime. apply _. Qed.

#[export] Instance keeps_csend_id : Keeps seen syncs_send_id.
Proof.
  unfold syncs_send_id, syncs_client_send_id, syncs_client_send_subscribe, syncs_client_send_channel_anons, stack_header.
  apply _.
Qed.
End frames.

#[export] Hint Extern 3 (Keeps list_view (connect_upd _)) => (apply (keeps_connect_upd receiver_of); reflexivity) : typeclass_instances.
#[export] Hint Extern 3 (Keeps queue_view (connect_upd _)) =>
  (apply (keeps_connect_upd (fun s => (cn_events_queue s, has_data s))); reflexivity) : typeclass_instances.
#[export] Hint Extern 4 (Keeps list_view _) => (change list_view with (fun w => receiver_of (c_connect w)); apply _) : typeclass_instances.

(** ** One packet *)

Section packets.
Context `{Env}.

#[export] Instance keeps_list_cevent_upd e f : Keeps list_view (cevent_upd e f).
Proof. unfold cevent_upd. apply _. Qed.

Lemma keeps_queue_cevent_upd e f :
  (forall ev, bool_decide (ce_data (f ev) <> None) = bool_decide (ce_data ev <> None)) -> Keeps queue_view (cevent_upd e f).
Proof.
  intros Hf w u w' E. unfold cevent_upd, cevent_at, connect_get, connect_upd, mbind, M_bind, gets, deref in E.
  destruct (cn_events (c_connect w) !! e) as [ev|] eqn:Hev; [|done]. injection E as <- <-.
  unfold queue_view, has_data. simpl. f_equal. rewrite list_fmap_insert, Hf. apply list_insert_id.
  by rewrite list_lookup_fmap, Hev.
Qed.

(** A list packet and its list. *)
Lemma list_packet_counters get put size h data w :
  (forall f s, get (put f s) = f (get s)) ->
  wlp (process_list get put size h data)
    (fun _ w' => counters_of (get (c_connect w')) = counters_next h (counters_of (get (c_connect w)))) w.
Proof.
  intros Hget. unfold process_list. wlp_step. unfold connect_get. wlp_step.
  unfold counters_next, counters_accept. cbn [lc_array lc_sequence lc_next lc_recv counters_of].
  destruct (li_info (get (c_connect w))) as [info|] eqn:Ei; [|by wlp_step].
  rewrite bool_decide_true by done. cbn [andb].
  destruct (id_char (hd_id h) 3 =? _); cbn [negb andb]; [|by wlp_step].
  destruct (id_char (hd_id h) 0 =? _); cbn [negb andb]; [|by wlp_step].
  wlp_step. apply wlp_memcpy. intros _ _ _. unfold connect_upd. do 3 (wlp_step; wlp_step).
  destruct (_ =? 1); wlp_step; simpl; by rewrite !Hget.
Qed.

(** Every other packet leaves the lists alone. *)
Lemma keeps_lists h data :
  let msg := Z.land (hd_type h) SYNCS_TYPE_MSG_MASK in
  msg <> SYNCS_TYPE_EVENT_LIST -> msg <> SYNCS_TYPE_CLIENT_LIST -> msg <> SYNCS_TYPE_CHANNEL_LIST ->
  Keeps list_view (syncs_process_packet h data).
Proof.
  intros msg H1 H2 H3. unfold syncs_process_packet. cbn zeta. fold msg.
  rewrite (proj2 (Z.eqb_neq _ _) H1), (proj2 (Z.eqb_neq _ _) H2), (proj2 (Z.eqb_neq _ _) H3).
  unfold syncs_process_event, syncs_channel_process_packet, process_read, syncs_process_error. apply _.
Qed.

(** A list packet touches no other list. *)
Lemma list_packet_receiver {B} (view : syncs_connect -> B) get put size h data w :
  (forall f s, get (put f s) = f (get s)) -> (forall f s, view (put f s) = view s) ->
  wlp (process_list get put size h data)
    (fun _ w' => counters_of (get (c_connect w')) = counters_next h (counters_of (get (c_connect w))) /\
      view (c_connect w') = view (c_connect w)) w.
Proof.
  intros Hget Hview. pose proof (list_packet_counters get put size h data w Hget) as Hc.
  assert (Keeps (fun w => view (c_connect w)) (process_list get put size h data)) as Hk.
  { assert (forall f, Keeps (fun w => view (c_connect w)) (connect_upd (put f))) by (intros f; by apply keeps_connect_upd).
    unfold process_list. apply _. }
  unfold wlp in *. destruct (process_list _ _ _ _ _ _) as [[u w']|] eqn:E; [|done]. split; [done|exact (Hk _ _ _ E)].
Qed.

(** The lists after a packet. *)
Lemma packet_lists h data w :
  wlp (syncs_process_packet h data) (fun _ w' => list_view w' = receiver_next h (list_view w)) w.
Proof.
  unfold receiver_next. set (msg := Z.land (hd_type h) SYNCS_TYPE_MSG_MASK).
  destruct (Z.eqb_spec msg SYNCS_TYPE_EVENT_LIST) as [E1|E1]; [|destruct (Z.eqb_spec msg SYNCS_TYPE_CLIENT_LIST) as [E2|E2];
    [|destruct (Z.eqb_spec msg SYNCS_TYPE_CHANNEL_LIST) as [E3|E3]]].
  4: { pose proof (keeps_lists h data E1 E2 E3) as Hk. by apply (wlp_keeps list_view). }
  1: pose proof (list_packet_receiver (fun s => (counters_of (cn_clientlist s), counters_of (cn_channellist s)))
    cn_eventlist put_eventlist sizeof_event_info h data w (fun _ _ => eq_refl) (fun _ _ => eq_refl)) as Hs; rename E1 into E.
  2: pose proof (list_packet_receiver (fun s => (counters_of (cn_eventlist s), counters_of (cn_channellist s)))
    cn_clientlist put_clientlist sizeof_client_info h data w (fun _ _ => eq_refl) (fun _ _ => eq_refl)) as Hs; rename E2 into E.
  3: pose proof (list_packet_receiver (fun s => (counters_of (cn_eventlist s), counters_of (cn_clientlist s)))
    cn_channellist put_channellist sizeof_channel_info h data w (fun _ _ => eq_refl) (fun _ _ => eq_refl)) as Hs; rename E3 into E.
  all: unfold syncs_process_packet; cbn zeta; fold msg; rewrite E; cbn match; eapply wlp_mono; [exact Hs|];
    intros u w' [Hl Hview]; unfold list_view, receiver_of; pose proof (f_equal fst Hview) as Ha; pose proof (f_equal snd Hview) as Hb;
    cbn [fst snd] in Ha, Hb; by rewrite Hl, Ha, Hb.
Qed.

(** ** The event queue after a packet *)

Lemma keeps_queue h data :
  Z.land (hd_type h) SYNCS_TYPE_MSG_MASK <> SYNCS_TYPE_EVENT -> Keeps queue_view (syncs_process_packet h data).
Proof.
  intros Hm. unfold syncs_process_packet. cbn zeta. rewrite (proj2 (Z.eqb_neq _ _) Hm).
  assert (Keeps queue_view syncs_send_id) by exact (keeps_csend_id (fun s => (cn_events_queue s, has_data s))).
  unfold syncs_channel_process_packet, process_read, syncs_process_error, process_list,
    put_eventlist, put_clientlist, put_channellist. apply _.
Qed.

Lemma wlp_cevent_upd e f w (Q : unit -> cworld -> Prop) :
  (forall ev, cn_events (c_connect w) !! e = Some ev ->
    Q tt (mk_cworld (c_connect w <| cn_events ::= <[e := f ev]> |>) (c_log w))) ->
  wlp (cevent_upd e f) Q w.
Proof.
  intros HQ. unfold cevent_upd, cevent_at. wlp_step. wlp_step. unfold connect_get. wlp_step.
  apply wlp_deref. intros ev Hev. unfold connect_upd. wlp_step. by apply HQ.
Qed.

Lemma queue_ok_view w w' : queue_view w' = queue_view w -> queue_ok (c_connect w) -> queue_ok (c_connect w').
Proof.
  intros Hv Hq e He. pose proof (f_equal fst Hv) as Hv1. pose proof (f_equal snd Hv) as Hv2.
  cbn [fst snd queue_view] in Hv1, Hv2. rewrite Hv2. apply Hq. by rewrite <- Hv1.
Qed.

(** An event that enters the queue has memory. *)
Lemma event_queue h data w :
  queue_ok (c_connect w) -> wlp (syncs_process_event h data) (fun _ w' => queue_ok (c_connect w')) w.
Proof.
  intros Hq. unfold syncs_process_event. wlp_step. unfold connect_get at 1. wlp_step.
  destruct (syncs_find_event _ _) as [e|]; [|by wlp_step]. wlp_step. unfold cevent_at at 1. wlp_step.
  unfold connect_get at 1. wlp_step. apply wlp_deref. intros ev Hev. wlp_step.
  apply (wlp_mono _ (fun _ w1 => queue_view w1 = queue_view w)).
  { destruct (ce_cb ev =? NULL); [by wlp_step|]. unfold emit. by wlp_step. }
  intros u w1 Hv1. wlp_step. apply (wlp_mono _ (fun _ w2 => queue_ok (c_connect w2))).
  2: { intros u2 w2 Hw2. unshelve eapply (@wlp_keeps _ _ _ queue_view).
       - by apply keeps_queue_cevent_upd.
       - intros u3 w3 Hv3. by apply (queue_ok_view w2). }
  destruct (ce_data ev) as [m|] eqn:Em; [|wlp_step; by apply (queue_ok_view w)].
  wlp_step. apply wlp_memcpy. intros _ _ _. wlp_step. apply wlp_cevent_upd. intros ev1 Hev1.
  assert (e < length (cn_events (c_connect w1)))%nat as He by by eapply lookup_lt_Some.
  wlp_step. apply wlp_cevent_upd. intros ev2 Hev2. unfold connect_upd. do 3 wlp_step.
  intros i [= <-]. unfold has_data. cbn in Hev2 |- *. rewrite list_lookup_insert_eq in Hev2 by done.
  injection Hev2 as <-. rewrite list_lookup_fmap, list_lookup_insert_eq by (by rewrite length_insert). reflexivity.
Qed.

(** The event queue after a packet. *)
Lemma packet_queue h data w :
  queue_ok (c_connect w) -> wlp (syncs_process_packet h data) (fun _ w' => queue_ok (c_connect w')) w.
Proof.
  intros Hq. destruct (Z.eqb_spec (Z.land (hd_type h) SYNCS_TYPE_MSG_MASK) SYNCS_TYPE_EVENT) as [E|E].
  2: { pose proof (keeps_queue h data E) as Hk. eapply (@wlp_keeps _ _ _ queue_view _ Hk). intros u w' Hv.
       by apply (queue_ok_view w). }
  unfold syncs_process_packet. cbn zeta. rewrite E. rewrite Z.eqb_refl. apply wlp_bind.
  apply (wlp_mono _ (fun _ w1 => c_connect w1 = c_connect w)).
  - destruct (flag _ _); [|by wlp_step].
    apply (@wlp_keeps _ _ _ c_connect _ (keeps_wait_sync (fun s => s) _)). done.
  - intros u w1 E1. apply event_queue. by rewrite E1.
Qed.
End packets.

(** ** Waiting *)

(** The packets of a whole schedule fit the arrays, and it ends with the
    timeout of the call. *)
Definition schedule_ok (r : receiver) (wakeups : list wakeup) : Prop :=
  packets_fit r (wakeups ≫= wk_packets) /\ wk_timeout <$> list.last wakeups = Some true.

(** What packets do to the state a call waits in. *)
Definition received (ds : list delivery) (w w' : cworld) : Prop :=
  cwinv w' /\ list_view w' = receiver_after (list_view w) ds /\
  (queue_ok (c_connect w) -> queue_ok (c_connect w')).

Lemma received_app ds ds' w w1 w2 : received ds w w1 -> received ds' w1 w2 -> received (ds ++ ds') w w2.
Proof.
  intros (_ & H1 & Hq1) (Hw & H2 & Hq2). split; [done|]. split; [|auto].
  unfold receiver_after in *. by rewrite foldl_app, <- H1.
Qed.

Section waiting.
Context `{Env} `{!ClockAdvances}.

Lemma safe_receive_packet d w :
  cwinv w -> packet_ok d -> receiver_fits d.1 (list_view w) ->
  wp (deliver syncs_process_packet d) (fun _ => received [d] w) w.
Proof.
  intros Hw (Hh & Hmax & Hlen) Hfit. unfold deliver.
  pose proof (safe_process_packet d.1 d.2 w Hw Hh Hmax Hlen (receiver_fits_packet _ _ Hw Hfit)) as Hs.
  pose proof (packet_lists d.1 d.2 w) as Hl. pose proof (packet_queue d.1 d.2 w) as Hq.
  apply wp_run in Hs as (u & w' & E & Hw'). eapply wp_ok; [exact E|]. split; [done|]. split.
  - exact (wlp_ok _ _ _ _ _ Hl E).
  - intros Hqw. exact (wlp_ok _ _ _ _ _ (Hq Hqw) E).
Qed.

Lemma safe_receive_packets ds w :
  cwinv w -> packets_fit (list_view w) ds -> wp (receive_packets ds) (fun _ => received ds w) w.
Proof.
  unfold receive_packets. revert w. induction ds as [|d ds IH]; intros w Hw Hds; [done|].
  destruct Hds as (Hd & Hfit & Hds). cbn [for_each]. wp_step. eapply wp_mono; [by apply safe_receive_packet|].
  intros u w1 Hw1. cbn beta. pose proof Hw1 as (Hwf & Hl & _). eapply wp_mono.
  - apply IH; [done|]. rewrite Hl. exact Hds.
  - intros u2 w2 Hw2. exact (received_app [d] ds w w1 w2 Hw1 Hw2).
Qed.

(** The wait ends: with the answer, or with the timeout of the schedule. *)
Lemma safe_wait_loop wait wakeups w :
  cwinv w -> schedule_ok (list_view w) wakeups ->
  wp (wait_loop wait wakeups) (fun _ w' => exists k, received (take k (wakeups ≫= wk_packets)) w w') w.
Proof.
  intros Hw [Hall Hlast]. revert w Hw Hall. induction wakeups as [|wk wakeups IH]; [done|]. intros w Hw Hall.
  cbn [wait_loop]. wp_step. apply wp_connect_get. cbn [mbind list_bind] in *. fold (wakeups ≫= wk_packets) in *.
  apply packets_fit_app in Hall as [Hwk Hall].
  destruct (_ =? 0); [wp_step; by exists O|]. wp_step. eapply wp_mono; [by apply safe_receive_packets|].
  intros u w1 Hw1. cbn beta. destruct (wk_timeout wk) eqn:E.
  { wp_step. exists (length (wk_packets wk)). by rewrite take_app_length. }
  destruct wakeups as [|wk' wakeups]; [simpl in Hlast; congruence|].
  pose proof Hw1 as (Hwf & Hl & _). eapply wp_mono; [apply IH; [exact Hlast|done|by rewrite Hl]|].
  intros r w2 (k & Hw2). exists (length (wk_packets wk) + k)%nat. rewrite take_app_add. exact (received_app _ _ _ _ _ Hw1 Hw2).
Qed.

Lemma safe_wait_for wait wakeups w :
  cwinv w -> schedule_ok (list_view w) wakeups ->
  wp (syncs_wait_for wait wakeups) (fun _ w' => exists k, received (take k (wakeups ≫= wk_packets)) w w') w.
Proof.
  intros Hw Hs. unfold syncs_wait_for. wp_step. unfold emit. wp_step.
  exact (safe_wait_loop wait wakeups (io_emit IoClock w) (cwinv_emit IoClock w Hw) Hs).
Qed.
End waiting.
