(* ===== verification/ClientWire.v ===== *)
(** * Client: what the requests put on the wire

    Each request of a client is one packet of the protocol: over TCP, if the
    network takes whole packets, in the byte stream, over UDP in a datagram. *)

From S2P Require Import Prelude.
From S2P Require Import Monad.
From S2P Require Import Types.
From S2P Require Import Net.
From S2P Require Import Framing.
From S2P Require Import Wire.
From S2P Require Import ClientState.
From S2P Require Import ClientOps.
From S2P Require Import ClientCalls.
From S2P Require Import ClientInv.

(** A client with a TCP connection, with a UDP socket, with one of them. *)
Definition connected (s : syncs_connect) : Prop := 0 < cn_socketfd s.
Definition udp_connected (s : syncs_connect) : Prop := cn_socketfd s <= 0 /\ 0 < cn_usocketfd s.
Definition online (s : syncs_connect) : Prop := connected s \/ udp_connected s.

(** How it sends. *)
Definition client_io (s : syncs_connect) (bs : list byte) : io :=
  if 0 <? cn_socketfd s then IoSend (cn_socketfd s) bs else IoSendto (cn_usocketfd s) (cn_saddr s) bs.

Lemma client_io_tcp s bs : connected s -> client_io s bs = IoSend (cn_socketfd s) bs.
Proof. unfold connected, client_io. intros Hc. by rewrite (proj2 (Z.ltb_lt _ _)). Qed.

Lemma client_io_udp s bs : udp_connected s -> client_io s bs = IoSendto (cn_usocketfd s) (cn_saddr s) bs.
Proof. intros [Hc _]. unfold client_io. by rewrite (proj2 (Z.ltb_ge _ _)). Qed.

(** Fields of the type word: the message and the flags do not overlap. *)
Lemma request_type_msg m flags :
  0 <= m < 16 -> Z.land (Z.lor m (Z.land flags VAR_FLAGS_MASK)) SYNCS_TYPE_MSG_MASK = m.
Proof.
  intros Hm. rewrite Z.land_lor_distr_l, <- Z.land_assoc.
  change (Z.land VAR_FLAGS_MASK SYNCS_TYPE_MSG_MASK) with 0. rewrite Z.land_0_r, Z.lor_0_r.
  change SYNCS_TYPE_MSG_MASK with (2 ^ 4 - 1). rewrite land_mask by lia. by apply Z.mod_small.
Qed.

Lemma request_type_range m flags :
  0 <= m < 2 ^ 32 -> 0 <= Z.lor m (Z.land flags VAR_FLAGS_MASK) < 2 ^ 32.
Proof.
  intros Hm. apply lor_range; [lia|done|]. change VAR_FLAGS_MASK with (Z.land 0xff0 (2 ^ 32 - 1)).
  rewrite Z.land_assoc, land_mask by lia. by apply Z.mod_pos_bound.
Qed.

Lemma fill_header_str_request p cid type n :
  header_wf p -> 0 <= type < 2 ^ 32 -> 0 <= n < 2 ^ 16 ->
  request_header type (syncs_idstr cid) n
    (syncs_fill_header_str (p <| hd_id := syncs_idstr cid |>) cid type <| hd_data_size := n |>).
Proof.
  intros (_ & Hc & _ & _ & H0 & H1 & Hu & _ & _) Ht Hn. rewrite syncs_fill_header_str_eq.
  destruct p as [? crc ? ? sync uc ? ?].
  apply made_header_request; try done. apply syncs_idstr_wf.
Qed.

Section wire.
Context `{Env} `{!Lossless}.

Lemma run_connect_send buffer size w (Q : Z -> cworld -> Prop) :
  online (c_connect w) -> 0 < size < 2 ^ 32 -> size <= zlen buffer ->
  Q 0 (io_emit (client_io (c_connect w) (ztake size buffer)) w) ->
  wp (syncs_connect_send buffer size) Q w.
Proof.
  intros [Hc|Hc] Hs Hb HQ; [rewrite client_io_tcp in HQ by done|rewrite client_io_udp in HQ by done];
    unfold syncs_connect_send; wp_step; apply wp_connect_get.
  - rewrite (proj2 (Z.gtb_lt _ _)) by done. by apply blocking_send_lossless.
  - destruct Hc as [Hc Hu]. rewrite Z.gtb_ltb, (proj2 (Z.ltb_ge _ _)), (proj2 (Z.gtb_lt _ _)) by done.
    unfold syncs_udp_send, emit. by wp_steps.
Qed.

(** The packet of header [h] whose payload is the first [n] bytes of the
    buffer. *)
Lemma run_send_frame h b n data w (Q : Z -> cworld -> Prop) :
  online (c_connect w) -> 0 <= n <= SYNCS_VARIABLE_SIZE_MAXIMUM -> n <= zlen b -> ztake n b = data ->
  Q 0 (io_emit (client_io (c_connect w) (encode_frame (h, data))) w) ->
  wp (syncs_connect_send (packet_bytes (mk_packet h b)) (sizeof_header + n)) Q w.
Proof.
  intros Hc Hn Hb <- HQ. unfold packet_bytes. cbn [pk_header pk_buffer].
  apply run_connect_send; [done|clia|clia|].
  rewrite ztake_app_ge by clia. rewrite zlen_encode_header. change sizeof_header with 60.
  by replace (60 + n - 60) with n by lia.
Qed.

Lemma run_send_header h b w (Q : Z -> cworld -> Prop) :
  online (c_connect w) ->
  Q 0 (io_emit (client_io (c_connect w) (encode_frame (h, []))) w) ->
  wp (syncs_connect_send (packet_bytes (mk_packet h b)) sizeof_header) Q w.
Proof.
  intros Hc HQ. apply (run_send_frame h b 0 []); [done|clia|zl|apply ztake_0|done].
Qed.

(** [data_size] of [syncs_write] when the caller passes none. *)
Definition write_size (flags n : Z) : Z := if n =? 0 then syncs_get_size_by_type flags else n.

Lemma run_write flags cid d n w (Q : Z -> cworld -> Prop) :
  online (c_connect w) -> let n0 := write_size flags n in
  0 <= n0 <= SYNCS_VARIABLE_SIZE_MAXIMUM -> n0 <= zlen d ->
  (forall h, request_header (Z.lor SYNCS_TYPE_WRITE (Z.land flags VAR_FLAGS_MASK)) (syncs_idstr cid) n0 h ->
    Q 0 (io_emit (client_io (c_connect w) (encode_frame (h, ztake n0 d))) w)) ->
  wp (syncs_write flags cid (Some d) n) Q w.
Proof.
  intros Hc n0 Hn Hd HQ. unfold syncs_write. wp_step. apply run_stack_packet. intros p Hp Hph.
  fold (write_size flags n). fold n0. unfold packet_full in Hp.
  assert (0 <= Z.lor SYNCS_TYPE_WRITE (Z.land flags VAR_FLAGS_MASK) < 2 ^ 32) as Ht
    by by apply request_type_range.
  destruct (Z.eqb_spec n0 0) as [E|E].
  - rewrite E, ztake_0 in HQ. apply run_send_header; [done|]. apply HQ, fill_header_str_request; [done..|lia].
  - wp_step. apply wp_memcpy; [clia..|]. cbn zeta.
    assert (Z.land n0 SYNCS_VARIABLE_SIZE_MAXIMUM = n0) as ->.
    { change SYNCS_VARIABLE_SIZE_MAXIMUM with (2 ^ 9 - 1). rewrite land_mask by lia. apply Z.mod_small. clia. }
    eapply run_send_frame; [done|done| | |apply HQ, fill_header_str_request; [done..|clia]].
    + rewrite zlen_mem_put; clia.
    + assert (zlen (ztake n0 d) = n0) as Hz by zl. rewrite <- Hz at 1. apply (mem_sub_put 0). clia.
Qed.

(** Requests without payload. *)
Lemma run_request type cid w (Q : Z -> cworld -> Prop) :
  online (c_connect w) -> 0 <= type < 2 ^ 32 ->
  (forall h, request_header type (syncs_idstr cid) 0 h ->
    Q 0 (io_emit (client_io (c_connect w) (encode_frame (h, []))) w)) ->
  forall p, packet_full p -> header_wf (pk_header p) ->
  wp (syncs_connect_send (packet_bytes (p <| pk_header := syncs_fill_header_request_str (pk_header p) cid type |>))
    sizeof_header) Q w.
Proof.
  intros Hc Ht HQ p Hp (_ & Hcrc & _ & _ & Hd0 & Hd1 & Hu & _ & _).
  rewrite syncs_fill_header_request_str_eq. destruct p as [h b]. apply run_send_header; [done|]. apply HQ.
  apply made_header_request; try done. apply syncs_idstr_wf.
Qed.

Lemma run_define cid flags w (Q : Z -> cworld -> Prop) :
  online (c_connect w) ->
  (forall h, request_header (Z.lor SYNCS_TYPE_DEFINE (Z.land flags VAR_FLAGS_MASK)) (syncs_idstr cid) 0 h ->
    Q 0 (io_emit (client_io (c_connect w) (encode_frame (h, []))) w)) ->
  wp (syncs_define cid flags) Q w.
Proof.
  intros Hc HQ. unfold syncs_define. wp_step. apply run_stack_packet. intros p Hp Hph. cbn zeta. wp_step.
  apply run_request; [done|by apply request_type_range| |done..]. intros h Hh. wp_step. by apply HQ.
Qed.

Lemma run_undefine cid w (Q : Z -> cworld -> Prop) :
  online (c_connect w) ->
  (forall h, request_header SYNCS_TYPE_DEFINE (syncs_idstr cid) 0 h ->
    Q 0 (io_emit (client_io (c_connect w) (encode_frame (h, []))) w)) ->
  wp (syncs_undefine cid) Q w.
Proof.
  intros Hc HQ. unfold syncs_undefine. wp_step. apply run_stack_packet. intros p Hp Hph. cbn zeta. wp_step.
  apply run_request; [done|done| |done..]. intros h Hh. wp_step. by apply HQ.
Qed.

(** Subscription requests carry the counter of the last event seen. *)
Lemma run_send_subscribe id flags uc w (Q : Z -> cworld -> Prop) :
  online (c_connect w) -> id_wf id -> 0 <= uc < 2 ^ 64 ->
  (forall h, request_header (Z.lor SYNCS_TYPE_SUBSCRIBE (Z.land flags VAR_FLAGS_MASK)) id 0 h ->
    hd_update_counter h = uc ->
    Q 0 (io_emit (client_io (c_connect w) (encode_frame (h, []))) w)) ->
  wp (syncs_client_send_subscribe id flags uc) Q w.
Proof.
  intros Hc Hid Huc HQ. unfold syncs_client_send_subscribe. wp_step. apply run_stack_packet.
  intros p Hp (_ & Hcrc & _ & _ & Hd0 & Hd1 & _ & _ & _). cbn zeta. wp_step.
  rewrite syncs_fill_header_request_id_eq. destruct p as [h b]. destruct h as [? crc ? ? sync ? ? ?].
  apply run_send_header; [done|]. wp_step. apply HQ; [|done].
  apply made_header_request; try done. by apply request_type_range.
Qed.
End wire.
