(* ===== verification/ClientReconnect.v ===== *)
(** * Client: what a connection starts with

    When a connection is up the client identifies itself, subscribes again to
    everything it was subscribed to and announces its channels again. *)

From S2P Require Import Prelude.
From S2P Require Import Monad.
From S2P Require Import Types.
From S2P Require Import Net.
From S2P Require Import Framing.
From S2P Require Import Wire.
From S2P Require Import ClientState.
From S2P Require Import ClientOps.
From S2P Require Import ClientInv.
From S2P Require Import ClientWire.

(** ** The packets *)

Definition id_frame (s : syncs_connect) (f : frame) : Prop :=
  request_header SYNCS_TYPE_CLIENT_ID (cn_id s) 0 f.1 /\ f.2 = [] /\
  hd_sync f.1 = mk_sync SYNCS_VERSION_MAJOR SYNCS_VERSION_MINOR.

Definition subscribe_type (flags : Z) : Z := Z.lor SYNCS_TYPE_SUBSCRIBE (Z.land flags VAR_FLAGS_MASK).

Definition subscribe_frame (ev : syncs_client_event) (f : frame) : Prop :=
  request_header (subscribe_type (ce_flags ev)) (ce_id ev) 0 f.1 /\ f.2 = [] /\
  hd_update_counter f.1 = ce_update_counter ev.

Definition anons_frame (ch : syncs_connect_channel) (f : frame) : Prop :=
  request_header (Z.lor SYNCS_TYPE_CHANNEL SYNCS_CHANNEL_ANONS) (cc_id ch) sizeof_channel_ticket f.1 /\
  f.2 = encode_ticket (cc_ticket ch).

Definition live_event (ev : syncs_client_event) : Prop := id_is_free (ce_id ev) = false.
Definition live_channel (ch : syncs_connect_channel) : Prop := id_is_free (cc_id ch) = false.

(** The packets a connection starts with. *)
Definition hello_frames (s : syncs_connect) (fs : list frame) : Prop :=
  exists f subs anons, fs = f :: subs ++ anons /\ id_frame s f /\
    Forall2 subscribe_frame (filter live_event (cn_events s)) subs /\
    Forall2 anons_frame (filter live_channel (cn_channels s)) anons.

Section hello.
Context `{Env} `{!Lossless}.

(** The sends of the frames, one after the other. *)
Definition sends (fd : Z) (fs : list frame) : list io := (fun f => IoSend fd (encode_frame f)) <$> fs.
Definition client_sends (s : syncs_connect) (fs : list frame) : list io := (fun f => client_io s (encode_frame f)) <$> fs.

Lemma client_sends_tcp s fs : connected s -> client_sends s fs = sends (cn_socketfd s) fs.
Proof. intros Hc. apply list_fmap_ext. intros i f _. by apply client_io_tcp. Qed.

Lemma run_client_send_id id w (Q : Z -> cworld -> Prop) :
  online (c_connect w) -> id_wf id ->
  (forall h, request_header SYNCS_TYPE_CLIENT_ID id 0 h ->
    hd_sync h = mk_sync SYNCS_VERSION_MAJOR SYNCS_VERSION_MINOR ->
    Q 0 (io_emit (client_io (c_connect w) (encode_frame (h, []))) w)) ->
  wp (syncs_client_send_id id) Q w.
Proof.
  intros Hc Hid HQ. unfold syncs_client_send_id, stack_header. wp_step. wp_step. apply run_stack_packet.
  intros p _ (_ & Hcrc & _ & _ & Hd0 & Hd1 & Hu & _ & _). wp_step. cbn zeta. wp_step.
  rewrite syncs_fill_header_request_id_eq. destruct (pk_header p) as [m0 crc t0 i0 sync uc n0 m1]. simpl in Hcrc, Hu.
  apply run_connect_send; [done|clia|rewrite zlen_encode_header; clia|]. wp_step.
  rewrite ztake_ge by (rewrite zlen_encode_header; clia). unfold encode_frame in HQ. cbn [fst snd] in HQ.
  specialize (HQ (mk_header SYNCS_PACKET_MAGIC crc SYNCS_TYPE_CLIENT_ID id
    (mk_sync SYNCS_VERSION_MAJOR SYNCS_VERSION_MINOR) uc 0 SYNCS_PACKET_MAGIC_DATA)).
  rewrite app_nil_r in HQ. apply HQ; [by apply made_header_request|done].
Qed.

Lemma run_channel_anons id t w (Q : Z -> cworld -> Prop) :
  online (c_connect w) -> id_wf id ->
  (forall h, request_header (Z.lor SYNCS_TYPE_CHANNEL SYNCS_CHANNEL_ANONS) id sizeof_channel_ticket h ->
    Q 0 (io_emit (client_io (c_connect w) (encode_frame (h, encode_ticket t))) w)) ->
  wp (syncs_client_send_channel_anons id t) Q w.
Proof.
  intros Hc Hid HQ. unfold syncs_client_send_channel_anons. wp_step. apply run_stack_packet.
  intros p Hp (_ & Hcrc & _ & _ & Hd0 & Hd1 & Hu & _ & _). cbn zeta. wp_step.
  assert (zlen (encode_ticket t) = 10) as Ht by (unfold encode_ticket; zl). unfold packet_full in Hp.
  apply wp_memcpy; [clia..|]. wp_step.
  rewrite syncs_fill_header_eq. destruct p as [[m0 crc t0 i0 sync uc n0 m1] b]. cbn [pk_header pk_buffer] in *.
  simpl in Hcrc, Hd0, Hd1, Hu. change sizeof_channel_ticket with 10 in *.
  eapply (run_send_frame _ _ 10 (encode_ticket t)); [done|clia| | |].
  - rewrite zlen_mem_put; clia.
  - assert (ztake 10 (encode_ticket t) = encode_ticket t) as -> by (apply ztake_ge; lia). rewrite <- Ht at 1.
    apply (mem_sub_put 0). clia.
  - wp_step. apply HQ. by apply made_header_request.
Qed.

Lemma run_send_id w :
  cwinv w -> online (c_connect w) ->
  wp syncs_send_id (fun _ w' => c_connect w' = c_connect w /\ exists fs, hello_frames (c_connect w) fs /\
    c_log w' = c_log w ++ client_sends (c_connect w) fs) w.
Proof.
  intros Hw Hc. set (s := c_connect w) in *. unfold syncs_send_id.
  wp_step. apply wp_connect_get. wp_step. apply run_client_send_id; [done|apply Hw|]. intros h Hh Hsync.
  set (w1 := io_emit _ w). wp_step.
  eapply wp_mono; [apply (wp_for_each_index (fun k w2 => c_connect w2 = s /\ exists subs,
    Forall2 subscribe_frame (filter live_event (take k (cn_events s))) subs /\
    c_log w2 = c_log w ++ client_sends s ((h, []) :: subs)))|].
  - split; [done|]. exists []. split; [constructor|done].
  - intros k i w2 Hk (Hs2 & subs & Hsubs & Hlog). apply lookup_seq in Hk as [-> Hk]. simpl.
    destruct (cevent_lookup w k Hw Hk) as (ev & Hev & Hwf). fold s in Hev.
    wp_step. unfold cevent_at. wp_step. apply wp_connect_get. rewrite Hs2. apply (wp_deref _ ev); [done|].
    rewrite Nat.add_1_r, (take_S_r _ k ev), list.filter_app, filter_cons, filter_nil by done.
    destruct (decide (live_event ev)) as [E|E%not_false_is_true]; unfold live_event in E; rewrite E; cbn [negb]; last first.
    + wp_step. rewrite app_nil_r. eauto.
    + wp_step. apply run_send_subscribe; [by rewrite Hs2|apply Hwf|apply Hwf|]. intros g Hg Huc. wp_step.
      split; [done|]. exists (subs ++ [(g, [])]). split.
      * apply Forall2_app; [done|]. constructor; [by split_and!|constructor].
      * simpl. rewrite Hlog, Hs2. unfold client_sends. cbn [fmap list_fmap]. rewrite fmap_app, <- app_assoc. done.
  - intros u w2 (Hs2 & subs & Hsubs & Hlog). rewrite length_seq, take_ge in Hsubs by (by rewrite (cwf_events s Hw)).
    eapply wp_mono; [apply (wp_for_each_index (fun k w3 => c_connect w3 = s /\ exists anons,
      Forall2 anons_frame (filter live_channel (take k (cn_channels s))) anons /\
      c_log w3 = c_log w ++ client_sends s ((h, []) :: subs ++ anons)))|].
    + split; [done|]. exists []. split; [constructor|]. by rewrite app_nil_r.
    + intros k i w3 Hk (Hs3 & anons & Hanons & Hlog3). apply lookup_seq in Hk as [-> Hk]. simpl.
      destruct (lookup_lt_is_Some_2 (cn_channels s) k) as [ch Hch]; [by rewrite (cwf_channels s Hw)|].
      destruct (cwf_channel s Hw k ch Hch) as [Hwf _].
      wp_step. apply wp_connect_get. rewrite Hs3. wp_step. apply (wp_deref _ ch); [done|].
      rewrite Nat.add_1_r, (take_S_r _ k ch), list.filter_app, filter_cons, filter_nil by done.
      destruct (decide (live_channel ch)) as [E|E%not_false_is_true]; unfold live_channel in E; rewrite E; cbn [negb]; last first.
      * wp_step. rewrite app_nil_r. eauto.
      * wp_step. apply run_channel_anons; [by rewrite Hs3|done|]. intros g Hg. wp_step.
        split; [done|]. exists (anons ++ [(g, encode_ticket (cc_ticket ch))]). split.
        -- apply Forall2_app; [done|]. constructor; [by split_and!|constructor].
        -- change (c_log w3 ++ [client_io (c_connect w3) (encode_frame (g, encode_ticket (cc_ticket ch)))] =
             c_log w ++ client_sends s ((h, []) :: subs ++ anons ++ [(g, encode_ticket (cc_ticket ch))])).
           rewrite Hlog3, Hs3, <- app_assoc. unfold client_sends. cbn [fmap list_fmap]. by rewrite (app_assoc subs), (fmap_app _ (subs ++ anons)).
    + intros u3 w3 (Hs3 & anons & Hanons & Hlog3). rewrite length_seq, take_ge in Hanons by (by rewrite (cwf_channels s Hw)).
      split; [done|]. exists ((h, []) :: subs ++ anons). split; [|done]. exists (h, []), subs, anons.
      split; [done|]. split; [split_and!; done|done].
Qed.
End hello.
