(* ===== verification/ClientApi.v ===== *)
(** * Client: every call returns

    The calls of the application and the steps of the threads behind them as
    one transition system over [struct syncs_connect]; each step returns
    without an out-of-bounds access and keeps the representation invariant.
    Creation gives the initial states; [syncs_isconnect] and
    [syncs_connect_status] change nothing, and [syncs_find_server] is in
    Ssdp.v. *)

From S2P Require Import Prelude.
From S2P Require Import Monad.
From S2P Require Import Types.
From S2P Require Import Net.
From S2P Require Import Framing.
From S2P Require Import Wire.
From S2P Require Import ClientState.
From S2P Require Import ClientOps.
From S2P Require Import ClientCalls.
From S2P Require Import ClientWait.
From S2P Require Import ClientInv.
From S2P Require Import ClientSafe.
From S2P Require Import ClientReceiver.
From S2P Require Import ClientWire.

(** ** The steps *)

(** One call of the library, or one step of the threads behind it.  A call
    that waits has the schedule of what the receiver thread does meanwhile. *)
Inductive client_op : Type :=
  | OpConnected (fd : Z)
  | OpUdpConnected (fd : Z) (addr : sockaddr_in)
  | OpRecvStart
  | OpUdpRecvStart
  | OpConnectCb
  | OpPacket (d : delivery)
  | OpRecvEnd
  | OpSendId
  | OpConnectWait (wakeups : list wakeup)
  | OpWrite (flags : Z) (cid : list byte) (data : option (list byte)) (n : Z)
  | OpDefine (cid : list byte) (flags : Z)
  | OpUndefine (cid : list byte)
  | OpSubscribe (flags : Z) (cid : list byte) (cb args : Z)
  | OpSubscribeSync (flags : Z) (cid : list byte)
  | OpSubscribeUser (flags : Z) (cid : list byte) (memory : option (list byte)) (size : Z)
  | OpUnsubscribe (cid : list byte)
  | OpRead (flags : Z) (cid data : list byte) (size : Z) (wakeups : list wakeup)
  | OpWaitEvent (flags : Z) (data : list byte) (size : Z) (wakeups : list wakeup)
  | OpRequestClients (count : Z) (wakeups : list wakeup)
  | OpRequestEvents (count : Z) (wakeups : list wakeup)
  | OpRequestChannels (count : Z) (wakeups : list wakeup)
  | OpFreeClients
  | OpFreeEvents
  | OpFreeChannels
  | OpChannelAnons (id : list byte) (flags port : Z)
  | OpChannelRequest (id : list byte) (ticket : syncs_channel_ticket) (wakeups : list wakeup)
  | OpDisconnect (rest : list delivery).

(** The call that releases the connection object. *)
Definition releases (op : client_op) : bool :=
  match op with OpDisconnect _ => true | _ => false end.

(** A list as a request for it leaves it: the next sequence number, nothing
    received, an array to receive into. *)
Definition restarted (put : (list_state -> list_state) -> syncs_connect -> syncs_connect) (s : syncs_connect) : receiver :=
  receiver_of (put (fun l => mk_list_state (u8 (li_sequence l + 1)) 0 0 1 (Some [])) s).

Section api.
Context `{Env}.

Definition client_run (op : client_op) : CM unit :=
  match op with
  | OpConnected fd => connect_upd (fun s => s <| cn_socketfd := fd |>)
  | OpUdpConnected fd addr =>
      _ ← connect_upd (fun s => s <| cn_saddr := addr |>); connect_upd (fun s => s <| cn_usocketfd := fd |>)
  | OpRecvStart => recv_start
  | OpUdpRecvStart => udprecv_start
  | OpConnectCb => syncs_connect_cb_thread
  | OpPacket d => deliver syncs_process_packet d
  | OpRecvEnd => connect_upd (fun s => s <| cn_ready := 0 |>)
  | OpSendId => syncs_send_id
  | OpConnectWait wakeups => _ ← syncs_connect_wait wakeups; mret tt
  | OpWrite flags cid data n => _ ← syncs_write flags cid data n; mret tt
  | OpDefine cid flags => _ ← syncs_define cid flags; mret tt
  | OpUndefine cid => _ ← syncs_undefine cid; mret tt
  | OpSubscribe flags cid cb args => _ ← syncs_subscribe_event flags cid cb args; mret tt
  | OpSubscribeSync flags cid => _ ← syncs_subscribe_event_sync flags cid; mret tt
  | OpSubscribeUser flags cid m size => _ ← syncs_subscribe_event_sync_user flags cid m size; mret tt
  | OpUnsubscribe cid => syncs_unsubscribe_event cid
  | OpRead flags cid data size wakeups => _ ← syncs_read flags cid data size wakeups; mret tt
  | OpWaitEvent flags data size wakeups => _ ← syncs_wait_event flags data size wakeups; mret tt
  | OpRequestClients count wakeups => _ ← syncs_request_clientslist count wakeups; mret tt
  | OpRequestEvents count wakeups => _ ← syncs_request_eventslist count wakeups; mret tt
  | OpRequestChannels count wakeups => _ ← syncs_request_channelslist count wakeups; mret tt
  | OpFreeClients => syncs_free_clientslist
  | OpFreeEvents => syncs_free_eventslist
  | OpFreeChannels => syncs_free_channelslist
  | OpChannelAnons id flags port => _ ← syncs_channel_anons id flags port; mret tt
  | OpChannelRequest id ticket wakeups => _ ← syncs_channel_request id ticket wakeups; mret tt
  | OpDisconnect rest => syncs_disconnect rest
  end.

(** What the code relies on without checking it: the caller's buffers are as
    large as it says and a value fits the packet; a channel is announced only
    while a slot is free; a queued event still has its memory; the list
    packets that arrive fit the arrays of the lists. *)
Definition client_ok (w : cworld) (op : client_op) : Prop :=
  match op with
  | OpPacket d => packets_fit (list_view w) [d]
  | OpDisconnect rest => packets_fit (list_view w) rest
  | OpWrite flags cid (Some d) n =>
      0 <= write_size flags n <= SYNCS_EVENT_DATA_SIZE_MAXIMUM /\ write_size flags n <= zlen d
  | OpSubscribeUser _ _ (Some m) _ => SYNCS_VARIABLE_SIZE_MAXIMUM <= zlen m
  | OpChannelAnons _ _ _ => syncs_find_free_channel (c_connect w) <> None
  | OpRead _ _ data size wakeups => 0 <= size <= zlen data /\ schedule_ok (list_view w) wakeups
  | OpWaitEvent _ data size wakeups =>
      0 <= size <= zlen data /\ queue_ok (c_connect w) /\ schedule_ok (list_view w) wakeups
  | OpConnectWait wakeups | OpChannelRequest _ _ wakeups => schedule_ok (list_view w) wakeups
  | OpRequestClients _ wakeups => schedule_ok (restarted put_clientlist (c_connect w)) wakeups
  | OpRequestEvents _ wakeups => schedule_ok (restarted put_eventlist (c_connect w)) wakeups
  | OpRequestChannels _ wakeups => schedule_ok (restarted put_channellist (c_connect w)) wakeups
  | _ => True
  end.

(** The states a client can reach. *)
Inductive client_reachable : cworld -> Prop :=
  | creach_connect size addr port id cb arg s :
      syncs_connect_new size addr port id cb arg = Some s -> client_reachable (mk_cworld s [])
  | creach_udpconnect size addr port id s :
      syncs_udpconnect size addr port id = Some s -> client_reachable (mk_cworld s [])
  | creach_step w op w' :
      client_reachable w -> client_ok w op -> releases op = false ->
      client_run op w = Ok (tt, w') -> client_reachable w'.

(** ** Safety of the calls *)

Lemma safe_send p size w :
  cwinv w -> packet_full p -> 0 <= size <= sizeof_header + SYNCS_EVENT_DATA_SIZE_MAXIMUM ->
  wp (syncs_connect_send (packet_bytes p) size) (fun _ => cwinv) w.
Proof. intros Hw Hp Hs. apply safe_connect_send; [done|clia|]. unfold packet_bytes, packet_full in *. clia. Qed.

Lemma safe_write flags cid data n w :
  cwinv w -> client_ok w (OpWrite flags cid data n) -> wp (syncs_write flags cid data n) (fun _ => cwinv) w.
Proof.
  intros Hw Hok. unfold syncs_write. wp_step. apply run_stack_packet. intros p Hp _. cbn zeta.
  destruct data as [d|]; [|by apply safe_send; [|done|clia]].
  destruct Hok as [Hn Hd]. fold (write_size flags n). destruct (_ =? 0); [by apply safe_send; [|done|clia]|].
  unfold packet_full in Hp. wp_step. apply wp_memcpy; [clia..|].
  assert (0 <= Z.land (write_size flags n) SYNCS_VARIABLE_SIZE_MAXIMUM <= SYNCS_VARIABLE_SIZE_MAXIMUM).
  { change SYNCS_VARIABLE_SIZE_MAXIMUM with (2 ^ 9 - 1). rewrite land_mask by lia.
    pose proof (Z.mod_pos_bound (write_size flags n) (2 ^ 9)). lia. }
  apply safe_send; [done| |clia]. unfold packet_full. cbn [pk_buffer]. rewrite zlen_mem_put; clia.
Qed.

Lemma safe_subscribe_send e flags cid w :
  cwinv w -> (e < SYNCS_EVENT_MAXIMUM)%nat -> wp (subscribe_send e flags cid) (fun _ => cwinv) w.
Proof.
  intros Hw He. unfold subscribe_send.
  wp_step. apply wp_cevent_upd; [done|done|by intros ? []; split|]. intros w1 Hw1.
  wp_step. apply wp_cevent_upd; [done|done|intros ? []; split; try done; apply syncs_idstr_wf|]. intros w2 Hw2.
  wp_step. apply wp_connect_get. destruct (_ >=? _); [|by wp_step].
  wp_step. apply wp_cevent_at; [done..|]. intros ev _ _. wp_step.
  eapply wp_mono; [by apply safe_send_subscribe|]. intros r w3 Hw3. by wp_step.
Qed.

Lemma safe_event_set_data e m size w :
  cwinv w -> (e < SYNCS_EVENT_MAXIMUM)%nat ->
  (forall x, m = Some x -> SYNCS_VARIABLE_SIZE_MAXIMUM <= zlen x) ->
  wp (event_set_data e m size) (fun _ => cwinv) w.
Proof.
  intros Hw He Hm. unfold event_set_data. wp_step. apply wp_cevent_at; [done..|]. intros ev _ _. wp_step.
  eapply (wp_mono _ (fun _ => cwinv)); [destruct (ce_data ev); done|]. intros u w1 Hw1.
  wp_step. apply wp_cevent_upd; [done|done|intros ? []; split; try done; apply Hm|]. intros w2 Hw2.
  apply wp_cevent_upd; [done|done|by intros ? []; split|]. by intros w3 Hw3.
Qed.

Lemma safe_subscribe flags cid cb args w :
  cwinv w -> wp (syncs_subscribe_event flags cid cb args) (fun _ => cwinv) w.
Proof.
  intros Hw. unfold syncs_subscribe_event. wp_step. apply wp_connect_get.
  destruct (syncs_get_event_str _ _) as [e|] eqn:E; [|by wp_step]. apply get_event_lt in E; [|done].
  wp_step. apply wp_cevent_upd; [done|done|by intros ? []; split|]. intros w1 Hw1.
  wp_step. apply wp_cevent_upd; [done|done|by intros ? []; split|]. intros w2 Hw2.
  by apply safe_subscribe_send.
Qed.

Lemma safe_subscribe_user flags cid m size w :
  cwinv w -> client_ok w (OpSubscribeUser flags cid m size) ->
  wp (syncs_subscribe_event_sync_user flags cid m size) (fun _ => cwinv) w.
Proof.
  intros Hw Hok. unfold syncs_subscribe_event_sync_user. wp_step. apply wp_connect_get.
  destruct (syncs_get_event_str _ _) as [e|] eqn:E; [|by wp_step]. apply get_event_lt in E; [|done].
  wp_step. eapply wp_mono; [apply safe_event_set_data; [done..|]|].
  { intros x ->. exact Hok. }
  intros u w1 Hw1. by apply safe_subscribe_send.
Qed.

Lemma safe_subscribe_sync flags cid w :
  cwinv w -> wp (syncs_subscribe_event_sync flags cid) (fun _ => cwinv) w.
Proof.
  intros Hw. unfold syncs_subscribe_event_sync. wp_step. apply wp_connect_get.
  destruct (syncs_get_event_str _ _) as [e|] eqn:E; [|by wp_step]. apply get_event_lt in E; [|done].
  wp_step. wp_step. wp_step. unfold emit. wp_step. wp_step.
  eapply wp_mono; [apply safe_event_set_data; [done..|]|].
  { intros x Hx. destruct (env_alloc _ _); [|done]. injection Hx as <-.
    rewrite zlen_ztake, env_stack_size. clia. }
  intros u w1 Hw1. by apply safe_subscribe_send.
Qed.

Lemma safe_unsubscribe cid w : cwinv w -> wp (syncs_unsubscribe_event cid) (fun _ => cwinv) w.
Proof.
  intros Hw. unfold syncs_unsubscribe_event. wp_step. apply wp_connect_get.
  destruct (syncs_find_event _ _) as [e|] eqn:E; [|done]. apply find_cevent_lt in E; [|done].
  wp_step. apply wp_cevent_at; [done..|]. intros ev _ _. wp_step.
  eapply wp_mono; [by apply safe_send_unsubscribe|]. intros r w1 Hw1.
  apply wp_cevent_upd; [done|done| |done]. intros x []. split; try done. by apply id_set_free_wf.
Qed.

Lemma safe_request_str p cid type w :
  cwinv w -> packet_full p ->
  wp (_ ← syncs_connect_send (packet_bytes (p <| pk_header := syncs_fill_header_request_str (pk_header p) cid type |>))
        sizeof_header; mret 0) (fun _ => cwinv) w.
Proof.
  intros Hw Hp. wp_step. eapply wp_mono; [apply safe_send_request; [done|exact Hp]|].
  intros r w1 Hw1. by wp_step.
Qed.

Lemma safe_define cid flags w : cwinv w -> wp (syncs_define cid flags) (fun _ => cwinv) w.
Proof.
  intros Hw. unfold syncs_define. wp_step. apply run_stack_packet. intros p Hp _. by apply safe_request_str.
Qed.

Lemma safe_undefine cid w : cwinv w -> wp (syncs_undefine cid) (fun _ => cwinv) w.
Proof.
  intros Hw. unfold syncs_undefine. wp_step. apply run_stack_packet. intros p Hp _. by apply safe_request_str.
Qed.

Lemma safe_anons id flags port w :
  cwinv w -> client_ok w (OpChannelAnons id flags port) -> wp (syncs_channel_anons id flags port) (fun _ => cwinv) w.
Proof.
  intros Hw Hok. cbn in Hok. unfold syncs_channel_anons. wp_step. apply wp_connect_get.
  destruct (syncs_find_free_channel (c_connect w)) as [c|] eqn:E; [|done].
  wp_step. apply (wp_deref _ c); [done|]. wp_step. apply wp_connect_field; [done| |].
  { intros s []. split; try done; [simpl; by rewrite length_insert|]. simpl.
    intros i x [(-> & <- & _)|[_ Hx]]%list_lookup_insert_Some; [|eauto]. simpl.
    split; [apply syncs_idstr_wf|]. split; simpl; [done|apply u16_range|apply u32_range]. }
  intros w1 Hw1. wp_step. eapply (wp_mono _ (fun _ => cwinv)); [|intros u w2 Hw2; by wp_step].
  destruct (_ >=? _); [|done]. wp_step. eapply wp_mono; [by apply safe_send_channel_anons|].
  intros r w2 Hw2. by wp_step.
Qed.

Context `{!ClockAdvances}.

(** ** Calls that wait *)

(** A call up to its wait leaves the lists alone. *)
Definition lists_kept (w w' : cworld) : Prop := cwinv w' /\ list_view w' = list_view w.

Lemma wp_connect_kept f w0 w (Q : unit -> cworld -> Prop) :
  lists_kept w0 w -> (forall s, connect_wf s -> connect_wf (f s)) -> (forall s, receiver_of (f s) = receiver_of s) ->
  (forall w', lists_kept w0 w' -> Q tt w') -> wp (connect_upd f) Q w.
Proof.
  intros [Hw Hl] Hf Hr HQ. apply wp_connect_upd, HQ. split; [by apply Hf|]. rewrite <- Hl. apply Hr.
Qed.

Lemma wp_send_kept buffer size w0 w (Q : Z -> cworld -> Prop) :
  lists_kept w0 w -> 0 <= size < 2 ^ 32 -> size <= zlen buffer -> (forall r w', lists_kept w0 w' -> Q r w') ->
  wp (syncs_connect_send buffer size) Q w.
Proof.
  intros [Hw Hl] Hs Hb HQ. pose proof (keeps_connect_send receiver_of buffer size) as Hk.
  eapply wp_mono; [apply (@wp_keeps _ _ _ _ _ Hk); by apply safe_connect_send|].
  intros r w' [Hw' Hl']. apply HQ. split; [done|]. exact (eq_trans Hl' Hl).
Qed.

Lemma wp_wait_kept wait wakeups w0 w (Q : Z -> cworld -> Prop) :
  lists_kept w0 w -> schedule_ok (list_view w0) wakeups -> (forall r w', cwinv w' -> Q r w') ->
  wp (syncs_wait_for wait wakeups) Q w.
Proof.
  intros [Hw Hl] Hs HQ. eapply wp_mono; [apply safe_wait_for; [done|by rewrite Hl]|].
  intros r w' (k & Hw' & _). by apply HQ.
Qed.

Lemma packet_request_size p : packet_full p -> sizeof_header <= zlen (packet_bytes p).
Proof. intros Hp. unfold packet_bytes, packet_full in *. clia. Qed.

Lemma safe_read flags cid data size wakeups w :
  cwinv w -> client_ok w (OpRead flags cid data size wakeups) ->
  wp (syncs_read flags cid data size wakeups) (fun _ => cwinv) w.
Proof.
  intros Hw [Hs Hsched]. unfold syncs_read. wp_step. apply run_stack_packet. intros p Hp _.
  wp_step. apply wp_connect_get. destruct (_ <? 0); [by wp_step|].
  wp_step. apply (wp_connect_kept _ w); [done|cwf_field|done|]. intros w1 Hw1.
  wp_step. apply (wp_connect_kept _ w); [done|cwf_field|done|]. intros w2 Hw2.
  wp_step. apply (wp_send_kept _ _ w); [done|clia|by apply packet_request_size|]. intros r w3 Hw3.
  wp_step. apply (wp_wait_kept _ _ w); [done..|]. intros ret w4 Hw4.
  destruct (negb _); [by wp_step|]. wp_step. apply wp_connect_get.
  pose proof (cwf_read _ Hw4). pose proof (cwf_read_size _ Hw4).
  wp_step. apply wp_memcpy; [| | | |by wp_step]; destruct (Z.gtb_spec size (cn_read_size (c_connect w4))); lia.
Qed.

Lemma safe_channel_request id ticket wakeups w :
  cwinv w -> schedule_ok (list_view w) wakeups -> wp (syncs_channel_request id ticket wakeups) (fun _ => cwinv) w.
Proof.
  intros Hw Hsched. unfold syncs_channel_request. wp_step. apply run_stack_packet. intros p Hp _.
  wp_step. apply wp_connect_get. destruct (_ <? 0); [by wp_step|].
  wp_step. apply (wp_connect_kept _ w); [done|cwf_field|done|]. intros w1 Hw1.
  wp_step. apply (wp_send_kept _ _ w); [done|clia|by apply packet_request_size|]. intros r w2 Hw2.
  wp_step. apply (wp_wait_kept _ _ w); [done..|]. intros ret w3 Hw3.
  destruct (negb _); [by wp_step|]. wp_step. apply wp_connect_get. by wp_step.
Qed.

Lemma safe_wait_event flags data size wakeups w :
  cwinv w -> client_ok w (OpWaitEvent flags data size wakeups) ->
  wp (syncs_wait_event flags data size wakeups) (fun _ => cwinv) w.
Proof.
  intros Hw (Hs & Hq & Hsched). unfold syncs_wait_event. wp_step. apply wp_connect_get. wp_step.
  apply (wp_mono _ (fun q w' => cwinv w' /\ queue_ok (c_connect w') /\
    forall e, q = Some e -> cn_events_queue (c_connect w') = Some e)).
  { destruct (cn_events_queue (c_connect w)) as [e|] eqn:E.
    { wp_step. split_and!; [done..|]. by intros ? [= <-]. }
    wp_step. eapply wp_mono; [by apply safe_wait_for|]. intros r w1 (k & Hw1 & _ & Hq1). cbn beta.
    destruct (negb _); [wp_step; split_and!; auto; done|]. wp_step. apply wp_connect_get. wp_step.
    split_and!; auto. }
  intros q w1 (Hw1 & Hq1 & Hqe). destruct q as [e|]; [|by wp_step].
  destruct (queue_ok_event _ e Hq1 (Hqe e eq_refl)) as (ev & m & Hev & Hm).
  pose proof (cwf_event _ Hw1 _ _ Hev) as Hwf. pose proof (cewf_data ev Hwf m Hm). pose proof (cewf_size ev Hwf).
  wp_step. unfold cevent_at. wp_step. apply wp_connect_get. apply (wp_deref _ ev); [done|]. cbn zeta.
  wp_step. apply (wp_deref _ m); [done|].
  wp_step. apply wp_memcpy; [destruct (Z.gtb_spec size (ce_data_size ev)); lia..|].
  wp_step. apply wp_connect_field; [done|cwf_field|]. intros w2 Hw2.
  wp_step. apply wp_connect_field; [done|cwf_field|]. intros w3 Hw3. by wp_step.
Qed.

(** *** Lists *)

(** What a request needs to know of the list it is for. *)
Record list_request (get : syncs_connect -> list_state)
    (put : (list_state -> list_state) -> syncs_connect -> syncs_connect) : Prop := {
  lr_put_put f g s : put f (put g s) = put (fun l => f (g l)) s;
  lr_receiver f g s : counters_of (f (get s)) = counters_of (g (get s)) -> receiver_of (put f s) = receiver_of (put g s) }.

Ltac list_request := split; [done|intros f g s Hc; unfold receiver_of; simpl in *; by rewrite Hc].

Lemma eventlist_request : list_request cn_eventlist put_eventlist.
Proof. list_request. Qed.
Lemma clientlist_request : list_request cn_clientlist put_clientlist.
Proof. list_request. Qed.
Lemma channellist_request : list_request cn_channellist put_channellist.
Proof. list_request. Qed.

Section request.
Context {get : syncs_connect -> list_state}.
Context {put : (list_state -> list_state) -> syncs_connect -> syncs_connect} {slots : nat} {size : Z}.
Context (La : list_access get put slots size) (Lr : list_request get put).

Lemma wp_put_info info w (Q : unit -> cworld -> Prop) :
  cwinv w -> zlen info = Z.of_nat slots * size ->
  (forall w', cwinv w' -> li_info (get (c_connect w')) = Some info -> restarted put (c_connect w') = restarted put (c_connect w) ->
    Q tt w') ->
  wp (connect_upd (put (fun l => l <| li_info := Some info |>))) Q w.
Proof.
  intros Hw Hi HQ. apply wp_connect_upd, HQ; cbn [c_connect].
  - apply (la_put _ _ _ _ La); [done|]. by intros i [= <-].
  - by rewrite (la_get _ _ _ _ La).
  - unfold restarted. by rewrite (lr_put_put _ _ Lr).
Qed.

Lemma safe_put_list f w (Q : unit -> cworld -> Prop) :
  cwinv w -> (forall l, li_info (f l) = li_info l) ->
  (forall w', cwinv w' -> c_connect w' = put f (c_connect w) -> Q tt w') -> wp (connect_upd (put f)) Q w.
Proof.
  intros Hw Hf HQ. apply wp_connect_upd, HQ; [|done]. apply (la_put _ _ _ _ La); [done|].
  intros i Hi. rewrite Hf in Hi. by apply (la_wf _ _ _ _ La _ Hw).
Qed.

Lemma safe_request_list type wait wait_of count wakeups w :
  (forall wakeups, wait wakeups = syncs_wait_for wait_of wakeups) -> 0 <= Z.of_nat slots * size ->
  cwinv w -> schedule_ok (restarted put (c_connect w)) wakeups ->
  wp (request_list get put type (Z.of_nat slots) size wait count wakeups)
    (fun r w' => cwinv w' /\ forall info, r.1 = Some info -> li_info (get (c_connect w')) = Some info /\
      exists k, list_view w' = receiver_after (restarted put (c_connect w)) (take k (wakeups ≫= wk_packets))) w.
Proof.
  intros Hwait Hsize Hw Hsched. unfold request_list, stack_header. wp_step. wp_step.
  apply run_stack_packet. intros p Hp _. wp_step. wp_step. apply wp_connect_get. wp_step.
  apply (wp_mono _ (fun r w1 => cwinv w1 /\ ((r : bool) = true -> li_info (get (c_connect w1)) <> None /\
    restarted put (c_connect w1) = restarted put (c_connect w)))).
  { destruct (li_info (get (c_connect w))) as [info|] eqn:E; [wp_step; split_and!; [done|by rewrite E]|].
    wp_step. wp_step. wp_step. unfold emit. wp_step. destruct (env_alloc _ _); [|by wp_step].
    wp_step. apply wp_put_info; [done|unfold zero_bytes; rewrite zlen_replicate; lia|].
    intros w1 Hw1 Hi Hr. wp_step. split; [done|]. intros _. by rewrite Hi. }
  intros r w1 [Hw1 Hr]. destruct r; cbn [negb]; [|by wp_step]. destruct (Hr eq_refl) as [Hi Hr1]. clear Hr.
  wp_step. apply wp_connect_get. destruct (_ <? 0); [by wp_step|].
  wp_step. apply safe_put_list; [done..|]. intros w2 Hw2 E2. wp_step. apply wp_connect_get. cbn zeta.
  wp_step. apply safe_put_list; [done..|]. intros w3 Hw3 E3.
  wp_step. apply safe_put_list; [done..|]. intros w4 Hw4 E4.
  wp_step. apply safe_put_list; [done..|]. intros w5 Hw5 E5.
  assert (list_view w5 = restarted put (c_connect w)) as H5.
  { rewrite <- Hr1. unfold list_view, restarted. rewrite E5, E4, E3, E2, !(lr_put_put _ _ Lr).
    apply (lr_receiver _ _ Lr). unfold counters_of. cbn. by rewrite bool_decide_true. }
  wp_step. apply (wp_send_kept _ _ w5); [done|clia|rewrite zlen_encode_header; clia|]. intros r6 w6 [Hw6 H6].
  wp_step. rewrite Hwait. eapply wp_mono; [apply safe_wait_for; [done|by rewrite H6, H5]|].
  intros ret w7 (k & Hw7 & Hl & _). cbn beta. destruct (negb _); [by wp_step|]. wp_step. apply wp_connect_get.
  wp_step. split; [done|]. intros info Hinfo. split; [done|]. exists k. by rewrite Hl, H6, H5.
Qed.

Lemma safe_free_list w : cwinv w -> wp (free_list get put) (fun _ => cwinv) w.
Proof.
  intros Hw. unfold free_list. wp_step. apply wp_connect_get. destruct (li_info _); [|by wp_step].
  wp_step. unfold emit. wp_step. apply wp_connect_field; [done| |done].
  intros s Hs. apply (la_put _ _ _ _ La); [done|]. by intros i.
Qed.
End request.

Lemma safe_request_clients count wakeups w :
  cwinv w -> client_ok w (OpRequestClients count wakeups) ->
  wp (syncs_request_clientslist count wakeups) (fun _ => cwinv) w.
Proof.
  intros Hw Hok. eapply wp_mono; [apply (safe_request_list clientlist_access clientlist_request _ _
    (fun s => li_wait (cn_clientlist s))); [done|clia|done|exact Hok]|].
  by intros r w' [].
Qed.

Lemma safe_request_events count wakeups w :
  cwinv w -> client_ok w (OpRequestEvents count wakeups) ->
  wp (syncs_request_eventslist count wakeups) (fun _ => cwinv) w.
Proof.
  intros Hw Hok. eapply wp_mono; [apply (safe_request_list eventlist_access eventlist_request _ _
    (fun s => li_wait (cn_eventlist s))); [done|clia|done|exact Hok]|].
  by intros r w' [].
Qed.

(** The walk over the received channels stays inside the array. *)
Lemma safe_request_channels count wakeups w :
  cwinv w -> client_ok w (OpRequestChannels count wakeups) ->
  wp (syncs_request_channelslist count wakeups) (fun _ => cwinv) w.
Proof.
  intros Hw Hok. unfold syncs_request_channelslist. wp_step. eapply wp_mono.
  { apply (safe_request_list channellist_access channellist_request _ _ (fun s => li_wait (cn_channellist s))); [done|clia|done|exact Hok]. }
  intros [[info|] n] w1 [Hw1 Hinfo]; cbn beta match; [|by wp_step].
  destruct (Hinfo info eq_refl) as (Hi & k & Hl). destruct Hok as [Hfit _].
  assert (channels_in_range (list_view w1)) as Hr by (rewrite Hl; by apply channels_in_range_after).
  wp_step. apply wp_connect_get. wp_step.
  pose proof (cwf_channellist _ Hw1 info Hi) as Hlen.
  eapply wp_mono; [apply (wp_fold_m (fun b w' => w' = w1 /\ zlen b = zlen info)); [done|]|].
  - intros b i w2 Hin [-> Hb]. apply elem_of_seq in Hin.
    unfold channels_in_range, list_view, receiver_of, counters_of in Hr. cbn in Hr.
    unfold SYNCS_CHANNEL_MAXIMUM, sizeof_channel_info in *. unfold channels_fix_ip, sizeof_channel_info. cbn zeta.
    rewrite Z.gtb_ltb, (proj2 (Z.ltb_ge _ _)) by lia. destruct (_ && _); [|by wp_step].
    assert (zlen (le_split 4 (env_inet_addr (cn_addr (c_connect w1)))) = 4) as H4 by apply zlen_le_split.
    apply wp_memcpy; [lia..|]. split; [done|]. by rewrite zlen_mem_put by (rewrite ?zlen_ztake; lia).
  - intros b w2 [-> Hb]. wp_step. apply wp_connect_field; [done| |intros w3 Hw3; by wp_step].
    intros s Hs. apply (la_put _ _ _ _ channellist_access); [done|]. intros i [= <-]. by rewrite Hb, Hlen.
Qed.

Lemma safe_event_data_release w : cwinv w -> wp syncs_event_data_release (fun _ => cwinv) w.
Proof.
  intros Hw. unfold syncs_event_data_release. wp_step.
  eapply wp_mono; [apply (wp_for_each cwinv); [done|]|intros u w1 Hw1; by wp_step].
  intros i w1 [_ Hi]%elem_of_seq Hw1. wp_step. apply wp_cevent_at; [done|lia|]. intros ev _ _.
  destruct (ce_data ev); [|by wp_step]. wp_step. unfold emit. wp_step.
  apply wp_cevent_upd; [done|lia|by intros ? []; split|done].
Qed.

Lemma safe_disconnect rest w :
  cwinv w -> packets_fit (list_view w) rest -> wp (syncs_disconnect rest) (fun _ => cwinv) w.
Proof.
  intros Hw Hfit. unfold syncs_disconnect, syncs_free_clientslist, syncs_free_eventslist, syncs_free_channelslist.
  wp_step. apply (wp_connect_kept _ w); [done|cwf_field|done|]. intros w1 [Hw1 H1].
  wp_step. apply wp_connect_get. wp_step. apply (wp_mono _ (fun _ => lists_kept w)).
  { destruct (_ =? 1); [unfold emit; by wp_step|by wp_step]. }
  intros u w2 [Hw2 H2]. do 2 (wp_step; unfold emit at 1; wp_step).
  wp_step. eapply wp_mono; [apply safe_receive_packets; [done|]|].
  { by change (packets_fit (list_view w2) rest); rewrite H2. }
  intros u3 w3 [Hw3 _]. wp_step. eapply wp_mono; [by apply (safe_free_list clientlist_access)|]. intros u4 w4 Hw4.
  wp_step. eapply wp_mono; [by apply (safe_free_list eventlist_access)|]. intros u5 w5 Hw5.
  wp_step. eapply wp_mono; [by apply (safe_free_list channellist_access)|]. intros u6 w6 Hw6.
  wp_step. eapply wp_mono; [by apply safe_event_data_release|]. intros r w7 Hw7. unfold emit. by wp_step.
Qed.

(** ** The threads *)

Lemma safe_recv_start w : cwinv w -> wp recv_start (fun _ => cwinv) w.
Proof.
  intros Hw. unfold recv_start. wp_step. eapply wp_mono; [by apply safe_send_id|]. intros u w1 Hw1.
  wp_step. apply wp_connect_get. wp_step. apply (wp_mono _ (fun _ => cwinv)).
  { destruct (_ && _); [|by wp_step]. wp_step. apply wp_connect_field; [done|cwf_field|].
    intros w2 Hw2. unfold emit. by wp_step. }
  intros u2 w2 Hw2. wp_step. apply wp_connect_field; [done|cwf_field|]. intros w3 Hw3.
  by apply wp_connect_field; [|cwf_field|].
Qed.

Lemma safe_udprecv_start w : cwinv w -> wp udprecv_start (fun _ => cwinv) w.
Proof.
  intros Hw. unfold udprecv_start. wp_step. eapply wp_mono; [by apply safe_send_id|]. intros u w1 Hw1.
  wp_step. apply wp_connect_field; [done|cwf_field|]. intros w3 Hw3.
  by apply wp_connect_field; [|cwf_field|].
Qed.

Lemma safe_connect_cb w : cwinv w -> wp syncs_connect_cb_thread (fun _ => cwinv) w.
Proof.
  intros Hw. unfold syncs_connect_cb_thread. wp_step. apply wp_connect_get. wp_step. unfold emit. wp_step.
  by apply wp_connect_field; [|cwf_field|].
Qed.

(** ** The transition system *)

(** A call whose result is dropped. *)
Lemma wp_dropped {A} (m : CM A) w : wp m (fun _ => cwinv) w -> wp (_ ← m; mret tt) (fun _ => cwinv) w.
Proof. intros Hm. wp_step. eapply wp_mono; [exact Hm|]. intros a w' Hw'. by wp_step. Qed.

Lemma safe_client_run op w :
  cwinv w -> client_ok w op -> wp (client_run op) (fun _ => cwinv) w.
Proof.
  intros Hw Hok. destruct op; cbn [client_run]; try apply wp_dropped.
  - by apply wp_connect_field; [|cwf_field|].
  - wp_step. apply wp_connect_field; [done|cwf_field|]. intros w1 Hw1. by apply wp_connect_field; [|cwf_field|].
  - by apply safe_recv_start.
  - by apply safe_udprecv_start.
  - by apply safe_connect_cb.
  - destruct Hok as (Hd & Hfit & _). eapply wp_mono; [by apply safe_receive_packet|]. by intros u w' [].
  - by apply wp_connect_field; [|cwf_field|].
  - by apply safe_send_id.
  - by apply (wp_wait_kept _ _ w).
  - by apply safe_write.
  - by apply safe_define.
  - by apply safe_undefine.
  - by apply safe_subscribe.
  - by apply safe_subscribe_sync.
  - by apply safe_subscribe_user.
  - by apply safe_unsubscribe.
  - by apply safe_read.
  - by apply safe_wait_event.
  - by apply safe_request_clients.
  - by apply safe_request_events.
  - by apply safe_request_channels.
  - by apply (safe_free_list clientlist_access).
  - by apply (safe_free_list eventlist_access).
  - by apply (safe_free_list channellist_access).
  - by apply safe_anons.
  - by apply safe_channel_request.
  - by apply safe_disconnect.
Qed.

Lemma connect_new_wf size addr port id cb arg s : syncs_connect_new size addr port id cb arg = Some s -> connect_wf s.
Proof.
  unfold syncs_connect_new. destruct (env_alloc _ _); [|done]. cbn [negb]. intros [= <-].
  destruct (connect_object_wf addr port id). by split.
Qed.

Lemma udpconnect_wf size addr port id s : syncs_udpconnect size addr port id = Some s -> connect_wf s.
Proof.
  unfold syncs_udpconnect. destruct (env_alloc _ _); [|done]. cbn [negb]. intros [= <-]. apply connect_object_wf.
Qed.

Lemma client_reachable_wf w : client_reachable w -> cwinv w.
Proof.
  induction 1 as [size addr port id cb arg s Hs|size addr port id s Hs|w op w' _ IH Hok _ Hrun].
  - by eapply connect_new_wf.
  - by eapply udpconnect_wf.
  - exact (wp_at _ _ _ _ _ (safe_client_run op w IH Hok) Hrun).
Qed.

End api.

