(* ===== verification/ClientStream.v ===== *)
(** * Client: a stream of events

    The receiver thread over the successive chunks of a connection: however
    the stream is cut, each event in the chunks of at least a header runs the
    callback of its subscription on its payload, in order; the bytes of
    shorter chunks are lost. *)

From S2P Require Import Prelude.
From S2P Require Import Monad.
From S2P Require Import Types.
From S2P Require Import Net.
From S2P Require Import Framing.
From S2P Require Import Wire.
From S2P Require Import ClientState.
From S2P Require Import ClientOps.
From S2P Require Import ClientCalls.
From S2P Require Import ClientWait.
From S2P Require Import ClientInv.
From S2P Require Import ClientSafe.

(** ** What an event runs *)

(** The part of the subscription table events do not change. *)
Definition subscription (ev : syncs_client_event) : syncsid_t * Z * Z := (ce_id ev, ce_cb ev, ce_args ev).
Definition subscriptions (s : syncs_connect) : list (syncsid_t * Z * Z) := subscription <$> cn_events s.

(** The callback of the first subscription to the event's identifier. *)
Definition callbacks (subs : list (syncsid_t * Z * Z)) (f : frame) : list io :=
  match scan (fun x => syncs_idcmp x.1.1 (hd_id f.1)) subs with
  | Some e =>
      match subs !! e with
      | Some (id, cb, args) => if cb =? NULL then [] else [IoCallback cb args id f.2]
      | None => []
      end
  | None => []
  end.

(** An event packet without a moment to wait for. *)
Definition is_event (f : frame) : Prop :=
  Z.land (hd_type f.1) SYNCS_TYPE_MSG_MASK = SYNCS_TYPE_EVENT /\ flag (hd_type f.1) SYNCS_TYPE_SYNC = false.

Lemma callbacks_find s h v :
  callbacks (subscriptions s) (h, v) =
  match syncs_find_event s (hd_id h) with
  | Some e =>
      match cn_events s !! e with
      | Some ev => if ce_cb ev =? NULL then [] else [IoCallback (ce_cb ev) (ce_args ev) (ce_id ev) v]
      | None => []
      end
  | None => []
  end.
Proof.
  unfold callbacks, subscriptions, syncs_find_event. rewrite scan_fmap. simpl.
  destruct (scan _ _) as [e|]; [|done]. rewrite list_lookup_fmap. by destruct (cn_events s !! e).
Qed.

(** What events leave alone. *)
Definition quiet_view (s : syncs_connect) : list (syncsid_t * Z * Z) * Z * list byte :=
  (subscriptions s, cn_onexit s, cn_buffer s).

Section stream.
Context `{Env}.

Lemma wlp_connect_quiet f w (Q : unit -> cworld -> Prop) :
  (forall s, quiet_view (f s) = quiet_view s) ->
  (forall w', quiet_view (c_connect w') = quiet_view (c_connect w) -> c_log w' = c_log w -> Q tt w') ->
  wlp (connect_upd f) Q w.
Proof. intros Hf HQ. unfold connect_upd. apply wlp_modify. apply HQ; [apply Hf|done]. Qed.

Lemma wlp_cevent_quiet e f w (Q : unit -> cworld -> Prop) :
  (forall ev, subscription (f ev) = subscription ev) ->
  (forall w', quiet_view (c_connect w') = quiet_view (c_connect w) -> c_log w' = c_log w -> Q tt w') ->
  wlp (cevent_upd e f) Q w.
Proof.
  intros Hf HQ. unfold cevent_upd, cevent_at. wlp_step. wlp_step. unfold connect_get. wlp_step.
  apply wlp_deref. intros ev Hev. unfold connect_upd. apply wlp_modify. apply HQ; [|done].
  unfold quiet_view, subscriptions. simpl. do 2 f_equal. rewrite list_fmap_insert, Hf.
  apply list_insert_id. by rewrite list_lookup_fmap, Hev.
Qed.

Ltac quiet := first [by intros []|by intros []; simpl].

Lemma run_process_event h data w :
  wlp (syncs_process_event h data) (fun _ w' =>
    quiet_view (c_connect w') = quiet_view (c_connect w) /\
    c_log w' = c_log w ++ callbacks (subscriptions (c_connect w)) (h, ztake (hd_data_size h) data)) w.
Proof.
  unfold syncs_process_event. wlp_step. unfold connect_get at 1. wlp_step. rewrite callbacks_find.
  destruct (syncs_find_event _ _) as [e|]; [|wlp_step; by rewrite app_nil_r].
  wlp_step. unfold cevent_at. wlp_step. unfold connect_get at 1. wlp_step. apply wlp_deref. intros ev ->.
  wlp_step. eapply (wlp_mono _ (fun _ w' => c_connect w' = c_connect w /\ c_log w' = c_log w ++
    (if ce_cb ev =? NULL then [] else [IoCallback (ce_cb ev) (ce_args ev) (ce_id ev) (ztake (hd_data_size h) data)]))).
  { destruct (ce_cb ev =? NULL); [wlp_step; by rewrite app_nil_r|]. by unfold emit; wlp_step. }
  intros u w1 [Hc Hlog]. rewrite <- Hlog, <- Hc. clear Hc Hlog.
  wlp_step. eapply (wlp_mono _ (fun _ w' => quiet_view (c_connect w') = quiet_view (c_connect w1) /\
    c_log w' = c_log w1)).
  - destruct (ce_data ev) as [m|]; [|by wlp_step]. wlp_step. apply wlp_memcpy. intros _ _ _.
    wlp_step. apply wlp_cevent_quiet; [quiet|]. intros w2 Hv2 Hl2.
    wlp_step. apply wlp_cevent_quiet; [quiet|]. intros w3 Hv3 Hl3.
    wlp_step. apply wlp_connect_quiet; [quiet|]. intros w4 Hv4 Hl4.
    apply wlp_connect_quiet; [quiet|]. intros w5 Hv5 Hl5. split; congruence.
  - intros u2 w2 [Hv Hl]. apply wlp_cevent_quiet; [quiet|]. intros w3 Hv3 Hl3. split; congruence.
Qed.

(** The receiver on an event packet with the payload in memory. *)
Lemma run_event_packet h data w :
  cwinv w -> is_event (h, ztake (hd_data_size h) data) -> header_wf h ->
  hd_data_size h <= SYNCS_VARIABLE_SIZE_MAXIMUM -> hd_data_size h <= zlen data ->
  wp (syncs_process_packet h data) (fun _ w' => cwinv w' /\
    quiet_view (c_connect w') = quiet_view (c_connect w) /\
    c_log w' = c_log w ++ callbacks (subscriptions (c_connect w)) (h, ztake (hd_data_size h) data)) w.
Proof.
  intros Hw [Hmsg Hsync] Hwf Hmax Hlen. cbn [fst] in *.
  assert (syncs_process_packet h data = (_ ← mret tt; syncs_process_event h data)) as ->.
  { unfold syncs_process_packet. cbn zeta. by rewrite Hmsg, Hsync. }
  wp_step. wp_step. apply wp_wlp; [by apply safe_process_event|apply run_process_event].
Qed.

Lemma run_deliver_events ds w :
  cwinv w ->
  Forall (fun d => is_event (delivered_frame d) /\ header_wf d.1 /\
    hd_data_size d.1 <= SYNCS_VARIABLE_SIZE_MAXIMUM /\ hd_data_size d.1 <= zlen d.2) ds ->
  wp (for_each ds (deliver syncs_process_packet)) (fun _ w' => cwinv w' /\
    quiet_view (c_connect w') = quiet_view (c_connect w) /\
    c_log w' = c_log w ++ ((delivered_frame <$> ds) ≫= callbacks (subscriptions (c_connect w)))) w.
Proof.
  intros Hw Hds. revert w Hw. induction Hds as [|[h data] ds (Hev & Hwf & Hmax & Hlen) _ IH];
    intros w Hw; cbn [for_each].
  { wp_step. split_and!; [done..|]. simpl. by rewrite app_nil_r. }
  simpl in *. wp_step. unfold deliver at 1. cbn [fst snd].
  eapply wp_mono; [by apply run_event_packet|].
  intros u w1 (Hw1 & Hv1 & Hl1). cbn beta. eapply wp_mono; [by apply IH|].
  intros u2 w2 (Hw2 & Hv2 & Hl2). split_and!; [done|congruence|].
  rewrite Hl2, Hl1, <- app_assoc. do 2 f_equal.
  assert (subscriptions (c_connect w1) = subscriptions (c_connect w)) as ->; [|done].
  exact (f_equal (fun x => x.1.1) Hv1).
Qed.

(** The receiver of datagrams on one event. *)
Lemma run_event_datagram k f w :
  cwinv w -> frame_wf f -> is_event f ->
  wp (udprecv_round k (SelectRecv (RecvData (encode_frame f)))) (fun r w' => r = Some k /\ cwinv w' /\
    subscriptions (c_connect w') = subscriptions (c_connect w) /\
    cn_onexit (c_connect w') = cn_onexit (c_connect w) /\
    c_log w' = c_log w ++ callbacks (subscriptions (c_connect w)) f) w.
Proof.
  intros Hw Hf Hev. pose proof Hf as (Hwf & Hgood & Hsz & Hmax). pose proof (zlen_encode_frame f) as Hz.
  pose proof (zlen_nonneg f.2). pose proof (cwf_buffer _ Hw) as Hb.
  unfold header_good in Hgood. apply andb_true_iff in Hgood as [Hm1 Hm2].
  unfold udprecv_round. wp_step. apply wp_connect_get. wp_step. apply wp_memcpy; [clia..|].
  rewrite ztake_ge by lia. wp_step. apply wp_connect_upd.
  destruct (datagram_memory f (cn_buffer (c_connect w)) Hf Hb) as (Hzb & Hdec & Hmdec & Hzm & Hdrop).
  set (b := mem_put 0 (encode_frame f) _) in *. rewrite (proj2 (Z.ltb_ge _ _)) by clia.
  rewrite !decode_header_sub, !zdrop_0 by clia. rewrite Hdec, Hm1, Hm2. cbn [negb].
  wp_step. apply wp_connect_upd. rewrite Hmdec, Hdrop. wp_step. set (w1 := mk_cworld _ _).
  assert (ztake (hd_data_size f.1) (f.2 ++ zdrop (zlen (encode_frame f)) (cn_buffer (c_connect w))) = f.2) as Hp
    by (rewrite ztake_app_le, ztake_ge by lia; done).
  eapply wp_mono; [apply (run_event_packet f.1 _ w1)|].
  - destruct Hw. by split.
  - rewrite Hp. by destruct f.
  - exact Hwf.
  - lia.
  - rewrite zlen_app. pose proof (zlen_nonneg (zdrop (zlen (encode_frame f)) (cn_buffer (c_connect w)))). lia.
  - intros u w2 (Hw2 & Hv2 & Hl2). wp_step. rewrite Hp in Hl2. split_and!; [done|done| | |].
    + exact (f_equal (fun x => x.1.1) Hv2).
    + exact (f_equal (fun x => x.1.2) Hv2).
    + rewrite Hl2. by destruct f.
Qed.

(** ** One chunk *)

(** A chunk the kernel can put into the receive buffer. *)
Definition client_chunk_fits (bs : list byte) : Prop :=
  sizeof_header <= zlen bs /\
  sizeof_header + SYNCS_VARIABLE_SIZE_MAXIMUM + zlen bs <= SYNCS_CLIENT_BUFFER_SIZE.

Lemma recv_round_parse n0 bs w :
  cwinv w -> 0 <= n0 -> 60 <= zlen bs -> n0 + zlen bs <= SYNCS_CLIENT_BUFFER_SIZE ->
  let stream := ztake n0 (cn_buffer (c_connect w)) ++ bs in
  exists ds buffer n,
    recv_round n0 (SelectRecv (RecvData bs)) w =
      (_ ← connect_upd (fun s => s <| cn_buffer := mem_put n0 bs (cn_buffer (c_connect w)) |>);
       _ ← for_each ds (deliver syncs_process_packet);
       _ ← connect_upd (fun s => s <| cn_buffer := buffer |>);
       mret (Some n)) w /\
    delivered_frame <$> ds = (parse stream).1 /\ ztake n buffer = (parse stream).2 /\
    zlen buffer = SYNCS_CLIENT_BUFFER_SIZE /\ 0 <= n /\
    Forall (fun d => 0 <= hd_data_size d.1 <= SYNCS_VARIABLE_SIZE_MAXIMUM /\ hd_data_size d.1 <= zlen d.2) ds.
Proof.
  intros Hw Hn Hbs Hfit stream. pose proof (cwf_buffer _ Hw) as Hb. set (b0 := cn_buffer (c_connect w)) in *.
  destruct (receive_loop_parse syncs_process_packet (Z.to_nat (n0 + zlen bs) + 1) (mem_put n0 bs b0) 0 (n0 + zlen bs))
    as (ds & b & hd & Hl & Hfs & Hrest & Hhd & Hz & Hds); [lia|rewrite zlen_mem_put; lia|lia|].
  rewrite Z.sub_0_r, mem_sub_after_recv in Hfs, Hrest by lia. fold stream in Hfs, Hrest.
  rewrite zlen_mem_put, Hb in Hz, Hds by lia.
  pose proof (compact_spec b hd (n0 + zlen bs) Hhd ltac:(lia)) as Hc.
  destruct (compact b hd (n0 + zlen bs)) as [b' n'] eqn:Ec. destruct Hc as (Ht & Hz' & ->).
  exists ds, b', (n0 + zlen bs - hd). split_and!; [|done|congruence|congruence|lia|].
  - unfold recv_round. pose proof (zlen_nonneg bs).
    rewrite (bind_Ok connect_get _ w (c_connect w) w) by done. fold b0.
    unfold memcpy. rewrite !(proj2 (Z.leb_le _ _)) by lia. cbn [andb]. rewrite ztake_ge by lia.
    rewrite (bind_Ok (mret _) _ w (mem_put n0 bs b0) w) by done.
    apply bind_ext; [done|]. intros u w1. rewrite (proj2 (Z.ltb_ge (zlen bs) _)) by clia. cbn zeta.
    rewrite (bind_ext _ (_ ← for_each ds (deliver syncs_process_packet); mret (b, hd)) _ _ w1 (Hl w1)
      (fun _ _ => eq_refl)).
    rewrite bind_assoc. apply bind_ext; [done|]. intros u2 w2.
    rewrite (bind_Ok (mret _) _ w2 (b, hd) w2) by done. unfold compact in Ec.
    destruct (hd <? n0 + zlen bs) eqn:E; [by injection Ec as <-|]. injection Ec as <- E2. by rewrite <- E2.
  - eapply list.Forall_impl; [exact Hds|]. intros d [? ?]. split; [done|lia].
Qed.

Lemma run_events_round n0 bs w :
  cwinv w -> 0 <= n0 -> 60 <= zlen bs -> n0 + zlen bs <= SYNCS_CLIENT_BUFFER_SIZE ->
  let stream := ztake n0 (cn_buffer (c_connect w)) ++ bs in
  Forall is_event (parse stream).1 ->
  wp (recv_round n0 (SelectRecv (RecvData bs))) (fun r w' => cwinv w' /\
    subscriptions (c_connect w') = subscriptions (c_connect w) /\
    cn_onexit (c_connect w') = cn_onexit (c_connect w) /\
    c_log w' = c_log w ++ ((parse stream).1 ≫= callbacks (subscriptions (c_connect w))) /\
    exists n, r = Some n /\ 0 <= n /\ ztake n (cn_buffer (c_connect w')) = (parse stream).2) w.
Proof.
  intros Hw Hn Hbs Hfit stream Hev.
  destruct (recv_round_parse n0 bs w Hw Hn Hbs Hfit) as (ds & b & n & Hrun & Hfs & Hrest & Hzb & Hn0 & Hds).
  fold stream in Hfs, Hrest. eapply wp_eq; [exact Hrun|]. clear Hrun.
  wp_step. apply wp_connect_upd. set (w1 := mk_cworld _ _). pose proof (cwf_buffer _ Hw) as Hb.
  assert (cwinv w1) as Hw1.
  { destruct Hw. split; try done. simpl. rewrite zlen_mem_put; lia. }
  wp_step. eapply wp_mono; [apply (run_deliver_events ds w1 Hw1)|].
  { pose proof (parse_header_wf stream) as Hwf. rewrite <- Hfs in Hev, Hwf.
    apply Forall_fmap in Hev. apply Forall_fmap in Hwf.
    clear -Hev Hwf Hds. induction Hds as [|d ds [Hd1 Hd2] _ IH]; inversion Hev; inversion Hwf; subst; constructor; [|by apply IH].
    split_and!; try done. lia. }
  intros u w2 (Hw2 & Hv2 & Hl2). wp_step. apply wp_connect_upd. wp_step.
  rewrite <- Hfs. split_and!.
  - destruct Hw2. by split.
  - exact (f_equal (fun x => x.1.1) Hv2).
  - exact (f_equal (fun x => x.1.2) Hv2).
  - exact Hl2.
  - by exists n.
Qed.

(** ** A connection *)

(** A chunk below a header: its bytes are lost. *)
Lemma recv_round_ignores n0 bs w :
  cwinv w -> 0 <= n0 -> 1 <= zlen bs < 60 -> n0 + zlen bs <= SYNCS_CLIENT_BUFFER_SIZE ->
  wp (recv_round n0 (SelectRecv (RecvData bs))) (fun r w' => r = Some n0 /\ cwinv w' /\
    subscriptions (c_connect w') = subscriptions (c_connect w) /\
    cn_onexit (c_connect w') = cn_onexit (c_connect w) /\ c_log w' = c_log w /\
    ztake n0 (cn_buffer (c_connect w')) = ztake n0 (cn_buffer (c_connect w))) w.
Proof.
  intros Hw Hn Hbs Hfit. pose proof (cwf_buffer _ Hw) as Hb. unfold recv_round.
  wp_step. apply wp_connect_get. wp_step. apply wp_memcpy; [clia..|]. rewrite ztake_ge by lia.
  wp_step. apply wp_connect_upd. rewrite (proj2 (Z.ltb_lt _ _)), (proj2 (Z.eqb_neq _ _)) by clia. wp_step.
  split; [done|]. split; [|split; [done|split; [done|split; [done|]]]].
  - destruct Hw. split; try done. simpl. rewrite zlen_mem_put; clia.
  - simpl. unfold mem_put. rewrite ztake_app_le by zl. by rewrite ztake_ztake, Z.min_id.
Qed.

Lemma recv_rounds_all chunks n0 w :
  cwinv w -> cn_onexit (c_connect w) = 0 -> 0 <= n0 ->
  let kept := ztake n0 (cn_buffer (c_connect w)) in
  zlen kept = n0 -> parse kept = ([], kept) -> deliverable (fun _ _ => True) kept chunks ->
  Forall is_event (parse (kept ++ concat (counted chunks))).1 ->
  exists n w', recv_rounds recv_round n0 ((fun bs => SelectRecv (RecvData bs)) <$> chunks) w = Ok (Some n, w') /\
    cwinv w' /\ subscriptions (c_connect w') = subscriptions (c_connect w) /\
    c_log w' = c_log w ++ ((parse (kept ++ concat (counted chunks))).1 ≫= callbacks (subscriptions (c_connect w))) /\
    ztake n (cn_buffer (c_connect w')) = (parse (kept ++ concat (counted chunks))).2.
Proof.
  revert n0 w. induction chunks as [|bs chunks IH]; intros n0 w Hw Hx Hn0 kept Hk Hp Hdel Hev.
  { exists n0, w. cbn [concat counted filter list_filter] in *. rewrite app_nil_r, Hp in *.
    split_and!; [|done|done|by rewrite app_nil_r|done].
    cbn [fmap list_fmap recv_rounds]. rewrite (bind_Ok connect_get _ w (c_connect w) w) by done. by rewrite Hx. }
  cbn [deliverable] in Hdel. destruct Hdel as (Hlen & Hroom & Hrest). rewrite Hk in Hroom.
  cbn [fmap list_fmap recv_rounds]. rewrite (bind_Ok connect_get _ w (c_connect w) w) by done. rewrite Hx. cbn [negb Z.eqb].
  unfold counted in *. rewrite filter_cons in Hev |- *.
  destruct (Z.ltb_spec (zlen bs) sizeof_header) as [Hs|Hs]; destruct (decide (sizeof_header <= zlen bs)); try lia.
  - pose proof (recv_round_ignores n0 bs w Hw Hn0 ltac:(clia) Hroom) as Hr.
    apply wp_run in Hr as (r & w1 & E1 & -> & Hw1 & Hsub1 & Hx1 & Hl1 & Hk1). rewrite (bind_Ok _ _ _ _ _ E1).
    fold kept in Hk1. rewrite <- Hk1 in Hk, Hp, Hrest, Hev |- *. rewrite <- Hsub1, <- Hl1. apply IH; try done. congruence.
  - destruct Hrest as [_ Hnext]. cbn [concat] in *. rewrite app_assoc, parse_app in Hev |- *. cbn [fst snd] in *.
    apply Forall_app in Hev as [Hev1 Hev2].
    pose proof (run_events_round n0 bs w Hw Hn0 Hs Hroom Hev1) as Hr. fold kept in Hr.
    apply wp_run in Hr as (r & w1 & E1 & Hw1 & Hsub1 & Hx1 & Hl1 & n1 & -> & Hn1 & Hk1).
    rewrite <- Hk1 in Hev2, Hnext |- *. rewrite <- Hsub1, (bind_Ok _ _ _ _ _ E1).
    destruct (IH n1 w1) as (n & w2 & E2 & Hw2 & Hsub2 & Hl2 & Hk2); [done|congruence|done| | |done|done|].
    { pose proof (parse_rest_short (kept ++ bs)) as Hz. rewrite <- Hk1 in Hz.
      pose proof (cwf_buffer _ Hw1). rewrite zlen_ztake in Hz |- *. clia. }
    { rewrite Hk1. apply parse_rest. }
    exists n, w2. split_and!; [done|done|by rewrite Hsub2|by rewrite Hl2, Hl1, Hsub1, bind_app, app_assoc|done].
Qed.

(** Chunks of at least a header that fit beside the longest unfinished packet
    all count and are deliverable. *)
Lemma client_chunks_deliverable kept chunks :
  Forall client_chunk_fits chunks -> parse kept = ([], kept) ->
  deliverable (fun _ _ => True) kept chunks /\ counted chunks = chunks.
Proof.
  intros Hchunks. revert kept. induction Hchunks as [|bs chunks [Hlen Hfit] _ IH]; intros kept Hp; [done|].
  pose proof (parse_rest_short kept) as Hs. rewrite Hp in Hs. cbn [snd] in Hs.
  destruct (IH (parse (kept ++ bs)).2 (parse_rest _)) as [Hdel Hall].
  unfold counted in *. rewrite filter_cons, Hall. case_decide as Hd; [|lia]. split; [|done].
  cbn [deliverable]. rewrite (proj2 (Z.ltb_ge _ _)) by lia. split; [clia|]. split; [clia|done].
Qed.

Lemma recv_rounds_events chunks n0 w :
  Forall client_chunk_fits chunks -> cwinv w -> cn_onexit (c_connect w) = 0 -> 0 <= n0 ->
  let kept := ztake n0 (cn_buffer (c_connect w)) in
  zlen kept = n0 -> parse kept = ([], kept) ->
  Forall is_event (parse (kept ++ concat chunks)).1 ->
  exists n w', recv_rounds recv_round n0 ((fun bs => SelectRecv (RecvData bs)) <$> chunks) w = Ok (Some n, w') /\
    cwinv w' /\ subscriptions (c_connect w') = subscriptions (c_connect w) /\
    c_log w' = c_log w ++ ((parse (kept ++ concat chunks)).1 ≫= callbacks (subscriptions (c_connect w))) /\
    ztake n (cn_buffer (c_connect w')) = (parse (kept ++ concat chunks)).2.
Proof.
  intros Hchunks Hw Hx Hn0 kept Hk Hp Hev. destruct (client_chunks_deliverable _ _ Hchunks Hp) as [Hdel Hall].
  pose proof (recv_rounds_all chunks n0 w Hw Hx Hn0 Hk Hp Hdel) as Hs. cbn zeta in Hs. fold kept in Hs.
  rewrite Hall in Hs. by apply Hs.
Qed.

(** C10: over a stream of events the receiver runs exactly the callbacks of
    the events' subscriptions, in order, each on the payload of its event, and
    waits for more with the unfinished packet in its buffer.  The chunks are
    whatever [recv] can return on an open connection, from a byte to all of
    the free part of the buffer; the stream is that of the chunks of at least
    a header, for the bytes of shorter chunks are lost. *)
Theorem client_delivers_events chunks n0 w :
  cwinv w -> cn_onexit (c_connect w) = 0 -> 0 <= n0 ->
  let kept := ztake n0 (cn_buffer (c_connect w)) in
  let stream := kept ++ concat (counted chunks) in
  zlen kept = n0 -> parse kept = ([], kept) -> deliverable (fun _ _ => True) kept chunks ->
  Forall is_event (parse stream).1 ->
  exists n w', recv_rounds recv_round n0 ((fun bs => SelectRecv (RecvData bs)) <$> chunks) w = Ok (Some n, w') /\
    c_log w' = c_log w ++ ((parse stream).1 ≫= callbacks (subscriptions (c_connect w))) /\
    ztake n (cn_buffer (c_connect w')) = (parse stream).2.
Proof.
  intros Hw Hx Hn0 kept stream Hk Hp Hdel Hev.
  destruct (recv_rounds_all chunks n0 w Hw Hx Hn0 Hk Hp Hdel Hev) as (n & w' & E & _ & _ & Hl & Hrest).
  by exists n, w'.
Qed.
End stream.

(** ** An instance *)

Section instances.
#[local] Existing Instance perfect_env.

(** A connected client with a subscription to the variable [a]. *)
Definition sample_connect : syncs_connect := connect_object None 7500 None <| cn_socketfd := 5 |>.
Definition sample_subscription : syncs_client_event :=
  mk_client_event (syncs_idstr name_a) 77 88 0 0 None 0 0.
Definition sample_subscriber : cworld :=
  mk_cworld (sample_connect <| cn_events ::= <[0%nat := sample_subscription]> |>) [].
Definition event_a (v : list byte) : frame :=
  (mk_header SYNCS_PACKET_MAGIC 0 (Z.lor SYNCS_TYPE_EVENT SYNCS_TYPE_VAR_INT32) (syncs_idstr name_a)
     (mk_sync 0 0) 0 (zlen v) SYNCS_PACKET_MAGIC_DATA, v).

Lemma sample_connect_wf : connect_wf sample_connect.
Proof.
  assert (forall s, connect_wf s -> connect_wf (s <| cn_socketfd := 5 |>)) as Hs by (intros s []; by split).
  exact (Hs _ (connect_object_wf None 7500 None)).
Qed.

Lemma sample_subscriber_wf : cwinv sample_subscriber.
Proof. apply connect_wf_event; [apply sample_connect_wf|]. split; [apply syncs_idstr_wf|done|done|done]. Qed.

(** The first chunk ends inside the first packet; the next two bytes come
    alone and are lost. *)
Lemma client_delivers_events_witness :
  let bs := encode_frames [event_a [Byte.x01; Byte.x02; Byte.x03; Byte.x04]; event_a [Byte.x05; Byte.x06]] in
  let chunks := [ztake 61 bs; ztake 2 bs; zdrop 61 bs] in
  let kept := ztake 0 (cn_buffer (c_connect sample_subscriber)) in
  let stream := kept ++ concat (counted chunks) in
  exists n w', recv_rounds recv_round 0 ((fun bs => SelectRecv (RecvData bs)) <$> chunks) sample_subscriber = Ok (Some n, w') /\
    c_log w' = c_log sample_subscriber ++
      ((parse stream).1 ≫= callbacks (subscriptions (c_connect sample_subscriber))) /\
    ztake n (cn_buffer (c_connect w')) = (parse stream).2.
Proof.
  intros bs chunks. apply (client_delivers_events chunks 0 sample_subscriber sample_subscriber_wf).
  - reflexivity.
  - lia.
  - by rewrite ztake_0.
  - rewrite ztake_0. by vm_compute.
  - rewrite ztake_0. subst bs chunks. cbn [deliverable app].
    replace (zlen (ztake 61 _) <? sizeof_header) with false by by vm_compute.
    replace (zlen (ztake 2 _) <? sizeof_header) with true by by vm_compute.
    replace (zlen (zdrop 61 _) <? sizeof_header) with false by by vm_compute.
    split_and!; first [exact I|by vm_compute].
  - rewrite ztake_0. vm_compute. repeat constructor.
Defined.
End instances.
