(* ===== verification/ClientLists.v ===== *)
(** * Client: putting a list together

    The packets of a list reply, in order, fill the array of the list with
    one entry after the other; the last one ends the wait. *)

From S2P Require Import Prelude.
From S2P Require Import Monad.
From S2P Require Import Types.
From S2P Require Import Net.
From S2P Require Import Framing.
From S2P Require Import Wire.
From S2P Require Import ServerLists.
From S2P Require Import ClientState.
From S2P Require Import ClientOps.
From S2P Require Import ClientCalls.
From S2P Require Import ClientInv.
From S2P Require Import ClientSafe.
From S2P Require Import ClientWire.

Section lists.
Context `{Env} (get : syncs_connect -> list_state)
  (put : (list_state -> list_state) -> syncs_connect -> syncs_connect) (slots : nat) (type size seqn : Z).
Context (La : list_access get put slots size) (Hsize : 1 <= size) (Hslots : Z.of_nat slots < 2 ^ 30).

(** The client has received the entries [es] in [k] packets. *)
Definition receiving (k : Z) (es : list (list byte)) (w : cworld) : Prop :=
  cwinv w /\ exists info, let l := get (c_connect w) in
    li_info l = Some info /\ ztake (Z.of_nat (length es) * size) info = concat es /\
    li_recv l = Z.of_nat (length es) /\ li_wait_packet l = u8 k /\ li_sequence l = u8 seqn /\ li_wait l = 1.

(** It has received them all. *)
Definition received (es : list (list byte)) (w : cworld) : Prop :=
  cwinv w /\ exists info, let l := get (c_connect w) in
    li_info l = Some info /\ ztake (Z.of_nat (length es) * size) info = concat es /\
    li_recv l = Z.of_nat (length es) /\ li_wait l = 0.

Lemma run_list_packet k last es chunk d w :
  receiving k es w -> list_frame type seqn k last chunk (delivered_frame d) -> hd_data_size d.1 <= zlen d.2 ->
  Forall (fun e => zlen e = size) (es ++ chunk) -> (length es + length chunk <= slots)%nat ->
  (length chunk <= 11)%nat ->
  wp (process_list get put size d.1 d.2) (fun _ w' => c_log w' = c_log w /\
    if last =? 1 then received (es ++ chunk) w' else receiving (k + 1) (es ++ chunk) w') w.
Proof.
  intros (Hw & info & Hi & Hb & Hr & Hp & Hs & Hwait) ((Hwf & _ & _ & H3) & H0 & H2 & H4 & (_ & _ & Hsz & _) & Hv) Hd Hes Hfit Hn.
  destruct d as [h data]. unfold delivered_frame in *. cbn [fst snd] in *.
  assert (forall l : list (list byte), Forall (fun e => zlen e = size) l -> zlen (concat l) = Z.of_nat (length l) * size) as Hconcat.
  { clear. induction 1 as [|e l He _ IH]; [done|]. cbn [concat length]. rewrite zlen_app. nia. }
  apply Forall_app in Hes as [Hes Hchunk]. pose proof (Hconcat _ Hes) as Hze. pose proof (Hconcat _ Hchunk) as Hzc.
  pose proof (la_wf _ _ _ _ La _ Hw info Hi) as Hinfo.
  assert (hd_data_size h = Z.of_nat (length chunk) * size) as Hsz'.
  { rewrite <- Hzc, <- Hv. exact Hsz. }
  unfold process_list. wp_step. apply wp_connect_get. rewrite Hi, H3, H0, Hs, Hp, !Z.eqb_refl. cbn [negb].
  rewrite Hr, H2, H4. wp_step. apply wp_memcpy; [nia..|]. rewrite Hv.
  set (info' := mem_put _ _ info).
  assert (zlen info' = Z.of_nat slots * size) as Hinfo' by (subst info'; rewrite zlen_mem_put; nia).
  assert (ztake (Z.of_nat (length (es ++ chunk)) * size) info' = concat (es ++ chunk)) as Hb'.
  { rewrite concat_app, <- Hb, length_app, Nat2Z.inj_add, Z.mul_add_distr_r. subst info'.
    unfold mem_put. rewrite app_assoc. rewrite ztake_app_le by (autorewrite with zlen; nia).
    rewrite ztake_ge; [done|]. autorewrite with zlen. nia. }
  assert (i32 (Z.of_nat (length es) + i8 (Z.of_nat (length chunk))) = Z.of_nat (length (es ++ chunk))) as Hn'.
  { rewrite length_app, Nat2Z.inj_add. unfold i8. rewrite Z.mod_small by lia. rewrite i32_small by lia. lia. }
  assert (forall f s, connect_wf s -> (forall l, li_info (f l) = li_info l) ->
    connect_wf (put f s) /\ get (put f s) = f (get s)) as Hput.
  { intros f s Hwf' Hf. split; [|apply (la_get _ _ _ _ La)]. apply (la_put _ _ _ _ La); [done|].
    intros i Hi'. rewrite Hf in Hi'. by apply (la_wf _ _ _ _ La _ Hwf'). }
  wp_step. apply wp_connect_upd. cbn [c_connect c_log]. set (s1 := put _ (c_connect w)).
  assert (connect_wf s1 /\ get s1 = get (c_connect w) <| li_info := Some info' |>) as [Hw1 E1].
  { split; [|apply (la_get _ _ _ _ La)]. apply (la_put _ _ _ _ La); [done|]. by intros i [= <-]. }
  wp_step. apply wp_connect_upd. cbn [c_connect c_log]. set (s2 := put _ s1).
  destruct (Hput (fun l => l <| li_recv ::= fun n => i32 (n + i8 (Z.of_nat (length chunk))) |>) s1 Hw1) as [Hw2 E2];
    [done|]. fold s2 in Hw2, E2.
  wp_step. apply wp_connect_upd. cbn [c_connect c_log]. set (s3 := put _ s2).
  destruct (Hput (fun l => l <| li_wait_packet ::= fun n => u8 (n + 1) |>) s2 Hw2) as [Hw3 E3]; [done|]. fold s3 in Hw3, E3.
  rewrite E2, E1 in E3. destruct (last =? 1).
  - apply wp_connect_upd. cbn [c_connect c_log]. split; [done|].
    destruct (Hput (fun l => l <| li_wait := 0 |>) s3 Hw3) as [Hw4 E4]; [done|].
    split; [exact Hw4|]. exists info'. cbn [c_connect]. rewrite E4, E3. simpl. rewrite Hr, Hn'. by split_and!.
  - wp_step. split; [done|]. split; [exact Hw3|]. exists info'. cbn [c_connect]. rewrite E3. simpl.
    rewrite Hr, Hn', Hp. split_and!; try done. unfold u8. by rewrite Zplus_mod_idemp_l.
Qed.

(** The frames of a whole reply. *)
Definition sized (d : delivery) : Prop := hd_data_size d.1 <= zlen d.2.

Lemma run_full_frames max k es fs ds w :
  full_frames type seqn max k es fs -> delivered_frame <$> ds = fs -> Forall sized ds ->
  Forall (fun e => zlen e = size) es -> (length es <= slots)%nat -> 0 <= max <= 11 ->
  (forall h data, Z.land (hd_type h) SYNCS_TYPE_MSG_MASK = type ->
    syncs_process_packet h data = process_list get put size h data) ->
  Z.land type SYNCS_TYPE_MSG_MASK = type ->
  receiving 0 [] w ->
  wp (for_each ds (deliver syncs_process_packet)) (fun _ w' => c_log w' = c_log w /\ receiving k es w') w.
Proof.
  intros Hfs. revert ds. induction Hfs as [|k es fs chunk f Hfs IH Hf Hlen]; intros ds Hds Hsized Hes Hfit Hmax Hproc Hty Hw.
  { apply fmap_nil_inv in Hds as ->. cbn [for_each]. by wp_step. }
  apply fmap_app_inv in Hds as (ds1 & ds2 & -> & Hf2 & ->).
  destruct ds2 as [|d [|]]; try done. injection Hf2 as ->.
  apply Forall_app in Hsized as [Hsz1 Hsz2]. apply list.Forall_cons in Hsz2 as [Hd _].
  pose proof Hes as Hes0. apply Forall_app in Hes0 as [Hes1 _]. rewrite length_app in Hfit.
  apply wp_for_each_app. eapply wp_mono; [apply (IH ds1); first [done|lia]|].
  intros u w1 [Hlog Hw1]. cbn [for_each]. wp_step. unfold deliver.
  pose proof Hf as ((_ & _ & Htype & _) & _). cbn [delivered_frame fst] in Htype.
  rewrite Hproc by by rewrite Htype.
  eapply wp_mono; [apply (run_list_packet k 0 es chunk d w1); first [done|lia]|].
  intros u2 w2 [Hlog2 Hw2]. wp_step. split; [congruence|exact Hw2].
Qed.

Lemma run_list_frames max es fs ds w :
  list_frames type seqn max es fs -> delivered_frame <$> ds = fs -> Forall sized ds ->
  Forall (fun e => zlen e = size) es -> (length es <= slots)%nat -> 0 <= max <= 11 ->
  (forall h data, Z.land (hd_type h) SYNCS_TYPE_MSG_MASK = type ->
    syncs_process_packet h data = process_list get put size h data) ->
  Z.land type SYNCS_TYPE_MSG_MASK = type ->
  receiving 0 [] w ->
  wp (for_each ds (deliver syncs_process_packet)) (fun _ w' => c_log w' = c_log w /\ received es w') w.
Proof.
  intros (k & es0 & fs0 & chunk & f & Hfull & Hf & Hlen & -> & ->) Hds Hsized Hes Hfit Hmax Hproc Hty Hw.
  apply fmap_app_inv in Hds as (ds1 & ds2 & -> & Hf2 & ->).
  destruct ds2 as [|d [|]]; try done. injection Hf2 as ->.
  apply Forall_app in Hsized as [Hsz1 Hsz2]. apply list.Forall_cons in Hsz2 as [Hd _].
  pose proof Hes as Hes0. apply Forall_app in Hes0 as [Hes1 _]. rewrite length_app in Hfit.
  apply wp_for_each_app. eapply wp_mono; [apply (run_full_frames max k es0 (delivered_frame <$> ds1) ds1); first [done|lia]|].
  intros u w1 [Hlog Hw1]. cbn [for_each]. wp_step. unfold deliver.
  pose proof Hf as ((_ & _ & Htype & _) & _). cbn [delivered_frame fst] in Htype.
  rewrite Hproc by by rewrite Htype.
  eapply wp_mono; [apply (run_list_packet k 1 es0 chunk d w1); first [done|lia]|].
  intros u2 w2 [Hlog2 Hw2]. wp_step. split; [congruence|exact Hw2].
Qed.
End lists.
