(* ===== verification/Link.v ===== *)
(** * Client and server together

    The two halves composed over the bytes one sends and the other receives:
    each end has an environment of its own, and the bytes may be cut
    into chunks anywhere the receivers accept. *)

From stdpp Require Import gmap.
From S2P Require Import Prelude.
From S2P Require Import Monad.
From S2P Require Import Types.
From S2P Require Import Net.
From S2P Require Import Framing.
From S2P Require Import Wire.
From S2P Require Import ServerState.
From S2P Require Import ServerEvents.
From S2P Require Import ServerPackets.
From S2P Require Import ServerInv.
From S2P Require Import ServerLoop.
From S2P Require Import Handler.
From S2P Require Import EventSpec.
From S2P Require Import Directory.
From S2P Require Import Refinement.
From S2P Require Import Publish.
From S2P Require Import ServerProps.
From S2P Require Import ServerData.
From S2P Require Import ServerStream.
From S2P Require Import ServerReply.
From S2P Require Import ClientState.
From S2P Require Import ClientOps.
From S2P Require Import ClientCalls.
From S2P Require Import ClientWait.
From S2P Require Import ClientInv.
From S2P Require Import ClientSafe.
From S2P Require Import ClientWire.
From S2P Require Import ClientStream.

(** ** The type word of a request, as the server reads it *)

Lemma request_type_land m flags k :
  Z.land m k = 0 -> Z.land VAR_FLAGS_MASK k = k ->
  Z.land (Z.lor m (Z.land flags VAR_FLAGS_MASK)) k = Z.land flags k.
Proof. intros Hm Hk. by rewrite Z.land_lor_distr_l, Hm, <- Z.land_assoc, Hk, Z.lor_0_l. Qed.

Definition write_type (flags : Z) : Z := Z.lor SYNCS_TYPE_WRITE (Z.land flags VAR_FLAGS_MASK).

Lemma write_type_var flags : Z.land (write_type flags) SYNCS_TYPE_VAR_MASK = Z.land flags SYNCS_TYPE_VAR_MASK.
Proof. by apply request_type_land. Qed.

Lemma write_type_msg flags : Z.land (write_type flags) SYNCS_TYPE_MSG_MASK = SYNCS_TYPE_WRITE.
Proof. by apply request_type_msg. Qed.

Lemma write_type_flag flags k :
  Z.land SYNCS_TYPE_WRITE k = 0 -> Z.land VAR_FLAGS_MASK k = k -> flag (write_type flags) k = flag flags k.
Proof. intros. unfold flag, write_type. by rewrite (request_type_land _ flags k). Qed.

Lemma write_type_pflags flags : write_pflags (write_type flags) = write_pflags flags.
Proof. by apply request_type_land. Qed.

Lemma spec_write_type c id flags data st :
  spec_write c id (write_type flags) data st = spec_write c id flags data st.
Proof.
  unfold spec_write, spec_open. by rewrite write_type_var, (write_type_flag flags SYNCS_TYPE_FORCE).
Qed.

Lemma parse_single f : frame_wf f -> parse (encode_frame f) = ([f], []).
Proof.
  intros Hf. rewrite <- (app_nil_r (encode_frame f)), parse_frame by done. by rewrite parse_short.
Qed.

(** [syncs_write] of a client that is online. *)
Lemma syncs_write_sends `{Env} `{!Lossless} flags cid d n cw :
  online (c_connect cw) -> let n0 := write_size flags n in
  0 <= n0 <= SYNCS_VARIABLE_SIZE_MAXIMUM -> n0 <= zlen d ->
  exists h, request_header (write_type flags) (syncs_idstr cid) n0 h /\ frame_wf (h, ztake n0 d) /\
    syncs_write flags cid (Some d) n cw =
      Ok (0, io_emit (client_io (c_connect cw) (encode_frame (h, ztake n0 d))) cw).
Proof.
  intros Hc n0 Hn Hd.
  assert (wp (syncs_write flags cid (Some d) n) (fun r w' => r = 0 /\ exists h,
    request_header (write_type flags) (syncs_idstr cid) n0 h /\
    w' = io_emit (client_io (c_connect cw) (encode_frame (h, ztake n0 d))) cw) cw) as Hs.
  { apply run_write; [done..|]. intros h Hh. split; [done|]. by exists h. }
  apply wp_run in Hs as (r & w' & E & -> & h & Hh & ->). exists h. split; [done|]. split; [|done].
  assert (zlen (ztake n0 d) = n0) as Hz by zl.
  apply (request_frame_wf (write_type flags) (syncs_idstr cid)); [by rewrite Hz|lia].
Qed.

(** A write, from the caller's value to the directory. *)
Lemma write_directory (Ec Es : Env) `{!@Lossless Ec} flags cid d n cw w c cl :
  connected (c_connect cw) -> let n0 := write_size flags n in
  0 <= n0 <= SYNCS_VARIABLE_SIZE_MAXIMUM -> n0 <= zlen d -> id_is_free (syncs_idstr cid) = false ->
  winv w -> w_clients w !! c = Some cl -> pending cl = [] ->
  exists cw' bs, @syncs_write Ec flags cid (Some d) n cw = Ok (0, cw') /\
    c_log cw' = c_log cw ++ [IoSend (cn_socketfd (c_connect cw)) bs] /\
    forall chunks, concat chunks = bs -> Forall chunk_fits chunks ->
      exists w', @receive_chunks Es c chunks w = Ok (tt, w') /\
        abs w' = (spec_write c (syncs_idstr cid) flags (ztake n0 d) (abs w)).2.
Proof.
  intros Hc n0 Hn Hd Hid Hw Hcl Hp.
  destruct (@syncs_write_sends Ec _ flags cid d n cw (or_introl Hc) Hn Hd) as (h & Hh & Hf & E). rewrite client_io_tcp in E by done. fold n0 in Hh, Hf, E.
  eexists _, _. split; [exact E|]. split; [done|]. intros chunks Hcat Hchunks.
  assert (parse (pending cl ++ concat chunks) = ([(h, ztake n0 d)], [])) as Hparse.
  { by rewrite Hp, Hcat; apply parse_single. }
  destruct Hh as (_ & _ & _ & Hty & Hhid & _).
  destruct (proj1 (wp_run _ _ _) (@receive_chunks_spec Es chunks w c cl Hchunks Hw Hcl ltac:(by rewrite Hp; apply parse_short)
    ltac:(rewrite Hparse; by repeat constructor; unfold frame_ok; simpl; rewrite Hhid)))
    as ([] & w' & E' & _ & Hspec & _).
  exists w'. split; [done|]. rewrite Hparse in Hspec. apply spec_packets_one in Hspec as (stale & ->).
  unfold spec_packet. rewrite Hty, write_type_msg, Hhid. cbn [Z.eqb]. by rewrite spec_write_type.
Qed.

(** A write of a connected client reaches the server: the bytes it sends,
    cut in any way into chunks of at least a header, make the directory
    transition of a write of the caller's value under the caller's name. *)
Theorem write_reaches_server (Ec Es : Env) `{!@Lossless Ec} flags cid d n cw w c cl :
  connected (c_connect cw) -> let n0 := write_size flags n in
  0 <= n0 <= SYNCS_VARIABLE_SIZE_MAXIMUM -> n0 <= zlen d -> id_is_free (syncs_idstr cid) = false ->
  winv w -> w_clients w !! c = Some cl -> pending cl = [] ->
  exists cw' bs, @syncs_write Ec flags cid (Some d) n cw = Ok (0, cw') /\
    c_log cw' = c_log cw ++ [IoSend (cn_socketfd (c_connect cw)) bs] /\
    forall chunks, concat chunks = bs -> Forall chunk_fits chunks ->
      exists w', @receive_chunks Es c chunks w = Ok (tt, w') /\
        abs w' = (spec_write c (syncs_idstr cid) flags (ztake n0 d) (abs w)).2.
Proof. by apply write_directory. Qed.

(** ** Publication *)

(** The transmissions include those of every addressee. *)
Lemma transmit_split s bs cs c cl :
  c ∈ cs -> sv_clients s !! c = Some cl ->
  exists pre post, (cs ≫= transmit_to s bs) = pre ++ transmit s cl bs ++ post.
Proof.
  intros (l1 & l2 & ->)%list_elem_of_split Hcl. rewrite bind_app. eexists _, _. f_equal. simpl.
  unfold transmit_to at 1. by rewrite Hcl.
Qed.

Lemma transmit_tcp s cl bs : cl_socketfd cl > -1 -> transmit s cl bs = [IoSend (cl_socketfd cl) bs].
Proof. intros Hfd. unfold transmit. by rewrite (proj2 (Z.gtb_lt _ _)) by lia. Qed.

Lemma transmit_udp s cl bs :
  cl_socketfd cl = UDP_SOCKET_STUB -> transmit s cl bs = [IoSendto (sv_usocketfd s) (cl_addr cl) bs].
Proof. unfold transmit. by intros ->. Qed.

(** Event packets as the client classifies them. *)
Lemma event_frame flags ev h v :
  event_header flags ev h -> event_wf ev -> flag flags SYNCS_TYPE_SYNC = false -> is_event (h, v).
Proof.
  intros (_ & _ & _ & _ & Hty) Hwf Hs. rewrite Hs in Hty. unfold is_event. cbn [fst]. rewrite Hty.
  pose proof (ewf_type ev Hwf) as E. rewrite <- E. unfold flag.
  rewrite !Z.land_lor_distr_l, <- !Z.land_assoc.
  change (Z.land SYNCS_TYPE_VAR_MASK SYNCS_TYPE_MSG_MASK) with 0.
  change (Z.land SYNCS_TYPE_VAR_MASK SYNCS_TYPE_SYNC) with 0. by rewrite Z.land_0_r.
Qed.

(** The subscription an event runs. *)
Definition subscribed (s : syncs_connect) (id : syncsid_t) (cb args : Z) : Prop :=
  exists k, scan (fun x => syncs_idcmp x.1.1 id) (subscriptions s) = Some k /\
    subscriptions s !! k = Some (id, cb, args) /\ cb <> NULL.

Lemma callbacks_subscribed s id cb args h v :
  subscribed s id cb args -> hd_id h = id -> callbacks (subscriptions s) (h, v) = [IoCallback cb args id v].
Proof.
  intros (k & Hk & Hs & Hcb) <-. unfold callbacks. cbn [fst snd]. rewrite Hk, Hs.
  by rewrite (proj2 (Z.eqb_neq _ _) Hcb).
Qed.

(** A write changes the value of a variable, not its subscribers. *)
Lemma spec_write_var c id flags data st v :
  st.1 !! id = Some v -> (spec_write c id flags data st).1 = 0 ->
  exists v', (spec_write c id flags data st).2.1 !! id = Some v' /\ var_subs v' = var_subs v.
Proof.
  intros Hv. unfold spec_write, spec_open. rewrite Hv. destruct (_ =? _); [|done]. intros _. cbn [fst snd].
  rewrite lookup_insert_eq. by eexists.
Qed.

(** An accepted write sends every other subscriber an event with its value. *)
Lemma write_published c h flags id data v b clb w w' :
  write_effect c (h, data) w (observed w') -> hd_type h = write_type flags -> hd_id h = id ->
  flag flags SYNCS_TYPE_SYNC = false ->
  (abs w).1 !! id = Some v -> (spec_write c id flags data (abs w)).1 = 0 ->
  b ∈ var_subs v -> b <> c -> w_clients w !! b = Some clb ->
  exists pre h' post, w_log w' = w_log w ++ pre ++ transmit (w_server w) clb (encode_frame (h', data)) ++ post /\
    frame_wf (h', data) /\ is_event (h', data) /\ hd_id h' = id.
Proof.
  intros (_ & ev & h' & Hev & Hevwf & Hide & Hprod & Hh' & Hf' & Hlog) Hty Hhid Hsync Hv Hok Hb Hbc Hclb.
  cbn [fst snd] in *. rewrite Hhid in Hev, Hide, Hlog. rewrite Hty, ?write_type_pflags, ?spec_write_type in *.
  destruct (spec_write_var c id flags data (abs w) v Hv Hok) as (v' & Hv' & Hsubs).
  rewrite ?Hhid, Hv' in Hev. injection Hev as ->.
  assert (b ∈ publish_to (write_pflags flags) ev) as Hbp.
  { apply list_elem_of_filter. split; [left; congruence|]. rewrite <- Hsubs in Hb. by apply elem_of_list_to_set in Hb. }
  destruct (transmit_split (w_server w) (encode_frame (h', data)) _ b clb Hbp Hclb) as (pre & post & Et).
  exists (callback_io ev id ++ pre), h', post. change (observed w').2 with (w_log w') in Hlog.
  split; [by rewrite Hlog, Et, <- !app_assoc|]. split; [done|]. pose proof Hh' as (_ & _ & Hhid' & _).
  split; [|congruence]. apply (event_frame (write_pflags flags) ev); [done..|].
  unfold flag, write_pflags. rewrite <- Z.land_assoc. exact Hsync.
Qed.

(** A client that receives one event, in whatever chunks. *)
Lemma event_delivered `{Env} f chunks w cb args :
  cwinv w -> cn_onexit (c_connect w) = 0 -> frame_wf f -> is_event f ->
  subscribed (c_connect w) (hd_id f.1) cb args ->
  concat chunks = encode_frame f -> Forall client_chunk_fits chunks ->
  exists n w', recv_rounds recv_round 0 ((fun bs => SelectRecv (RecvData bs)) <$> chunks) w = Ok (Some n, w') /\
    c_log w' = c_log w ++ [IoCallback cb args (hd_id f.1) f.2].
Proof.
  intros Hw Hx Hf Hev Hsub Hcat Hchunks.
  assert (ztake 0 (cn_buffer (c_connect w)) = []) as Hk by apply ztake_0.
  destruct (recv_rounds_events chunks 0 w Hchunks Hw Hx) as (n & w' & E & _ & _ & Hl & _);
    rewrite ?Hk; [lia|done|by apply parse_short| |].
  - rewrite Hcat. cbn [app]. rewrite parse_single by done. by apply list.Forall_singleton.
  - exists n, w'. split; [done|]. rewrite Hl, Hk, Hcat. cbn [app]. rewrite parse_single by done.
    cbn [fst]. destruct f as [h v]. simpl. rewrite app_nil_r. f_equal. by apply callbacks_subscribed.
Qed.

(** C4: a value one client writes runs the callback of another: when client
    [c] writes a variable it may write, the server sends client [b], who is
    subscribed, a packet; and the library of [b], receiving these bytes in
    any chunks, runs the callback it registered for that name on the value. *)
Theorem write_reaches_subscriber (Ec Es Eb : Env) `{!@Lossless Ec} `{!@Lossless Es}
    flags cid d n cw w c cl v b clb bw cb args :
  connected (c_connect cw) -> let n0 := write_size flags n in let id := syncs_idstr cid in
  0 <= n0 <= SYNCS_VARIABLE_SIZE_MAXIMUM -> n0 <= zlen d -> id_is_free id = false ->
  flag flags SYNCS_TYPE_SYNC = false ->
  winv w -> w_clients w !! c = Some cl -> pending cl = [] ->
  (abs w).1 !! id = Some v -> (spec_write c id flags (ztake n0 d) (abs w)).1 = 0 ->
  b ∈ var_subs v -> b <> c -> w_clients w !! b = Some clb -> cl_socketfd clb > -1 ->
  cwinv bw -> cn_onexit (c_connect bw) = 0 -> subscribed (c_connect bw) id cb args ->
  exists cw' bs, @syncs_write Ec flags cid (Some d) n cw = Ok (0, cw') /\
    c_log cw' = c_log cw ++ [IoSend (cn_socketfd (c_connect cw)) bs] /\
  exists w' pre bs' post, @syncs_client_handler Es c (RecvData bs) w = Ok (0, w') /\
    w_log w' = w_log w ++ pre ++ [IoSend (cl_socketfd clb) bs'] ++ post /\
  forall chunks, concat chunks = bs' -> Forall client_chunk_fits chunks ->
    exists k bw', @recv_rounds (@recv_round Eb) 0 ((fun bs => SelectRecv (RecvData bs)) <$> chunks) bw = Ok (Some k, bw') /\
      c_log bw' = c_log bw ++ [IoCallback cb args id (ztake n0 d)].
Proof.
  intros Hc n0 id Hn Hd Hid Hsync Hw Hcl Hp Hv Hok Hb Hbc Hclb Hfd Hbw Hx Hsub.
  destruct (@syncs_write_sends Ec _ flags cid d n cw (or_introl Hc) Hn Hd) as (h & Hh & Hf & E). rewrite client_io_tcp in E by done. fold n0 id in Hh, Hf, E.
  eexists _, _. split; [exact E|]. split; [done|]. destruct Hh as (_ & _ & _ & Hty & Hhid & _).
  assert (wp (@syncs_client_handler Es c (RecvData (encode_frame (h, ztake n0 d)))) (fun r w' => r = 0 /\
    write_effect c (h, ztake n0 d) w (observed w')) w) as Hs.
  { apply handler_write with cl; cbn [fst snd]; rewrite ?Hhid, ?Hty; try done; [apply write_type_msg|].
    by rewrite spec_write_type. }
  apply wp_run in Hs as (r & w' & E' & -> & Heff).
  destruct (write_published c h flags id (ztake n0 d) v b clb w w') as (pre & h' & post & Hlog & Hf' & Hev & Hhid'); [done..|].
  rewrite transmit_tcp in Hlog by done. exists w', pre, (encode_frame (h', ztake n0 d)), post.
  split; [exact E'|]. split; [exact Hlog|]. intros chunks Hcat Hchunks.
  destruct (@event_delivered Eb (h', ztake n0 d) chunks bw cb args) as (k & bw' & Er & Hl); cbn [fst snd]; try done.
  - by rewrite Hhid'.
  - exists k, bw'. split; [exact Er|]. rewrite Hl. cbn [fst snd]. by rewrite Hhid'.
Qed.

(** ** Reading a variable of the server *)

Definition read_type (flags : Z) : Z := Z.lor SYNCS_TYPE_READ (Z.land flags SYNCS_TYPE_VAR_MASK).

Lemma read_type_range flags : 0 <= read_type flags < 2 ^ 32.
Proof.
  apply lor_range; [lia|done|]. change SYNCS_TYPE_VAR_MASK with (Z.land 0xf00 (2 ^ 32 - 1)).
  rewrite Z.land_assoc, land_mask by lia. by apply Z.mod_pos_bound.
Qed.

Lemma read_type_msg m flags :
  Z.land m SYNCS_TYPE_MSG_MASK = m -> Z.land (Z.lor m (Z.land flags SYNCS_TYPE_VAR_MASK)) SYNCS_TYPE_MSG_MASK = m.
Proof.
  intros Hm. rewrite Z.land_lor_distr_l, Hm, <- Z.land_assoc.
  change (Z.land SYNCS_TYPE_VAR_MASK SYNCS_TYPE_MSG_MASK) with 0. by rewrite Z.land_0_r, Z.lor_0_r.
Qed.

(** The receiver thread on the answer it waits for. *)
Lemma run_answer `{Env} h data w (Q : unit -> cworld -> Prop) :
  cwinv w -> Z.land (hd_type h) SYNCS_TYPE_MSG_MASK = SYNCS_TYPE_READ ->
  cn_read_wait (c_connect w) = 1 -> hd_id h = cn_read_id (c_connect w) ->
  0 <= hd_data_size h <= SYNCS_VARIABLE_SIZE_MAXIMUM -> hd_data_size h <= zlen data ->
  (forall w', c_log w' = c_log w -> cn_read_wait (c_connect w') = 0 ->
    cn_read_size (c_connect w') = hd_data_size h ->
    ztake (hd_data_size h) (cn_read_data (c_connect w')) = ztake (hd_data_size h) data ->
    zlen (cn_read_data (c_connect w')) = SYNCS_VARIABLE_SIZE_MAXIMUM -> Q tt w') ->
  wp (syncs_process_packet h data) Q w.
Proof.
  intros Hw Hmsg Hwait Hid Hn Hd HQ.
  assert (syncs_process_packet h data = process_read h data) as ->.
  { unfold syncs_process_packet. cbn zeta. by rewrite Hmsg. }
  unfold process_read. wp_step. apply wp_connect_get. rewrite Hwait, Hid, syncs_idcmp_refl. cbn [negb andb Z.eqb].
  wp_step. apply wp_connect_upd. pose proof (cwf_read _ Hw) as Hr.
  wp_step. apply wp_memcpy; [lia..|]. wp_step. apply wp_connect_upd. apply wp_connect_upd.
  apply HQ; simpl; try done.
  - assert (zlen (ztake (hd_data_size h) data) = hd_data_size h) as Hz by zl. rewrite <- Hz at 1.
    apply (mem_sub_put 0). lia.
  - rewrite zlen_mem_put; [done|lia|zl].
Qed.

Lemma syncs_read_answered `{Env} `{!Lossless} flags cid data size cw :
  cwinv cw -> connected (c_connect cw) -> 0 <= size <= zlen data ->
  exists h, request_header (read_type flags) (syncs_idstr cid) 0 h /\
    forall d v, hd_id d.1 = syncs_idstr cid -> Z.land (hd_type d.1) SYNCS_TYPE_MSG_MASK = SYNCS_TYPE_READ ->
      hd_data_size d.1 = zlen v -> zlen v <= SYNCS_VARIABLE_SIZE_MAXIMUM -> zlen v <= zlen d.2 ->
      ztake (zlen v) d.2 = v ->
      let n := Z.min size (zlen v) in
      exists cw', syncs_read flags cid data size [mk_wakeup [d] false] cw =
          Ok ((0, mem_put 0 (ztake n v) data, n), cw') /\
        c_log cw' = c_log cw ++ [IoSend (cn_socketfd (c_connect cw)) (encode_frame (h, [])); IoClock].
Proof.
  intros Hw Hc Hs.
  assert (wp stack_packet (fun p w' => w' = cw /\ packet_full p /\ header_wf (pk_header p)) cw) as Hp.
  { by apply run_stack_packet. }
  apply wp_run in Hp as (p & ? & Ep & -> & Hp & _ & Hcrc & _ & _ & Hd0 & Hd1 & Huc & _ & _).
  destruct p as [[m0 crc t0 i0 sync uc n0 m1] b]. simpl in Hcrc, Hd0, Hd1, Huc.
  exists (mk_header SYNCS_PACKET_MAGIC crc (read_type flags) (syncs_idstr cid) sync uc 0 SYNCS_PACKET_MAGIC_DATA).
  split; [apply made_header_request; try done; [apply read_type_range|apply syncs_idstr_wf]|].
  intros d v Hid Hmsg Hsz Hmax Hlen Hv n.
  assert (wp (syncs_read flags cid data size [mk_wakeup [d] false]) (fun r cw' =>
    r = (0, mem_put 0 (ztake n v) data, n) /\
    c_log cw' = c_log cw ++ [IoSend (cn_socketfd (c_connect cw)) (encode_frame (mk_header SYNCS_PACKET_MAGIC crc
      (read_type flags) (syncs_idstr cid) sync uc 0 SYNCS_PACKET_MAGIC_DATA, [])); IoClock]) cw) as Hr.
  { unfold syncs_read. eapply wp_eq; [apply bind_Ok, Ep|].
    wp_step. apply wp_connect_get. rewrite (proj2 (Z.ltb_ge _ _)) by (unfold connected in Hc; lia).
    wp_step. apply wp_connect_upd. rewrite syncs_fill_header_request_str_eq. cbn [pk_header].
    wp_step. apply wp_connect_upd. wp_step. apply run_send_header; [by left|]. rewrite client_io_tcp by exact Hc.
    unfold syncs_wait_for_read, syncs_wait_for. wp_step. wp_step. unfold emit. wp_step.
    cbn [wait_loop]. wp_step. apply wp_connect_get. set (w1 := io_emit IoClock _).
    assert (cwinv w1) as Hw1 by (destruct Hw; by split).
    change (cn_read_wait (c_connect w1)) with 1. cbn [Z.eqb wk_packets wk_timeout].
    unfold receive_packets. cbn [for_each]. wp_step. wp_step. unfold deliver at 1.
    pose proof (zlen_nonneg v). apply run_answer; [done|done|done| |lia|lia|].
    { rewrite Hid. symmetry. apply syncs_idcpy_eq. }
    intros w2 Hl2 Hwait2 Hsz2 Hdata2 Hfull2. rewrite Hsz in Hsz2, Hdata2. rewrite Hv in Hdata2.
    wp_step. wp_step. apply wp_connect_get. rewrite Hwait2. cbn [Z.eqb]. wp_step. cbn [negb Z.eqb].
    wp_step. apply wp_connect_get. rewrite Hsz2.
    assert ((if size >? zlen v then zlen v else size) = n) as ->.
    { subst n. destruct (size >? zlen v) eqn:Eg; [apply Z.gtb_lt in Eg; lia|].
      rewrite Z.gtb_ltb, Z.ltb_ge in Eg. lia. }
    wp_step. apply wp_memcpy; [lia..|]. wp_step. split.
    - do 3 f_equal. rewrite <- Hdata2, ztake_ztake. f_equal. lia.
    - rewrite Hl2. subst w1. simpl. by rewrite <- app_assoc. }
  apply wp_run in Hr as (r & cw' & E & -> & Hl). by exists cw'.
Qed.

Lemma zlen_reply_value w id :
  winv w -> id_is_free id = false -> zlen (reply_value ((abs w).1 !! id)) <= SYNCS_VARIABLE_SIZE_MAXIMUM.
Proof.
  intros Hw Hf. destruct ((abs w).1 !! id) as [v|] eqn:E; [|done].
  destruct (directory_slot w id v Hw Hf E) as (e & ev & _ & _ & _ & <- & Hwf).
  cbn [reply_value]. change (var_value (variable_of ev)) with (ev_value ev).
  rewrite zlen_ev_value by done. apply Hwf.
Qed.

(** C5: reading a variable of the server: the bytes [syncs_read] sends make
    the server answer with one packet, and when the receiver thread gets that
    answer while the call waits, the call returns 0 with the value the server
    holds (cut to the caller's size) at the start of the caller's buffer.  A
    variable the server does not have reads as the empty value. *)
Theorem read_roundtrip (Ec Es : Env) `{!@Lossless Ec} `{!@Lossless Es} flags cid data size cw w c cl :
  cwinv cw -> connected (c_connect cw) -> 0 <= size <= zlen data ->
  winv w -> w_clients w !! c = Some cl -> pending cl = [] -> cl_socketfd cl > -1 ->
  id_is_free (syncs_idstr cid) = false ->
  let v := reply_value ((abs w).1 !! syncs_idstr cid) in
  let n := Z.min size (zlen v) in
  exists bs w' reply, @syncs_client_handler Es c (RecvData bs) w = Ok (0, w') /\ abs w' = abs w /\
    w_log w' = w_log w ++ [IoSend (cl_socketfd cl) (encode_frame reply)] /\
  forall d, delivered_frame d = reply -> hd_data_size d.1 <= zlen d.2 ->
    exists cw', @syncs_read Ec flags cid data size [mk_wakeup [d] false] cw =
        Ok ((0, mem_put 0 (ztake n v) data, n), cw') /\
      c_log cw' = c_log cw ++ [IoSend (cn_socketfd (c_connect cw)) bs; IoClock].
Proof.
  intros Hcw Hc Hs Hw Hcl Hp Hfd Hid v n.
  destruct (@syncs_read_answered Ec _ flags cid data size cw Hcw Hc Hs) as (h & Hh & Hans).
  pose proof Hh as (Hwf & _ & _ & Hty & Hhid & _).
  assert (frame_wf (h, [])) as Hf by by apply (request_frame_wf (read_type flags) (syncs_idstr cid)).
  pose proof (@handler_read Es _ c cl (h, []) w Hw Hcl Hp Hf) as Hrd. cbn [fst snd] in Hrd. rewrite Hhid, Hty in Hrd.
  specialize (Hrd Hid (read_type_msg _ flags eq_refl)). cbn zeta in Hrd. fold v in Hrd.
  apply wp_run in Hrd as (r & w' & E & -> & Ha & h' & Hh' & Hlog).
  exists (encode_frame (h, [])), w', (h', v). split; [done|]. split; [done|]. split.
  { rewrite Hlog. unfold transmit_to. change (sv_clients (w_server w)) with (w_clients w). rewrite Hcl.
    unfold transmit. by rewrite (proj2 (Z.gtb_lt _ _)) by lia. }
  intros [hd mem] Hd Hlen. unfold delivered_frame in Hd. cbn [fst snd] in *. injection Hd as -> Hv.
  destruct Hh' as (_ & _ & _ & Hty' & Hhid' & Hsz'). rewrite Hsz' in Hv, Hlen.
  apply (Hans (h', mem) v); cbn [fst snd]; try done.
  - rewrite Hty'. unfold reply_type. destruct ((abs w).1 !! _); [by apply read_type_msg|done].
  - by apply zlen_reply_value.
Qed.

(** ** Instances *)

Section instances.
#[local] Existing Instance perfect_env.

Definition sample_client : cworld := mk_cworld sample_connect [].

Lemma sample_subscribed : subscribed (c_connect sample_subscriber) (syncs_idstr name_a) 77 88.
Proof. exists 0%nat. split_and!; [by vm_compute|reflexivity|done]. Qed.

Lemma sample_size : 0 <= write_size int32_flags 0 <= SYNCS_VARIABLE_SIZE_MAXIMUM.
Proof. by vm_compute. Qed.
Lemma sample_length : write_size int32_flags 0 <= zlen demo_data.
Proof. by vm_compute. Qed.
Lemma sample_id : id_is_free (syncs_idstr name_a) = false.
Proof. by vm_compute. Qed.
Lemma sample_sync : flag int32_flags SYNCS_TYPE_SYNC = false.
Proof. by vm_compute. Qed.
Lemma sample_accepted :
  (spec_write 0 (syncs_idstr name_a) int32_flags (ztake (write_size int32_flags 0) demo_data) (abs demo)).1 = 0.
Proof. by vm_compute. Qed.
Lemma sample_buffer : 0 <= 8 <= zlen (zero_bytes 8).
Proof. by vm_compute. Qed.

Lemma write_reaches_server_witness :
  exists cl cw' bs, w_clients demo !! 0%nat = Some cl /\
    syncs_write int32_flags name_a (Some demo_data) 0 sample_client = Ok (0, cw') /\
    c_log cw' = c_log sample_client ++ [IoSend (cn_socketfd (c_connect sample_client)) bs] /\
    forall chunks, concat chunks = bs -> Forall chunk_fits chunks ->
      exists w', receive_chunks 0 chunks demo = Ok (tt, w') /\
        abs w' = (spec_write 0 (syncs_idstr name_a) int32_flags
          (ztake (write_size int32_flags 0) demo_data) (abs demo)).2.
Proof.
  destruct (client_view (w_clients demo) 0 7) as (cl & Hcl & Hp & _); [by vm_compute|].
  assert (connected (c_connect sample_client)) as Hc by reflexivity.
  destruct (write_reaches_server perfect_env perfect_env int32_flags name_a demo_data 0 sample_client demo 0 cl
    Hc sample_size sample_length sample_id demo_winv Hcl Hp) as (cw' & bs & Hr). exists cl, cw', bs.
  split; [exact Hcl|]. exact Hr.
Defined.

Lemma write_reaches_subscriber_witness :
  exists clb, w_clients demo !! 1%nat = Some clb /\
  exists cw' bs, syncs_write int32_flags name_a (Some demo_data) 0 sample_client = Ok (0, cw') /\
    c_log cw' = c_log sample_client ++ [IoSend (cn_socketfd (c_connect sample_client)) bs] /\
  exists w' pre bs' post, syncs_client_handler 0 (RecvData bs) demo = Ok (0, w') /\
    w_log w' = w_log demo ++ pre ++ [IoSend (cl_socketfd clb) bs'] ++ post /\
  forall chunks, concat chunks = bs' -> Forall client_chunk_fits chunks ->
    exists k bw', recv_rounds recv_round 0 ((fun bs => SelectRecv (RecvData bs)) <$> chunks) sample_subscriber = Ok (Some k, bw') /\
      c_log bw' = c_log sample_subscriber ++
        [IoCallback 77 88 (syncs_idstr name_a) (ztake (write_size int32_flags 0) demo_data)].
Proof.
  destruct (client_view (w_clients demo) 0 7) as (cl & Hcl & Hp & _); [by vm_compute|].
  destruct (client_view (w_clients demo) 1 8) as (clb & Hclb & _ & Hfd); [by vm_compute|].
  destruct (subscriber_view (abs demo).1 (syncs_idstr name_a) 1) as (v & Hv & Hb); [by vm_compute|]. exists clb. split; [exact Hclb|].
  apply (write_reaches_subscriber perfect_env perfect_env perfect_env int32_flags name_a demo_data 0 sample_client
    demo 0 cl v 1 clb sample_subscriber 77 88).
  - reflexivity.
  - exact sample_size.
  - exact sample_length.
  - exact sample_id.
  - exact sample_sync.
  - exact demo_winv.
  - exact Hcl.
  - exact Hp.
  - exact Hv.
  - exact sample_accepted.
  - exact Hb.
  - discriminate.
  - exact Hclb.
  - rewrite Hfd. lia.
  - exact sample_subscriber_wf.
  - reflexivity.
  - exact sample_subscribed.
Defined.

Lemma read_roundtrip_witness :
  exists cl, w_clients demo !! 1%nat = Some cl /\
  let v := reply_value ((abs demo).1 !! syncs_idstr name_a) in
  let n := Z.min 8 (zlen v) in
  exists bs w' reply, syncs_client_handler 1 (RecvData bs) demo = Ok (0, w') /\ abs w' = abs demo /\
    w_log w' = w_log demo ++ [IoSend (cl_socketfd cl) (encode_frame reply)] /\
  forall d, delivered_frame d = reply -> hd_data_size d.1 <= zlen d.2 ->
    exists cw', syncs_read 0 name_a (zero_bytes 8) 8 [mk_wakeup [d] false] sample_client =
        Ok ((0, mem_put 0 (ztake n v) (zero_bytes 8), n), cw') /\
      c_log cw' = c_log sample_client ++ [IoSend (cn_socketfd (c_connect sample_client)) bs; IoClock].
Proof.
  destruct (client_view (w_clients demo) 1 8) as (cl & Hcl & Hp & Hfd); [by vm_compute|]. exists cl. split; [exact Hcl|].
  apply (read_roundtrip perfect_env perfect_env 0 name_a (zero_bytes 8) 8 sample_client demo 1 cl).
  - exact sample_connect_wf.
  - reflexivity.
  - exact sample_buffer.
  - exact demo_winv.
  - exact Hcl.
  - exact Hp.
  - rewrite Hfd. lia.
  - exact sample_id.
Defined.
End instances.
