(* ===== verification/LinkLists.v ===== *)
(** * Client and server together: the list of variables

    [syncs_request_eventslist] against the server: the client ends up with
    one entry for each variable the server has, in the order of its table. *)

From stdpp Require Import gmap.
From S2P Require Import Prelude.
From S2P Require Import Monad.
From S2P Require Import Types.
From S2P Require Import Net.
From S2P Require Import Framing.
From S2P Require Import Wire.
From S2P Require Import ServerState.
From S2P Require Import ServerEvents.
From S2P Require Import ServerPackets.
From S2P Require Import ServerInv.
From S2P Require Import Handler.
From S2P Require Import EventSpec.
From S2P Require Import Directory.
From S2P Require Import Refinement.
From S2P Require Import Publish.
From S2P Require Import ServerProps.
From S2P Require Import ServerReply.
From S2P Require Import ServerLists.
From S2P Require Import ClientState.
From S2P Require Import ClientOps.
From S2P Require Import ClientCalls.
From S2P Require Import ClientInv.
From S2P Require Import ClientSafe.
From S2P Require Import ClientWire.
From S2P Require Import ClientStream.
From S2P Require Import ClientLists.
From S2P Require Import Link.

(** The allocator the client runs on always has memory. *)
Definition allocates (E : Env) : Prop := forall h n, @env_alloc E h n = true.

(** The header of the request: the first char of the identifier is the
    sequence number. *)
Definition list_request (type seqn : Z) (h : syncs_header) : Prop :=
  header_wf h /\ header_good h = true /\ hd_type h = type /\ hd_data_size h = 0 /\
  id_char (hd_id h) 0 = u8 seqn.

Lemma put_eventlist_wf f s :
  connect_wf s -> (forall l, li_info (f l) = li_info l) -> connect_wf (put_eventlist f s).
Proof.
  intros Hw Hf. apply (la_put _ _ _ _ eventlist_access); [done|]. intros i Hi. rewrite Hf in Hi.
  by apply (cwf_eventlist _ Hw).
Qed.

(** What the call does before it waits: on first use it allocates the array,
    then it sends the request. *)
Definition eventlist_request_io (s : syncs_connect) (bs : list byte) : list io :=
  match li_info (cn_eventlist s) with
  | Some _ => []
  | None => [IoAlloc (Z.of_nat SYNCS_EVENT_MAXIMUM * sizeof_event_info)]
  end ++ [IoSend (cn_socketfd s) bs; IoClock].

Lemma request_eventslist_answered `{Env} `{!Lossless} count cw :
  allocates H -> cwinv cw -> connected (c_connect cw) ->
  exists h seqn, list_request SYNCS_TYPE_EVENT_LIST seqn h /\
    forall es ds, list_frames SYNCS_TYPE_EVENT_LIST (u8 seqn) 5 es (delivered_frame <$> ds) ->
      Forall sized ds -> Forall (fun e => zlen e = sizeof_event_info) es -> (length es <= SYNCS_EVENT_MAXIMUM)%nat ->
      exists cw' info, syncs_request_eventslist count [mk_wakeup ds false] cw =
          Ok ((Some info, Z.of_nat (length es)), cw') /\
        c_log cw' = c_log cw ++ eventlist_request_io (c_connect cw) (encode_frame (h, [])) /\
        ztake (Z.of_nat (length es) * sizeof_event_info) info = concat es.
Proof.
  intros Ha Hw Hc.
  assert (wp stack_header (fun p w' => w' = cw /\ header_wf p) cw) as Hp.
  { unfold stack_header. wp_step. apply run_stack_packet. intros p Hp Hh. by wp_step. }
  apply wp_run in Hp as (p & ? & Ep & -> & Hp).
  set (seqn := u8 (li_sequence (cn_eventlist (c_connect cw)) + 1)).
  set (h := syncs_fill_basic_header_request (p <| hd_id ::= fun a => id_set_char a 0 seqn |>) SYNCS_TYPE_EVENT_LIST).
  exists h, seqn. split.
  { subst h. destruct p as [m0 crc t0 i0 sync uc n0 m1]. pose proof (id_set_char_wf i0 0 seqn).
    unfold list_request, header_wf in *. simpl in *.
    split; [repeat (split; [first [tauto|done]|]); done|]. split_and!; try done.
    rewrite id_char_set by lia. by rewrite decide_True. }
  intros es ds Hfs Hsized Hes Hlen.
  assert (u8 seqn = seqn) as Hseqn by (subst seqn; unfold u8; by rewrite Zmod_mod).
  assert (wp (syncs_request_eventslist count [mk_wakeup ds false]) (fun r cw' => exists info,
    r = (Some info, Z.of_nat (length es)) /\
    c_log cw' = c_log cw ++ eventlist_request_io (c_connect cw) (encode_frame (h, [])) /\
    ztake (Z.of_nat (length es) * sizeof_event_info) info = concat es) cw) as Hr.
  { unfold syncs_request_eventslist, request_list. eapply wp_eq; [apply bind_Ok, Ep|].
    wp_step. apply wp_connect_get. wp_step.
    eapply (wp_mono _ (fun b w1 => b = true /\ cwinv w1 /\ connected (c_connect w1) /\
      li_sequence (cn_eventlist (c_connect w1)) = li_sequence (cn_eventlist (c_connect cw)) /\
      c_log w1 ++ [IoSend (cn_socketfd (c_connect w1)) (encode_frame (h, [])); IoClock] =
        c_log cw ++ eventlist_request_io (c_connect cw) (encode_frame (h, [])) /\
      exists info, li_info (cn_eventlist (c_connect w1)) = Some info)).
    { unfold eventlist_request_io. destruct (li_info (cn_eventlist (c_connect cw))) as [info|] eqn:Ei; [wp_step; eauto 10|].
      wp_step. wp_step. wp_step. unfold emit. wp_step. rewrite Ha. wp_step. apply wp_connect_upd. wp_step.
      split; [done|]. split; [|split; [exact Hc|split; [done|split; [cbn; by rewrite <- app_assoc|by eexists]]]].
      apply (la_put _ _ _ _ eventlist_access); [exact Hw|]. intros i [= <-]. cbn.
      unfold zero_bytes. rewrite zlen_replicate. done. }
    intros b w1 (-> & Hw1 & Hc1 & Hs1 & Hlog1 & info & Hi). cbn [negb]. wp_step. apply wp_connect_get.
    rewrite (proj2 (Z.ltb_ge _ _)) by (unfold connected in Hc1; lia).
    wp_step. apply wp_connect_upd. wp_step. apply wp_connect_get. cbn zeta.
    wp_step. apply wp_connect_upd. wp_step. apply wp_connect_upd. wp_step. apply wp_connect_upd.
    wp_step. apply run_connect_send; [left; exact Hc1|clia|rewrite zlen_encode_header; clia|]. rewrite client_io_tcp by exact Hc1.
    unfold syncs_wait_for_eventlist, syncs_wait_for. wp_step. wp_step. unfold emit. wp_step.
    set (w2 := io_emit IoClock _).
    assert (c_log w2 = c_log cw ++ eventlist_request_io (c_connect cw) (encode_frame (h, []))) as Hlog2.
    { rewrite <- Hlog1. subst w2. cbn -[encode_header syncs_fill_basic_header_request]. rewrite Hs1. fold seqn.
      rewrite <- app_assoc. unfold encode_frame. cbn [fst snd app]. by rewrite app_nil_r. }
    assert (receiving cn_eventlist sizeof_event_info (u8 seqn) 0 [] w2) as Hrec.
    { split; [by repeat apply put_eventlist_wf|]. exists info. cbn. rewrite Hs1. fold seqn.
      split_and!; try done. by rewrite !Hseqn. }
    cbn [wait_loop]. wp_step. apply wp_connect_get. wp_step; [done|]. wp_step. unfold receive_packets.
    cbn [wk_packets wk_timeout].
    eapply wp_mono; [apply (run_list_frames cn_eventlist put_eventlist SYNCS_EVENT_MAXIMUM SYNCS_TYPE_EVENT_LIST
      sizeof_event_info (u8 seqn) eventlist_access ltac:(done) ltac:(done) 5 es (delivered_frame <$> ds) ds w2)|].
    all: try done.
    { intros g data Hg. unfold syncs_process_packet. cbn zeta. by rewrite Hg. }
    intros u w3 (Hlog3 & _ & info' & Hi' & Hb & Hr & Hwait).
    cbn [wait_loop]. wp_step. apply wp_connect_get. rewrite Hwait. cbn [Z.eqb]. wp_step. cbn [negb Z.eqb].
    wp_step. apply wp_connect_get. wp_step. exists info'. rewrite Hi', Hr.
    split; [|split; [by rewrite Hlog3|done]]. do 2 f_equal. apply u32_small. unfold SYNCS_EVENT_MAXIMUM in Hlen. lia. }
  apply wp_run in Hr as (r & cw' & E & info & -> & Hlog & Hb). by exists cw', info.
Qed.

Lemma slots_length (live : nat -> bool) n : (length (list_slots live n) <= n)%nat.
Proof.
  unfold list_slots. etransitivity; [apply length_filter|]. by rewrite length_seq.
Qed.

(** The server's side of the exchange. *)
Lemma eventlist_answer `{Env} `{!Lossless} seqn h w c cl :
  list_request SYNCS_TYPE_EVENT_LIST seqn h ->
  winv w -> w_clients w !! c = Some cl -> pending cl = [] -> cl_socketfd cl > -1 ->
  exists w' es replies, syncs_client_handler c (RecvData (encode_frame (h, []))) w = Ok (0, w') /\
    w_log w' = w_log w ++ ((fun f => IoSend (cl_socketfd cl) (encode_frame f)) <$> replies) /\
    event_entries (w_events w) es /\ list_frames SYNCS_TYPE_EVENT_LIST (u8 seqn) 5 es replies.
Proof.
  intros (Hwf & Hg & Hty & Hsz & Hseq) Hw Hcl Hp Hfd.
  assert (frame_wf (h, [])) as Hf by (split_and!; [exact Hwf|exact Hg|exact Hsz|done]).
  pose proof (handler_eventlist c cl (h, []) w Hw Hcl Hp Hf) as Hs. cbn [fst] in Hs. rewrite Hty, Hseq in Hs.
  destruct (proj1 (wp_run _ _ _) (Hs eq_refl)) as (r & w' & E & -> & es & fs & Hfs & Hes & Hlog).
  exists w', es, fs. split; [done|]. split; [|done].
  rewrite Hlog. f_equal. clear -Hcl Hfd. induction fs as [|f fs IH]; [done|]. cbn. rewrite IH.
  unfold transmit_to at 1. change (sv_clients (w_server w)) with (w_clients w). rewrite Hcl. unfold transmit.
  by rewrite (proj2 (Z.gtb_lt _ _)) by lia.
Qed.

(** The entries fit the client's array. *)
Lemma event_entries_fit l es :
  event_entries l es -> Forall (fun e => zlen e = sizeof_event_info) es /\ (length es <= SYNCS_EVENT_MAXIMUM)%nat.
Proof.
  intros Hes. unfold event_entries in Hes. split.
  - eapply Forall2_Forall_r; [exact Hes|]. apply Forall_true. by intros i e [].
  - rewrite <- (list.Forall2_length _ _ _ Hes). apply slots_length.
Qed.

(** The whole exchange. *)
Lemma eventlist_exchange (Ec Es : Env) `{!@Lossless Ec} `{!@Lossless Es} count cw w c cl :
  allocates Ec -> cwinv cw -> connected (c_connect cw) ->
  winv w -> w_clients w !! c = Some cl -> pending cl = [] -> cl_socketfd cl > -1 ->
  exists bs w' es replies, @syncs_client_handler Es c (RecvData bs) w = Ok (0, w') /\
    w_log w' = w_log w ++ ((fun f => IoSend (cl_socketfd cl) (encode_frame f)) <$> replies) /\
    event_entries (w_events w) es /\
  forall ds, delivered_frame <$> ds = replies -> Forall sized ds ->
    exists cw' info, @syncs_request_eventslist Ec count [mk_wakeup ds false] cw =
        Ok ((Some info, Z.of_nat (length es)), cw') /\
      c_log cw' = c_log cw ++ eventlist_request_io (c_connect cw) bs /\
      ztake (Z.of_nat (length es) * sizeof_event_info) info = concat es.
Proof.
  intros Ha Hcw Hc Hw Hcl Hp Hfd.
  destruct (@request_eventslist_answered Ec _ count cw Ha Hcw Hc) as (h & seqn & Hreq & Hans).
  destruct (@eventlist_answer Es _ seqn h w c cl Hreq Hw Hcl Hp Hfd) as (w' & es & fs & E & Hlog & Hes & Hfs).
  destruct (event_entries_fit _ _ Hes) as [Hsz Hlen].
  exists (encode_frame (h, [])), w', es, fs. split; [done|]. split; [done|]. split; [done|].
  intros ds <- Hsized. by apply Hans.
Qed.

(** C17: the list of variables: the server answers the bytes [bs] with a
    sequence of packets, and when the receiver thread gets them, in order,
    while [syncs_request_eventslist] waits, the call has sent exactly [bs] and
    returns an array that starts with exactly one entry for each variable of
    the server, in the order of its table, each entry with the name, type,
    size, start of the value and counters of its variable, and their number. *)
Theorem eventlist_roundtrip (Ec Es : Env) `{!@Lossless Ec} `{!@Lossless Es} count cw w c cl :
  allocates Ec -> cwinv cw -> connected (c_connect cw) ->
  winv w -> w_clients w !! c = Some cl -> pending cl = [] -> cl_socketfd cl > -1 ->
  exists bs w' es replies, @syncs_client_handler Es c (RecvData bs) w = Ok (0, w') /\
    w_log w' = w_log w ++ ((fun f => IoSend (cl_socketfd cl) (encode_frame f)) <$> replies) /\
    Forall2 (event_entry (w_events w)) (event_slots (w_events w)) es /\
  forall ds, delivered_frame <$> ds = replies -> Forall sized ds ->
    exists cw' info, @syncs_request_eventslist Ec count [mk_wakeup ds false] cw =
        Ok ((Some info, Z.of_nat (length es)), cw') /\
      c_log cw' = c_log cw ++ eventlist_request_io (c_connect cw) bs /\
      ztake (Z.of_nat (length es) * sizeof_event_info) info = concat es.
Proof.
  intros Ha Hcw Hc Hw Hcl Hp Hfd.
  destruct (eventlist_exchange Ec Es count cw w c cl) as (bs & w' & es & replies & E & Hlog & Hes & Hans); [done..|].
  exists bs, w', es, replies. split_and!; [done..| |exact Hans].
  eapply list.Forall2_impl; [exact Hes|]. by intros i e [].
Qed.

Section instances.
#[local] Existing Instance perfect_env.

Lemma eventlist_roundtrip_witness :
  exists cl, w_clients demo !! 1%nat = Some cl /\
  exists bs w' es replies, syncs_client_handler 1 (RecvData bs) demo = Ok (0, w') /\
    w_log w' = w_log demo ++ ((fun f => IoSend (cl_socketfd cl) (encode_frame f)) <$> replies) /\
    Forall2 (event_entry (w_events demo)) (event_slots (w_events demo)) es /\
  forall ds, delivered_frame <$> ds = replies -> Forall sized ds ->
    exists cw' info, syncs_request_eventslist 0 [mk_wakeup ds false] sample_client =
        Ok ((Some info, Z.of_nat (length es)), cw') /\
      c_log cw' = c_log sample_client ++ eventlist_request_io (c_connect sample_client) bs /\
      ztake (Z.of_nat (length es) * sizeof_event_info) info = concat es.
Proof.
  destruct (client_view (w_clients demo) 1 8) as (cl & Hcl & Hp & Hfd); [by vm_compute|]. exists cl. split; [exact Hcl|].
  apply (eventlist_roundtrip perfect_env perfect_env 0 sample_client demo 1 cl).
  - intros h n. reflexivity.
  - exact sample_connect_wf.
  - reflexivity.
  - exact demo_winv.
  - exact Hcl.
  - exact Hp.
  - rewrite Hfd. lia.
Defined.
End instances.
