(* ===== verification/LinkReconnect.v ===== *)
(** * Client and server together: reconnection

    What a client sends when its connection is up makes the server subscribe
    it again to everything it was subscribed to. *)

From stdpp Require Import gmap.
From S2P Require Import Prelude.
From S2P Require Import Monad.
From S2P Require Import Types.
From S2P Require Import Net.
From S2P Require Import Framing.
From S2P Require Import Wire.
From S2P Require Import ServerState.
From S2P Require Import ServerEvents.
From S2P Require Import ServerPackets.
From S2P Require Import ServerInv.
From S2P Require Import Handler.
From S2P Require Import EventSpec.
From S2P Require Import Directory.
From S2P Require Import Refinement.
From S2P Require Import Publish.
From S2P Require Import ServerProps.
From S2P Require Import ServerStream.
From S2P Require Import ClientState.
From S2P Require Import ClientOps.
From S2P Require Import ClientInv.
From S2P Require Import ClientWire.
From S2P Require Import ClientReconnect.
From S2P Require Import ClientStream.
From S2P Require Import Link.

(** ** Transitions that only add *)

(** Every variable keeps its type and value and loses no subscriber. *)
Definition keeps_variables (st st' : dstate) : Prop :=
  forall id v, st.1 !! id = Some v -> exists v', st'.1 !! id = Some v' /\
    var_type v' = var_type v /\ var_value v' = var_value v /\ var_subs v ⊆ var_subs v'.

#[export] Instance keeps_variables_preorder : PreOrder keeps_variables.
Proof.
  split.
  - intros st id v Hv. by exists v.
  - intros st1 st2 st3 H12 H23 id v Hv. destruct (H12 id v Hv) as (v2 & Hv2 & ? & ? & ?).
    destruct (H23 id v2 Hv2) as (v3 & Hv3 & ? & ? & ?). exists v3. split_and!; [done|congruence..|set_solver].
Qed.

Lemma keeps_insert m uc uc' id v v' :
  m !! id = Some v -> var_type v' = var_type v -> var_value v' = var_value v -> var_subs v ⊆ var_subs v' ->
  keeps_variables (m, uc) (<[id := v']> m, uc').
Proof.
  intros Hv ??? id' v1 Hv1. cbn [fst] in *. destruct (decide (id = id')) as [<-|Hne].
  - rewrite lookup_insert_eq. exists v'. simplify_eq. done.
  - rewrite lookup_insert_ne by done. by exists v1.
Qed.

Lemma keeps_subscribe c id flags st : keeps_variables st (spec_subscribe c id flags st).2.
Proof.
  destruct st as [m uc]. unfold spec_subscribe, spec_open. cbn [fst snd].
  destruct (m !! id) as [v|] eqn:E.
  - destruct (types_compatible _ _); [|reflexivity]. apply (keeps_insert _ _ _ _ v); [done..|]. simpl. set_solver.
  - destruct (negb _); [reflexivity|]. destruct (full m); [reflexivity|].
    assert (forall v, keeps_variables (m, uc) (<[id := v]> m, uc)) as Hnew.
    { intros v id' v1 Hv1. cbn [fst] in *. rewrite lookup_insert_ne by congruence. by exists v1. }
    destruct (types_compatible _ _); [|apply Hnew]. cbn [snd]. rewrite insert_insert_eq. apply Hnew.
Qed.

(** A subscription the directory accepts adds the client. *)
Lemma subscribe_adds c id flags st v :
  st.1 !! id = Some v -> types_compatible flags (var_type v) = true ->
  exists v', (spec_subscribe c id flags st).2.1 !! id = Some v' /\ c ∈ var_subs v'.
Proof.
  intros Hv Ht. unfold spec_subscribe, spec_open. rewrite Hv, Ht. cbn [fst snd].
  rewrite lookup_insert_eq. eexists. split; [done|]. simpl. set_solver.
Qed.

(** ** The packets of a fresh connection *)

(** Identification with the right version, subscription or channel. *)
Definition hello_frame (f : frame) : Prop :=
  let msg := Z.land (hd_type f.1) SYNCS_TYPE_MSG_MASK in
  (msg = SYNCS_TYPE_CLIENT_ID /\ data0 (hd_sync f.1) = SYNCS_VERSION_MAJOR) \/
  msg = SYNCS_TYPE_SUBSCRIBE \/ msg = SYNCS_TYPE_CHANNEL.

Lemma hello_keeps stale c f st : hello_frame f -> keeps_variables st (spec_packet stale c f st).
Proof.
  destruct f as [h data]. unfold hello_frame, spec_packet. cbn [fst].
  intros [[-> Hv]|[-> | ->]]; simpl; [|apply keeps_subscribe|reflexivity].
  by rewrite Hv.
Qed.

Lemma hello_packets_keep c fs st st' :
  spec_packets c fs st st' -> Forall hello_frame fs -> keeps_variables st st'.
Proof.
  induction 1 as [|stale f fs st st' _ IH]; intros Hfs; [reflexivity|].
  apply list.Forall_cons in Hfs as [Hf Hfs]. etransitivity; [by apply hello_keeps|by apply IH].
Qed.

Lemma spec_packets_app_inv c fs fs' st st2 :
  spec_packets c (fs ++ fs') st st2 -> exists st1, spec_packets c fs st st1 /\ spec_packets c fs' st1 st2.
Proof.
  revert st. induction fs as [|f fs IH]; intros st Hs; [exists st; split; [constructor|done]|].
  inversion Hs as [|stale ? ? ? ? Hs']; subst. destruct (IH _ Hs') as (st1 & H1 & H2).
  exists st1. split; [by econstructor|done].
Qed.

Lemma subscribe_type_compatible flags ty :
  types_compatible (subscribe_type flags) ty = types_compatible flags ty.
Proof. unfold types_compatible, subscribe_type. by rewrite (request_type_land _ flags SYNCS_TYPE_VAR_MASK). Qed.

(** What a subscription among them does. *)
Lemma packets_subscribe c fs f ev st st' v :
  spec_packets c fs st st' -> Forall hello_frame fs -> f ∈ fs -> subscribe_frame ev f ->
  st.1 !! ce_id ev = Some v -> types_compatible (ce_flags ev) (var_type v) = true ->
  exists v', st'.1 !! ce_id ev = Some v' /\ var_value v' = var_value v /\ c ∈ var_subs v'.
Proof.
  intros Hspec Hfs (l1 & l2 & ->)%list_elem_of_split Hsf Hv Ht.
  apply Forall_app in Hfs as [Hfs1 Hfs2]. apply list.Forall_cons in Hfs2 as [_ Hfs2].
  apply spec_packets_app_inv in Hspec as (st1 & Hs1 & Hs2).
  inversion Hs2 as [|stale ? ? ? ? Hs3]; subst.
  destruct (hello_packets_keep _ _ _ _ Hs1 Hfs1 _ _ Hv) as (v1 & Hv1 & Ht1 & Hval1 & _).
  destruct f as [h data], Hsf as ((_ & _ & _ & Hty & Hid & _) & _ & _). cbn [fst] in Hty, Hid.
  unfold spec_packet in Hs3. rewrite Hty, Hid in Hs3. unfold subscribe_type in Hs3.
  rewrite request_type_msg in Hs3 by done. fold (subscribe_type (ce_flags ev)) in Hs3. cbn [Z.eqb] in Hs3.
  simpl in Hs3.
  destruct (subscribe_adds c (ce_id ev) (subscribe_type (ce_flags ev)) st1 v1 Hv1) as (v2 & Hv2 & Hc2).
  { by rewrite subscribe_type_compatible, Ht1. }
  destruct (keeps_subscribe c (ce_id ev) (subscribe_type (ce_flags ev)) st1 _ _ Hv1) as (v2' & Hv2' & _ & Hval2 & _).
  rewrite Hv2 in Hv2'. injection Hv2' as <-.
  destruct (hello_packets_keep _ _ _ _ Hs3 Hfs2 _ _ Hv2) as (v3 & Hv3 & _ & Hval3 & Hsub3).
  exists v3. split; [done|]. split; [congruence|set_solver].
Qed.

(** Every subscription of the client is among them. *)
Lemma hello_frames_subscribe s fs ev :
  hello_frames s fs -> ev ∈ cn_events s -> live_event ev -> exists f, f ∈ fs /\ subscribe_frame ev f.
Proof.
  intros (f0 & subs & anons & -> & _ & Hsubs & _) Hev Hlive.
  assert (ev ∈ filter live_event (cn_events s)) as [i Hi]%list_elem_of_lookup by by apply list_elem_of_filter.
  destruct (Forall2_lookup_l _ _ _ _ _ Hsubs Hi) as (f & Hf%list_elem_of_lookup_2 & Hsf).
  exists f. split; [set_solver|done].
Qed.

Lemma hello_subscribes c s fs ev st st' v :
  hello_frames s fs -> spec_packets c fs st st' -> Forall hello_frame fs ->
  ev ∈ cn_events s -> live_event ev -> st.1 !! ce_id ev = Some v ->
  types_compatible (ce_flags ev) (var_type v) = true ->
  exists v', st'.1 !! ce_id ev = Some v' /\ var_value v' = var_value v /\ c ∈ var_subs v'.
Proof.
  intros Hhello Hspec Hfs Hev Hlive. destruct (hello_frames_subscribe s fs ev) as (f & Hin & Hsf); [done..|].
  by apply (packets_subscribe c fs f).
Qed.

(** The frames of a client whose identifiers are no free marks. *)
Lemma hello_frames_ok s fs :
  hello_frames s fs -> connect_wf s -> id_is_free (cn_id s) = false ->
  Forall frame_wf fs /\ Forall frame_ok fs /\ Forall hello_frame fs.
Proof.
  intros (f0 & subs & anons & -> & ([Hwf0 Hh0] & Hd0 & Hsync) & Hsubs & Hanons) Hs Hid.
  assert (forall type id size f, request_header type id size f.1 -> zlen f.2 = size -> size <= SYNCS_VARIABLE_SIZE_MAXIMUM ->
    id_is_free id = false -> frame_wf f /\ frame_ok f) as Hframe.
  { intros type id size [h d] Hh Hz Hmax Hf. cbn [fst snd] in *. subst size. split.
    - by apply (request_frame_wf type id).
    - unfold frame_ok. cbn [fst]. by destruct Hh as (_ & _ & _ & _ & -> & _). }
  assert (Forall (fun f => frame_wf f /\ frame_ok f /\ hello_frame f) (f0 :: subs ++ anons)) as Hall.
  { constructor; [|apply Forall_app; split].
    - destruct (Hframe SYNCS_TYPE_CLIENT_ID (cn_id s) 0 f0) as [H1 H2]; [done|by rewrite Hd0|done|done|].
      split; [done|]. split; [done|]. left. destruct Hh0 as (_ & _ & Hty & _). rewrite Hty, Hsync. done.
    - eapply Forall2_Forall_r; [exact Hsubs|]. apply list.Forall_forall.
      intros ev [Hev _]%list_elem_of_filter f (Hh & Hd & _).
      destruct (Hframe _ _ 0 f Hh) as [H1 H2]; [by rewrite Hd|done|done|].
      split; [done|]. split; [done|]. right. left. destruct Hh as (_ & _ & _ & Hty & _). rewrite Hty.
      by apply request_type_msg.
    - eapply Forall2_Forall_r; [exact Hanons|]. apply list.Forall_forall.
      intros ch [Hch _]%list_elem_of_filter f (Hh & Hd).
      destruct (Hframe _ _ sizeof_channel_ticket f Hh) as [H1 H2]; [rewrite Hd; unfold encode_ticket; clia|done|done|].
      split; [done|]. split; [done|]. right. right. destruct Hh as (_ & _ & _ & Hty & _). by rewrite Hty. }
  split_and!; (eapply list.Forall_impl; [exact Hall|]); by intros f (? & ? & ?).
Qed.

(** C11: reconnection: what a client sends at the start of a connection, cut
    in any way into chunks of at least a header, subscribes it at the server
    to every variable it holds a subscription of a compatible type for, and
    changes no variable's value. *)
Theorem reconnect_restores_subscriptions (Ec Es : Env) `{!@Lossless Ec} cw w c cl :
  cwinv cw -> connected (c_connect cw) -> id_is_free (cn_id (c_connect cw)) = false ->
  winv w -> w_clients w !! c = Some cl -> pending cl = [] ->
  exists cw' fs, @syncs_send_id Ec cw = Ok (tt, cw') /\
    c_log cw' = c_log cw ++ sends (cn_socketfd (c_connect cw)) fs /\
  forall chunks, concat chunks = encode_frames fs -> Forall chunk_fits chunks ->
    exists w', @receive_chunks Es c chunks w = Ok (tt, w') /\
      forall ev v, ev ∈ cn_events (c_connect cw) -> live_event ev -> (abs w).1 !! ce_id ev = Some v ->
        types_compatible (ce_flags ev) (var_type v) = true ->
        exists v', (abs w').1 !! ce_id ev = Some v' /\ var_value v' = var_value v /\ c ∈ var_subs v'.
Proof.
  intros Hcw Hc Hid Hw Hcl Hp.
  destruct (proj1 (wp_run _ _ _) (@run_send_id Ec _ cw Hcw (or_introl Hc))) as ([] & cw' & E & _ & fs & Hfs & Hlog).
  rewrite client_sends_tcp in Hlog by done.
  exists cw', fs. split; [done|]. split; [done|]. intros chunks Hcat Hchunks.
  destruct (hello_frames_ok _ fs Hfs Hcw Hid) as (Hwf & Hok & Hhello).
  assert (parse (pending cl ++ concat chunks) = (fs, [])) as Hparse.
  { rewrite Hp, Hcat. cbn [app]. rewrite <- (app_nil_r (encode_frames fs)).
    rewrite parse_encode, parse_short by done. simpl. by rewrite app_nil_r. }
  destruct (proj1 (wp_run _ _ _) (@receive_chunks_spec Es chunks w c cl Hchunks Hw Hcl ltac:(by rewrite Hp; apply parse_short)
    ltac:(by rewrite Hparse))) as ([] & w' & E' & _ & Hspec & _).
  exists w'. split; [done|]. rewrite Hparse in Hspec. intros ev v Hev Hlive Hv Ht.
  by apply (hello_subscribes c (c_connect cw) fs ev (abs w) (abs w') v).
Qed.

Section instances.
#[local] Existing Instance perfect_env.

(** A client with the identifier and the subscription [a]. *)
Definition sample_named : cworld :=
  mk_cworld (c_connect sample_subscriber <| cn_id := syncs_idstr name_a |>) [].

Lemma sample_named_wf : cwinv sample_named.
Proof.
  assert (forall s, connect_wf s -> forall i, connect_wf (s <| cn_id := syncs_idstr i |>)) as Hid.
  { intros s [] i. split; try done. apply syncs_idstr_wf. }
  exact (Hid _ sample_subscriber_wf name_a).
Qed.

Lemma reconnect_restores_subscriptions_witness :
  exists cl, w_clients demo !! 0%nat = Some cl /\
  exists cw' fs, syncs_send_id sample_named = Ok (tt, cw') /\
    c_log cw' = c_log sample_named ++ sends (cn_socketfd (c_connect sample_named)) fs /\
  forall chunks, concat chunks = encode_frames fs -> Forall chunk_fits chunks ->
    exists w', receive_chunks 0 chunks demo = Ok (tt, w') /\
      forall ev v, ev ∈ cn_events (c_connect sample_named) -> live_event ev -> (abs demo).1 !! ce_id ev = Some v ->
        types_compatible (ce_flags ev) (var_type v) = true ->
        exists v', (abs w').1 !! ce_id ev = Some v' /\ var_value v' = var_value v /\ 0%nat ∈ var_subs v'.
Proof.
  destruct (client_view (w_clients demo) 0 7) as (cl & Hcl & Hp & Hfd); [by vm_compute|]. exists cl. split; [exact Hcl|].
  apply (reconnect_restores_subscriptions perfect_env perfect_env sample_named demo 0 cl).
  - exact sample_named_wf.
  - reflexivity.
  - exact sample_id.
  - exact demo_winv.
  - exact Hcl.
  - exact Hp.
Defined.
End instances.
