(* ===== verification/LinkUdp.v ===== *)
(** * Client and server together: datagrams

    The two sides of a UDP session: a client that comes to the server, however
    the network loses, repeats or reorders its datagrams, and a value that
    travels from one client to another. *)

From stdpp Require Import gmap.
From S2P Require Import Prelude.
From S2P Require Import Monad.
From S2P Require Import Types.
From S2P Require Import Net.
From S2P Require Import Framing.
From S2P Require Import Wire.
From S2P Require Import ServerState.
From S2P Require Import ServerEvents.
From S2P Require Import ServerPackets.
From S2P Require Import ServerInv.
From S2P Require Import Handler.
From S2P Require Import EventSpec.
From S2P Require Import Directory.
From S2P Require Import Refinement.
From S2P Require Import Publish.
From S2P Require Import ServerProps.
From S2P Require Import ServerData.
From S2P Require Import ServerStream.
From S2P Require Import ClientState.
From S2P Require Import ClientOps.
From S2P Require Import ClientInv.
From S2P Require Import ClientWire.
From S2P Require Import ClientReconnect.
From S2P Require Import ClientStream.
From S2P Require Import Link.
From S2P Require Import LinkReconnect.
From S2P Require Import Datagram.
From S2P Require Import UdpSession.
From S2P Require Import ServerReply.
From S2P Require Import ClientCalls.

(** ** Coming to the server *)

(** The client of a datagram that identifies its sender as [id]. *)
Definition session_slot (s : syncs_server) (addr : sockaddr_in) (id : syncsid_t) : option nat :=
  match syncs_find_uclient_addr s addr with
  | Some c => Some c
  | None => match syncs_find_uclient_id s id with Some c => Some c | None => syncs_get_free_client s end
  end.

Lemma datagram_slot_identification s addr h :
  is_identification h = true -> datagram_slot s addr h = session_slot s addr (hd_id h).
Proof. unfold datagram_slot, session_slot. by intros ->. Qed.

Lemma hello_session_frame f : frame_wf f -> frame_ok f -> hello_frame f -> session_frame f.
Proof.
  intros Hwf Hok Hhello. split; [done|]. split; [done|]. unfold ends_session, is_identification.
  by destruct Hhello as [[-> ->]|[-> | ->]].
Qed.

Lemma hello_first s fs : hello_frames s fs -> exists f fs', fs = f :: fs' /\ id_frame s f.
Proof. intros (f & subs & anons & -> & Hf & _). by exists f, (subs ++ anons). Qed.

Lemma client_sends_udp s fs :
  udp_connected s -> client_sends s fs = (fun f => IoSendto (cn_usocketfd s) (cn_saddr s) (encode_frame f)) <$> fs.
Proof. intros Hc. apply list_fmap_ext. intros i f _. by apply client_io_udp. Qed.

(** C12: a client without a connection introduces itself in datagrams, the
    identification first, and one for every subscription it holds.  Whatever
    the network then loses, repeats or reorders of the others, the address
    gets a session with one client, and every subscription of a compatible
    type whose datagram arrived is restored at the server, without a change of
    the variable's value. *)
Theorem udp_hello_restores_subscriptions (Ec Es : Env) `{!@Lossless Ec} cw addr w c :
  cwinv cw -> udp_connected (c_connect cw) -> id_is_free (cn_id (c_connect cw)) = false ->
  winv w -> session_slot (w_server w) addr (cn_id (c_connect cw)) = Some c ->
  exists cw' f fs, @syncs_send_id Ec cw = Ok (tt, cw') /\
    c_log cw' = c_log cw ++
      ((fun f => IoSendto (cn_usocketfd (c_connect cw)) (cn_saddr (c_connect cw)) (encode_frame f)) <$> f :: fs) /\
    (forall ev, ev ∈ cn_events (c_connect cw) -> live_event ev -> exists g, g ∈ f :: fs /\ subscribe_frame ev g) /\
  forall received, received ⊆ f :: fs ->
    exists w', @receive_datagrams Es addr (f :: received) w = Ok (tt, w') /\
      syncs_find_uclient_addr (w_server w') addr = Some c /\
      forall ev v g, g ∈ received -> subscribe_frame ev g -> (abs w).1 !! ce_id ev = Some v ->
        types_compatible (ce_flags ev) (var_type v) = true ->
        exists v', (abs w').1 !! ce_id ev = Some v' /\ var_value v' = var_value v /\ c ∈ var_subs v'.
Proof.
  intros Hcw Hc Hid Hw Hslot.
  destruct (proj1 (wp_run _ _ _) (@run_send_id Ec _ cw Hcw (or_intror Hc))) as ([] & cw' & E & _ & fs & Hfs & Hlog).
  rewrite client_sends_udp in Hlog by done.
  destruct (hello_frames_ok _ fs Hfs Hcw Hid) as (Hwf & Hok & Hhello).
  destruct (hello_first _ fs Hfs) as (f & fs' & -> & Hf).
  exists cw', f, fs'. split; [done|]. split; [done|].
  split; [intros ev Hev Hlive; by apply (hello_frames_subscribe (c_connect cw))|]. intros received Hsub.
  assert (forall P : frame -> Prop, Forall P (f :: fs') -> Forall P (f :: received)) as Hall.
  { intros P HP. rewrite list.Forall_forall in HP. apply list.Forall_forall. intros g Hg. apply HP. set_solver. }
  assert (Forall session_frame (f :: received)) as Hsess.
  { pose proof (proj1 (list.Forall_forall _ _) (Hall _ Hwf)). pose proof (proj1 (list.Forall_forall _ _) (Hall _ Hok)).
    pose proof (proj1 (list.Forall_forall _ _) (Hall _ Hhello)).
    apply list.Forall_forall. intros g Hg. apply hello_session_frame; auto. }
  assert (datagram_slot (w_server w) addr f.1 = Some c) as Hds.
  { destruct Hf as ((_ & _ & _ & Hty & Hhid & _) & _ & _).
    rewrite datagram_slot_identification by (unfold is_identification; by rewrite Hty). by rewrite Hhid. }
  destruct (proj1 (wp_run _ _ _) (@run_datagrams Es addr c received f w Hw Hds Hsess)) as ([] & w' & E' & _ & Hspec & Haddr & _).
  exists w'. split; [done|]. split; [done|]. intros ev v g Hg Hsf Hv Ht.
  apply (packets_subscribe c (f :: received) g ev (abs w)); try done; [by apply Hall|by right].
Qed.

(** ** From one client to another *)

(** A datagram of a session is processed for its client. *)
Lemma run_session_packet `{Env} addr c h data w (R : world -> Prop) :
  syncs_find_uclient_addr (w_server w) addr = Some c ->
  wp (syncs_client_process_packet c h data) (fun _ => R) w ->
  wp (syncs_uclient_process_packet addr h data) (fun r w' => r = 0 /\ R w') w.
Proof.
  intros Hs HR. unfold syncs_uclient_process_packet. wp_step. apply wp_server_get. rewrite Hs. wp_step. wp_step. wp_step.
  eapply wp_mono; [exact HR|]. intros r w' Hw'. by wp_step.
Qed.

Lemma session_write `{Env} `{!Lossless} addr c f w :
  winv w -> syncs_find_uclient_addr (w_server w) addr = Some c -> frame_wf f ->
  id_is_free (hd_id f.1) = false -> Z.land (hd_type f.1) SYNCS_TYPE_MSG_MASK = SYNCS_TYPE_WRITE ->
  (spec_write c (hd_id f.1) (hd_type f.1) f.2 (abs w)).1 = 0 ->
  wp (syncs_udp_handler addr (RecvData (encode_frame f))) (fun r w' => r = 0 /\
    write_effect c f w (observed w')) w.
Proof.
  intros Hw Hs Hf Hid Hmsg Hok. apply run_udp_handler; [done..|]. intros w1 data b -> Hw1 Hd _ Hval.
  apply (run_session_packet addr c f.1 data _ (fun w' => write_effect c f w (observed w'))); [done|].
  apply process_write; try done. apply scan_lookup in Hs as (cl & Hcl & _). by apply (client_slot_lt w c cl).
Qed.

(** The library of a client on the datagram of an event. *)
Lemma event_datagram_delivered `{Env} f w cb args :
  cwinv w -> cn_onexit (c_connect w) = 0 -> frame_wf f -> is_event f ->
  subscribed (c_connect w) (hd_id f.1) cb args ->
  exists w', recv_rounds udprecv_round 0 [SelectRecv (RecvData (encode_frame f))] w = Ok (Some 0, w') /\
    c_log w' = c_log w ++ [IoCallback cb args (hd_id f.1) f.2].
Proof.
  intros Hw Hx Hf Hev Hsub.
  destruct (proj1 (wp_run _ _ _) (run_event_datagram 0 f w Hw Hf Hev)) as (r & w' & E & -> & _ & _ & Hx' & Hl).
  exists w'. split.
  - cbn [recv_rounds]. rewrite (bind_Ok connect_get _ w (c_connect w) w) by done. rewrite Hx. cbn [negb Z.eqb].
    rewrite (bind_Ok _ _ _ _ _ E). rewrite (bind_Ok connect_get _ w' (c_connect w') w') by done. by rewrite Hx', Hx.
  - rewrite Hl. f_equal. destruct f as [h v]. by apply callbacks_subscribed.
Qed.

(** C9: the same over datagrams: when a client with a session writes a
    variable it may write, the server sends the address of every subscribed
    UDP client one datagram, and the library of that client, receiving it,
    runs the callback it registered for that name on the value. *)
Theorem udp_write_reaches_subscriber (Ec Es Eb : Env) `{!@Lossless Ec} `{!@Lossless Es}
    flags cid d n cw addr w c v b clb bw cb args :
  udp_connected (c_connect cw) -> let n0 := write_size flags n in let id := syncs_idstr cid in
  0 <= n0 <= SYNCS_VARIABLE_SIZE_MAXIMUM -> n0 <= zlen d -> id_is_free id = false ->
  flag flags SYNCS_TYPE_SYNC = false ->
  winv w -> syncs_find_uclient_addr (w_server w) addr = Some c ->
  (abs w).1 !! id = Some v -> (spec_write c id flags (ztake n0 d) (abs w)).1 = 0 ->
  b ∈ var_subs v -> b <> c -> w_clients w !! b = Some clb -> cl_socketfd clb = UDP_SOCKET_STUB ->
  cwinv bw -> cn_onexit (c_connect bw) = 0 -> subscribed (c_connect bw) id cb args ->
  exists cw' bs, @syncs_write Ec flags cid (Some d) n cw = Ok (0, cw') /\
    c_log cw' = c_log cw ++ [IoSendto (cn_usocketfd (c_connect cw)) (cn_saddr (c_connect cw)) bs] /\
  exists w' pre bs' post, @syncs_udp_handler Es addr (RecvData bs) w = Ok (0, w') /\
    w_log w' = w_log w ++ pre ++ [IoSendto (sv_usocketfd (w_server w)) (cl_addr clb) bs'] ++ post /\
  exists bw', @recv_rounds (@udprecv_round Eb) 0 [SelectRecv (RecvData bs')] bw = Ok (Some 0, bw') /\
    c_log bw' = c_log bw ++ [IoCallback cb args id (ztake n0 d)].
Proof.
  intros Hc n0 id Hn Hd Hid Hsync Hw Hs Hv Hok Hb Hbc Hclb Hfd Hbw Hx Hsub.
  destruct (@syncs_write_sends Ec _ flags cid d n cw (or_intror Hc) Hn Hd) as (h & Hh & Hf & E).
  rewrite client_io_udp in E by done. fold n0 id in Hh, Hf, E.
  eexists _, _. split; [exact E|]. split; [done|]. destruct Hh as (_ & _ & _ & Hty & Hhid & _).
  assert (wp (@syncs_udp_handler Es addr (RecvData (encode_frame (h, ztake n0 d)))) (fun r w' => r = 0 /\
    write_effect c (h, ztake n0 d) w (observed w')) w) as Hsw.
  { apply session_write; cbn [fst snd]; rewrite ?Hhid, ?Hty; try done; [apply write_type_msg|].
    by rewrite spec_write_type. }
  apply wp_run in Hsw as (r & w' & E' & -> & Heff).
  destruct (write_published c h flags id (ztake n0 d) v b clb w w') as (pre & h' & post & Hlog & Hf' & Hev & Hhid'); [done..|].
  rewrite transmit_udp in Hlog by done. exists w', pre, (encode_frame (h', ztake n0 d)), post.
  split; [exact E'|]. split; [exact Hlog|].
  destruct (@event_datagram_delivered Eb (h', ztake n0 d) bw cb args) as (bw' & Er & Hl); cbn [fst snd]; try done.
  - by rewrite Hhid'.
  - exists bw'. split; [exact Er|]. rewrite Hl. cbn [fst snd]. by rewrite Hhid'.
Qed.

(** ** Instances *)

Section instances.
#[local] Existing Instance perfect_env.

(** Clients without a connection, and a server with two sessions. *)
Definition sample_udp : syncs_connect := sample_connect <| cn_socketfd := -1 |> <| cn_usocketfd := 6 |>.
Definition sample_udp_client : cworld := mk_cworld sample_udp [].
Definition sample_udp_named : cworld :=
  mk_cworld (sample_udp <| cn_id := syncs_idstr name_a |> <| cn_events ::= <[0%nat := sample_subscription]> |>) [].

Definition peer_b : sockaddr_in := mk_addr 0x0100007f 0x4321.
Definition hello_b : frame :=
  (mk_header SYNCS_PACKET_MAGIC 0 SYNCS_TYPE_CLIENT_ID (syncs_idstr [Byte.x62; Byte.x00])
     (mk_sync SYNCS_VERSION_MAJOR SYNCS_VERSION_MINOR) 0 0 SYNCS_PACKET_MAGIC_DATA, []).
Definition demo_one : world := after (receive_datagrams peer [hello_a; write_a]) server_start.
Definition demo_udp : world := after (receive_datagrams peer_b [hello_b; subscribe_a]) demo_one.

Lemma winv_session addr c f fs w :
  winv w -> datagram_slot (w_server w) addr f.1 = Some c -> Forall session_frame (f :: fs) ->
  winv (after (receive_datagrams addr (f :: fs)) w).
Proof. intros. apply winv_after. eapply wp_mono; [by eapply run_datagrams|]. by intros r w' [? _]. Qed.

Lemma demo_one_winv : winv demo_one.
Proof.
  apply (winv_session peer 0); [exact server_start_winv|by vm_compute|].
  repeat constructor; try (by vm_compute); intros ?; done.
Qed.

Lemma demo_udp_winv : winv demo_udp.
Proof.
  apply (winv_session peer_b 1); [exact demo_one_winv|by vm_compute|].
  repeat constructor; try (by vm_compute); intros ?; done.
Qed.

Lemma sample_udp_named_wf : cwinv sample_udp_named.
Proof.
  assert (forall s, connect_wf s -> connect_wf (s <| cn_socketfd := -1 |> <| cn_usocketfd := 6 |> <| cn_id := syncs_idstr name_a |>)) as Hs.
  { intros s []. split; first [done|apply syncs_idstr_wf]. }
  apply connect_wf_event; [exact (Hs _ sample_connect_wf)|]. split; [apply syncs_idstr_wf|done|done|done].
Qed.

Lemma demo_udp_session : syncs_find_uclient_addr (w_server demo_udp) peer = Some 0%nat.
Proof. by vm_compute. Qed.
Lemma demo_udp_slot : session_slot (w_server demo_udp) peer (cn_id (c_connect sample_udp_named)) = Some 0%nat.
Proof. by vm_compute. Qed.
Lemma demo_udp_accepted :
  (spec_write 0 (syncs_idstr name_a) int32_flags (ztake (write_size int32_flags 0) demo_data) (abs demo_udp)).1 = 0.
Proof. by vm_compute. Qed.
Lemma sample_udp_subscribed : subscribed (c_connect sample_udp_named) (syncs_idstr name_a) 77 88.
Proof. exists 0%nat. split_and!; [by vm_compute|reflexivity|done]. Qed.

Lemma udp_hello_restores_subscriptions_witness :
  exists cw' f fs, syncs_send_id sample_udp_named = Ok (tt, cw') /\
    c_log cw' = c_log sample_udp_named ++
      ((fun f => IoSendto (cn_usocketfd (c_connect sample_udp_named)) (cn_saddr (c_connect sample_udp_named))
        (encode_frame f)) <$> f :: fs) /\
    (forall ev, ev ∈ cn_events (c_connect sample_udp_named) -> live_event ev -> exists g, g ∈ f :: fs /\ subscribe_frame ev g) /\
  forall received, received ⊆ f :: fs ->
    exists w', receive_datagrams peer (f :: received) demo_udp = Ok (tt, w') /\
      syncs_find_uclient_addr (w_server w') peer = Some 0%nat /\
      forall ev v g, g ∈ received -> subscribe_frame ev g -> (abs demo_udp).1 !! ce_id ev = Some v ->
        types_compatible (ce_flags ev) (var_type v) = true ->
        exists v', (abs w').1 !! ce_id ev = Some v' /\ var_value v' = var_value v /\ 0%nat ∈ var_subs v'.
Proof.
  apply (udp_hello_restores_subscriptions perfect_env perfect_env sample_udp_named peer demo_udp 0).
  - exact sample_udp_named_wf.
  - split; [by vm_compute|by vm_compute].
  - exact sample_id.
  - exact demo_udp_winv.
  - exact demo_udp_slot.
Defined.

Lemma udp_client_view (l : list syncs_client) c fd :
  cl_socketfd <$> l !! c = Some fd -> exists cl, l !! c = Some cl /\ cl_socketfd cl = fd.
Proof. destruct (l !! c) as [cl|]; [|done]. intros [= E]. by exists cl. Qed.

Lemma udp_write_reaches_subscriber_witness :
  exists clb, w_clients demo_udp !! 1%nat = Some clb /\
  exists cw' bs, syncs_write int32_flags name_a (Some demo_data) 0 sample_udp_client = Ok (0, cw') /\
    c_log cw' = c_log sample_udp_client ++
      [IoSendto (cn_usocketfd (c_connect sample_udp_client)) (cn_saddr (c_connect sample_udp_client)) bs] /\
  exists w' pre bs' post, syncs_udp_handler peer (RecvData bs) demo_udp = Ok (0, w') /\
    w_log w' = w_log demo_udp ++ pre ++ [IoSendto (sv_usocketfd (w_server demo_udp)) (cl_addr clb) bs'] ++ post /\
  exists bw', recv_rounds udprecv_round 0 [SelectRecv (RecvData bs')] sample_udp_named = Ok (Some 0, bw') /\
    c_log bw' = c_log sample_udp_named ++
      [IoCallback 77 88 (syncs_idstr name_a) (ztake (write_size int32_flags 0) demo_data)].
Proof.
  destruct (udp_client_view (w_clients demo_udp) 1 UDP_SOCKET_STUB) as (clb & Hclb & Hfd); [by vm_compute|].
  destruct (subscriber_view (abs demo_udp).1 (syncs_idstr name_a) 1) as (v & Hv & Hb); [by vm_compute|].
  exists clb. split; [exact Hclb|].
  apply (udp_write_reaches_subscriber perfect_env perfect_env perfect_env int32_flags name_a demo_data 0
    sample_udp_client peer demo_udp 0 v 1 clb sample_udp_named 77 88).
  - split; [by vm_compute|by vm_compute].
  - exact sample_size.
  - exact sample_length.
  - exact sample_id.
  - exact sample_sync.
  - exact demo_udp_winv.
  - exact demo_udp_session.
  - exact Hv.
  - exact demo_udp_accepted.
  - exact Hb.
  - discriminate.
  - exact Hclb.
  - exact Hfd.
  - exact sample_udp_named_wf.
  - reflexivity.
  - exact sample_udp_subscribed.
Defined.
End instances.
