(* ===== verification/ChannelProps.v ===== *)
(** * Channels from end to end

    A client announces a channel, the server stores and hands out its ticket,
    and the client that asked for it never looks at the answer. *)

From stdpp Require Import gmap.
From S2P Require Import Prelude.
From S2P Require Import Monad.
From S2P Require Import Types.
From S2P Require Import Net.
From S2P Require Import Text.
From S2P Require Import Framing.
From S2P Require Import Wire.
From S2P Require Import ServerState.
From S2P Require Import ServerEvents.
From S2P Require Import ServerPackets.
From S2P Require Import ServerInv.
From S2P Require Import ServerSafe.
From S2P Require Import ServerLoop.
From S2P Require Import Handler.
From S2P Require Import EventSpec.
From S2P Require Import Directory.
From S2P Require Import Refinement.
From S2P Require Import Publish.
From S2P Require Import Table.
From S2P Require Import Channels.
From S2P Require Import ServerProps.
From S2P Require Import ServerReply.
From S2P Require Import ClientState.
From S2P Require Import ClientOps.
From S2P Require Import ClientCalls.
From S2P Require Import ClientInv.
From S2P Require Import ClientSafe.
From S2P Require Import ClientWire.
From S2P Require Import ClientStream.
From S2P Require Import Link.

(** ** Tickets as bytes *)

Definition ticket_wf (t : syncs_channel_ticket) : Prop :=
  0 <= tk_ip t < 2 ^ 32 /\ 0 <= tk_port t < 2 ^ 16 /\ 0 <= tk_flags t < 2 ^ 32.

Lemma zlen_encode_ticket t : zlen (encode_ticket t) = sizeof_channel_ticket.
Proof. unfold encode_ticket. by rewrite !zlen_app, !zlen_le_split. Qed.

Lemma decode_encode_ticket t : ticket_wf t -> decode_ticket (encode_ticket t) = t.
Proof.
  intros (Hi & Hp & Hf). unfold decode_ticket, encode_ticket.
  rewrite (mem_sub_hit 4), (mem_sub_skip 4 4), (mem_sub_skip 4 6) by (rewrite ?zlen_le_split; lia).
  rewrite Z.sub_diag, (mem_sub_hit 2), (mem_sub_skip 2) by (rewrite ?zlen_le_split; lia).
  rewrite (mem_sub_all 4) by (by rewrite zlen_le_split).
  rewrite !le_combine_split_small by lia. by destruct t.
Qed.

Definition ANONS_TYPE : Z := Z.lor SYNCS_TYPE_CHANNEL SYNCS_CHANNEL_ANONS.
Definition REQUEST_TYPE : Z := Z.lor SYNCS_TYPE_CHANNEL SYNCS_CHANNEL_REQUEST.

(** ** The server *)

Section server.
Context `{Env}.
Implicit Types (w : world).

Lemma announce_handled c cl h id t w :
  winv w -> w_clients w !! c = Some cl -> pending cl = [] -> id_is_free id = false ->
  ticket_wf t -> request_header ANONS_TYPE id sizeof_channel_ticket h ->
  wp (syncs_client_handler c (RecvData (encode_frame (h, encode_ticket t)))) (fun r w' => r = 0 /\ winv w' /\
    channels_of w' = spec_announce c (sin_addr (cl_addr cl)) id t (channels_of w)) w.
Proof.
  intros Hw Hcl Hp Hid Ht Hh. pose proof Hh as (Hwf & _ & _ & Hty & Hhid & Hsz).
  assert (frame_wf (h, encode_ticket t)) as Hf.
  { apply (request_frame_wf ANONS_TYPE id); rewrite zlen_encode_ticket; [done|clia]. }
  apply (run_handler_world c cl _ w (fun w' => channels_of w' = spec_announce c (sin_addr (cl_addr cl)) id t (channels_of w)));
    [done..| |].
  { intros w1 w2 [_ E]. unfold channels_of. by rewrite E. }
  intros w1 data Hw1 [Ho Hch] Hd1 Hd2 Hval. cbn [fst snd] in *. rewrite Hsz in Hval.
  assert (c < SYNCS_CLIENT_MAXIMUM)%nat as Hc.
  { apply lookup_lt_Some in Hcl. by rewrite <- (swf_clients (w_server w)). }
  destruct (lookup_lt_is_Some_2 (w_clients w1) c) as [cl1 Hcl1].
  { unfold w_clients, on_server. by rewrite swf_clients. }
  assert (sin_addr (cl_addr cl1) = sin_addr (cl_addr cl)) as Eip.
  { pose proof (f_equal (fun o => o.1.2.1 !! c) Ho) as En. unfold observed, w_net, on_server, net_view, endpoints in En.
    cbn in En. rewrite !list_lookup_fmap in En. change (sv_clients (w_server w1)) with (w_clients w1) in En.
    change (sv_clients (w_server w)) with (w_clients w) in En. rewrite Hcl1, Hcl in En. by injection En as _ ->. }
  eapply wp_mono; [apply wp_wlp; [apply (safe_client_process_packet c h data w1); first [done|rewrite Hsz; clia|clia]|
    apply (channel_process_refines c h data w1 cl1); [done..|by rewrite Hhid]]|].
  intros r w2 [_ E]. rewrite E. unfold spec_channel_packet. rewrite Hty, Hhid, Hval, decode_encode_ticket by done.
  cbn [Z.eqb]. rewrite Eip. unfold channels_of. by rewrite Hch.
Qed.

(** The answer to a request: the ticket, or silence. *)
Definition ticket_answer (s : syncs_server) (c : nat) (id : syncsid_t) (a : option announced) (es : list io) : Prop :=
  match a with
  | Some a => exists h, request_header SYNCS_CHANNEL_TICKET id sizeof_channel_ticket h /\
      es = transmit_to s (encode_frame (h, encode_ticket (an_ticket a))) c
  | None => es = []
  end.

Lemma run_channel_request `{!Lossless} c id flags w :
  winv w -> (c < SYNCS_CLIENT_MAXIMUM)%nat -> id_wf id -> id_is_free id = false ->
  wp (syncs_client_channel_request c id flags) (fun _ w' => winv w' /\ w_channels w' = w_channels w /\
    exists es, w_log w' = w_log w ++ es /\ ticket_answer (w_server w) c id (channels_of w !! id) es) w.
Proof.
  intros Hw Hc Hid Hf. unfold channels_of, announcement_map. rewrite table_find; [|exact (swf_channel_ids _ Hw)|done].
  unfold syncs_client_channel_request. wp_step. apply run_stack_packet.
  intros p Hp (_ & Hcrc & _ & _ & Hd0 & Hd1 & Huc & _ & _). wp_step. apply wp_server_get.
  unfold syncs_find_channel. change (sv_channels (w_server w)) with (w_channels w).
  destruct (scan _ (w_channels w)) as [n|] eqn:E.
  2: { wp_step. split; [done|]. split; [done|]. exists []. by rewrite app_nil_r. }
  destruct (scan_lookup _ _ _ E) as (ch & Hch & Hide%syncs_idcmp_eq). rewrite Hch. cbn [fmap option_fmap option_map].
  assert (n < SYNCS_CHANNEL_MAXIMUM)%nat as Hn.
  { apply scan_lt in E. by rewrite <- (swf_channels (w_server w)). }
  wp_step. apply wp_channel_at; [done..|]. intros ch' Hch'. change (w_channels w !! n = Some ch') in Hch'. simplify_eq.
  rewrite syncs_fill_header_eq. unfold packet_full in Hp. destruct p as [[m0 crc t0 i0 sync uc n0 m1] b].
  cbn [pk_header pk_buffer] in *. simpl in Hcrc, Hd0, Hd1, Huc.
  pose proof (zlen_encode_ticket (ch_ticket ch)) as Hz.
  wp_step. apply wp_memcpy; [clia..|]. rewrite ztake_ge by lia. wp_step. unfold set_with. cbn [hd_type hd_magic].
  set (h := mk_header _ _ _ _ _ _ sizeof_channel_ticket _).
  apply run_client_send'; [done..| |].
  { unfold packet_full. cbn [pk_buffer]. rewrite zlen_mem_put; clia. }
  intros r. wp_step. split; [by apply winv_emits|]. split.
  { unfold w_channels, on_server. by rewrite io_emits_server. }
  eexists. split; [exact (io_log_emits _ w)|]. exists h. split; [by apply made_header_request|].
  by f_equal.
Qed.

Lemma request_handled `{!Lossless} c cl h id w :
  winv w -> w_clients w !! c = Some cl -> pending cl = [] -> id_wf id -> id_is_free id = false ->
  request_header REQUEST_TYPE id 0 h ->
  wp (syncs_client_handler c (RecvData (encode_frame (h, [])))) (fun r w' => r = 0 /\ winv w' /\
    channels_of w' = channels_of w /\
    exists es, w_log w' = w_log w ++ es /\ ticket_answer (w_server w) c id (channels_of w !! id) es) w.
Proof.
  intros Hw Hcl Hp Hid Hf Hh. pose proof Hh as (Hwf & _ & _ & Hty & Hhid & Hsz).
  assert (frame_wf (h, [])) as Hfr by (by apply (request_frame_wf REQUEST_TYPE id)).
  assert (c < SYNCS_CLIENT_MAXIMUM)%nat as Hc.
  { apply lookup_lt_Some in Hcl. by rewrite <- (swf_clients (w_server w)). }
  apply (run_handler_world c cl _ w (fun w' => channels_of w' = channels_of w /\
    exists es, w_log w' = w_log w ++ es /\ ticket_answer (w_server w) c id (channels_of w !! id) es)); [done..| |].
  { intros w1 w2 [Ho E]. apply (f_equal snd) in Ho. cbn in Ho. unfold channels_of. by rewrite E, Ho. }
  intros w1 data Hw1 [Ho Hch] Hd1 Hd2 Hval. cbn [fst snd] in *.
  pose proof (f_equal snd Ho) as Hl. cbn in Hl. pose proof (f_equal (fun o => o.1.2) Ho) as Hnet. cbn in Hnet.
  assert (packet_operation c h data = Some (_ ← (_ ← syncs_client_channel_request c id (hd_type h); mret 0); mret tt)) as Eop.
  { unfold packet_operation, syncs_client_channel. by rewrite Hty, Hhid. }
  unfold syncs_client_process_packet. rewrite Eop. wp_step. wp_step. wp_step. eapply wp_mono; [by apply run_channel_request|].
  intros r w2 (Hw2 & Hch2 & es & Hl2 & Hans). wp_step. wp_step. wp_step.
  eapply wp_mono; [apply (wp_keeps w_channels (client_upd c (fun cl => cl <| cl_rx_event_count ::= incr_i32 |>))
    (fun _ w' => w_log w' = w_log w2))|].
  { apply run_client_counter; [done..|]. by intros w3 _ _ _ ->. }
  intros u w3 [Hl3 Hch3]. wp_step. unfold channels_of in *. rewrite Hch3, Hch2, Hch. split; [done|].
  exists es. split; [by rewrite Hl3, Hl2, Hl|]. rewrite Hch in Hans. unfold ticket_answer in *.
  destruct (announcement_map (w_channels w) !! id); [|done]. destruct Hans as (h' & Hh' & ->). exists h'. split; [done|].
  by apply transmit_to_view.
Qed.
End server.

(** ** The client *)

(** The fields a ticket would have to pass through, and the socket. *)
Definition ticket_state (w : cworld) : syncs_channel_ticket * Z * Z * list byte :=
  let s := c_connect w in (cn_ticket_data s, cn_ticket_wait s, cn_socketfd s, cn_addr s).

#[local] Typeclasses Opaque connect_get connect_upd cevent_at cevent_upd emit stack_packet stack_header memcpy
  syncs_blocking_send syncs_connect_send syncs_client_send_subscribe syncs_client_send_id
  syncs_client_send_channel_anons syncs_send_id clock_gettime wait_sync_round syncs_wait_sync
  syncs_process_event syncs_channel_process_packet syncs_process_error process_list process_read
  syncs_process_packet for_each fold_m receive_loop recv_round.

#[local] Hint Extern 1 (Keeps ticket_state (connect_upd _)) => (apply keeps_modify; reflexivity) : typeclass_instances.

Section client.
Context `{Env}.

#[local] Instance keeps_ticket_get : Keeps ticket_state connect_get.
Proof. unfold connect_get. apply _. Qed.
#[local] Instance keeps_ticket_cevent_at e : Keeps ticket_state (cevent_at e).
Proof. unfold cevent_at. apply _. Qed.
#[local] Instance keeps_ticket_cevent_upd e f : Keeps ticket_state (cevent_upd e f).
Proof. unfold cevent_upd. apply _. Qed.
#[local] Instance keeps_ticket_emit e : Keeps ticket_state (emit e).
Proof. unfold emit. apply keeps_modify. reflexivity. Qed.
#[local] Instance keeps_ticket_stack_packet : Keeps ticket_state stack_packet.
Proof. unfold stack_packet. apply _. Qed.
#[local] Instance keeps_ticket_blocking_send sock buffer len : Keeps ticket_state (syncs_blocking_send sock buffer len).
Proof.
  unfold syncs_blocking_send. generalize (Z.to_nat len) as fuel. intros fuel.
  revert buffer len. induction fuel; intros; simpl; unfold os_send; apply _.
Qed.
#[local] Instance keeps_ticket_connect_send buffer size : Keeps ticket_state (syncs_connect_send buffer size).
Proof. unfold syncs_connect_send, syncs_udp_send. apply _. Qed.
#[local] Instance keeps_ticket_send_subscribe id flags n : Keeps ticket_state (syncs_client_send_subscribe id flags n).
Proof. unfold syncs_client_send_subscribe. apply _. Qed.
#[local] Instance keeps_ticket_send_id_packet id : Keeps ticket_state (syncs_client_send_id id).
Proof. unfold syncs_client_send_id, stack_header. apply _. Qed.
#[local] Instance keeps_ticket_send_anons id t : Keeps ticket_state (syncs_client_send_channel_anons id t).
Proof. unfold syncs_client_send_channel_anons. apply _. Qed.
#[local] Instance keeps_ticket_send_id : Keeps ticket_state syncs_send_id.
Proof. unfold syncs_send_id. apply _. Qed.
#[local] Instance keeps_ticket_wait_sync sync : Keeps ticket_state (syncs_wait_sync sync).
Proof.
  unfold syncs_wait_sync. apply keeps_bind; [|intros ?; apply _].
  assert (Keeps ticket_state (wait_sync_round sync)) as Hr by (unfold wait_sync_round, clock_gettime; apply _).
  generalize 33%nat as n. induction n as [|n IH]; cbn [loop_upto]; [exact Hr|].
  apply keeps_bind; [exact IH|]. intros []; [exact IH|apply _].
Qed.
#[local] Instance keeps_ticket_event h data : Keeps ticket_state (syncs_process_event h data).
Proof. unfold syncs_process_event. apply _. Qed.
#[local] Instance keeps_ticket_error h : Keeps ticket_state (syncs_process_error h).
Proof. unfold syncs_process_error. apply _. Qed.
#[local] Instance keeps_ticket_read h data : Keeps ticket_state (process_read h data).
Proof. unfold process_read. apply _. Qed.
#[local] Instance keeps_ticket_eventlist size h data : Keeps ticket_state (process_list cn_eventlist put_eventlist size h data).
Proof. unfold process_list. apply _. Qed.
#[local] Instance keeps_ticket_clientlist size h data : Keeps ticket_state (process_list cn_clientlist put_clientlist size h data).
Proof. unfold process_list. apply _. Qed.
#[local] Instance keeps_ticket_channellist size h data : Keeps ticket_state (process_list cn_channellist put_channellist size h data).
Proof. unfold process_list. apply _. Qed.

(** The mask of the [switch] leaves no ticket. *)
Lemma never_ticket type : Z.land type SYNCS_TYPE_CHANNEL_MASK =? SYNCS_CHANNEL_TICKET = false.
Proof.
  apply Z.eqb_neq. intros E. apply (f_equal (fun x => Z.land x SYNCS_CHANNEL_TICKET)) in E.
  rewrite <- Z.land_assoc in E. change (Z.land SYNCS_TYPE_CHANNEL_MASK SYNCS_CHANNEL_TICKET) with 0 in E.
  by rewrite Z.land_0_r in E.
Qed.

Lemma channel_packet_ignored h data : syncs_channel_process_packet h data = mret tt.
Proof. unfold syncs_channel_process_packet. by rewrite never_ticket. Qed.

#[local] Instance keeps_ticket_channel h data : Keeps ticket_state (syncs_channel_process_packet h data).
Proof. rewrite channel_packet_ignored. apply _. Qed.
#[local] Instance keeps_ticket_packet h data : Keeps ticket_state (syncs_process_packet h data).
Proof. unfold syncs_process_packet. apply _. Qed.

#[local] Instance keeps_ticket_loop fuel buffer head recv :
  Keeps ticket_state (receive_loop syncs_process_packet fuel buffer head recv).
Proof. revert buffer head. induction fuel as [|fuel IH]; intros buffer head; cbn [receive_loop]; apply _. Qed.
#[local] Instance keeps_ticket_round n r : Keeps ticket_state (recv_round n r).
Proof. unfold recv_round. apply _. Qed.

Lemma keeps_ticket_rounds rs n : Keeps ticket_state (recv_rounds recv_round n rs).
Proof. revert n. induction rs as [|r rs IH]; intros n; cbn [recv_rounds]; apply _. Qed.
End client.

Section requests.
Context `{Env} `{!Lossless}.
Implicit Types (cw : cworld).

Lemma channel_anons_sends name flags port cw k :
  connected (c_connect cw) -> syncs_find_free_channel (c_connect cw) = Some k ->
  exists h cw', request_header ANONS_TYPE (syncs_idstr name) sizeof_channel_ticket h /\
    syncs_channel_anons name flags port cw = Ok (0, cw') /\
    c_log cw' = c_log cw ++
      [IoSend (cn_socketfd (c_connect cw)) (encode_frame (h, encode_ticket (mk_ticket 0 (u16 port) (u32 flags))))].
Proof.
  intros Hc Hk. set (t := mk_ticket 0 (u16 port) (u32 flags)).
  assert (wp (syncs_channel_anons name flags port) (fun r cw' => r = 0 /\ exists h,
    request_header ANONS_TYPE (syncs_idstr name) sizeof_channel_ticket h /\
    c_log cw' = c_log cw ++ [IoSend (cn_socketfd (c_connect cw)) (encode_frame (h, encode_ticket t))]) cw) as Hr.
  { unfold syncs_channel_anons. wp_step. apply wp_connect_get. rewrite Hk. wp_step. apply (wp_deref _ k); [done|]. cbn zeta. fold t.
    wp_step. apply wp_connect_upd. wp_step. unfold connected in Hc. rewrite (proj2 (Z.geb_le _ _)) by lia.
    wp_step. unfold syncs_client_send_channel_anons. wp_step. apply run_stack_packet.
    intros p Hp (_ & Hcrc & _ & _ & Hd0 & Hd1 & Huc & _ & _). unfold packet_full in Hp. cbn [cc_id cc_ticket].
    rewrite syncs_fill_header_eq. destruct p as [[m0 crc t0 i0 sync uc n0 m1] b]. cbn [pk_header pk_buffer] in *.
    simpl in Hcrc, Hd0, Hd1, Huc. pose proof (zlen_encode_ticket t) as Hz.
    wp_step. apply wp_memcpy; [clia..|]. rewrite ztake_ge by lia. wp_step. unfold set_with. cbn [hd_type hd_magic].
    set (h := mk_header _ _ _ _ _ _ sizeof_channel_ticket _).
    apply (run_send_frame h _ sizeof_channel_ticket (encode_ticket t)); [left; exact Hc|clia| |..].
    - rewrite zlen_mem_put; clia.
    - rewrite <- Hz, mem_put_start, ztake_app_le by lia. apply ztake_ge. lia.
    - repeat wp_step. rewrite client_io_tcp by exact Hc. split; [done|]. exists h. split; [|done]. apply made_header_request; try done.
      apply syncs_idstr_wf. }
  apply wp_run in Hr as (r & cw' & E & -> & h & Hh & Hl). by exists h, cw'.
Qed.

(** What the caller is given: the ticket the connection holds. *)
Definition held_ticket (s : syncs_connect) : syncs_channel_ticket :=
  let t := cn_ticket_data s in
  if tk_ip t =? LOOPBACK then t <| tk_ip := env_inet_addr (cn_addr s) |> else t.

Lemma channel_request_runs name cw :
  connected (c_connect cw) -> cn_ticket_wait (c_connect cw) = 0 ->
  exists h cw', request_header REQUEST_TYPE (syncs_idstr name) 0 h /\
    c_log cw' = c_log cw ++ [IoSend (cn_socketfd (c_connect cw)) (encode_frame (h, [])); IoClock] /\
    forall ticket wakeups, syncs_channel_request name ticket wakeups cw = Ok ((0, held_ticket (c_connect cw)), cw').
Proof.
  intros Hc Hwait.
  assert (wp stack_packet (fun p w' => w' = cw /\ packet_full p /\ header_wf (pk_header p)) cw) as Hp.
  { apply run_stack_packet. by intros p ??. }
  apply wp_run in Hp as (p & ? & Ep & -> & Hfull & Hph).
  set (s1 := c_connect cw <| cn_ticket_id := hd_id (syncs_fill_header_request_str (pk_header p) name REQUEST_TYPE) |>).
  set (h := syncs_fill_header_request_str (pk_header p) name REQUEST_TYPE) in *.
  exists h, (io_emit IoClock (io_emit (IoSend (cn_socketfd (c_connect cw)) (encode_frame (h, []))) (cw <| c_connect := s1 |>))).
  split.
  { subst h. rewrite syncs_fill_header_request_str_eq. destruct p as [[m0 crc t0 i0 sync uc n0 m1] b].
    destruct Hph as (_ & Hcrc & _ & _ & Hd0 & Hd1 & Huc & _ & _). simpl in *.
    apply made_header_request; try done. apply syncs_idstr_wf. }
  split; [cbn; by rewrite <- app_assoc|]. intros ticket wakeups.
  assert (wp (syncs_channel_request name ticket wakeups) (fun r w' => r = (0, held_ticket (c_connect cw)) /\
    w' = io_emit IoClock (io_emit (IoSend (cn_socketfd (c_connect cw)) (encode_frame (h, []))) (cw <| c_connect := s1 |>))) cw) as Hr.
  { unfold syncs_channel_request. eapply wp_eq; [apply bind_Ok, Ep|]. wp_step. apply wp_connect_get.
    unfold connected in Hc. rewrite (proj2 (Z.ltb_ge _ _)) by lia. cbn zeta. fold REQUEST_TYPE. fold h.
    wp_step. apply wp_connect_upd. wp_step. destruct p as [ph pb].
    apply (run_send_header h pb); [left; exact Hc|]. rewrite client_io_tcp by exact Hc. wp_step. unfold syncs_wait_for_ticket, syncs_wait_for.
    wp_step. unfold emit. wp_step.
    destruct wakeups as [|wk wakeups]; cbn [wait_loop]; wp_step; apply wp_connect_get; cbn; rewrite Hwait;
      cbn [Z.eqb negb]; wp_step; cbn [Z.eqb negb]; wp_step; apply wp_connect_get; by wp_step. }
  by apply wp_run in Hr as (r & cw' & -> & -> & ->).
Qed.
End requests.

(** C14: the channels of the server are a finite map from names to
    announcements: every packet of a client makes the transition of
    [spec_channel_packet] - an announcement enters the client's ticket with the
    client's own address, unless the table is full; a client that is
    disconnected takes its channels with it; nothing else changes them. *)
Theorem channels_refine_announcements `{Env} w c cl h data :
  winv w -> w_clients w !! c = Some cl -> id_is_free (hd_id h) = false ->
  0 <= hd_data_size h <= SYNCS_VARIABLE_SIZE_MAXIMUM -> hd_data_size h <= zlen data ->
  sizeof_channel_ticket <= zlen data ->
  exists r w', syncs_client_process_packet c h data w = Ok (r, w') /\ winv w' /\
    channels_of w' = spec_channel_packet c (sin_addr (cl_addr cl)) h data (channels_of w).
Proof.
  intros Hw Hcl Hid Hn Hd Ht. assert (c < SYNCS_CLIENT_MAXIMUM)%nat as Hc.
  { apply lookup_lt_Some in Hcl. by rewrite <- (swf_clients (w_server w)). }
  pose proof (wp_wlp _ _ _ _ (safe_client_process_packet c h data w Hw Hc Hn Hd Ht)
    (channel_process_refines c h data w cl Hw Hcl Hid)) as Hp.
  apply wp_run in Hp as (r & w' & E & Hw' & Hch). by exists r, w'.
Qed.

(** C15: a channel one client announces is handed out to another: the bytes of
    [syncs_channel_anons] make the server store the ticket under the name,
    with the announcer's address, and the bytes of [syncs_channel_request] of
    any other client then make it send exactly that ticket to that client. *)
Theorem announced_ticket_is_sent (Ea Eb Es : Env) `{!@Lossless Ea} `{!@Lossless Eb} `{!@Lossless Es}
    name flags port cwa k w a cla :
  connected (c_connect cwa) -> syncs_find_free_channel (c_connect cwa) = Some k ->
  id_is_free (syncs_idstr name) = false ->
  winv w -> w_clients w !! a = Some cla -> pending cla = [] ->
  is_Some (channels_of w !! syncs_idstr name) \/ size (channels_of w) <> SYNCS_CHANNEL_MAXIMUM ->
  let ticket := mk_ticket (sin_addr (cl_addr cla)) (u16 port) (u32 flags) in
  exists cwa' bs w1, @syncs_channel_anons Ea name flags port cwa = Ok (0, cwa') /\
    c_log cwa' = c_log cwa ++ [IoSend (cn_socketfd (c_connect cwa)) bs] /\
    @syncs_client_handler Es a (RecvData bs) w = Ok (0, w1) /\
  forall cwb b clb, connected (c_connect cwb) -> cn_ticket_wait (c_connect cwb) = 0 ->
    w_clients w1 !! b = Some clb -> pending clb = [] -> cl_socketfd clb > -1 ->
  exists bs' w2 h,
    (forall t wakeups, exists r cwb', @syncs_channel_request Eb name t wakeups cwb = Ok (r, cwb') /\
      c_log cwb' = c_log cwb ++ [IoSend (cn_socketfd (c_connect cwb)) bs'; IoClock]) /\
    @syncs_client_handler Es b (RecvData bs') w1 = Ok (0, w2) /\
    w_log w2 = w_log w1 ++ [IoSend (cl_socketfd clb) (encode_frame (h, encode_ticket ticket))] /\
    request_header SYNCS_CHANNEL_TICKET (syncs_idstr name) sizeof_channel_ticket h.
Proof.
  intros Hca Hk Hid Hw Hcla Hpa Hroom ticket.
  destruct (@channel_anons_sends Ea _ name flags port cwa k Hca Hk) as (ha & cwa' & Hha & Ea1 & Hla).
  set (t := mk_ticket 0 (u16 port) (u32 flags)) in *.
  assert (ticket_wf t) as Ht by (repeat split; first [apply u16_range|apply u32_range|done]).
  destruct (proj1 (wp_run _ _ _) (@announce_handled Es a cla ha _ t w Hw Hcla Hpa Hid Ht Hha)) as (r & w1 & E1 & -> & Hw1 & Hch1).
  eexists cwa', _, w1. split; [exact Ea1|]. split; [exact Hla|]. split; [exact E1|].
  intros cwb b clb Hcb Hwait Hclb Hpb Hfd.
  destruct (@channel_request_runs Eb _ name cwb Hcb Hwait) as (hb & cwb' & Hhb & Hlb & Hrun).
  destruct (proj1 (wp_run _ _ _) (@request_handled Es _ b clb hb _ w1 Hw1 Hclb Hpb (syncs_idstr_wf name) Hid Hhb))
    as (r & w2 & E2 & -> & _ & _ & es & Hl2 & Hans).
  assert (exists an, channels_of w1 !! syncs_idstr name = Some an /\ an_ticket an = ticket) as (an & Han & Htk).
  { rewrite Hch1. unfold spec_announce. destruct (channels_of w !! syncs_idstr name) as [an|] eqn:El.
    - rewrite lookup_insert_eq. by eexists.
    - rewrite bool_decide_false by (by destruct Hroom as [[? ?]|]). rewrite lookup_insert_eq. by eexists. }
  rewrite Han in Hans. destruct Hans as (h & Hh & ->). rewrite Htk in Hl2.
  eexists _, w2, h. split; [|split; [exact E2|split; [|exact Hh]]].
  - intros t' wakeups. eexists _, cwb'. split; [apply Hrun|exact Hlb].
  - rewrite Hl2. f_equal. unfold transmit_to. change (sv_clients (w_server w1)) with (w_clients w1). rewrite Hclb.
    unfold transmit. by rewrite (proj2 (Z.gtb_lt _ _)) by lia.
Qed.

(** C16: the ticket never reaches the caller: when [ticket_wait] is clear, as
    it is in a new connection, then whatever the client's receiver thread gets, [syncs_channel_request] afterwards returns success at once,
    without waiting for the answer, and gives the caller the ticket the
    connection held before anything was received. *)
Theorem channel_request_returns_stale `{Env} `{!Lossless} cw n rs r cw1 name :
  connected (c_connect cw) -> cn_ticket_wait (c_connect cw) = 0 ->
  recv_rounds recv_round n rs cw = Ok (r, cw1) ->
  exists cw2, forall ticket wakeups,
    syncs_channel_request name ticket wakeups cw1 = Ok ((0, held_ticket (c_connect cw)), cw2).
Proof.
  intros Hc Hwait E. pose proof (keeps (view := ticket_state) (Keeps := keeps_ticket_rounds rs n) _ _ _ E) as Hk.
  unfold ticket_state in Hk. injection Hk as Hd Hw Hs Ha.
  destruct (channel_request_runs name cw1) as (h & cw2 & _ & _ & Hrun).
  - unfold connected in *. by rewrite Hs.
  - by rewrite Hw.
  - exists cw2. intros ticket wakeups. rewrite Hrun. unfold held_ticket. by rewrite Hd, Ha.
Qed.

Section instances.
#[local] Existing Instance perfect_env.

Lemma demo_channels : w_channels demo = replicate SYNCS_CHANNEL_MAXIMUM free_channel.
Proof. by vm_compute. Qed.

Lemma demo_no_channels : channels_of demo = ∅.
Proof. unfold channels_of. rewrite demo_channels. by apply table_free. Qed.

Lemma demo_channel_room : is_Some (channels_of demo !! syncs_idstr name_a) \/ size (channels_of demo) <> SYNCS_CHANNEL_MAXIMUM.
Proof. right. rewrite demo_no_channels. by vm_compute. Qed.

Lemma sample_free_channel : syncs_find_free_channel (c_connect sample_client) = Some 0%nat.
Proof. by vm_compute. Qed.

(** Client 0 announces a channel. *)
Definition announce_a : frame :=
  (sample_header ANONS_TYPE (syncs_idstr name_a) sizeof_channel_ticket, encode_ticket (mk_ticket 9 8080 7)).

Lemma announce_a_live : id_is_free (hd_id announce_a.1) = false.
Proof. by vm_compute. Qed.

Lemma channels_refine_announcements_witness :
  exists cl, w_clients demo !! 0%nat = Some cl /\
  exists r w', syncs_client_process_packet 0 announce_a.1 announce_a.2 demo = Ok (r, w') /\ winv w' /\
    channels_of w' = spec_channel_packet 0 (sin_addr (cl_addr cl)) announce_a.1 announce_a.2 (channels_of demo).
Proof.
  destruct (client_view (w_clients demo) 0 7) as (cl & Hcl & _ & _); [by vm_compute|]. exists cl. split; [exact Hcl|].
  apply (channels_refine_announcements demo 0 cl announce_a.1 announce_a.2 demo_winv Hcl).
  - exact announce_a_live.
  - split; apply Z.leb_le; reflexivity.
  - apply Z.leb_le. reflexivity.
  - apply Z.leb_le. reflexivity.
Defined.

Lemma announced_ticket_is_sent_witness :
  exists cla, w_clients demo !! 0%nat = Some cla /\
  let ticket := mk_ticket (sin_addr (cl_addr cla)) (u16 8080) (u32 7) in
  exists cwa' bs w1, syncs_channel_anons name_a 7 8080 sample_client = Ok (0, cwa') /\
    c_log cwa' = c_log sample_client ++ [IoSend (cn_socketfd (c_connect sample_client)) bs] /\
    syncs_client_handler 0 (RecvData bs) demo = Ok (0, w1) /\
  forall cwb b clb, connected (c_connect cwb) -> cn_ticket_wait (c_connect cwb) = 0 ->
    w_clients w1 !! b = Some clb -> pending clb = [] -> cl_socketfd clb > -1 ->
  exists bs' w2 h,
    (forall t wakeups, exists r cwb', syncs_channel_request name_a t wakeups cwb = Ok (r, cwb') /\
      c_log cwb' = c_log cwb ++ [IoSend (cn_socketfd (c_connect cwb)) bs'; IoClock]) /\
    syncs_client_handler b (RecvData bs') w1 = Ok (0, w2) /\
    w_log w2 = w_log w1 ++ [IoSend (cl_socketfd clb) (encode_frame (h, encode_ticket ticket))] /\
    request_header SYNCS_CHANNEL_TICKET (syncs_idstr name_a) sizeof_channel_ticket h.
Proof.
  destruct (client_view (w_clients demo) 0 7) as (cla & Hcl & Hp & _); [by vm_compute|]. exists cla. split; [exact Hcl|].
  apply (announced_ticket_is_sent perfect_env perfect_env perfect_env name_a 7 8080 sample_client 0 demo 0 cla).
  - reflexivity.
  - exact sample_free_channel.
  - reflexivity.
  - exact demo_winv.
  - exact Hcl.
  - exact Hp.
  - exact demo_channel_room.
Defined.

(** The packet the server would send for the announcement above. *)
Definition ticket_a : frame :=
  (sample_header SYNCS_CHANNEL_TICKET (syncs_idstr name_a) sizeof_channel_ticket, encode_ticket (mk_ticket 9 8080 7)).
Definition ticket_arrives : list select_result := [SelectRecv (RecvData (encode_frame ticket_a))].

Lemma outcome_view {A B} (o : outcome (A * B)) a :
  match o with Ok p => Some p.1 | Fault _ => None end = Some a -> exists b, o = Ok (a, b).
Proof. destruct o as [[a' b]|]; [|done]. intros [= <-]. by exists b. Qed.

Lemma ticket_received : exists cw1, recv_rounds recv_round 0 ticket_arrives sample_client = Ok (Some 0, cw1).
Proof. apply outcome_view. by vm_compute. Qed.

Lemma channel_request_returns_stale_witness :
  exists cw1 cw2, recv_rounds recv_round 0 ticket_arrives sample_client = Ok (Some 0, cw1) /\
    forall ticket wakeups, syncs_channel_request name_a ticket wakeups cw1 = Ok ((0, mk_ticket 0 0 0), cw2).
Proof.
  destruct ticket_received as [cw1 E].
  destruct (channel_request_returns_stale sample_client 0 ticket_arrives (Some 0) cw1 name_a) as [cw2 Hrun].
  - reflexivity.
  - reflexivity.
  - exact E.
  - exists cw1, cw2. split; [exact E|]. exact Hrun.
Defined.
End instances.
