(* ===== verification/Crypt.v ===== *)
(** * Encryption and checksum: src/libsyncs/syncs-crypt.c

    [crc32], and the packet encryption of a build with [SYNCS_SECURY_DATA].
    The AES-256-CBC calls of OpenSSL are the class [Evp]: what the library
    relies on is that decryption undoes encryption and that PKCS#7 padding
    always adds between one and sixteen bytes.  Each call may fail; which do
    is an argument, [evp_calls]. *)

From S2P Require Import Prelude.
From S2P Require Import Monad.
From S2P Require Import Types.

(** ** Checksum *)

Definition CRC32_POLYNOMIAL : Z := 0xEDB88320.

(** One iteration of the loop over [j]. *)
Definition crc32_bit (crc : Z) : Z :=
  if Z.land crc 1 =? 0 then Z.shiftr crc 1
  else Z.lxor (Z.shiftr crc 1) CRC32_POLYNOMIAL.

(** One iteration of the loop over [i]. *)
Definition crc32_byte (crc : Z) (b : byte) : Z :=
  Nat.iter 8 crc32_bit (Z.lxor crc (byte.unsigned b)).

(** The checksum of the first [size] bytes of [data]; [size] is a
    [uint16_t], so the loop ends. *)
Definition crc32 (data : list byte) (size : Z) : Z :=
  Z.lxor (foldl crc32_byte 0xFFFFFFFF (ztake (u16 size) data)) 0xFFFFFFFF.

(** ** Encryption *)

Definition AES_BLOCK_SIZE : Z := 16.
Definition AES_KEY_SIZE : Z := 32.
Definition CRYPT_BUFFER_SIZE : Z := 4096.

Definition calculate_aes256_cbc_ciphertext_length (data_size : Z) : Z :=
  Z.shiftl (Z.shiftr (data_size + Z.shiftl 1 4 - 1) 4) 4.

(** What the four calls of one encryption or decryption return:
    [EVP_CIPHER_CTX_new] a context, the others 1. *)
Record evp_calls := mk_evp_calls {
  ec_ctx_new : bool;
  ec_init : bool;
  ec_update : bool;
  ec_final : bool }.

Definition evp_ok (c : evp_calls) : bool := ec_ctx_new c && ec_init c && ec_update c && ec_final c.

(** The bytes [EVP_EncryptUpdate] and [EVP_EncryptFinal_ex] write together
    when they succeed, and the same for decryption, whose last call rejects a
    bad padding. *)
Class Evp : Type := {
  evp_encrypt : list byte -> list byte -> list byte -> list byte;   (* key, iv, plaintext *)
  evp_decrypt : list byte -> list byte -> list byte -> option (list byte);
  evp_decrypt_encrypt key iv text : evp_decrypt key iv (evp_encrypt key iv text) = Some text;
  evp_encrypt_length key iv text :
    zlen (evp_encrypt key iv text) = (zlen text / AES_BLOCK_SIZE + 1) * AES_BLOCK_SIZE }.

(** The bytes of the packed header that the cipher covers: from [crc] to
    [update_counter]. *)
Definition crypt_region (h : syncs_header) : list byte := mem_sub 1 SYNCS_CRYPT_HEADER_SIZE (encode_header h).
Definition set_crypt_region (h : syncs_header) (bs : list byte) : syncs_header :=
  decode_header (mem_put 1 bs (encode_header h)).

(** The bytes the checksum covers: from [type] to the end of the payload. *)
Definition crc_region (p : syncs_packet) : list byte := zdrop 5 (packet_bytes p).

Section crypt.
Context `{Evp}.

(** [key] holds the initialisation vector, then the key.  The result is
    whether the packet (or [NULL]) is returned, and the packet, which is
    modified in place. *)
Definition syncs_crypt_encode_packet (calls : evp_calls) (key : list byte) (packet : syncs_packet) :
    outcome (bool * syncs_packet) :=
  let packet_data_size := SYNCS_PACKET_DATA_SIZE (hd_data_size (pk_header packet)) in
  let size := SYNCS_CRYPT_HEADER_SIZE + packet_data_size in
  let iv := ztake AES_BLOCK_SIZE key in
  let encryption_key := mem_sub AES_BLOCK_SIZE AES_KEY_SIZE key in
  let ciphertext_calc_size := calculate_aes256_cbc_ciphertext_length size in
  let padding := ciphertext_calc_size - size in
  let header := pk_header packet <| hd_data_size :=
    u16 (SYNCS_SET_PACKET_SIZE (ciphertext_calc_size - SYNCS_CRYPT_HEADER_SIZE) padding) |> in
  let crc := crc32 (crc_region (mk_packet header (pk_buffer packet)))
               (SYNCS_CRC_HEADER_SIZE + packet_data_size) in
  let header := header <| hd_crc := crc |> in
  let null := Ok (false, mk_packet header (pk_buffer packet)) in
  if (size >? CRYPT_BUFFER_SIZE) || (packet_data_size >? zlen (pk_buffer packet)) then Fault OutOfBounds
  else
    let crypt_buffer := crypt_region header ++ ztake packet_data_size (pk_buffer packet) in
    if negb (ec_ctx_new calls) then null
    else if negb (ec_init calls) then null
    else if negb (ec_update calls) then null
    else if negb (ec_final calls) then null
    else
      let cipher := evp_encrypt encryption_key iv crypt_buffer in
      let encode_len := zlen cipher in
      if encode_len >? CRYPT_BUFFER_SIZE then Fault OutOfBounds
      else if negb (encode_len =? ciphertext_calc_size) then null
      else if encode_len - SYNCS_CRYPT_HEADER_SIZE >? zlen (pk_buffer packet) then Fault OutOfBounds
      else
        Ok (true, (mk_packet (set_crypt_region header (ztake SYNCS_CRYPT_HEADER_SIZE cipher))
          (mem_put 0 (zdrop SYNCS_CRYPT_HEADER_SIZE cipher) (pk_buffer packet)))).

Definition syncs_crypt_decode_packet (calls : evp_calls) (key : list byte) (packet : syncs_packet) :
    outcome (bool * syncs_packet) :=
  let packet_data_size := SYNCS_PACKET_DATA_SIZE (hd_data_size (pk_header packet)) in
  let size := SYNCS_CRYPT_HEADER_SIZE + packet_data_size in
  let iv := ztake AES_BLOCK_SIZE key in
  let decryption_key := mem_sub AES_BLOCK_SIZE AES_KEY_SIZE key in
  let null := Ok (false, packet) in
  if (size >? CRYPT_BUFFER_SIZE) || (packet_data_size >? zlen (pk_buffer packet)) then Fault OutOfBounds
  else
    let crypt_buffer := crypt_region (pk_header packet) ++ ztake packet_data_size (pk_buffer packet) in
    if negb (ec_ctx_new calls) then null
    else if negb (ec_init calls) then null
    else if negb (ec_update calls) then null
    else if negb (ec_final calls) then null
    else
      match evp_decrypt decryption_key iv crypt_buffer with
      | None => null
      | Some text =>
          let decode_len := zlen text in
          if decode_len <? SYNCS_CRYPT_HEADER_SIZE then Fault OutOfBounds
          else
            Ok (true, (mk_packet (set_crypt_region (pk_header packet) (ztake SYNCS_CRYPT_HEADER_SIZE text))
              (mem_put 0 (zdrop SYNCS_CRYPT_HEADER_SIZE text) (pk_buffer packet))))
      end.
End crypt.

(** ** The checksum *)

Lemma lxor_range n a b : 0 <= n -> 0 <= a < 2 ^ n -> 0 <= b < 2 ^ n -> 0 <= Z.lxor a b < 2 ^ n.
Proof.
  intros Hn Ha Hb. assert (Z.lxor a b = Z.land (Z.lxor a b) (2 ^ n - 1)) as ->.
  { apply Z.bits_inj'. intros i Hi. rewrite Z.land_spec. change (2 ^ n - 1) with (Z.pred (2 ^ n)). rewrite <- (Z.ones_equiv n).
    destruct (Z.lt_ge_cases i n); [by rewrite Z.ones_spec_low, andb_true_r by lia|].
    rewrite Z.ones_spec_high, andb_false_r, Z.lxor_spec by lia.
    rewrite <- (Z.mod_small a (2 ^ n)), <- (Z.mod_small b (2 ^ n)) by lia.
    by rewrite !Z.mod_pow2_bits_high by lia. }
  rewrite land_mask by lia. apply Z.mod_pos_bound. lia.
Qed.

Lemma lxor_cancel a b c : Z.lxor a c = Z.lxor b c -> a = b.
Proof.
  intros E. apply (f_equal (fun x => Z.lxor x c)) in E.
  by rewrite !Z.lxor_assoc, Z.lxor_nilpotent, !Z.lxor_0_r in E.
Qed.

Lemma crc32_bit_odd c :
  crc32_bit c = Z.lxor (Z.shiftr c 1) (if Z.odd c then CRC32_POLYNOMIAL else 0).
Proof.
  unfold crc32_bit. change 1 with (Z.ones 1) at 1. rewrite Z.land_ones by lia.
  change (2 ^ 1) with 2. rewrite Zmod_odd. destruct (Z.odd c); simpl; [done|by rewrite Z.lxor_0_r].
Qed.

(** The register is a linear feedback shift register over GF(2). *)
Lemma crc32_bit_linear a b : crc32_bit (Z.lxor a b) = Z.lxor (crc32_bit a) (crc32_bit b).
Proof.
  rewrite !crc32_bit_odd, Z.shiftr_lxor, <- !Z.bit0_odd, Z.lxor_spec.
  set (x := Z.shiftr a 1). set (y := Z.shiftr b 1). set (p := CRC32_POLYNOMIAL).
  destruct (Z.testbit a 0), (Z.testbit b 0); simpl; rewrite ?Z.lxor_0_r; try done.
  - rewrite (Z.lxor_comm y p), Z.lxor_assoc, <- (Z.lxor_assoc p p y), Z.lxor_nilpotent. by rewrite Z.lxor_0_l.
  - by rewrite Z.lxor_assoc, (Z.lxor_comm y p), <- Z.lxor_assoc.
  - by rewrite Z.lxor_assoc.
Qed.

Lemma crc32_bit_range c : 0 <= c < 2 ^ 32 -> 0 <= crc32_bit c < 2 ^ 32.
Proof.
  intros Hc. rewrite crc32_bit_odd. apply lxor_range; [lia| |].
  - rewrite Z.shiftr_div_pow2 by lia. split; [apply Z.div_pos; lia|apply Z.div_lt_upper_bound; lia].
  - destruct (Z.odd c); unfold CRC32_POLYNOMIAL; lia.
Qed.

Lemma crc32_bit_zero c : 0 <= c < 2 ^ 32 -> crc32_bit c = 0 -> c = 0.
Proof.
  intros Hc E. rewrite crc32_bit_odd in E. pose proof (Z.div2_odd c) as Hd. rewrite Z.div2_spec in Hd.
  destruct (Z.odd c) eqn:Ho; [|rewrite Z.lxor_0_r in E; simpl in Hd; lia].
  apply Z.lxor_eq in E. exfalso. rewrite Z.shiftr_div_pow2 in E by lia.
  assert (c / 2 ^ 1 < 2 ^ 31) by (apply Z.div_lt_upper_bound; lia).
  unfold CRC32_POLYNOMIAL in E. lia.
Qed.

Lemma crc32_bit_inj a b :
  0 <= a < 2 ^ 32 -> 0 <= b < 2 ^ 32 -> crc32_bit a = crc32_bit b -> a = b.
Proof.
  intros Ha Hb E. apply Z.lxor_eq, crc32_bit_zero; [by apply lxor_range|].
  by rewrite crc32_bit_linear, E, Z.lxor_nilpotent.
Qed.

Lemma crc32_bits_linear n a b :
  Nat.iter n crc32_bit (Z.lxor a b) = Z.lxor (Nat.iter n crc32_bit a) (Nat.iter n crc32_bit b).
Proof. induction n as [|n IH]; simpl; [done|by rewrite IH, crc32_bit_linear]. Qed.

Lemma crc32_bits_range n c : 0 <= c < 2 ^ 32 -> 0 <= Nat.iter n crc32_bit c < 2 ^ 32.
Proof. intros Hc. induction n; simpl; [done|by apply crc32_bit_range]. Qed.

Lemma crc32_bits_inj n a b :
  0 <= a < 2 ^ 32 -> 0 <= b < 2 ^ 32 -> Nat.iter n crc32_bit a = Nat.iter n crc32_bit b -> a = b.
Proof.
  intros Ha Hb. induction n as [|n IH]; simpl; [done|]. intros E. apply IH.
  apply crc32_bit_inj; [by apply crc32_bits_range..|done].
Qed.

(** Eight steps shift out eight zero bits. *)
Lemma crc32_bits_shift n x : Nat.iter n crc32_bit (Z.shiftl x (Z.of_nat n)) = x.
Proof.
  revert x. induction n as [|n IH]; intros x; [by rewrite Z.shiftl_0_r|].
  rewrite Nat2Z.inj_succ, <- Z.add_1_r, Z.add_comm, <- Z.shiftl_shiftl by lia.
  simpl. rewrite IH, crc32_bit_odd, <- Z.bit0_odd, Z.shiftl_spec_low, Z.lxor_0_r by lia.
  by rewrite Z.shiftr_shiftl_l, Z.shiftl_0_r by lia.
Qed.

Lemma byte_range b : 0 <= byte.unsigned b < 2 ^ 8.
Proof. apply byte.unsigned_range. Qed.

Lemma le_combine_lxor b w :
  le_combine (b :: w) = Z.lxor (byte.unsigned b) (Z.shiftl (le_combine w) 8).
Proof.
  symmetry. apply Z.lxor_lor, Z.bits_inj'. intros i Hi. rewrite Z.land_spec, Z.bits_0.
  destruct (Z.lt_ge_cases i 8); [by rewrite (Z.shiftl_spec_low _ 8), andb_false_r by lia|].
  rewrite <- (Z.mod_small (byte.unsigned b) (2 ^ 8)) by apply byte_range.
  by rewrite Z.mod_pow2_bits_high by lia.
Qed.

(** A block enters the register as one little-endian number. *)
Lemma crc32_block s w :
  foldl crc32_byte s w = Nat.iter (8 * length w) crc32_bit (Z.lxor s (le_combine w)).
Proof.
  revert s. induction w as [|b w IH]; intros s; [simpl; by rewrite Z.lxor_0_r|].
  assert (Z.lxor (crc32_byte s b) (le_combine w) = Nat.iter 8 crc32_bit (Z.lxor s (le_combine (b :: w)))) as E.
  { rewrite le_combine_lxor, <- Z.lxor_assoc, crc32_bits_linear. unfold crc32_byte. do 2 f_equal.
    symmetry. apply (crc32_bits_shift 8). }
  cbn [foldl length]. rewrite IH, E.
  replace (8 * S (length w))%nat with (8 * length w + 8)%nat by lia. by rewrite Nat.iter_add.
Qed.

Lemma le_combine_inj w w' : length w = length w' -> le_combine w = le_combine w' -> w = w'.
Proof.
  intros Hl E. rewrite <- (split_le_combine w), <- (split_le_combine w'). by rewrite Hl, E.
Qed.

Lemma byte_range_32 b : 0 <= byte.unsigned b < 2 ^ 32.
Proof. pose proof (byte_range b). lia. Qed.

Lemma crc32_fold_range s l : 0 <= s < 2 ^ 32 -> 0 <= foldl crc32_byte s l < 2 ^ 32.
Proof.
  revert s. induction l as [|b l IH]; intros s Hs; [done|].
  apply IH, crc32_bits_range, lxor_range; auto using byte_range_32. lia.
Qed.

Lemma crc32_fold_inj l s s' :
  0 <= s < 2 ^ 32 -> 0 <= s' < 2 ^ 32 -> foldl crc32_byte s l = foldl crc32_byte s' l -> s = s'.
Proof.
  revert s s'. induction l as [|b l IH]; intros s s' Hs Hs' E; [done|].
  assert (forall x, 0 <= x < 2 ^ 32 -> 0 <= Z.lxor x (byte.unsigned b) < 2 ^ 32) as Hx.
  { intros x Hx. apply lxor_range; auto using byte_range_32. lia. }
  apply (lxor_cancel _ _ (byte.unsigned b)), (crc32_bits_inj 8); [by apply Hx..|].
  apply IH; [by apply crc32_bits_range, Hx..|done].
Qed.
