(* ===== verification/CrcSpec.v ===== *)
(** * The checksum against its definition

    [crc32] of src/libsyncs/syncs-crypt.c is a shift register; CRC-32 is
    defined as the remainder of a division of polynomials over GF(2).  Here a
    polynomial is the list of its coefficients, highest first, and the two
    are shown equal. *)

From S2P Require Import Prelude.
From S2P Require Import Crypt.

(** ** The definition of CRC-32 *)

(** The sum with the first coefficients of a polynomial. *)
Fixpoint xor_prefix (p l : list bool) : list bool :=
  match p, l with
  | x :: p, y :: l => xorb x y :: xor_prefix p l
  | [], l => l
  | _, [] => []
  end.

Abbreviation zeros n := (replicate n false).

(** x^32 + x^26 + x^23 + x^22 + x^16 + x^12 + x^11 + x^10 + x^8 + x^7 + x^5 +
    x^4 + x^2 + x + 1. *)
Definition generator : list bool :=
  (fun i => bool_decide (i ∈ [32; 26; 23; 22; 16; 12; 11; 10; 8; 7; 5; 4; 2; 1; 0]%nat)) <$> rev (seq 0 33).

(** The product with the generator. *)
Fixpoint times_generator (q : list bool) : list bool :=
  match q with
  | [] => zeros 32
  | b :: q => xor_prefix (if b then generator else zeros 33) (false :: times_generator q)
  end.

(** The message: the bits of every byte, the low one first, with the first 32
    complemented, and 32 zeros appended. *)
Definition byte_bits (b : byte) : list bool := (fun i => Z.testbit (byte.unsigned b) (Z.of_nat i)) <$> seq 0 8.
Definition message_polynomial (data : list byte) : list bool :=
  xor_prefix (replicate 32 true) ((data ≫= byte_bits) ++ zeros 32).

(** The bits of a 32-bit word, the low one first. *)
Definition bits32 (c : Z) : list bool := (fun i => Z.testbit c (Z.of_nat i)) <$> seq 0 32.

(** ** Lists of coefficients *)

Lemma length_xor_prefix p l : length (xor_prefix p l) = length l.
Proof. revert l. induction p as [|x p IH]; intros [|y l]; simpl; auto. Qed.

Lemma xor_prefix_zeros n l : xor_prefix (zeros n) l = l.
Proof. revert l. induction n as [|n IH]; intros [|y l]; simpl; [done..|]. by rewrite IH. Qed.

Lemma xor_prefix_zeros_r p n : length p = n -> xor_prefix p (zeros n) = p.
Proof. intros <-. induction p as [|x p IH]; simpl; [done|]. by rewrite IH, xorb_false_r. Qed.

Lemma xor_prefix_comm p q l : xor_prefix p (xor_prefix q l) = xor_prefix q (xor_prefix p l).
Proof.
  revert q l. induction p as [|x p IH]; intros [|y q] [|z l]; simpl; try done.
  rewrite IH. f_equal. by destruct x, y, z.
Qed.

Lemma xor_prefix_assoc p q l : (length p <= length q)%nat -> xor_prefix (xor_prefix p q) l = xor_prefix p (xor_prefix q l).
Proof.
  revert q l. induction p as [|x p IH]; intros [|y q] [|z l] Hl; simpl in *; try done; try lia.
  rewrite IH by lia. f_equal. apply xorb_assoc.
Qed.

Lemma xor_prefix_app p l m : (length p <= length l)%nat -> xor_prefix p (l ++ m) = xor_prefix p l ++ m.
Proof. revert l. induction p as [|x p IH]; intros [|y l] Hl; simpl in *; try done; [lia|]. by rewrite IH by lia. Qed.

Lemma xor_prefix_app_zeros p n l : xor_prefix (p ++ zeros n) l = xor_prefix p l.
Proof.
  revert l. induction p as [|x p IH]; intros [|y l]; [apply xor_prefix_zeros..|done|]. simpl. by rewrite IH.
Qed.

(** ** Division *)

Definition generator_tail : list bool := tail generator.

(** One step of the division by hand: the highest coefficient selects the
    generator or nothing to subtract. *)
Definition division_step (l : list bool) : list bool :=
  match l with
  | [] => []
  | b :: l => if b then xor_prefix generator_tail l else l
  end.

Lemma length_times_generator q : length (times_generator q) = (length q + 32)%nat.
Proof. induction q as [|b q IH]; [done|]. cbn [times_generator]. rewrite length_xor_prefix. simpl. by rewrite IH. Qed.

Lemma length_division_step l : length (division_step l) = pred (length l).
Proof. destruct l as [|[] l]; [done| |done]. apply length_xor_prefix. Qed.

(** [k] steps divide a polynomial of [k + 32] coefficients. *)
Lemma division k l :
  length l = (k + 32)%nat ->
  exists q, length q = k /\ l = xor_prefix (times_generator q) (zeros k ++ Nat.iter k division_step l).
Proof.
  revert l. induction k as [|k IH]; intros l Hl.
  { exists []. split; [done|]. symmetry. exact (xor_prefix_zeros 32 l). }
  destruct l as [|b l]; [discriminate Hl|]. injection Hl as Hl.
  destruct (IH (division_step (b :: l))) as (q & Hq & E); [rewrite length_division_step; simpl; lia|].
  exists (b :: q). split; [simpl; by rewrite Hq|]. rewrite Nat.iter_succ_r.
  cbn [times_generator]. set (r := Nat.iter k division_step _) in *.
  assert (xor_prefix (times_generator q) (zeros k ++ r) = division_step (b :: l)) as E' by done. clear E.
  change (zeros (S k) ++ r) with (false :: (zeros k ++ r)).
  destruct b; cbn [division_step] in E'.
  - rewrite xor_prefix_assoc by (simpl; rewrite length_times_generator; change (33 <= S (length q + 32))%nat; lia).
    cbn [xor_prefix]. rewrite E'. change generator with (true :: generator_tail). cbn [xor_prefix xorb negb]. f_equal.
    rewrite <- xor_prefix_assoc by done. rewrite <- (xor_prefix_zeros 32 l) at 1. by f_equal.
  - rewrite xor_prefix_zeros. cbn [xor_prefix xorb]. by rewrite E'.
Qed.

Lemma xor_prefix_twice p l : xor_prefix p (xor_prefix p l) = l.
Proof.
  revert l. induction p as [|x p IH]; intros [|y l]; [done..|]. cbn [xor_prefix]. rewrite IH. by destruct x, y.
Qed.

(** The remainder is unique. *)
Lemma division_unique q r :
  Nat.iter (length q) division_step (xor_prefix (times_generator q) (zeros (length q) ++ r)) = r.
Proof.
  induction q as [|b q IH]; [apply (xor_prefix_zeros 32)|].
  cbn [length]. rewrite Nat.iter_succ_r. etrans; [|exact IH]. f_equal. cbn [times_generator].
  change (zeros (S (length q)) ++ r) with (false :: zeros (length q) ++ r).
  set (x := zeros (length q) ++ r). destruct b.
  - change generator with (true :: generator_tail). cbn [xor_prefix xorb negb division_step].
    rewrite xor_prefix_assoc by (rewrite length_times_generator; change (length generator_tail) with 32%nat; lia).
    apply xor_prefix_twice.
  - rewrite xor_prefix_zeros. done.
Qed.

(** ** The shift register divides *)

(** One step of the register on its bits: a division step with a zero
    coefficient entering. *)
Definition shift_step (r : list bool) : list bool := division_step (r ++ [false]).

Lemma length_shift_step r : length (shift_step r) = length r.
Proof. unfold shift_step. rewrite length_division_step, length_app. simpl. lia. Qed.

Lemma length_shift_steps k r : length (Nat.iter k shift_step r) = length r.
Proof. induction k as [|k IH]; [done|]. simpl. by rewrite length_shift_step. Qed.

(** Adding [d] below the leading coefficient commutes with the step. *)
Lemma shift_step_xor b r d :
  (length d <= length r)%nat ->
  xor_prefix d (shift_step (b :: r)) = shift_step (b :: xor_prefix d r).
Proof.
  intros Hd. unfold shift_step. cbn [app division_step]. rewrite <- xor_prefix_app by done.
  destruct b; [apply xor_prefix_comm|done].
Qed.

(** A coefficient that the register has absorbed is divided out. *)
Lemma division_step_register x b r m :
  length r = 31%nat -> division_step (xor_prefix (b :: r) (x :: m)) = xor_prefix (shift_step (xorb x b :: r)) m.
Proof.
  intros Hr. cbn [xor_prefix]. unfold shift_step. cbn [app division_step]. rewrite xorb_comm. destruct (xorb x b).
  - rewrite xor_prefix_assoc by (rewrite length_app, Hr; done). f_equal. symmetry. apply (xor_prefix_app_zeros r 1).
  - symmetry. apply (xor_prefix_app_zeros r 1).
Qed.

Lemma division_register d r m :
  length r = 32%nat -> (length d <= 32)%nat ->
  Nat.iter (length d) division_step (xor_prefix r (d ++ m)) =
    xor_prefix (Nat.iter (length d) shift_step (xor_prefix d r)) m.
Proof.
  revert r. induction d as [|x d IH]; intros r Hr Hd; [done|]. simpl in Hd.
  destruct r as [|b r]; [done|]. injection Hr as Hr. cbn [length app]. rewrite !Nat.iter_succ_r.
  rewrite division_step_register by done. rewrite IH by (rewrite ?length_shift_step; simpl; lia).
  cbn [xor_prefix]. by rewrite shift_step_xor by lia.
Qed.

(** ** The bits of the register *)

Lemma length_bits32 c : length (bits32 c) = 32%nat.
Proof. done. Qed.

Lemma bits_lxor a b l :
  (fun i => Z.testbit (Z.lxor a b) (Z.of_nat i)) <$> l =
  xor_prefix ((fun i => Z.testbit a (Z.of_nat i)) <$> l) ((fun i => Z.testbit b (Z.of_nat i)) <$> l).
Proof. induction l as [|i l IH]; [done|]. cbn [fmap list_fmap] in *. by rewrite Z.lxor_spec, IH. Qed.

Lemma bits32_lxor a b : bits32 (Z.lxor a b) = xor_prefix (bits32 a) (bits32 b).
Proof. apply bits_lxor. Qed.

Lemma bits32_shiftr c : 0 <= c < 2 ^ 32 -> bits32 (Z.shiftr c 1) = tail (bits32 c) ++ [false].
Proof.
  intros Hc. assert (Z.testbit c 32 = false) as <-.
  { rewrite <- (Z.mod_small c (2 ^ 32)) by done. by apply Z.mod_pow2_bits_high. }
  unfold bits32. change (tail _) with ((fun i => Z.testbit c (Z.of_nat i)) <$> seq 1 31).
  change [Z.testbit c 32] with ((fun i => Z.testbit c (Z.of_nat i)) <$> [32%nat]). rewrite <- fmap_app. change (seq 1 31 ++ [32%nat]) with (S <$> seq 0 32).
  rewrite <- list_fmap_compose. apply list_fmap_ext. intros i x _. unfold compose.
  rewrite Z.shiftr_spec by lia. f_equal. lia.
Qed.

Lemma generator_tail_bits : bits32 CRC32_POLYNOMIAL = generator_tail.
Proof. by vm_compute. Qed.

Lemma bits32_bit c : 0 <= c < 2 ^ 32 -> bits32 (crc32_bit c) = shift_step (bits32 c).
Proof.
  intros Hc. rewrite crc32_bit_odd, Z.lxor_comm, bits32_lxor, bits32_shiftr by done.
  unfold shift_step. rewrite <- Z.bit0_odd. change (bits32 c) with (Z.testbit c 0 :: tail (bits32 c)).
  cbn [tail app division_step]. destruct (Z.testbit c 0); [by rewrite generator_tail_bits|].
  apply (xor_prefix_zeros 32).
Qed.

Lemma bits32_iter k c : 0 <= c < 2 ^ 32 -> bits32 (Nat.iter k crc32_bit c) = Nat.iter k shift_step (bits32 c).
Proof. intros Hc. induction k as [|k IH]; [done|]. simpl. by rewrite bits32_bit, IH by by apply crc32_bits_range. Qed.

Lemma bits32_byte b : bits32 (byte.unsigned b) = byte_bits b ++ zeros 24.
Proof.
  unfold bits32, byte_bits. change (seq 0 32) with (seq 0 8 ++ seq 8 24). rewrite fmap_app. f_equal.
  change (zeros 24) with ((fun _ => false) <$> seq 8 24). apply list_fmap_ext. intros i x Hx%lookup_seq.
  rewrite <- (Z.mod_small (byte.unsigned b) (2 ^ 8)) by apply byte_range. apply Z.mod_pow2_bits_high. lia.
Qed.

(** A byte of the message. *)
Lemma division_byte c b m :
  0 <= c < 2 ^ 32 ->
  Nat.iter 8 division_step (xor_prefix (bits32 c) (byte_bits b ++ m)) = xor_prefix (bits32 (crc32_byte c b)) m.
Proof.
  intros Hc. change 8%nat with (length (byte_bits b)). rewrite division_register by first [done|simpl; lia].
  unfold crc32_byte. rewrite bits32_iter by (apply lxor_range; auto using byte_range_32; lia).
  rewrite Z.lxor_comm, bits32_lxor, bits32_byte. by rewrite xor_prefix_app_zeros.
Qed.

Lemma division_bytes c data m :
  0 <= c < 2 ^ 32 ->
  Nat.iter (8 * length data) division_step (xor_prefix (bits32 c) ((data ≫= byte_bits) ++ m)) =
    xor_prefix (bits32 (foldl crc32_byte c data)) m.
Proof.
  revert c. induction data as [|b data IH]; intros c Hc; [done|]. cbn [length foldl mbind list_bind].
  replace (8 * S (length data))%nat with (8 * length data + 8)%nat by lia. rewrite Nat.iter_add, <- app_assoc.
  rewrite division_byte by done. apply IH, crc32_bits_range, lxor_range; auto using byte_range_32. lia.
Qed.

Lemma bits32_not c : bits32 (Z.lxor c 0xFFFFFFFF) = negb <$> bits32 c.
Proof.
  rewrite bits32_lxor. change (bits32 0xFFFFFFFF) with (replicate (length (bits32 c)) true).
  induction (bits32 c) as [|x l IH]; [done|]. simpl. by rewrite IH, xorb_true_r.
Qed.

Lemma length_message data : length (message_polynomial data) = (8 * length data + 32)%nat.
Proof.
  unfold message_polynomial. rewrite length_xor_prefix, length_app, length_replicate. f_equal.
  induction data as [|b data IH]; [done|]. cbn [mbind list_bind]. rewrite length_app, IH. simpl. lia.
Qed.

(** C39: [crc32] is CRC-32: for every message of at most 65535 bytes, the
    complement of the result holds, low bit first, the remainder of the
    message polynomial divided by the generator: there is a quotient [q] with
    [message = q * generator + r], [r] of degree below 32, and [r] is the only
    remainder of such a division. *)
Theorem crc32_is_remainder data :
  zlen data < 2 ^ 16 ->
  exists r, length r = 32%nat /\ bits32 (crc32 data (zlen data)) = negb <$> r /\
    (exists q, length q = (8 * length data)%nat /\
      message_polynomial data = xor_prefix (times_generator q) (zeros (8 * length data) ++ r)) /\
    (forall q' r', length q' = (8 * length data)%nat ->
      message_polynomial data = xor_prefix (times_generator q') (zeros (8 * length data) ++ r') -> r' = r).
Proof.
  intros Hn. pose proof (zlen_nonneg data).
  destruct (division (8 * length data) (message_polynomial data) (length_message data)) as (q & Hq & E).
  assert (0 <= 0xFFFFFFFF < 2 ^ 32) as Hs by lia.
  pose proof (division_bytes 0xFFFFFFFF data (zeros 32) Hs) as Hr. rewrite xor_prefix_zeros_r in Hr by done.
  exists (bits32 (foldl crc32_byte 0xFFFFFFFF data)). split; [done|]. split.
  { unfold crc32. rewrite u16_small, ztake_ge by lia. apply bits32_not. }
  rewrite <- Hr. split; [by exists q|]. intros q' r' Hq' E'. symmetry.
  etrans; [|apply (division_unique q')]. rewrite Hq', <- E'. done.
Qed.

(** The standard check value, bit by bit. *)
Definition check_message : list byte :=
  [Byte.x31; Byte.x32; Byte.x33; Byte.x34; Byte.x35; Byte.x36; Byte.x37; Byte.x38; Byte.x39].
Example check_remainder :
  bits32 0xCBF43926 = negb <$> Nat.iter 72 division_step (message_polynomial check_message).
Proof. by vm_compute. Qed.

Lemma crc32_is_remainder_witness :
  exists r, length r = 32%nat /\ bits32 (crc32 check_message (zlen check_message)) = negb <$> r /\
    (exists q, length q = (8 * length check_message)%nat /\
      message_polynomial check_message =
        xor_prefix (times_generator q) (zeros (8 * length check_message) ++ r)) /\
    (forall q' r', length q' = (8 * length check_message)%nat ->
      message_polynomial check_message =
        xor_prefix (times_generator q') (zeros (8 * length check_message) ++ r') -> r' = r).
Proof. apply (crc32_is_remainder check_message). reflexivity. Defined.
