(* ===== verification/CryptProps.v ===== *)
(** * Properties of the checksum and of the packet encryption

    Each theorem is followed by an instance at a concrete input. *)

From S2P Require Import Prelude.
From S2P Require Import Monad.
From S2P Require Import Types.
From S2P Require Import Crypt.

(** ** Encrypted lengths *)

Lemma ciphertext_length_eq n :
  0 <= n -> calculate_aes256_cbc_ciphertext_length n = (n + 15) / 16 * 16.
Proof.
  intros Hn. unfold calculate_aes256_cbc_ciphertext_length. change (Z.shiftl 1 4) with 16.
  rewrite Z.shiftl_mul_pow2, Z.shiftr_div_pow2 by lia. do 2 f_equal. lia.
Qed.

(** The estimate is the cipher's length except on whole blocks. *)
Lemma ciphertext_length_blocks n :
  0 <= n -> (calculate_aes256_cbc_ciphertext_length n = (n / 16 + 1) * 16 <-> n mod 16 <> 0) /\
    n <= calculate_aes256_cbc_ciphertext_length n <= n + 15.
Proof.
  intros Hn. rewrite ciphertext_length_eq by done.
  pose proof (Z.div_mod n 16 ltac:(lia)) as E. pose proof (Z.mod_pos_bound n 16 ltac:(lia)) as Hm.
  pose proof (Z.div_mod (n + 15) 16 ltac:(lia)). pose proof (Z.mod_pos_bound (n + 15) 16 ltac:(lia)).
  destruct (Z.eq_dec (n mod 16) 0); nia.
Qed.

(** ** The encrypted region *)

Lemma zlen_crypt_region h : zlen (crypt_region h) = 56.
Proof. unfold crypt_region. apply zlen_mem_sub; [lia|done|]. by rewrite zlen_encode_header. Qed.

Lemma crypt_region_set h bs : zlen bs = 56 -> crypt_region (set_crypt_region h bs) = bs.
Proof.
  intros Hb. unfold crypt_region, set_crypt_region.
  rewrite encode_decode_header by (rewrite zlen_mem_put; rewrite ?zlen_encode_header; lia).
  change SYNCS_CRYPT_HEADER_SIZE with 56. rewrite <- Hb. apply mem_sub_put; rewrite ?zlen_encode_header; lia.
Qed.

(** Overwriting the region twice is overwriting it once. *)
Lemma mem_put_put {A} off (a b m : list A) :
  0 <= off -> zlen a = zlen b -> off + zlen b <= zlen m ->
  mem_put off b (mem_put off a m) = mem_put off b m.
Proof.
  intros Ho Hab Hm. unfold mem_put.
  rewrite (ztake_app_le off) by zl. rewrite ztake_ztake, Z.min_id. do 2 f_equal.
  rewrite (zdrop_app_ge (off + zlen b)) by zl. rewrite zdrop_app_ge by zl.
  rewrite zdrop_zdrop by zl. f_equal. zl.
Qed.

Lemma mem_put_self {A} off n (m : list A) :
  0 <= off -> 0 <= n -> off + n <= zlen m -> mem_put off (mem_sub off n m) m = m.
Proof.
  intros Ho Hn Hm. unfold mem_put. rewrite zlen_mem_sub by lia. unfold mem_sub.
  rewrite app_assoc. rewrite <- (ztake_zdrop off m) at 4. rewrite <- app_assoc. f_equal.
  rewrite <- (ztake_zdrop n (zdrop off m)) at 2. f_equal. by rewrite zdrop_zdrop by lia.
Qed.

Lemma set_crypt_region_back h bs :
  header_wf h -> zlen bs = 56 -> set_crypt_region (set_crypt_region h bs) (crypt_region h) = h.
Proof.
  intros Hh Hb. unfold set_crypt_region. pose proof (zlen_encode_header h) as Hz.
  rewrite encode_decode_header by (rewrite zlen_mem_put; lia).
  pose proof (zlen_crypt_region h) as Hr.
  rewrite mem_put_put by lia. unfold crypt_region. change SYNCS_CRYPT_HEADER_SIZE with 56.
  rewrite mem_put_self by lia. by apply decode_encode_header.
Qed.

Lemma set_crypt_region_size h bs :
  header_wf h -> zlen bs = 56 -> hd_data_size (set_crypt_region h bs) = hd_data_size h.
Proof.
  intros Hh Hb. unfold set_crypt_region. pose proof (zlen_encode_header h) as Hz.
  transitivity (hd_data_size (decode_header (encode_header h))); [|by rewrite decode_encode_header].
  unfold decode_header. cbn [hd_data_size]. by rewrite (mem_sub_put_above 1 57) by lia.
Qed.

(** ** The checksum *)

(** [crc32] detects every error confined to four consecutive bytes: two
    messages of the same length (at most 65535 bytes, the range of [size])
    that differ only there have different checksums. *)
Theorem crc32_detects_bursts pre w w' suf :
  length w = length w' -> (length w <= 4)%nat -> w <> w' ->
  zlen (pre ++ w ++ suf) < 2 ^ 16 ->
  crc32 (pre ++ w ++ suf) (zlen (pre ++ w ++ suf)) <>
  crc32 (pre ++ w' ++ suf) (zlen (pre ++ w' ++ suf)).
Proof.
  intros Hl Hw Hne Hn E. apply Hne, le_combine_inj; [done|].
  assert (zlen (pre ++ w' ++ suf) = zlen (pre ++ w ++ suf)) as Hz.
  { rewrite !zlen_app. unfold zlen. lia. }
  pose proof (zlen_nonneg (pre ++ w ++ suf)).
  unfold crc32 in E. rewrite Hz, u16_small, ztake_ge, ztake_ge in E by lia.
  assert (forall v : list byte, (length v <= 4)%nat -> 0 <= le_combine v < 2 ^ 32) as Hr.
  { intros v Hv. pose proof (le_combine_range v (zlen v) eq_refl) as Hb.
    assert (2 ^ (8 * zlen v) <= 2 ^ 32) by (apply Z.pow_le_mono_r; unfold zlen; lia). lia. }
  apply lxor_cancel in E. rewrite !foldl_app in E.
  pose proof (crc32_fold_range 0xFFFFFFFF pre ltac:(lia)) as Hs.
  apply crc32_fold_inj in E; [|by apply crc32_fold_range..].
  set (s := foldl crc32_byte _ pre) in *.
  rewrite !crc32_block, <- Hl in E.
  apply crc32_bits_inj in E; [|apply lxor_range; first [lia|done|apply Hr; lia]..].
  rewrite !(Z.lxor_comm s) in E. by eapply lxor_cancel.
Qed.

Lemma crc32_detects_bursts_witness :
  crc32 ([Byte.x31] ++ [Byte.x32; Byte.x33] ++ [Byte.x34])
    (zlen ([Byte.x31] ++ [Byte.x32; Byte.x33] ++ [Byte.x34])) <>
  crc32 ([Byte.x31] ++ [Byte.x00; Byte.xff] ++ [Byte.x34])
    (zlen ([Byte.x31] ++ [Byte.x00; Byte.xff] ++ [Byte.x34])).
Proof.
  apply (crc32_detects_bursts [Byte.x31] [Byte.x32; Byte.x33] [Byte.x00; Byte.xff] [Byte.x34]);
    [reflexivity|simpl; lia|intros E; discriminate E|reflexivity].
Defined.

(** The standard check value of this CRC. *)
Example crc32_check :
  crc32 [Byte.x31; Byte.x32; Byte.x33; Byte.x34; Byte.x35; Byte.x36; Byte.x37; Byte.x38; Byte.x39] 9 =
    0xCBF43926.
Proof. by vm_compute. Qed.

(** ** Encryption *)

Section crypt_props.
Context `{Evp}.

(** The header the cipher sees: the packet's, with the padded size and the
    checksum filled in. *)
Definition sealed_header (p : syncs_packet) : syncs_header :=
  let n := SYNCS_PACKET_DATA_SIZE (hd_data_size (pk_header p)) in
  let size := SYNCS_CRYPT_HEADER_SIZE + n in
  let length := calculate_aes256_cbc_ciphertext_length size in
  let h := pk_header p <| hd_data_size :=
    u16 (SYNCS_SET_PACKET_SIZE (length - SYNCS_CRYPT_HEADER_SIZE) (length - size)) |> in
  h <| hd_crc := crc32 (crc_region (mk_packet h (pk_buffer p))) (SYNCS_CRC_HEADER_SIZE + n) |>.

Lemma data_size_range h : 0 <= SYNCS_PACKET_DATA_SIZE h < 2 ^ 12.
Proof.
  unfold SYNCS_PACKET_DATA_SIZE, SYNCS_PACKET_SIZE_MASK. change 0xfff with (2 ^ 12 - 1).
  rewrite land_mask by lia. by apply Z.mod_pos_bound.
Qed.

(** The two outcomes of [syncs_crypt_encode_packet] on a packet that fits its
    buffers. *)
Lemma encode_cases calls key p :
  let n := SYNCS_PACKET_DATA_SIZE (hd_data_size (pk_header p)) in
  let cipher := evp_encrypt (mem_sub AES_BLOCK_SIZE AES_KEY_SIZE key) (ztake AES_BLOCK_SIZE key)
    (crypt_region (sealed_header p) ++ ztake n (pk_buffer p)) in
  n + 16 <= zlen (pk_buffer p) -> 56 + n + 16 <= CRYPT_BUFFER_SIZE ->
  ((evp_ok calls = false \/ (56 + n) mod 16 = 0) /\
    syncs_crypt_encode_packet calls key p = Ok (false, mk_packet (sealed_header p) (pk_buffer p))) \/
  (evp_ok calls = true /\ (56 + n) mod 16 <> 0 /\
    zlen cipher = calculate_aes256_cbc_ciphertext_length (56 + n) /\
    syncs_crypt_encode_packet calls key p =
      Ok (true, mk_packet (set_crypt_region (sealed_header p) (ztake 56 cipher))
                  (mem_put 0 (zdrop 56 cipher) (pk_buffer p)))).
Proof.
  intros n cipher Hb Hc. pose proof (data_size_range (hd_data_size (pk_header p))) as Hn. fold n in Hn.
  assert (zlen cipher = ((56 + n) / 16 + 1) * 16) as Hl.
  { subst cipher. rewrite evp_encrypt_length. change AES_BLOCK_SIZE with 16.
    pose proof (zlen_crypt_region (sealed_header p)). do 3 f_equal. zl. }
  pose proof (ciphertext_length_blocks (56 + n) ltac:(lia)) as [Hiff Hr].
  assert (((56 + n) / 16 + 1) * 16 <= 56 + n + 16) as Hmax.
  { pose proof (Z.div_mod (56 + n) 16 ltac:(lia)). pose proof (Z.mod_pos_bound (56 + n) 16). lia. }
  unfold syncs_crypt_encode_packet. change SYNCS_CRYPT_HEADER_SIZE with 56 in *.
  cbn zeta. fold n. change CRYPT_BUFFER_SIZE with 4096 in *.
  change (pk_header p <| hd_data_size := _ |> <| hd_crc := _ |>) with (sealed_header p).
  fold cipher. rewrite Hl, !Z.gtb_ltb.
  rewrite !(proj2 (Z.ltb_ge _ _)) by lia. cbn [orb].
  destruct calls as [[] [] [] []]; cbn [negb ec_ctx_new ec_init ec_update ec_final];
    try (left; split; [by left|reflexivity]).
  destruct (Z.eqb_spec (((56 + n) / 16 + 1) * 16) (calculate_aes256_cbc_ciphertext_length (56 + n))) as [E|E];
    cbn [negb]; [right|left].
  - split; [done|]. split; [by apply Hiff|]. done.
  - split; [right|done]. destruct (Z.eq_dec ((56 + n) mod 16) 0) as [|Hne]; [done|]. by apply Hiff in Hne.
Qed.

(** The padded size and the padding share the size field. *)
Lemma set_packet_size s pad :
  0 <= s < 2 ^ 12 -> 0 <= pad < 2 ^ 4 -> SYNCS_SET_PACKET_SIZE s pad = pad * 2 ^ 12 + s.
Proof.
  intros Hs Hp. unfold SYNCS_SET_PACKET_SIZE, SYNCS_PACKET_DATA_SIZE, SYNCS_PACKET_SIZE_MASK.
  change 0xfff with (2 ^ 12 - 1). rewrite land_mask, Z.mod_small by lia.
  rewrite <- (Z.shiftl_mul_pow2 pad 12) by lia.
  assert (Z.land (Z.shiftl pad 12) s = 0) as Hz.
  { apply Z.bits_inj'. intros i Hi. rewrite Z.land_spec, Z.bits_0.
    destruct (Z.lt_ge_cases i 12); [by rewrite Z.shiftl_spec_low by lia|].
    rewrite <- (Z.mod_small s (2 ^ 12)), Z.mod_pow2_bits_high, andb_false_r by lia. done. }
  by rewrite <- Z.lxor_lor, Z.add_nocarry_lxor.
Qed.

Lemma packet_size_parts s pad :
  0 <= s < 2 ^ 12 -> 0 <= pad < 2 ^ 4 ->
  SYNCS_PACKET_DATA_SIZE (u16 (SYNCS_SET_PACKET_SIZE s pad)) = s /\
  SYNCS_PACKET_SIZE_PADDING (u16 (SYNCS_SET_PACKET_SIZE s pad)) = pad.
Proof.
  intros Hs Hp. rewrite set_packet_size, u16_small by lia.
  unfold SYNCS_PACKET_DATA_SIZE, SYNCS_PACKET_SIZE_PADDING, SYNCS_PACKET_SIZE_MASK.
  change 0xfff with (2 ^ 12 - 1). rewrite land_mask, Z.shiftr_div_pow2 by lia. split.
  - symmetry. apply (Z.mod_unique _ _ pad); lia.
  - symmetry. apply (Z.div_unique _ _ _ s); lia.
Qed.

Lemma crc32_range data n : 0 <= crc32 data n < 2 ^ 32.
Proof. unfold crc32. apply lxor_range; [lia|by apply crc32_fold_range|lia]. Qed.

Lemma sealed_header_wf p : header_wf (pk_header p) -> header_wf (sealed_header p).
Proof.
  intros (Hm & _ & Ht & Hid & H0 & H1 & Hu & _ & Hmd).
  refine (conj Hm (conj (crc32_range _ _) (conj Ht (conj Hid (conj H0 (conj H1 (conj Hu (conj _ Hmd)))))))).
  apply u16_range.
Qed.

(** What decryption makes of the packet: every header field is the original
    one, except [crc], which is now the packet's checksum, and [data_size],
    which now holds the padded size and the padding. *)
Definition restored (p q : syncs_packet) : Prop :=
  let n := SYNCS_PACKET_DATA_SIZE (hd_data_size (pk_header p)) in
  pk_header q = sealed_header p /\
  ztake n (pk_buffer q) = ztake n (pk_buffer p) /\
  SYNCS_PACKET_DATA_SIZE (hd_data_size (pk_header q)) -
    SYNCS_PACKET_SIZE_PADDING (hd_data_size (pk_header q)) = n.

(** A failing decryption call leaves the packet alone. *)
Lemma decode_calls_fail calls key p :
  let n := SYNCS_PACKET_DATA_SIZE (hd_data_size (pk_header p)) in
  n <= zlen (pk_buffer p) -> 56 + n <= CRYPT_BUFFER_SIZE -> evp_ok calls = false ->
  syncs_crypt_decode_packet calls key p = Ok (false, p).
Proof.
  intros n Hb Hc Hok. unfold syncs_crypt_decode_packet. change SYNCS_CRYPT_HEADER_SIZE with 56.
  cbn zeta. fold n. rewrite !Z.gtb_ltb, !(proj2 (Z.ltb_ge _ _)) by lia. cbn [orb].
  by destruct calls as [[] [] [] []].
Qed.

(** The packet an encryption produces: its size field tells how many bytes
    its buffer holds of the ciphertext. *)
Lemma encoded_packet p cipher :
  let n := SYNCS_PACKET_DATA_SIZE (hd_data_size (pk_header p)) in
  let L := calculate_aes256_cbc_ciphertext_length (56 + n) in
  let p' := mk_packet (set_crypt_region (sealed_header p) (ztake 56 cipher))
              (mem_put 0 (zdrop 56 cipher) (pk_buffer p)) in
  header_wf (pk_header p) -> n + 16 <= zlen (pk_buffer p) -> 56 + n + 16 <= CRYPT_BUFFER_SIZE -> zlen cipher = L ->
  SYNCS_PACKET_DATA_SIZE (hd_data_size (pk_header p')) = L - 56 /\
  zlen (pk_buffer p') = zlen (pk_buffer p) /\
  crypt_region (pk_header p') ++ ztake (L - 56) (pk_buffer p') = cipher /\
  SYNCS_PACKET_DATA_SIZE (hd_data_size (sealed_header p)) -
    SYNCS_PACKET_SIZE_PADDING (hd_data_size (sealed_header p)) = n.
Proof.
  intros n L p' Hwf Hb Hc Hl. pose proof (data_size_range (hd_data_size (pk_header p))) as Hn. fold n in Hn.
  pose proof (ciphertext_length_blocks (56 + n) ltac:(lia)) as [_ Hr]. fold L in Hr.
  change CRYPT_BUFFER_SIZE with 4096 in Hc.
  assert (zlen (ztake 56 cipher) = 56) as Hz by zl.
  destruct (packet_size_parts (L - 56) (L - (56 + n))) as [Hs1 Hs2]; [lia..|].
  assert (hd_data_size (sealed_header p) = u16 (SYNCS_SET_PACKET_SIZE (L - 56) (L - (56 + n)))) as Hss by done.
  split; [|split; [|split]].
  - subst p'. cbn [pk_header]. by rewrite set_crypt_region_size, Hss by auto using sealed_header_wf.
  - subst p'. cbn [pk_buffer]. by rewrite zlen_mem_put by zl.
  - subst p'. cbn [pk_header pk_buffer]. rewrite crypt_region_set by done.
    assert (L - 56 = zlen (zdrop 56 cipher)) as -> by zl.
    rewrite <- (zdrop_0 (mem_put _ _ _)). fold (mem_sub 0 (zlen (zdrop 56 cipher)) (mem_put 0 (zdrop 56 cipher) (pk_buffer p))).
    rewrite mem_sub_put by zl. apply ztake_zdrop.
  - rewrite Hss, Hs1, Hs2. lia.
Qed.

(** C40: the whole behaviour of the encryption on a packet that fits the
    buffers, whichever of the OpenSSL calls fail.  [syncs_crypt_encode_packet]
    returns the packet exactly when its calls succeed and header and payload
    do not fill whole cipher blocks (an eight-byte value does fill them, and
    is never encrypted); otherwise it returns [NULL], having already put the
    padded size and the checksum into the header of the plain packet.
    Decrypting an encrypted packet with the same key succeeds exactly when
    the OpenSSL calls do, and then gives back the payload and the header,
    except that [crc] and [data_size] are those the encryption wrote: the
    payload's size is the padded size less the padding. *)
Theorem crypt_roundtrip calls key p :
  let n := SYNCS_PACKET_DATA_SIZE (hd_data_size (pk_header p)) in
  header_wf (pk_header p) -> n + 16 <= zlen (pk_buffer p) -> 56 + n + 16 <= CRYPT_BUFFER_SIZE ->
  exists ok p', syncs_crypt_encode_packet calls key p = Ok (ok, p') /\
    (ok = true <-> evp_ok calls = true /\ (56 + n) mod 16 <> 0) /\
    (ok = false -> p' = mk_packet (sealed_header p) (pk_buffer p)) /\
    (ok = true -> forall calls', exists p'', syncs_crypt_decode_packet calls' key p' = Ok (evp_ok calls', p'') /\
      if evp_ok calls' then restored p p'' else p'' = p').
Proof.
  intros n Hwf Hb Hc. pose proof (data_size_range (hd_data_size (pk_header p))) as Hn. fold n in Hn.
  destruct (encode_cases calls key p Hb Hc) as [[Hm E]|(Hok & Hm & Hl & E)]; fold n in Hm, E; rewrite E.
  { exists false, (mk_packet (sealed_header p) (pk_buffer p)). split_and!; try done.
    split; [done|]. intros [? ?]. destruct Hm; congruence. }
  fold n in Hl. set (text := crypt_region _ ++ _) in *. set (cipher := evp_encrypt _ _ text) in *.
  destruct (encoded_packet p cipher Hwf Hb Hc Hl) as (Hs & Hpb & Hcr & Hpad). fold n in Hs, Hcr, Hpad.
  set (p' := mk_packet (set_crypt_region _ _) _) in *. exists true, p'.
  split; [done|]. split; [done|]. split; [done|]. intros _ calls'.
  pose proof (ciphertext_length_blocks (56 + n) ltac:(lia)) as [_ Hr].
  set (L := calculate_aes256_cbc_ciphertext_length (56 + n)) in *.
  change CRYPT_BUFFER_SIZE with 4096 in *.
  destruct (evp_ok calls') eqn:Hok'; [|exists p'; split; [|done]; apply decode_calls_fail; [lia| |done]].
  2: { rewrite Hs. change CRYPT_BUFFER_SIZE with 4096. lia. }
  pose proof (zlen_crypt_region (sealed_header p)) as Hrz.
  assert (ztake 56 text = crypt_region (sealed_header p)) as Ht1
    by (subst text; rewrite ztake_app_le by lia; apply ztake_ge; lia).
  assert (zdrop 56 text = ztake n (pk_buffer p)) as Ht2
    by (subst text; rewrite zdrop_app_ge, Hrz by lia; apply zdrop_0).
  eexists. split.
  - unfold syncs_crypt_decode_packet. rewrite Hs. cbn zeta. change SYNCS_CRYPT_HEADER_SIZE with 56.
    replace (56 + (L - 56)) with L by lia. change CRYPT_BUFFER_SIZE with 4096.
    rewrite Hpb, !Z.gtb_ltb, !(proj2 (Z.ltb_ge _ _)) by lia. cbn [orb]. rewrite Hcr.
    subst cipher. rewrite evp_decrypt_encrypt.
    assert (zlen text = 56 + n) as Ht by (subst text; zl).
    rewrite (proj2 (Z.ltb_ge _ _)) by lia. destruct calls' as [[] [] [] []]; done || reflexivity.
  - unfold restored. cbn [pk_header pk_buffer]. fold n. rewrite Ht1, Ht2.
    assert (set_crypt_region (pk_header p') (crypt_region (sealed_header p)) = sealed_header p) as ->
      by (apply set_crypt_region_back; [by apply sealed_header_wf|zl]).
    split; [done|]. split; [|done].
    unfold mem_put. rewrite ztake_0. cbn [app]. rewrite ztake_app_le by zl. by rewrite ztake_ztake, Z.min_id.
Qed.
End crypt_props.

Section crypt_instances.

(** PKCS#7 padding around the identity cipher satisfies the laws. *)
Definition pkcs7_pad (text : list byte) : list byte :=
  let k := 16 - zlen text mod 16 in
  text ++ replicate (Z.to_nat k) (byte.of_Z k).
Definition pkcs7_unpad (cipher : list byte) : option (list byte) :=
  match list.last cipher with
  | Some b => Some (ztake (zlen cipher - byte.unsigned b) cipher)
  | None => None
  end.

Lemma pkcs7_unpad_pad text : pkcs7_unpad (pkcs7_pad text) = Some text.
Proof.
  unfold pkcs7_unpad, pkcs7_pad. set (k := 16 - zlen text mod 16).
  assert (1 <= k <= 16) as Hk by (subst k; pose proof (Z.mod_pos_bound (zlen text) 16); lia).
  clearbody k. destruct (Z.to_nat k) as [|m] eqn:Em; [lia|].
  rewrite replicate_S_end, app_assoc. rewrite list.last_snoc.
  assert (byte.unsigned (byte.of_Z k) = k) as ->.
  { rewrite byte.unsigned_of_Z. unfold byte.wrap. apply Z.mod_small. lia. }
  f_equal. rewrite <- app_assoc, ztake_app_le.
  - apply ztake_ge. rewrite !zlen_app. unfold zlen. simpl. rewrite length_replicate. lia.
  - rewrite !zlen_app. unfold zlen. simpl. rewrite length_replicate. lia.
Qed.

Lemma pkcs7_pad_length text : zlen (pkcs7_pad text) = (zlen text / AES_BLOCK_SIZE + 1) * AES_BLOCK_SIZE.
Proof.
  unfold pkcs7_pad. change AES_BLOCK_SIZE with 16. rewrite zlen_app, zlen_replicate.
  pose proof (Z.mod_pos_bound (zlen text) 16 ltac:(lia)). pose proof (Z.div_mod (zlen text) 16 ltac:(lia)). lia.
Qed.

Definition padding_only : Evp := {|
  evp_encrypt _ _ := pkcs7_pad;
  evp_decrypt _ _ := pkcs7_unpad;
  evp_decrypt_encrypt _ _ := pkcs7_unpad_pad;
  evp_encrypt_length _ _ := pkcs7_pad_length |}.
#[local] Existing Instance padding_only.

Definition sample_key : list byte := replicate 48 Byte.x5a.
Definition sample_plain (n : Z) : syncs_packet :=
  mk_packet (mk_header SYNCS_PACKET_MAGIC 0 SYNCS_TYPE_WRITE (syncs_idstr [Byte.x61]) (mk_sync 1 2) 3 n
    SYNCS_PACKET_MAGIC_DATA) (replicate 511 Byte.x2a).

Definition calls_succeed : evp_calls := mk_evp_calls true true true true.

(** An eight-byte value (an [int64_t] or a [double]) cannot be encrypted. *)
Example crypt_rejects_int64 :
  syncs_crypt_encode_packet calls_succeed sample_key (sample_plain 8) =
    Ok (false, mk_packet (sealed_header (sample_plain 8)) (pk_buffer (sample_plain 8))).
Proof. by vm_compute. Qed.

Lemma crypt_roundtrip_witness :
  exists ok p', syncs_crypt_encode_packet calls_succeed sample_key (sample_plain 4) = Ok (ok, p') /\
    (ok = true <-> evp_ok calls_succeed = true /\ (56 + 4) mod 16 <> 0) /\
    (ok = false -> p' = mk_packet (sealed_header (sample_plain 4)) (pk_buffer (sample_plain 4))) /\
    (ok = true -> forall calls', exists p'',
      syncs_crypt_decode_packet calls' sample_key p' = Ok (evp_ok calls', p'') /\
      if evp_ok calls' then restored (sample_plain 4) p'' else p'' = p').
Proof.
  apply (crypt_roundtrip calls_succeed sample_key (sample_plain 4)); [|by vm_compute..].
  unfold header_wf; simpl. split_and!; try lia; by vm_compute.
Defined.
End crypt_instances.
