(* ===== verification/Sockets.v ===== *)
(** * Sockets: src/libsyncs/syncs-net-server.c, syncs-net-client.c and the
    socket options and routes of syncs-net-common.c

    The functions that open, configure and close sockets, over a kernel that
    answers system calls: the state is the list of the calls made so far with
    their results, from which the set of open descriptors is computed.  Every
    [struct sockaddr_in] these functions build is zeroed and of family
    [AF_INET]. *)

From Stdlib Require Import Strings.String.
From stdpp Require Import gmap.
From S2P Require Import Prelude.
From S2P Require Import Monad.
From S2P Require Import Types.
From S2P Require Import Net.
From S2P Require Import Text.

(** ** System calls *)

Inductive call : Type :=
  | Socket (domain type protocol : Z)
  | Setsockopt (fd level optname : Z) (value : list Z)
  | Bind (fd : Z) (a : sockaddr_in)
  | Listen (fd backlog : Z)
  | Connect (fd : Z) (a : sockaddr_in)
  | Close (fd : Z)
  | Shutdown (fd how : Z)
  | GetFlags (fd : Z)                                  (* [fcntl(fd, F_GETFL, 0)] *)
  | SetFlags (fd flags : Z)                            (* [fcntl(fd, F_SETFL, flags)] *)
  | AddRoute (fd : Z) (net mask : Z) (dev : list byte) (* [ioctl(fd, SIOCADDRT, &route)] *)
  | EpollCreate (size : Z)
  | Sendto (fd : Z) (a : sockaddr_in) (bs : list byte)
  | Recvfrom (fd size : Z).

Definition trace : Type := list (call * Z).

(** The calls that return a new descriptor. *)
Definition creates (c : call) : bool :=
  match c with Socket _ _ _ | EpollCreate _ => true | _ => false end.

(** The descriptors that are open after the calls. *)
Definition call_effect (fds : gset Z) (c : call * Z) : gset Z :=
  match c.1 with
  | Socket _ _ _ | EpollCreate _ => if c.2 <? 0 then fds else {[c.2]} ∪ fds
  | Close fd => fds ∖ {[fd]}
  | _ => fds
  end.
Definition open_fds (t : trace) : gset Z := foldl call_effect ∅ t.

(** Results of the system calls and values of [errno], after any calls. A
    new descriptor is one that is not open. *)
Class Kernel : Type := {
  kernel_result : trace -> call -> Z;
  kernel_creates t c : creates c = true ->
    kernel_result t c = -1 \/ 0 <= kernel_result t c /\ kernel_result t c ∉ open_fds t;
  kernel_errno : trace -> Z }.

Definition AF_INET : Z := 2.
Definition AF_PACKET : Z := 17.
Definition SOCK_STREAM : Z := 1.
Definition SOCK_DGRAM : Z := 2.
Definition IPPROTO_IP : Z := 0.
Definition IPPROTO_TCP : Z := 6.
Definition IPPROTO_UDP : Z := 17.
Definition SOL_SOCKET : Z := 1.
Definition SO_REUSEADDR : Z := 2.
Definition SO_SNDBUF : Z := 7.
Definition SO_RCVBUF : Z := 8.
Definition SO_KEEPALIVE : Z := 9.
Definition SO_LINGER : Z := 13.
Definition SO_REUSEPORT : Z := 15.
Definition SO_RCVTIMEO : Z := 20.
Definition TCP_NODELAY : Z := 1.
Definition TCP_KEEPIDLE : Z := 4.
Definition TCP_KEEPINTVL : Z := 5.
Definition TCP_KEEPCNT : Z := 6.
Definition TCP_SYNCNT : Z := 7.
Definition TCP_LINGER2 : Z := 8.
Definition TCP_QUICKACK : Z := 12.
Definition IP_TOS : Z := 1.
Definition IPTOS_LOWDELAY : Z := 0x10.
Definition IP_MULTICAST_LOOP : Z := 34.
Definition IP_ADD_MEMBERSHIP : Z := 35.
Definition O_NONBLOCK : Z := 0x800.
Definition IFF_LOOPBACK : Z := 0x8.
Definition INADDR_ANY : Z := 0.
(** [htonl(INADDR_LOOPBACK)], in memory order. *)
Definition INADDR_LOOPBACK : Z := 0x0100007f.

(** [htons]: the bytes of a 16-bit word reversed; an [int] port is converted
    to [uint16_t] first. *)
Definition htons (p : Z) : Z := le_combine (rev (le_split 2 (u16 p))).

(** An optional C string that is not empty. *)
Definition given (addr : option (list byte)) : option (list byte) :=
  match addr with Some (c :: a) => if is_nul c then None else Some (c :: a) | _ => None end.

Section sockets.
Context `{Env} `{Kernel}.

Abbreviation KM := (M trace).

Definition syscall (c : call) : KM Z :=
  t ← gets id;
  let ret := kernel_result t c in
  _ ← modify (fun t => t ++ [(c, ret)]);
  mret ret.

(** A call whose failure is only reported. *)
Definition try_call (c : call) : KM unit := _ ← syscall c; mret tt.

(** The address a socket of this library is bound or connected to. *)
Definition socket_address (none : Z) (addr : option (list byte)) (port : Z) : sockaddr_in :=
  mk_addr (match given addr with Some a => env_inet_addr (cstr a) | None => none end) (htons port).

Definition syncs_tcpserver_open (addr : option (list byte)) (port : Z) : KM Z :=
  socketfd ← syscall (Socket AF_INET SOCK_STREAM IPPROTO_TCP);
  if socketfd <? 0 then mret (-1)
  else
    _ ← try_call (Setsockopt socketfd SOL_SOCKET SO_REUSEADDR [1]);
    _ ← try_call (Setsockopt socketfd SOL_SOCKET SO_REUSEPORT [1]);
    _ ← try_call (Setsockopt socketfd IPPROTO_TCP TCP_NODELAY [1]);
    _ ← try_call (Setsockopt socketfd IPPROTO_TCP TCP_QUICKACK [1]);
    _ ← try_call (Setsockopt socketfd IPPROTO_TCP TCP_SYNCNT [3]);
    _ ← try_call (Setsockopt socketfd SOL_SOCKET SO_LINGER [1; 0]);
    _ ← try_call (Setsockopt socketfd IPPROTO_IP IP_TOS [IPTOS_LOWDELAY]);
    ret ← syscall (Bind socketfd (socket_address INADDR_ANY addr port));
    if negb (ret =? 0) then _ ← syscall (Close socketfd); mret (-2)
    else
      ret ← syscall (Listen socketfd 5);
      if negb (ret =? 0) then _ ← syscall (Close socketfd); mret (-3)
      else mret socketfd.

Definition syncs_tcpserver_close (socketfd : Z) : KM unit := try_call (Shutdown socketfd 2).

Definition syncs_udpserver_open (addr : option (list byte)) (port : Z) : KM Z :=
  socketfd ← syscall (Socket AF_INET SOCK_DGRAM IPPROTO_UDP);
  if socketfd <? 0 then mret (-1)
  else
    _ ← try_call (Setsockopt socketfd SOL_SOCKET SO_REUSEPORT [1]);
    _ ← try_call (Setsockopt socketfd IPPROTO_IP IP_TOS [IPTOS_LOWDELAY]);
    ret ← syscall (Bind socketfd (socket_address INADDR_ANY addr port));
    if negb (ret =? 0) then _ ← syscall (Close socketfd); mret (-2)
    else mret socketfd.

Definition syncs_udpserver_close (socketfd : Z) : KM unit := try_call (Close socketfd).

Definition syncs_udpmulticast_open (addr : option (list byte)) (port : Z) : KM Z :=
  socketfd ← syscall (Socket AF_INET SOCK_DGRAM 0);
  if socketfd <? 0 then mret (-1)
  else
    _ ← try_call (Setsockopt socketfd SOL_SOCKET SO_REUSEPORT [1]);
    _ ← try_call (Setsockopt socketfd IPPROTO_IP IP_MULTICAST_LOOP [1]);
    ret ← syscall (Bind socketfd (socket_address INADDR_ANY addr port));
    if negb (ret =? 0) then _ ← syscall (Close socketfd); mret (-2)
    else mret socketfd.

Definition syncs_tcpclient_open (addr : option (list byte)) (port : Z) : KM Z :=
  socketfd ← syscall (Socket AF_INET SOCK_STREAM IPPROTO_TCP);
  if socketfd <? 0 then mret (-1)
  else
    _ ← try_call (Setsockopt socketfd SOL_SOCKET SO_REUSEADDR [1]);
    _ ← try_call (Setsockopt socketfd SOL_SOCKET SO_REUSEPORT [1]);
    _ ← try_call (Setsockopt socketfd IPPROTO_TCP TCP_NODELAY [1]);
    _ ← try_call (Setsockopt socketfd IPPROTO_TCP TCP_QUICKACK [1]);
    _ ← try_call (Setsockopt socketfd IPPROTO_TCP TCP_SYNCNT [3]);
    _ ← try_call (Setsockopt socketfd SOL_SOCKET SO_LINGER [1; 0]);
    _ ← try_call (Setsockopt socketfd IPPROTO_IP IP_TOS [IPTOS_LOWDELAY]);
    ret ← syscall (Connect socketfd (socket_address INADDR_LOOPBACK addr port));
    if negb (ret =? 0) then _ ← syscall (Close socketfd); mret (-2)
    else mret socketfd.

Definition syncs_tcpclient_close (socketfd : Z) : KM unit := try_call (Shutdown socketfd 2).

(** Also fills [*serveraddr]; on failure the caller's address is untouched. *)
Definition syncs_udpclient_open (addr : option (list byte)) (port : Z) (serveraddr : sockaddr_in)
    : KM (Z * sockaddr_in) :=
  socketfd ← syscall (Socket AF_INET SOCK_DGRAM IPPROTO_UDP);
  if socketfd <? 0 then mret (-1, serveraddr)
  else
    _ ← try_call (Setsockopt socketfd SOL_SOCKET SO_REUSEPORT [1]);
    mret (socketfd, socket_address INADDR_ANY addr port).

Definition syncs_udpclient_close (socketfd : Z) : KM unit := try_call (Close socketfd).

(** ** Options *)

Definition syncs_set_nonblocking_socket (socketfd rx_size tx_size : Z) : KM unit :=
  flags ← syscall (GetFlags socketfd);
  _ ← try_call (SetFlags socketfd (Z.lor flags O_NONBLOCK));
  _ ← (if negb (rx_size =? 0) then try_call (Setsockopt socketfd IPPROTO_TCP SO_RCVBUF [rx_size]) else mret tt);
  if negb (tx_size =? 0) then try_call (Setsockopt socketfd IPPROTO_TCP SO_SNDBUF [tx_size]) else mret tt.

Definition syncs_set_rxtimeout (socketfd s us : Z) : KM unit :=
  try_call (Setsockopt socketfd SOL_SOCKET SO_RCVTIMEO [s; us]).

Definition syncs_set_keepalive (socketfd idle count : Z) : KM unit :=
  _ ← try_call (Setsockopt socketfd SOL_SOCKET SO_KEEPALIVE [1]);
  _ ← try_call (Setsockopt socketfd IPPROTO_TCP TCP_KEEPIDLE [idle]);
  _ ← try_call (Setsockopt socketfd IPPROTO_TCP TCP_KEEPINTVL [1]);
  try_call (Setsockopt socketfd IPPROTO_TCP TCP_KEEPCNT [count]).

Definition syncs_add_multicast_group (socketfd : Z) (maddr : list byte) (addr : option (list byte)) : KM Z :=
  let interface := match given addr with Some a => env_inet_addr (cstr a) | None => INADDR_ANY end in
  ret ← syscall (Setsockopt socketfd IPPROTO_IP IP_ADD_MEMBERSHIP [env_inet_addr (cstr maddr); interface]);
  if ret <? 0 then gets kernel_errno else mret 0.

Definition syncs_set_multicast_group (maddr : list byte) (port : Z) : sockaddr_in :=
  mk_addr (env_inet_addr (cstr maddr)) (htons port).

(** ** Routes *)

(** The failure test of [socket] compares with 0. *)
Definition syncs_add_network_route_dev (net mask dev : list byte) : KM Z :=
  fd ← syscall (Socket AF_INET SOCK_DGRAM IPPROTO_IP);
  if fd =? 0 then gets kernel_errno
  else
    ret ← syscall (AddRoute fd (env_inet_addr (cstr net)) (env_inet_addr (cstr mask)) dev);
    _ ← syscall (Close fd);
    if negb (ret =? 0) then gets kernel_errno else mret 0.

(** An entry of [getifaddrs]: name, flags and the family of its address, if
    it has one. *)
Record ifaddr : Type := mk_ifaddr { ifa_name : list byte; ifa_flags : Z; ifa_family : option Z }.

(** [!memcmp(name, s, n)] with [n] the length of [s]. *)
Definition name_starts (s name : list byte) : bool := starts_with s (cstr name).

Definition route_interface (ifa : ifaddr) : bool :=
  negb (negb (Z.land (ifa_flags ifa) IFF_LOOPBACK =? 0)) &&
  bool_decide (ifa_family ifa = Some AF_PACKET) &&
  negb (name_starts (text "dummy") (ifa_name ifa)) &&
  negb (name_starts (text "lo") (ifa_name ifa)).

Definition SYNCS_NET_MULTICAST_NET : list byte := text "224.0.0.0".

(** [interfaces] is what [getifaddrs] returns, [None] on an error. *)
Definition syncs_add_multicast_route (ifname : option (list byte)) (interfaces : option (list ifaddr)) : KM Z :=
  match ifname with
  | Some ifname => syncs_add_network_route_dev SYNCS_NET_MULTICAST_NET SYNCS_NET_MULTICAST_NET ifname
  | None =>
      match interfaces with
      | None => mret (-1)
      | Some l =>
          _ ← for_each l (fun ifa =>
            if route_interface ifa then
              _ ← syncs_add_network_route_dev SYNCS_NET_MULTICAST_NET SYNCS_NET_MULTICAST_NET (ifa_name ifa); mret tt
            else mret tt);
          mret 0
      end
  end.

End sockets.

(** ** What the calls do to the set of open descriptors *)

Definition opens_or_closes (c : call) : bool :=
  match c with Socket _ _ _ | EpollCreate _ | Close _ => true | _ => false end.

Lemma open_fds_snoc t c : open_fds (t ++ [c]) = call_effect (open_fds t) c.
Proof. unfold open_fds. by rewrite foldl_app. Qed.

Lemma open_fds_neutral t c r : opens_or_closes c = false -> open_fds (t ++ [(c, r)]) = open_fds t.
Proof. intros Hc. rewrite open_fds_snoc. by destruct c. Qed.

Section descriptors.
Context `{Env} `{Kernel}.

Lemma run_syscall c t (Q : Z -> trace -> Prop) :
  Q (kernel_result t c) (t ++ [(c, kernel_result t c)]) -> wp (syscall c) Q t.
Proof. intros HQ. unfold syscall. by repeat wp_step. Qed.

(** The calls between the opening and the closing of a socket. *)
Lemma run_neutral c t (Q : Z -> trace -> Prop) :
  opens_or_closes c = false ->
  (forall r t', t ⊆ t' -> (c, r) ∈ t' -> open_fds t' = open_fds t -> Q r t') -> wp (syscall c) Q t.
Proof.
  intros Hc HQ. apply run_syscall, HQ; [set_solver|set_solver|by apply open_fds_neutral].
Qed.

Lemma run_try c t (Q : unit -> trace -> Prop) :
  opens_or_closes c = false ->
  (forall t', t ⊆ t' -> open_fds t' = open_fds t -> Q tt t') -> wp (try_call c) Q t.
Proof.
  intros Hc HQ. unfold try_call. wp_step. apply run_neutral; [done|].
  intros r t' Ht _ Ho. wp_step. by apply HQ.
Qed.

Lemma run_close fd t (Q : Z -> trace -> Prop) :
  (forall r t', open_fds t' = open_fds t ∖ {[fd]} -> Q r t') -> wp (syscall (Close fd)) Q t.
Proof. intros HQ. apply run_syscall, HQ. by rewrite open_fds_snoc. Qed.

(** A new descriptor, or none. *)
Lemma run_creates c t (Q : Z -> trace -> Prop) :
  creates c = true ->
  (forall t', open_fds t' = open_fds t -> Q (-1) t') ->
  (forall fd t', 0 <= fd -> fd ∉ open_fds t -> open_fds t' = {[fd]} ∪ open_fds t -> Q fd t') ->
  wp (syscall c) Q t.
Proof.
  intros Hc Hno Hfd. apply run_syscall.
  assert (forall r, call_effect (open_fds t) (c, r) = if r <? 0 then open_fds t else {[r]} ∪ open_fds t) as He
    by (intros r; by destruct c).
  destruct (kernel_creates t c Hc) as [E|[E Hnew]].
  - rewrite E. apply Hno. by rewrite open_fds_snoc, He.
  - apply Hfd; [done..|]. by rewrite open_fds_snoc, He, (proj2 (Z.ltb_ge _ _)).
Qed.

(** What a function that opens a socket returns: a new descriptor, the only
    new one, on which the [purpose] calls succeeded; or an error, and no
    descriptor stays open. *)
Definition opened (purpose : Z -> trace) (t : trace) (r : Z) (t' : trace) : Prop :=
  (0 <= r /\ r ∉ open_fds t /\ open_fds t' = {[r]} ∪ open_fds t /\ purpose r ⊆ t') \/
  (r < 0 /\ open_fds t' = open_fds t).

Definition bound (a : sockaddr_in) (fd : Z) : trace := [(Bind fd a, 0)].
Definition listening (a : sockaddr_in) (fd : Z) : trace := [(Bind fd a, 0); (Listen fd 5, 0)].
Definition connected_to (a : sockaddr_in) (fd : Z) : trace := [(Connect fd a, 0)].

(** The end of a failed opening. *)
Lemma opened_closed purpose t fd r t1 t2 :
  r < 0 -> fd ∉ open_fds t -> open_fds t1 = {[fd]} ∪ open_fds t -> open_fds t2 = open_fds t1 ∖ {[fd]} ->
  opened purpose t r t2.
Proof. intros Hr Hnew H1 H2. right. split; [done|]. rewrite H2, H1. set_solver. Qed.
End descriptors.

(** One step of an opening: open, configure, bind or connect, close. *)
Ltac opening :=
  repeat match goal with
    | |- wp (_ ≫= _) _ _ => apply wp_bind
    | |- wp (mret _) _ _ => apply wp_ret
    | |- wp (try_call _) _ _ => apply run_try; [reflexivity|intros ? ? ?]
    | |- wp (syscall (Socket _ _ _)) _ _ => apply run_creates; [reflexivity|intros ? ?|intros ? ? ? ? ?]
    | |- wp (syscall (Close _)) _ _ => apply run_close; intros ? ? ?
    | |- wp (syscall _) _ _ => apply run_neutral; [reflexivity|intros ? ? ? ? ?]
    | |- wp (if ?b then _ else _) _ _ => let E := fresh "E" in destruct b eqn:E
    | H : (-1 <? 0) = false |- _ => discriminate H
    | H : (?fd <? 0) = true, H' : 0 <= ?fd |- _ => exfalso; apply Z.ltb_lt in H; lia
    | H : negb (?r =? 0) = false |- _ => apply negb_false_iff, Z.eqb_eq in H; subst r
    end; cbn beta in *.

(** ** No opening leaks a descriptor *)

Inductive open_function : Type :=
  | OpenTcpServer | OpenUdpServer | OpenMulticast | OpenTcpClient | OpenUdpClient.

Section opening.
Context `{Env} `{Kernel}.

Definition open_socket (f : open_function) (addr : option (list byte)) (port : Z) : M trace Z :=
  match f with
  | OpenTcpServer => syncs_tcpserver_open addr port
  | OpenUdpServer => syncs_udpserver_open addr port
  | OpenMulticast => syncs_udpmulticast_open addr port
  | OpenTcpClient => syncs_tcpclient_open addr port
  | OpenUdpClient => r ← syncs_udpclient_open addr port (mk_addr 0 0); mret r.1
  end.

(** The calls that make the socket usable. *)
Definition open_purpose (f : open_function) (addr : option (list byte)) (port : Z) : Z -> trace :=
  match f with
  | OpenTcpServer => listening (socket_address INADDR_ANY addr port)
  | OpenUdpServer | OpenMulticast => bound (socket_address INADDR_ANY addr port)
  | OpenTcpClient => connected_to (socket_address INADDR_LOOPBACK addr port)
  | OpenUdpClient => fun _ => []
  end.

Lemma run_open_socket f addr port t :
  wp (open_socket f addr port) (opened (open_purpose f addr port) t) t.
Proof.
  destruct f; unfold open_socket, syncs_tcpserver_open, syncs_udpserver_open, syncs_udpmulticast_open,
    syncs_tcpclient_open, syncs_udpclient_open; opening; cbn [fst].
  all: first [by right|eapply opened_closed; [done|eassumption|..|eassumption]; congruence|left].
  all: split_and!; [done|done|congruence|]; unfold open_purpose, listening, bound, connected_to; set_solver.
Qed.
End opening.

Section routes.
Context `{Env} `{Kernel}.

Lemma open_fds_nonneg t fd : fd ∈ open_fds t -> 0 <= fd.
Proof.
  induction t as [|[c r] t IH] using rev_ind; [by intros ?%elem_of_empty|].
  rewrite open_fds_snoc. unfold call_effect. destruct c; cbn [fst snd]; try exact IH.
  all: first [destruct (Z.ltb_spec r 0); [exact IH|]; set_solver|set_solver].
Qed.

(** The interfaces for which a route was requested. *)
Definition routes (t : trace) : list (list byte) :=
  omap (fun c => match c.1 with AddRoute _ _ _ dev => Some dev | _ => None end) t.

Lemma routes_app t t' : routes (t ++ t') = routes t ++ routes t'.
Proof. apply omap_app. Qed.

(** Descriptor 0 is open in every program, so [socket] never returns it. *)
Lemma run_route_dev net mask dev t :
  0 ∈ open_fds t ->
  wp (syncs_add_network_route_dev net mask dev)
    (fun _ t' => open_fds t' = open_fds t /\ routes t' = routes t ++ [dev]) t.
Proof.
  intros Hstd. unfold syncs_add_network_route_dev. wp_step. apply run_syscall.
  set (fd := kernel_result t _). set (t1 := t ++ _).
  assert (fd <> 0 /\ open_fds t1 ∖ {[fd]} = open_fds t) as [Hfd Ho].
  { destruct (kernel_creates t (Socket AF_INET SOCK_DGRAM IPPROTO_IP) eq_refl) as [E|[Hpos Hnew]]; [change (fd = -1) in E|change (0 <= fd) in Hpos; change (fd ∉ open_fds t) in Hnew].
    - split; [lia|]. subst t1. rewrite E, open_fds_snoc. unfold call_effect. cbn [fst snd]. simpl.
      apply set_eq. intros x. rewrite elem_of_difference, elem_of_singleton.
      split; [naive_solver|]. intros Hx. split; [done|]. apply open_fds_nonneg in Hx. lia.
    - split; [intros E; by rewrite E in Hnew|]. subst t1. rewrite open_fds_snoc. unfold call_effect. cbn [fst snd].
      rewrite (proj2 (Z.ltb_ge _ _)) by done. set_solver. }
  rewrite (proj2 (Z.eqb_neq _ _) Hfd). wp_step. apply run_syscall. wp_step. apply run_syscall.
  assert (forall c r, open_fds ((t1 ++ [(AddRoute fd (env_inet_addr (cstr net)) (env_inet_addr (cstr mask)) dev, r)]) ++ [(Close fd, c)]) = open_fds t /\
    routes ((t1 ++ [(AddRoute fd (env_inet_addr (cstr net)) (env_inet_addr (cstr mask)) dev, r)]) ++ [(Close fd, c)]) = routes t ++ [dev]) as Hend.
  { intros c r. split; [|subst t1; by rewrite !routes_app, <- !app_assoc].
    rewrite open_fds_snoc, open_fds_neutral by done. exact Ho. }
  wp_steps; apply Hend.
Qed.

Lemma run_multicast_routes l t :
  0 ∈ open_fds t ->
  wp (syncs_add_multicast_route None (Some l)) (fun r t' => r = 0 /\ open_fds t' = open_fds t /\
    routes t' = routes t ++ (ifa_name <$> filter route_interface l)) t.
Proof.
  intros Hstd. unfold syncs_add_multicast_route. wp_step.
  eapply wp_mono; [apply (wp_for_each_index (fun k t' => open_fds t' = open_fds t /\
    routes t' = routes t ++ (ifa_name <$> filter route_interface (take k l))))|].
  - by rewrite app_nil_r.
  - intros k ifa t1 Hk (Ho & Hr). rewrite Nat.add_1_r, (take_S_r _ k ifa), list.filter_app, filter_cons, filter_nil by done.
    destruct (decide (route_interface ifa)) as [E|E]; [apply Is_true_true in E|apply Is_true_false in E]; rewrite E.
    + wp_step. eapply wp_mono; [apply run_route_dev; by rewrite Ho|]. intros r t2 (Ho2 & Hr2). wp_step.
      split; [congruence|]. by rewrite Hr2, Hr, fmap_app, <- app_assoc.
    + wp_step. by rewrite app_nil_r.
  - intros [] t1 (Ho & Hr). wp_step. rewrite take_ge in Hr by done. done.
Qed.
End routes.

(** C27: opening a socket, of any of the five kinds, leaks no descriptor: the
    function returns a new descriptor, the only one it leaves open, on which
    the calls that make it usable ([bind] to the address, [listen],
    [connect]) succeeded, or an error code and leaves no new descriptor. *)
Theorem open_socket_keeps_descriptors `{Env} `{Kernel} f addr port t :
  exists r t', open_socket f addr port t = Ok (r, t') /\
    ((0 <= r /\ r ∉ open_fds t /\ open_fds t' = {[r]} ∪ open_fds t /\ open_purpose f addr port r ⊆ t') \/
     (r < 0 /\ open_fds t' = open_fds t)).
Proof. apply wp_run, run_open_socket. Qed.

(** Adding the multicast routes asks for exactly one route for every
    interface that is not a loopback or dummy one and has a link-layer
    address, in order, whatever the kernel answers, and leaves no descriptor
    open. *)
Theorem multicast_routes_per_interface `{Env} `{Kernel} l t :
  0 ∈ open_fds t ->
  exists t', syncs_add_multicast_route None (Some l) t = Ok (0, t') /\ open_fds t' = open_fds t /\
    routes t' = routes t ++ (ifa_name <$> filter route_interface l).
Proof.
  intros Hstd. destruct (proj1 (wp_run _ _ _) (run_multicast_routes l t Hstd)) as (r & t' & E & -> & Ho & Hr).
  by exists t'.
Qed.

Section instances.

(** A kernel on which every call succeeds. *)
Definition next_fd (t : trace) : Z := 1 + foldr Z.max 2 (snd <$> t).

Lemma next_fd_fresh t : 0 <= next_fd t /\ next_fd t ∉ open_fds t.
Proof.
  assert (forall l, 2 <= foldr Z.max 2 l) as Hmin.
  { intros l. induction l; simpl; lia. }
  assert (forall t fd, fd ∈ open_fds t -> fd < next_fd t) as Hlt.
  { clear t. intros t fd. induction t as [|[c r] t IH] using rev_ind; [by intros ?%elem_of_empty|].
    assert (next_fd t <= next_fd (t ++ [(c, r)]) /\ r < next_fd (t ++ [(c, r)])) as [Hle Hr].
    { unfold next_fd. rewrite fmap_app, foldr_app. simpl. generalize (snd <$> t). intros l.
      induction l; simpl; lia. }
    rewrite open_fds_snoc. unfold call_effect. cbn [fst snd]. destruct c; try (intros Hfd; specialize (IH Hfd); lia).
    2: intros [Hfd _]%elem_of_difference; specialize (IH Hfd); lia.
    all: destruct (r <? 0); [intros Hfd; specialize (IH Hfd); lia|].
    all: intros [->%elem_of_singleton|Hfd]%elem_of_union; [done|specialize (IH Hfd); lia]. }
  split; [unfold next_fd; pose proof (Hmin (snd <$> t)); lia|]. intros Hfd%Hlt. lia.
Qed.

Definition perfect_result (t : trace) (c : call) : Z :=
  if creates c then next_fd t else 0.

#[export] Program Instance perfect_kernel : Kernel := {|
  kernel_result := perfect_result;
  kernel_errno _ := 0 |}.
Next Obligation. intros t c Hc. unfold perfect_result. rewrite Hc. right. apply next_fd_fresh. Qed.

#[local] Existing Instance perfect_env.

(** A loopback interface, an Ethernet card and a dummy device. *)
Definition sample_interfaces : list ifaddr :=
  [mk_ifaddr (text "lo") 0x9 (Some AF_PACKET); mk_ifaddr (text "eth0") 0x1003 (Some AF_PACKET);
   mk_ifaddr (text "eth0") 0x1003 (Some AF_INET); mk_ifaddr (text "dummy0") 0x83 (Some AF_PACKET)].

Lemma sample_stdin : 0 ∈ open_fds [(Socket 1 1 0, 0)].
Proof. change (0 ∈ ({[0]} ∪ ∅ : gset Z)). set_solver. Qed.

Lemma multicast_routes_per_interface_witness :
  (ifa_name <$> filter route_interface sample_interfaces) = [text "eth0"] /\
  exists t', syncs_add_multicast_route None (Some sample_interfaces) [(Socket 1 1 0, 0)] = Ok (0, t') /\
    open_fds t' = open_fds [(Socket 1 1 0, 0)] /\
    routes t' = routes [(Socket 1 1 0, 0)] ++ (ifa_name <$> filter route_interface sample_interfaces).
Proof.
  split; [by vm_compute|]. apply (multicast_routes_per_interface sample_interfaces).
  exact sample_stdin.
Defined.
End instances.
