(* ===== verification/Ssdp.v ===== *)
(** * Discovery: the SSDP responder of syncs-server.c and the search of
    syncs-client.c

    A client without an address multicasts a search; the thread
    [syncs_server_ssdp_thread] of every server answers with its address and
    port; [syncs_find_server] takes them from the first answer. *)

From Stdlib Require Import Strings.String.
From stdpp Require Import gmap.
From S2P Require Import Prelude.
From S2P Require Import Monad.
From S2P Require Import Types.
From S2P Require Import Net.
From S2P Require Import ServerState.
From S2P Require Import Text.
From S2P Require Import Sockets.
From S2P Require Import ClientState.

(** ** syncs-common.h *)

Definition SSDP_PACKET_SIZE : Z := 1500.
Definition ssdp_msearch : list byte := text "M-SEARCH * HTTP/1.1" ++ CRLF.
Definition ssdp_response : list byte := text "HTTP/1.1 200 OK" ++ CRLF.
Definition ssdp_ip : list byte := text "239.255.255.250".
Definition ssdp_port : Z := 1900.
Definition syncs_ssdp_name : list byte := text "syncscribe-server".

Definition INET_ADDRSTRLEN : Z := 16.

(** ** The two messages *)

(** The answer up to the location, and from the port on. *)
Definition response_head : list byte :=
  ssdp_response ++ text "CACHE-CONTROL:max-age=120" ++ CRLF ++ text "DATE:" ++ CRLF ++ text "EXT:" ++ CRLF.
Definition response_text (addr : list byte) (port : Z) (id : list byte) : list byte :=
  response_head ++ text "LOCATION:" ++ addr ++ text ":" ++ fmt_d port ++ CRLF ++
  text "SERVER:unknow" ++ CRLF ++ text "ST:" ++ syncs_ssdp_name ++ CRLF ++ text "USN:" ++ id ++ CRLF ++ CRLF.

Definition msearch_text : list byte :=
  ssdp_msearch ++ text "HOST:" ++ ssdp_ip ++ text ":" ++ fmt_d ssdp_port ++ CRLF ++
  text "MAN:" ++ QUOTE ++ text "ssdp:discover" ++ QUOTE ++ CRLF ++ text "MX:1" ++ CRLF ++
  text "ST:" ++ syncs_ssdp_name ++ CRLF ++ text "USER-AGENT:unknow" ++ CRLF ++ CRLF.

Section ssdp.
Context `{Env} `{Kernel}.

(** ** The server *)

Definition syncs_server_ssdp_response (s : syncs_server) (buffer : list byte) (size : Z)
    : M trace (list byte * Z) :=
  addr ← c_string (sv_addr s);
  id ← c_string (id_chars (sv_id s));
  snprintf buffer size (response_text addr (sv_port s) id).

(** The answer both ways out of the receive loop send. *)
Definition ssdp_answer (s : syncs_server) (socketfd : Z) (gaddr : sockaddr_in) (buffer : list byte)
    : M trace (list byte) :=
  res ← syncs_server_ssdp_response s buffer SSDP_PACKET_SIZE;
  let '(buffer, packet_size) := res in
  packet ← mem_read buffer packet_size;
  _ ← syscall (Sendto socketfd gaddr packet);
  mret buffer.

(** What the successive calls of [recvfrom] return; with no more the thread
    waits. The bytes beyond [SSDP_PACKET_SIZE] are lost. *)
Fixpoint ssdp_receive_loop (s : syncs_server) (beacon : bool) (socketfd : Z) (gaddr : sockaddr_in)
    (buffer : list byte) (packets : list recv_result) : M trace unit :=
  match packets with
  | [] => mret tt
  | RecvError errno :: _ =>
      if (errno =? EAGAIN) && beacon then _ ← ssdp_answer s socketfd gaddr buffer; mret tt else mret tt
  | RecvData bs :: packets =>
      let packet_size := Z.min (zlen bs) SSDP_PACKET_SIZE in
      buffer ← memcpy buffer 0 bs packet_size;
      if packet_size <? zlen ssdp_msearch then ssdp_receive_loop s beacon socketfd gaddr buffer packets
      else if negb (starts_with ssdp_msearch buffer) then ssdp_receive_loop s beacon socketfd gaddr buffer packets
      else
        field ← strstr buffer syncs_ssdp_name;
        match field with
        | None => ssdp_receive_loop s beacon socketfd gaddr buffer packets
        | Some _ =>
            buffer ← ssdp_answer s socketfd gaddr buffer;
            ssdp_receive_loop s beacon socketfd gaddr buffer packets
        end
  end.

(** [buffer] is the uninitialised [ssdp_client_buffer]. *)
Definition syncs_server_ssdp_receive (s : syncs_server) (beacon : bool) (socketfd : Z)
    (buffer : list byte) (packets : list recv_result) : M trace unit :=
  let gaddr := syncs_set_multicast_group ssdp_ip ssdp_port in
  _ ← (if beacon then syncs_set_rxtimeout socketfd 0 500000 else mret tt);
  ssdp_receive_loop s beacon socketfd gaddr buffer packets.

(** One iteration of the thread per entry: the interfaces [getifaddrs] lists
    when the group cannot be joined, and what the socket receives. *)
Fixpoint syncs_server_ssdp_thread (s : syncs_server) (beacon : bool)
    (rounds : list (option (list ifaddr) * list byte * list recv_result)) : M trace unit :=
  match rounds with
  | [] => mret tt
  | (interfaces, buffer, packets) :: rounds =>
      socketfd ← syncs_udpmulticast_open None ssdp_port;
      ret ← syncs_add_multicast_group socketfd ssdp_ip None;
      if negb (ret =? 0) then
        _ ← syncs_add_multicast_route None interfaces;
        syncs_server_ssdp_thread s beacon rounds
      else if socketfd <? 0 then syncs_server_ssdp_thread s beacon rounds
      else
        _ ← syncs_server_ssdp_receive s beacon socketfd buffer packets;
        _ ← syscall (Close socketfd);
        syncs_server_ssdp_thread s beacon rounds
  end.

(** ** The client *)

Definition syncs_ssdp_msearch (buffer : list byte) (size : Z) : M trace (list byte * Z) :=
  snprintf buffer size msearch_text.

(** [while ( *location != ':') location++;] on the rest of the buffer. *)
Fixpoint skip_to_colon (location : list byte) : M trace (list byte) :=
  match location with
  | [] => raise OutOfBounds
  | c :: rest => if bool_decide (c = Byte.x3a) then mret location else skip_to_colon rest
  end.

(** The copy of the address; [count] is [addr_count], which is also how far
    [addr] has advanced. *)
Fixpoint copy_address (location addr : list byte) (count : Z) : M trace (list byte * list byte * Z) :=
  match location with
  | [] => raise OutOfBounds
  | c :: rest =>
      if bool_decide (c = Byte.x3a) then mret (location, addr, count)
      else
        addr ← memcpy addr count [c] 1;
        let count := count + 1 in
        if count >? INET_ADDRSTRLEN then mret (rest, addr, count) else copy_address rest addr count
  end.

Fixpoint read_port (location : list byte) (port : Z) : M trace Z :=
  match location with
  | [] => raise OutOfBounds
  | c :: rest =>
      if isdigit c then read_port rest (i32 (i32 (port * 10) + (byte.unsigned c - 48))) else mret port
  end.

(** The body of the loop once an answer is recognised. *)
Definition ssdp_location (location addr : list byte) (sender : sockaddr_in) : M trace (list byte * Z) :=
  location ← skip_to_colon location;
  res ← copy_address (tail location) addr 0;
  let '(location, addr, count) := res in
  port ← read_port (tail location) 0;
  let name := inet_ntoa (sin_addr sender) ++ [Byte.x00] in
  addr ← memcpy addr count name (zlen name);
  mret (addr, port).

(** [None]: [recvfrom] failed, with the timeout or an error. *)
Fixpoint find_server_loop (addr buffer : list byte) (packets : list (recv_result * sockaddr_in))
    : M trace (option (list byte * Z)) :=
  match packets with
  | [] | (RecvError _, _) :: _ => mret None
  | (RecvData bs, sender) :: packets =>
      let packet_size := Z.min (zlen bs) SSDP_PACKET_SIZE in
      buffer ← memcpy buffer 0 bs packet_size;
      if packet_size <? zlen ssdp_response then find_server_loop addr buffer packets
      else if negb (starts_with ssdp_response buffer) then find_server_loop addr buffer packets
      else
        field ← strstr buffer syncs_ssdp_name;
        match field with
        | None => find_server_loop addr buffer packets
        | Some _ =>
            location ← strstr buffer (text "LOCATION:");
            match location with
            | None => find_server_loop addr buffer packets
            | Some k => r ← ssdp_location (zdrop k buffer) addr sender; mret (Some r)
            end
        end
  end.

(** The result is the return value, [*addr] and [*port]; [buffer] is the
    uninitialised [ssdp_buffer]. *)
Definition syncs_find_server (addr : list byte) (port : Z) (buffer : list byte)
    (packets : list (recv_result * sockaddr_in)) : M trace (Z * list byte * Z) :=
  fd ← syncs_udpmulticast_open None ssdp_port;
  _ ← syncs_add_multicast_group fd ssdp_ip None;
  let gaddr := syncs_set_multicast_group ssdp_ip ssdp_port in
  _ ← syncs_set_rxtimeout fd 0 500000;
  res ← syncs_ssdp_msearch buffer SSDP_PACKET_SIZE;
  let '(buffer, packet_size) := res in
  packet ← mem_read buffer packet_size;
  _ ← syscall (Sendto fd gaddr packet);
  found ← find_server_loop addr buffer packets;
  _ ← syncs_udpserver_close fd;
  match found with
  | Some (addr, port) => mret (0, addr, port)
  | None => mret (-1, addr, port)
  end.
End ssdp.

(** ** The first loop of the client's connection threads

    Until the address and the port are set the thread searches; [answers] are
    the results of the successive calls of [syncs_find_server] ([None]: -1).
    The result is false while it still searches. *)
Fixpoint connect_search (answers : list (option (list byte * Z))) : CM bool :=
  s ← connect_get;
  if is_nul (chr (cn_addr s)) || (cn_port s =? 0) then
    match answers with
    | [] => mret false
    | None :: answers => connect_search answers
    | Some (addr, port) :: _ =>
        _ ← connect_upd (fun s => s <| cn_addr := addr |>);
        _ ← connect_upd (fun s => s <| cn_port := port |>);
        mret true
    end
  else mret true.
