(* ===== verification/SsdpProps.v ===== *)
(** * Discovery: the answer of a server read by a client

    The messages the two sides build, sent and parsed: what a client learns
    from the answer of a server. *)

From Stdlib Require Import Strings.String.
From stdpp Require Import gmap.
From S2P Require Import Prelude.
From S2P Require Import Monad.
From S2P Require Import Types.
From S2P Require Import Net.
From S2P Require Import ServerState.
From S2P Require Import Text.
From S2P Require Import Sockets.
From S2P Require Import Ssdp.

(** Lengths of literals. *)
Ltac zlen_text :=
  let closed l := (let n := eval vm_compute in (zlen l) in change (zlen l) with n) in
  repeat match goal with
    | |- context [zlen (text ?s)] => closed (text s)
    | |- context [zlen CRLF] => closed CRLF
    | |- context [zlen response_head] => closed response_head
    | |- context [zlen syncs_ssdp_name] => closed syncs_ssdp_name
    end.

Definition no_nul (l : list byte) : Prop := Forall (fun c => is_nul c = false) l.
Definition no_colon (l : list byte) : Prop := Forall (fun c => c <> Byte.x3a) l.

Lemma no_nul_text l : forallb (fun c => negb (is_nul c)) l = true -> no_nul l.
Proof. intros H. apply list.Forall_forall. intros c Hc. by apply negb_true_iff, (proj1 (forallb_forall _ l) H), list_elem_of_In. Qed.

Lemma no_nul_cstr l : no_nul (cstr l).
Proof. apply list.Forall_forall. intros c. apply cstr_no_nul. Qed.

Lemma isdigit_range c : isdigit c = true -> 48 <= byte.unsigned c <= 57.
Proof. unfold isdigit. rewrite andb_true_iff, !Z.leb_le. done. Qed.

Lemma isdigit_not c : isdigit c = true -> is_nul c = false /\ c <> Byte.x3a.
Proof. intros Hc%isdigit_range. destruct Hc. split; [|by intros ->].
  destruct (is_nul c) eqn:E; [|done]. by apply is_nul_spec in E as ->. Qed.

Lemma no_nul_fmt_d n : 0 <= n -> no_nul (fmt_d n).
Proof.
  intros Hn. rewrite fmt_d_digits by done. eapply list.Forall_impl; [by apply digits_isdigit|].
  intros c Hc. by apply isdigit_not.
Qed.

(** ** The parser of the location *)

Lemma mem_put_extend {A} k (x y mem : list A) :
  0 <= k -> k + zlen x <= zlen mem -> mem_put (k + zlen x) y (mem_put k x mem) = mem_put k (x ++ y) mem.
Proof.
  intros Hk Hx. pose proof (zlen_nonneg x). pose proof (zlen_nonneg y). unfold mem_put. assert (zlen (ztake k mem) = k) as Hz by zl.
  rewrite ztake_app_ge, Hz by lia. replace (k + zlen x - k) with (zlen x) by lia.
  rewrite ztake_app_le, (ztake_ge (zlen x) x), <- !app_assoc by lia. do 3 f_equal.
  rewrite zdrop_app_ge, Hz by lia. rewrite zdrop_app_ge, zdrop_zdrop, zlen_app by lia.
  f_equal. lia.
Qed.

Section parser.
Context `{Env} `{Kernel}.

Lemma skip_to_colon_spec pre rest (t : trace) :
  no_colon pre -> skip_to_colon (pre ++ Byte.x3a :: rest) t = Ok (Byte.x3a :: rest, t).
Proof.
  intros Hp. induction pre as [|c pre IH]; [done|]. apply list.Forall_cons in Hp as [Hc Hp].
  cbn [app skip_to_colon]. rewrite bool_decide_eq_false_2 by done. by apply IH.
Qed.

Lemma copy_address_spec A rest addr count (t : trace) :
  no_colon A -> 0 <= count -> count + zlen A <= INET_ADDRSTRLEN -> count + zlen A <= zlen addr ->
  copy_address (A ++ Byte.x3a :: rest) addr count t = Ok ((Byte.x3a :: rest, mem_put count A addr, count + zlen A), t).
Proof.
  revert addr count. induction A as [|c A IH]; intros addr count Hp Hc Hmax Ha.
  { cbn [app copy_address]. assert (mem_put count [] addr = addr) as ->.
    { unfold mem_put. rewrite zlen_nil, Z.add_0_r. apply ztake_zdrop. }
    by rewrite zlen_nil, Z.add_0_r. }
  apply list.Forall_cons in Hp as [Hne Hp]. rewrite zlen_cons in Hmax, Ha. pose proof (zlen_nonneg A).
  cbn [app copy_address]. rewrite bool_decide_eq_false_2 by done.
  rewrite (bind_Ok _ _ _ _ _ (memcpy_Ok addr count [c] 1 t ltac:(lia) ltac:(lia) ltac:(lia) ltac:(done))).
  unfold INET_ADDRSTRLEN in *. rewrite Z.gtb_ltb, (proj2 (Z.ltb_ge _ _)) by lia.
  change (ztake 1 [c]) with [c]. rewrite IH; [|done|lia|lia|].
  - rewrite (mem_put_extend count [c]) by (change (zlen [c]) with 1; lia). rewrite zlen_cons. do 3 f_equal. lia.
  - rewrite zlen_mem_put by (change (zlen [c]) with 1; lia). lia.
Qed.

(** Every value on the way is at most the last one. *)
Lemma number_from_mono D n :
  0 <= n -> Forall (fun b => isdigit b = true) D ->
  n <= foldl (fun n b => n * 10 + (byte.unsigned b - 48)) n D.
Proof.
  revert n. induction D as [|c D IH]; intros n Hn HD; [simpl; lia|].
  apply list.Forall_cons in HD as [Hc%isdigit_range HD]. cbn [foldl].
  specialize (IH (n * 10 + (byte.unsigned c - 48)) ltac:(lia) HD). lia.
Qed.

Lemma read_port_spec D c rest n (t : trace) :
  Forall (fun b => isdigit b = true) D -> isdigit c = false -> 0 <= n ->
  let v := foldl (fun n b => n * 10 + (byte.unsigned b - 48)) n D in
  v < 2 ^ 31 -> read_port (D ++ c :: rest) n t = Ok (v, t).
Proof.
  revert n. induction D as [|d D IH]; intros n HD Hc Hn v Hv; subst v.
  { cbn [app read_port]. by rewrite Hc. }
  apply list.Forall_cons in HD as [Hd HD]. pose proof (isdigit_range d Hd). cbn [app read_port foldl] in *.
  rewrite Hd. pose proof (number_from_mono D (n * 10 + (byte.unsigned d - 48)) ltac:(lia) HD).
  rewrite (i32_small (n * 10)), i32_small by lia. by apply IH; [..|lia|].
Qed.

(** The location of an answer: the address it names goes to the caller's
    array, the sender's address is written behind it. *)
Lemma ssdp_location_eq A port rest addr sender (t : trace) :
  no_colon A -> 0 <= port < 2 ^ 31 -> zlen A <= INET_ADDRSTRLEN -> zlen A <= zlen addr ->
  ssdp_location (text "LOCATION:" ++ A ++ text ":" ++ fmt_d port ++ CRLF ++ rest) addr sender t =
    if zlen A + zlen (inet_ntoa (sin_addr sender)) + 1 <=? zlen addr
    then Ok ((mem_put 0 (A ++ inet_ntoa (sin_addr sender) ++ [Byte.x00]) addr, port), t)
    else Fault OutOfBounds.
Proof.
  intros HA Hport Hmax Haddr. unfold ssdp_location. pose proof (zlen_nonneg A).
  change (text "LOCATION:" ++ ?r) with (text "LOCATION" ++ Byte.x3a :: r).
  rewrite (bind_Ok _ _ _ _ _ (skip_to_colon_spec (text "LOCATION") _ _ ltac:(by repeat constructor))). cbn [tail].
  change (text ":" ++ fmt_d port ++ CRLF ++ rest) with (Byte.x3a :: fmt_d port ++ Byte.x0d :: Byte.x0a :: rest).
  rewrite (bind_Ok _ _ _ _ _ (copy_address_spec A _ addr 0 t HA ltac:(lia) ltac:(lia) ltac:(lia))). cbn [tail].
  rewrite Z.add_0_l, fmt_d_digits by lia.
  pose proof (number_digits 20 port ltac:(lia)) as Hnum. unfold number in Hnum.
  pose proof (read_port_spec (digits 20 port) Byte.x0d (Byte.x0a :: rest) 0 t
    ltac:(by apply digits_isdigit; lia) ltac:(done) ltac:(lia)) as Hread. cbn zeta in Hread. rewrite Hnum in Hread.
  rewrite (bind_Ok _ _ _ _ _ (Hread ltac:(lia))).
  set (name := inet_ntoa (sin_addr sender) ++ [Byte.x00]).
  assert (zlen name = zlen (inet_ntoa (sin_addr sender)) + 1) as Hname by (subst name; by rewrite zlen_app).
  pose proof (zlen_nonneg name).
  assert (zlen (mem_put 0 A addr) = zlen addr) as Hput by (rewrite zlen_mem_put; lia).
  destruct (Z.leb_spec (zlen A + zlen (inet_ntoa (sin_addr sender)) + 1) (zlen addr)).
  - rewrite (bind_Ok _ _ _ _ _ (memcpy_Ok (mem_put 0 A addr) (zlen A) name (zlen name) t ltac:(lia) ltac:(lia) ltac:(lia) ltac:(lia))).
    rewrite (ztake_ge _ name) by lia. rewrite <- (mem_put_extend 0 A name addr) by lia. done.
  - unfold mbind at 1, M_bind at 1, memcpy. by rewrite Hput, Hname, (proj2 (Z.leb_gt (_ + _) (zlen addr))), andb_false_r by lia.
Qed.
End parser.

(** ** The messages *)

Lemma zlen_response A port id :
  zlen (response_text A port id) = 114 + zlen A + zlen (fmt_d port) + zlen id.
Proof. unfold response_text. rewrite !zlen_app. zlen_text. lia. Qed.

Lemma zlen_fmt_d n : 0 <= n < 2 ^ 31 -> zlen (fmt_d n) <= 10.
Proof.
  intros Hn. rewrite fmt_d_digits by lia. pose proof (length_digits 20 10 n ltac:(lia) ltac:(lia)).
  unfold zlen. lia.
Qed.

(** The answer up to the name of the service. *)
Definition response_pre (A : list byte) (port : Z) : list byte :=
  response_head ++ text "LOCATION:" ++ A ++ text ":" ++ fmt_d port ++ CRLF ++
  text "SERVER:unknow" ++ CRLF ++ text "ST:".

Lemma response_name A port id :
  response_text A port id = response_pre A port ++ syncs_ssdp_name ++ CRLF ++ text "USN:" ++ id ++ CRLF ++ CRLF.
Proof. unfold response_text, response_pre. by rewrite <- !app_assoc. Qed.

Lemma no_nul_response_pre A port : no_nul A -> 0 <= port -> no_nul (response_pre A port).
Proof.
  intros HA Hp. unfold response_pre. repeat (apply Forall_app; split); try done; try by apply no_nul_text.
  by apply no_nul_fmt_d.
Qed.

Definition msearch_pre : list byte :=
  ssdp_msearch ++ text "HOST:" ++ ssdp_ip ++ text ":" ++ fmt_d ssdp_port ++ CRLF ++
  text "MAN:" ++ QUOTE ++ text "ssdp:discover" ++ QUOTE ++ CRLF ++ text "MX:1" ++ CRLF ++ text "ST:".

Lemma msearch_name :
  msearch_text = msearch_pre ++ syncs_ssdp_name ++ CRLF ++ text "USER-AGENT:unknow" ++ CRLF ++ CRLF.
Proof. by vm_compute. Qed.

Lemma no_nul_msearch_pre : no_nul msearch_pre.
Proof. by apply no_nul_text. Qed.

Lemma zlen_msearch : zlen msearch_text = 118.
Proof. by vm_compute. Qed.

Lemma starts_with_buffer s bs rest : zlen s <= zlen bs -> starts_with s (bs ++ rest) = starts_with s bs.
Proof. unfold zlen, starts_with. intros Hs. by rewrite take_app_le by lia. Qed.

(** A server whose address and identifier are strings and whose port is
    one. *)
Definition ssdp_server (s : syncs_server) : Prop :=
  zlen (cstr (sv_addr s)) < zlen (sv_addr s) /\ zlen (cstr (sv_addr s)) <= INET_ADDRSTRLEN /\
  no_colon (cstr (sv_addr s)) /\ 0 <= sv_port s < 2 ^ 31 /\
  zlen (cstr (id_chars (sv_id s))) < zlen (id_chars (sv_id s)) /\ zlen (id_chars (sv_id s)) = 32.

(** Its answer. *)
Definition answer_of (s : syncs_server) : list byte :=
  response_text (cstr (sv_addr s)) (sv_port s) (cstr (id_chars (sv_id s))).

Lemma zlen_answer s : ssdp_server s -> 0 <= zlen (answer_of s) < SSDP_PACKET_SIZE.
Proof.
  intros (_ & Ha & _ & Hp & Hid & Hid32). unfold INET_ADDRSTRLEN, SSDP_PACKET_SIZE, answer_of in *.
  split; [apply zlen_nonneg|]. rewrite zlen_response. pose proof (zlen_fmt_d _ Hp). lia.
Qed.

Section server.
Context `{Env} `{Kernel}.

Lemma run_ssdp_answer s fd gaddr buffer t (Q : list byte -> trace -> Prop) :
  ssdp_server s -> zlen buffer = SSDP_PACKET_SIZE ->
  (forall r buffer', zlen buffer' = SSDP_PACKET_SIZE -> Q buffer' (t ++ [(Sendto fd gaddr (answer_of s), r)])) ->
  wp (ssdp_answer s fd gaddr buffer) Q t.
Proof.
  intros Hs Hb HQ. pose proof (zlen_answer s Hs) as Hlen. destruct Hs as (Hta & _ & _ & _ & Hti & _).
  unfold ssdp_answer, syncs_server_ssdp_response. wp_step. wp_step. apply run_c_string; [done|].
  wp_step. apply run_c_string; [done|]. fold (answer_of s). apply run_snprintf; [lia|lia|].
  assert (zlen (answer_of s ++ Byte.x00 :: zdrop (zlen (answer_of s) + 1) buffer) = SSDP_PACKET_SIZE) as Hb'.
  { rewrite zlen_app, zlen_cons, zlen_zdrop. lia. }
  wp_step. apply run_mem_read; [lia|]. rewrite ztake_app_le, ztake_ge by lia.
  wp_step. apply run_syscall. wp_step. by apply HQ.
Qed.

(** One datagram received into the buffer. *)
Lemma buffer_receives (bs buffer : list byte) :
  zlen bs <= SSDP_PACKET_SIZE -> zlen buffer = SSDP_PACKET_SIZE ->
  zlen (bs ++ zdrop (zlen bs) buffer) = SSDP_PACKET_SIZE.
Proof. intros Hbs Hb. pose proof (zlen_nonneg bs). rewrite zlen_app, zlen_zdrop. lia. Qed.

Lemma run_ssdp_search s beacon fd buffer t :
  ssdp_server s -> zlen buffer = SSDP_PACKET_SIZE ->
  wp (syncs_server_ssdp_receive s beacon fd buffer [RecvData msearch_text])
    (fun _ t' => open_fds t' = open_fds t /\ exists r t1,
      t' = t1 ++ [(Sendto fd (syncs_set_multicast_group ssdp_ip ssdp_port) (answer_of s), r)]) t.
Proof.
  intros Hs Hb. unfold syncs_server_ssdp_receive. set (gaddr := syncs_set_multicast_group _ _).
  assert (forall t1, open_fds t1 = open_fds t -> wp (ssdp_receive_loop s beacon fd gaddr buffer [RecvData msearch_text])
    (fun _ t' => open_fds t' = open_fds t /\ exists r t1, t' = t1 ++ [(Sendto fd gaddr (answer_of s), r)]) t1) as Hloop.
  { intros t1 Ht1. cbn [ssdp_receive_loop]. rewrite Z.min_l by by vm_compute. unfold SSDP_PACKET_SIZE in Hb.
    wp_step. apply wp_memcpy; [done|done|rewrite zlen_msearch; lia|done|].
    rewrite (ztake_ge _ msearch_text), mem_put_start by done. change (zlen msearch_text <? zlen ssdp_msearch) with false. cbn match.
    rewrite starts_with_buffer by by vm_compute. change (starts_with ssdp_msearch msearch_text) with true. cbn [negb].
    wp_step. rewrite msearch_name at 1. rewrite <- app_assoc. rewrite <- app_assoc.
    destruct (strstr_somewhere syncs_ssdp_name msearch_pre ((CRLF ++ text "USER-AGENT:unknow" ++ CRLF ++ CRLF) ++
      zdrop (zlen msearch_text) buffer) t1 no_nul_msearch_pre) as [k Ek].
    apply (wp_eq _ (mret (Some k))); [exact Ek|]. wp_step. wp_step. apply run_ssdp_answer; [done|apply buffer_receives; [by vm_compute|done]|].
    intros r buffer' _. wp_step. split; [|by eexists _, _]. by rewrite open_fds_neutral. }
  destruct beacon; wp_step; [|by apply Hloop]. apply run_try; [done|]. intros t1 _ Ho. by apply Hloop.
Qed.
End server.

(** ** The search *)

(** A datagram that is no answer. *)
Definition noise (p : recv_result * sockaddr_in) : Prop :=
  exists bs, p.1 = RecvData bs /\ zlen bs <= SSDP_PACKET_SIZE /\ starts_with ssdp_response bs = false.

Section search.
Context `{Env} `{Kernel}.

Lemma find_server_loop_noise addr buffer ps qs t :
  Forall noise ps -> zlen buffer = SSDP_PACKET_SIZE ->
  exists buffer', zlen buffer' = SSDP_PACKET_SIZE /\
    find_server_loop addr buffer (ps ++ qs) t = find_server_loop addr buffer' qs t.
Proof.
  intros Hps. revert buffer. induction Hps as [|[r sender] ps (bs & Hr & Hbs & Hno) _ IH]; intros buffer Hb.
  { by exists buffer. }
  cbn [fst] in Hr. subst r. cbn [app find_server_loop]. rewrite Z.min_l by done. pose proof (zlen_nonneg bs).
  rewrite (bind_Ok _ _ _ _ _ (memcpy_Ok buffer 0 bs (zlen bs) t ltac:(lia) ltac:(lia) ltac:(lia) ltac:(lia))).
  rewrite (ztake_ge _ bs), mem_put_start by lia.
  destruct (IH _ (buffer_receives bs buffer Hbs Hb)) as (buffer' & Hb' & E). exists buffer'. split; [done|].
  destruct (Z.ltb_spec (zlen bs) (zlen ssdp_response)); [done|]. by rewrite starts_with_buffer, Hno.
Qed.

Lemma answer_starts s rest : starts_with ssdp_response (answer_of s ++ rest) = true.
Proof.
  unfold answer_of, response_text, response_head. rewrite <- !app_assoc. apply starts_with_app.
Qed.

Lemma find_server_loop_answer s addr buffer sender qs t :
  ssdp_server s -> zlen buffer = SSDP_PACKET_SIZE -> zlen (cstr (sv_addr s)) <= zlen addr ->
  find_server_loop addr buffer ((RecvData (answer_of s), sender) :: qs) t =
    if zlen (cstr (sv_addr s)) + zlen (inet_ntoa (sin_addr sender)) + 1 <=? zlen addr
    then Ok (Some (mem_put 0 (cstr (sv_addr s) ++ inet_ntoa (sin_addr sender) ++ [Byte.x00]) addr, sv_port s), t)
    else Fault OutOfBounds.
Proof.
  intros Hs Hb Haddr. pose proof (zlen_answer s Hs) as Hlen. pose proof Hs as (_ & Hmax & Hcolon & Hport & _ & _).
  cbn [find_server_loop]. rewrite Z.min_l by lia.
  rewrite (bind_Ok _ _ _ _ _ (memcpy_Ok buffer 0 (answer_of s) (zlen (answer_of s)) t ltac:(lia) ltac:(lia) ltac:(lia) ltac:(lia))).
  rewrite (ztake_ge _ (answer_of s)), mem_put_start by lia. set (stale := zdrop _ buffer).
  assert (zlen (answer_of s) <? zlen ssdp_response = false) as ->.
  { apply Z.ltb_ge. unfold answer_of. rewrite zlen_response. change (zlen ssdp_response) with 17.
    pose proof (zlen_nonneg (cstr (sv_addr s))). pose proof (zlen_nonneg (fmt_d (sv_port s))).
    pose proof (zlen_nonneg (cstr (id_chars (sv_id s)))). lia. }
  rewrite answer_starts. cbn [negb].
  destruct (strstr_somewhere syncs_ssdp_name (response_pre (cstr (sv_addr s)) (sv_port s))
    ((CRLF ++ text "USN:" ++ cstr (id_chars (sv_id s)) ++ CRLF ++ CRLF) ++ stale) t) as [k Ek].
  { apply no_nul_response_pre; [apply no_nul_cstr|lia]. }
  assert (strstr (answer_of s ++ stale) syncs_ssdp_name t = Ok (Some k, t)) as Ename.
  { unfold answer_of. by rewrite response_name, <- !app_assoc, <- Ek, <- !app_assoc. }
  rewrite (bind_Ok _ _ _ _ _ Ename).
  set (rest := text "SERVER:unknow" ++ CRLF ++ text "ST:" ++ syncs_ssdp_name ++ CRLF ++ text "USN:" ++
    cstr (id_chars (sv_id s)) ++ CRLF ++ CRLF ++ stale).
  set (location := text "LOCATION:" ++ cstr (sv_addr s) ++ text ":" ++ fmt_d (sv_port s) ++ CRLF ++ rest).
  assert (answer_of s ++ stale = response_head ++ location) as ->.
  { unfold answer_of, response_text, location, rest. by rewrite <- !app_assoc. }
  assert (strstr (response_head ++ location) (text "LOCATION:") t = Ok (Some (zlen response_head), t)) as Eloc.
  { apply strstr_first; [by apply no_nul_text|by vm_compute]. }
  rewrite (bind_Ok _ _ _ _ _ Eloc). rewrite zdrop_app_ge, Z.sub_diag, zdrop_0 by lia.
  unfold mbind, M_bind. unfold location. rewrite ssdp_location_eq by done. by destruct (_ <=? _).
Qed.

(** The calls before the search. *)
Lemma find_server_start addr port buffer packets t (P : outcome (Z * list byte * Z * trace) -> Prop) :
  zlen buffer = SSDP_PACKET_SIZE ->
  (forall fd t1 buffer', open_fds t1 ∖ {[fd]} = open_fds t -> zlen buffer' = SSDP_PACKET_SIZE ->
    (exists r, (Sendto fd (syncs_set_multicast_group ssdp_ip ssdp_port) msearch_text, r) ∈ t1) ->
    P ((found ← find_server_loop addr buffer' packets;
        _ ← syncs_udpserver_close fd;
        match found with
        | Some (addr, port) => mret (0, addr, port)
        | None => mret (-1, addr, port)
        end) t1)) ->
  P (syncs_find_server addr port buffer packets t).
Proof.
  intros Hb HP. unfold syncs_find_server. apply run_then. eapply wp_mono; [apply (run_open_socket OpenMulticast)|].
  intros fd t1 Hopen. assert (open_fds t1 ∖ {[fd]} = open_fds t) as Ho1.
  { destruct Hopen as [(Hpos & Hnew & -> & _)|(Hneg & ->)]; [set_solver|].
    apply set_eq. intros x. rewrite elem_of_difference, elem_of_singleton. split; [naive_solver|].
    intros Hx. split; [done|]. apply open_fds_nonneg in Hx. lia. }
  apply run_then. unfold syncs_add_multicast_group. wp_step. apply run_neutral; [done|]. intros r t2 _ _ Ho2.
  assert (forall t3, open_fds t3 = open_fds t1 -> P ((fun t3 => (_ ← syncs_set_rxtimeout fd 0 500000;
    res ← syncs_ssdp_msearch buffer SSDP_PACKET_SIZE;
    let '(buffer, packet_size) := res in
    packet ← mem_read buffer packet_size;
    _ ← syscall (Sendto fd (syncs_set_multicast_group ssdp_ip ssdp_port) packet);
    found ← find_server_loop addr buffer packets;
    _ ← syncs_udpserver_close fd;
    match found with
    | Some (addr, port) => mret (0, addr, port)
    | None => mret (-1, addr, port)
    end) t3) t3)) as Hend; [|destruct (r <? 0); wp_step; apply Hend; congruence].
  intros t3 Ho3. apply run_then, run_try; [done|]. intros t4 _ Ho4. unfold SSDP_PACKET_SIZE in *.
  apply run_then. unfold syncs_ssdp_msearch. apply run_snprintf; [by vm_compute|lia|]. cbn beta iota.
  assert (zlen (msearch_text ++ Byte.x00 :: zdrop (zlen msearch_text + 1) buffer) = 1500) as Hb'.
  { rewrite zlen_app, zlen_cons, zlen_zdrop, zlen_msearch. lia. }
  apply run_then, run_mem_read; [rewrite Hb'; by vm_compute|]. rewrite ztake_app_le, ztake_ge by lia.
  apply run_then, run_neutral; [done|]. intros r' t5 _ Hin Ho5. apply HP; [congruence|done|by exists r'].
Qed.
End search.

Lemma cstr_no_nul_app l rest : no_nul l -> cstr (l ++ Byte.x00 :: rest) = l.
Proof.
  intros Hl. induction Hl as [|c l Hc _ IH]; [done|]. cbn [app cstr]. by rewrite Hc, IH.
Qed.

Lemma no_nul_inet_ntoa a : no_nul (inet_ntoa a).
Proof.
  eapply list.Forall_impl; [apply inet_ntoa_chars|]. intros c [Hc| ->]; [by apply isdigit_not|done].
Qed.

Lemma cstr_found A a (addr : list byte) :
  no_nul A -> cstr (mem_put 0 (A ++ inet_ntoa a ++ [Byte.x00]) addr) = A ++ inet_ntoa a.
Proof.
  intros HA. rewrite mem_put_start, !app_assoc, <- (app_assoc (A ++ _)). apply cstr_no_nul_app, Forall_app.
  split; [done|apply no_nul_inet_ntoa].
Qed.

(** C22: discovery: the search a client multicasts makes a server answer with
    one datagram, and a client that receives this answer, after any datagrams
    that are no answers, returns 0 with the server's port and an address: the
    one the server is configured with followed by the one the answer came
    from.  This is the address to connect to, the sender's, exactly when the
    server is configured with none (it listens on all interfaces); for any
    other server the result is a concatenation that is no address.  Both parts
    and a terminator have to fit the client's array (otherwise
    [discovery_overflows_address]).  No descriptor stays open. *)
Theorem discovery_roundtrip (Es Ec : Env) (Ks Kc : Kernel) s beacon fd sbuf ts addr port cbuf before sender after tc :
  ssdp_server s -> zlen sbuf = SSDP_PACKET_SIZE -> zlen cbuf = SSDP_PACKET_SIZE -> Forall noise before ->
  zlen (cstr (sv_addr s)) + zlen (inet_ntoa (sin_addr sender)) + 1 <= zlen addr ->
  exists request answer t1 r,
    @syncs_server_ssdp_receive Es Ks s beacon fd sbuf [RecvData request] ts =
      Ok (tt, t1 ++ [(Sendto fd (@syncs_set_multicast_group Es ssdp_ip ssdp_port) answer, r)]) /\
  exists addr' fd' r' t',
    @syncs_find_server Ec Kc addr port cbuf (before ++ (RecvData answer, sender) :: after) tc =
      Ok ((0, addr', sv_port s), t') /\
    cstr addr' = cstr (sv_addr s) ++ inet_ntoa (sin_addr sender) /\
    (cstr addr' = inet_ntoa (sin_addr sender) <-> cstr (sv_addr s) = []) /\
    (Sendto fd' (@syncs_set_multicast_group Ec ssdp_ip ssdp_port) request, r') ∈ t' /\
    open_fds t' = open_fds tc.
Proof.
  intros Hs Hsb Hcb Hnoise Hfit.
  destruct (proj1 (wp_run _ _ _) (@run_ssdp_search Es Ks s beacon fd sbuf ts Hs Hsb))
    as ([] & t' & E & _ & r & t1 & ->).
  exists msearch_text, (answer_of s), t1, r. split; [exact E|].
  apply (@find_server_start Ec Kc addr port cbuf); [done|].
  intros fd' t2 buffer' Ho Hb' (r' & Hin).
  destruct (find_server_loop_noise addr buffer' before ((RecvData (answer_of s), sender) :: after) t2 Hnoise Hb')
    as (b2 & Hb2 & En).
  assert (zlen (cstr (sv_addr s)) <= zlen addr) as Hle.
  { pose proof (zlen_nonneg (inet_ntoa (sin_addr sender))). lia. }
  pose proof (find_server_loop_answer s addr b2 sender after t2 Hs Hb2 Hle) as Ea.
  rewrite (proj2 (Z.leb_le _ _) Hfit) in Ea. rewrite (bind_Ok _ _ _ _ _ (eq_trans En Ea)).
  apply run_then. unfold syncs_udpserver_close, try_call. wp_step. apply run_syscall. wp_step.
  eexists _, fd', r', _. split; [reflexivity|]. rewrite cstr_found by apply no_nul_cstr. split; [done|].
  split; [split; [intros Heq; apply (f_equal length) in Heq; rewrite length_app in Heq; by apply nil_length_inv; lia|by intros ->]|].
  split; [apply elem_of_app; by left|]. rewrite open_fds_snoc. exact Ho.
Qed.

(** C31: when the configured address and the sender's together do not fit into
    the 20 bytes of the client's [addr], the search writes beyond the array:
    an address in the answer is prepended to the sender's, not replaced. *)
Theorem discovery_overflows_address `{Env} `{Kernel} s addr port buffer before sender after t :
  ssdp_server s -> zlen buffer = SSDP_PACKET_SIZE -> Forall noise before -> zlen addr = 20 ->
  zlen (cstr (sv_addr s)) + zlen (inet_ntoa (sin_addr sender)) + 1 > 20 ->
  syncs_find_server addr port buffer (before ++ (RecvData (answer_of s), sender) :: after) t = Fault OutOfBounds.
Proof.
  intros Hs Hb Hnoise Haddr Hfit.
  apply (find_server_start addr port buffer); [done|]. intros fd' t2 buffer' Ho Hb' _.
  destruct (find_server_loop_noise addr buffer' before ((RecvData (answer_of s), sender) :: after) t2 Hnoise Hb')
    as (b2 & Hb2 & En).
  pose proof Hs as (_ & Hmax & _). unfold INET_ADDRSTRLEN in Hmax.
  pose proof (find_server_loop_answer s addr b2 sender after t2 Hs Hb2 ltac:(lia)) as Ea.
  rewrite (proj2 (Z.leb_gt _ _)) in Ea by lia. unfold mbind, M_bind. by rewrite En, Ea.
Qed.

Section instances.
#[local] Existing Instances perfect_env perfect_kernel.

(** A server on all interfaces and one with an address of its own. *)
Definition any_server : syncs_server := syncs_server_create None 4444 (Some (text "srv")).
Definition addressed_server : syncs_server :=
  syncs_server_create (Some (text "192.168.100.10")) 4444 (Some (text "srv")).

(** 10.0.0.7 in memory order. *)
Definition sample_sender : sockaddr_in := mk_addr 0x0700000a 0x6c07.

Lemma created_server addr port cid :
  (forall a, addr = Some a -> no_colon (cstr a) /\ zlen (cstr a) <= INET_ADDRSTRLEN) -> 0 <= port < 2 ^ 31 ->
  ssdp_server (syncs_server_create addr port (Some cid)).
Proof.
  intros Ha Hp.
  assert (sv_addr (syncs_server_create addr port (Some cid)) =
    match addr with Some a => strncpy 20 a | None => zero_bytes 20 end) as Eaddr by by destruct addr.
  assert (sv_id (syncs_server_create addr port (Some cid)) = syncs_idstr cid) as Eid by by destruct addr.
  assert (forall l k, no_nul l -> (length l < k)%nat -> cstr (resize k Byte.x00 l) = l /\
    zlen (cstr (resize k Byte.x00 l)) < zlen (resize k Byte.x00 l)) as Hstr.
  { intros l k Hl Hk. rewrite resize_ge by lia. replace (k - length l)%nat with (S (k - length l - 1)) by lia.
    cbn [replicate]. rewrite cstr_no_nul_app by done. split; [done|].
    rewrite zlen_app, zlen_cons. pose proof (zlen_nonneg (replicate (k - length l - 1) Byte.x00)). lia. }
  unfold ssdp_server. rewrite Eaddr, Eid. clear Eaddr Eid. rewrite syncs_idstr_chars.
  destruct (Hstr (take 31 (cstr cid)) 32%nat) as [_ Hid].
  { apply list.Forall_forall. intros c. apply take_cstr_no_nul. }
  { rewrite length_take. lia. }
  split_and!; [..|exact Hid|unfold zlen; by rewrite length_resize].
  all: try (by destruct addr; apply Hp); destruct addr as [a|]; try done; try (by vm_compute).
  all: destruct (Ha a eq_refl) as [Hc Hl]; unfold INET_ADDRSTRLEN, zlen in Hl;
    destruct (Hstr (cstr a) 20%nat (no_nul_cstr a) ltac:(lia)) as [E Hlt]; rewrite E in Hlt; unfold strncpy; rewrite E; done.
Qed.

Lemma any_server_ssdp : ssdp_server any_server.
Proof. apply created_server; [done|lia]. Qed.

Lemma addressed_server_ssdp : ssdp_server addressed_server.
Proof. apply created_server; [|lia]. intros a [= <-]. split; [by repeat constructor|by vm_compute]. Qed.

Lemma sample_noise : Forall noise [(RecvData msearch_text, sample_sender)].
Proof. constructor; [|constructor]. exists msearch_text. split_and!; [done|by vm_compute|by vm_compute]. Qed.

Lemma any_server_fits :
  zlen (cstr (sv_addr any_server)) + zlen (inet_ntoa (sin_addr sample_sender)) + 1 <= zlen (zero_bytes 20).
Proof. by vm_compute. Qed.

Lemma addressed_server_too_long :
  zlen (cstr (sv_addr addressed_server)) + zlen (inet_ntoa (sin_addr sample_sender)) + 1 > 20.
Proof. by vm_compute. Qed.

Lemma zlen_packet_buffer : zlen (zero_bytes SSDP_PACKET_SIZE) = SSDP_PACKET_SIZE.
Proof. by vm_compute. Qed.

Lemma discovery_roundtrip_witness :
  cstr (sv_addr any_server) ++ inet_ntoa (sin_addr sample_sender) = text "10.0.0.7" /\
  exists request answer t1 r,
    syncs_server_ssdp_receive any_server false 5 (zero_bytes SSDP_PACKET_SIZE) [RecvData request] [] =
      Ok (tt, t1 ++ [(Sendto 5 (syncs_set_multicast_group ssdp_ip ssdp_port) answer, r)]) /\
  exists addr' fd' r' t',
    syncs_find_server (zero_bytes 20) 0 (zero_bytes SSDP_PACKET_SIZE)
        ([(RecvData msearch_text, sample_sender)] ++ (RecvData answer, sample_sender) :: []) [] =
      Ok ((0, addr', sv_port any_server), t') /\
    cstr addr' = cstr (sv_addr any_server) ++ inet_ntoa (sin_addr sample_sender) /\
    (cstr addr' = inet_ntoa (sin_addr sample_sender) <-> cstr (sv_addr any_server) = []) /\
    (Sendto fd' (syncs_set_multicast_group ssdp_ip ssdp_port) request, r') ∈ t' /\
    open_fds t' = open_fds [].
Proof.
  split; [by vm_compute|].
  exact (discovery_roundtrip perfect_env perfect_env perfect_kernel perfect_kernel any_server false 5
    (zero_bytes SSDP_PACKET_SIZE) [] (zero_bytes 20) 0 (zero_bytes SSDP_PACKET_SIZE)
    [(RecvData msearch_text, sample_sender)] sample_sender [] [] any_server_ssdp zlen_packet_buffer zlen_packet_buffer
    sample_noise any_server_fits).
Defined.

Lemma discovery_overflows_address_witness :
  syncs_find_server (zero_bytes 20) 0 (zero_bytes SSDP_PACKET_SIZE)
    ([(RecvData msearch_text, sample_sender)] ++ (RecvData (answer_of addressed_server), sample_sender) :: []) [] =
  Fault OutOfBounds.
Proof.
  exact (discovery_overflows_address addressed_server (zero_bytes 20) 0 (zero_bytes SSDP_PACKET_SIZE)
    [(RecvData msearch_text, sample_sender)] sample_sender [] [] addressed_server_ssdp zlen_packet_buffer sample_noise
    eq_refl addressed_server_too_long).
Defined.
End instances.
