(* ===== verification/ServerThread.v ===== *)
(** * Server: the thread that opens the sockets and serves

    [syncs_server_thread] over the kernel of Sockets.v and the server of
    ServerPackets.v: attempts to open the TCP socket, the UDP socket and the
    epoll instance, with the clean-up of each failure, until all three are
    open and the event loop runs. *)

From stdpp Require Import gmap.
From S2P Require Import Prelude.
From S2P Require Import Monad.
From S2P Require Import Types.
From S2P Require Import Net.
From S2P Require Import ServerState.
From S2P Require Import ServerPackets.
From S2P Require Import ServerInv.
From S2P Require Import ServerSafe.
From S2P Require Import ServerLoop.
From S2P Require Import Text.
From S2P Require Import Sockets.

(** ** A thread sees the kernel and the server *)

Record host : Type := mk_host { h_trace : trace; h_world : world }.

Abbreviation HM := (M host).

Definition in_kernel {A} (m : M trace A) : HM A := fun h =>
  match m (h_trace h) with
  | Ok (a, t) => Ok (a, mk_host t (h_world h))
  | Fault f => Fault f
  end.
Definition in_server {A} (m : SM A) : HM A := fun h =>
  match m (h_world h) with
  | Ok (a, w) => Ok (a, mk_host (h_trace h) w)
  | Fault f => Fault f
  end.

(** How one attempt to open the three descriptors ends. *)
Inductive attempt : Type := TcpFailed | UdpFailed | EpollFailed | Opened.
#[export] Instance attempt_eq_dec : EqDecision attempt.
Proof. solve_decision. Defined.

Section thread.
Context `{Env} `{Kernel}.

(** The body of the [while (1)] up to [syncs_recv_clients]. The labels
    [error_epoll], [error_udp] and [error_tcp] fall through: the failure of
    the UDP socket closes [usocketfd], that of epoll both sockets. *)
Definition server_open : HM attempt :=
  s ← in_server server_get;
  socketfd ← in_kernel (syncs_tcpserver_open (Some (sv_addr s)) (sv_port s));
  _ ← in_server (server_upd (fun s => s <| sv_socketfd := socketfd |>));
  if socketfd <? 0 then mret TcpFailed
  else
    _ ← in_kernel (syncs_set_nonblocking_socket socketfd (1024 * 1024) (1024 * 1024));
    usocketfd ← in_kernel (syncs_udpserver_open (Some (sv_addr s)) (sv_port s));
    _ ← in_server (server_upd (fun s => s <| sv_usocketfd := usocketfd |>));
    if usocketfd <? 0 then
      _ ← in_kernel (syscall (Close usocketfd));
      mret UdpFailed
    else
      _ ← in_kernel (syncs_set_nonblocking_socket usocketfd (1024 * 1024) (1024 * 1024));
      epollfd ← in_kernel (syscall (EpollCreate (Z.of_nat SYNCS_CLIENT_MAXIMUM + 2)));
      _ ← in_server (server_upd (fun s => s <| sv_epollfd := epollfd |>));
      if epollfd <? 0 then
        _ ← in_kernel (syscall (Close socketfd));
        _ ← in_kernel (syscall (Close usocketfd));
        mret EpollFailed
      else mret Opened.

(** The first [attempts] iterations and how they ended. [syncs_recv_clients]
    never returns; [rounds] is what its calls of [epoll_wait] report before
    the observation stops. *)
Fixpoint syncs_server_thread (attempts : nat) (rounds : list (list epoll_event)) : HM (list attempt) :=
  match attempts with
  | O => mret []
  | S attempts =>
      e ← server_open;
      match e with
      | Opened => _ ← in_server (syncs_recv_clients rounds); mret [e]
      | _ => es ← syncs_server_thread attempts rounds; mret (e :: es)
      end
  end.
End thread.

(** ** Computations that only add calls *)

Section grows.
Context `{Env} `{Kernel}.

Class Grows {A} (m : M trace A) : Prop := grows t : wp m (fun _ t' => t `prefix_of` t') t.

#[export] Instance grows_ret {A} (a : A) : Grows (mret a).
Proof. intros t. by wp_step. Qed.
#[export] Instance grows_gets {A} (f : trace -> A) : Grows (gets f).
Proof. intros t. by apply wp_gets. Qed.
#[export] Instance grows_syscall c : Grows (syscall c).
Proof. intros t. apply run_syscall. by apply prefix_app_r. Qed.
#[export] Instance grows_bind {A B} (m : M trace A) (f : A -> M trace B) :
  Grows m -> (forall a, Grows (f a)) -> Grows (m ≫= f).
Proof.
  intros Hm Hf t. wp_step. eapply wp_mono; [apply Hm|]. intros a t1 H1. cbn beta in *.
  eapply wp_mono; [apply Hf|]. intros b t2 H2. by etrans.
Qed.
#[export] Instance grows_try c : Grows (try_call c).
Proof. unfold try_call. apply _. Qed.
#[export] Instance grows_if {A} (b : bool) (m n : M trace A) : Grows m -> Grows n -> Grows (if b then m else n).
Proof. by destruct b. Qed.
#[export] Instance grows_tcpserver addr port : Grows (syncs_tcpserver_open addr port).
Proof. unfold syncs_tcpserver_open. apply _. Qed.
#[export] Instance grows_udpserver addr port : Grows (syncs_udpserver_open addr port).
Proof. unfold syncs_udpserver_open. apply _. Qed.
#[export] Instance grows_nonblocking fd rx tx : Grows (syncs_set_nonblocking_socket fd rx tx).
Proof. unfold syncs_set_nonblocking_socket. apply _. Qed.

(** Opening the server's socket makes at least one call. *)
Lemma tcpserver_calls addr port t :
  wp (syncs_tcpserver_open addr port) (fun _ t' => (length t < length t')%nat) t.
Proof.
  unfold syncs_tcpserver_open. wp_step. apply run_syscall. cbn zeta.
  set (k := if _ <? 0 then _ else _). assert (Grows k) as Hk by (subst k; apply _).
  eapply wp_mono; [apply Hk|]. intros r t' Hp%prefix_length. rewrite length_app in Hp. simpl in Hp. lia.
Qed.

Lemma nonblocking_keeps fd rx tx t :
  wp (syncs_set_nonblocking_socket fd rx tx) (fun _ t' => open_fds t' = open_fds t) t.
Proof. unfold syncs_set_nonblocking_socket. opening; congruence. Qed.
End grows.

(** ** One attempt *)

Section attempts.
Context `{Env} `{Kernel}.

Lemma wp_in_kernel {A} (m : M trace A) (Q : A -> host -> Prop) h :
  wp m (fun a t => Q a (mk_host t (h_world h))) (h_trace h) -> wp (in_kernel m) Q h.
Proof. unfold wp, in_kernel. by destruct (m (h_trace h)) as [[a t]|]. Qed.

Lemma wp_in_server {A} (m : SM A) (Q : A -> host -> Prop) h :
  wp m (fun a w => Q a (mk_host (h_trace h) w)) (h_world h) -> wp (in_server m) Q h.
Proof. unfold wp, in_server. by destruct (m (h_world h)) as [[a w]|]. Qed.

(** The address the server listens at. *)
Definition server_address (w : world) : sockaddr_in :=
  socket_address INADDR_ANY (Some (sv_addr (w_server w))) (sv_port (w_server w)).

(** The descriptors the server object names. *)
Definition server_fds (w : world) : gset Z :=
  {[sv_socketfd (w_server w); sv_usocketfd (w_server w); sv_epollfd (w_server w)]}.

(** What an attempt leaves behind: a listening TCP socket nobody accepts on
    when the UDP socket failed, and the three descriptors when it worked. *)
Definition attempt_opens (e : attempt) (t' : trace) (w' : world) (new : gset Z) : Prop :=
  match e with
  | TcpFailed | EpollFailed => new = ∅
  | UdpFailed => exists fd, new = {[fd]} /\ listening (server_address w') fd ⊆ t'
  | Opened => new = server_fds w' /\ size new = 3%nat /\
      listening (server_address w') (sv_socketfd (w_server w')) ⊆ t' /\
      bound (server_address w') (sv_usocketfd (w_server w')) ⊆ t'
  end.

Lemma run_tcpserver addr port t (Q : Z -> trace -> Prop) :
  (forall r t', (length t < length t')%nat -> t `prefix_of` t' ->
    opened (listening (socket_address INADDR_ANY addr port)) t r t' -> Q r t') ->
  wp (syncs_tcpserver_open addr port) Q t.
Proof.
  intros HQ. eapply wp_mono; [apply wp_and; [apply tcpserver_calls|apply wp_and; [apply grows_tcpserver|
    apply (run_open_socket OpenTcpServer)]]|]. intros r t' (? & ? & ?). by apply HQ.
Qed.

Lemma run_udpserver addr port t (Q : Z -> trace -> Prop) :
  (forall r t', t `prefix_of` t' -> opened (bound (socket_address INADDR_ANY addr port)) t r t' -> Q r t') ->
  wp (syncs_udpserver_open addr port) Q t.
Proof.
  intros HQ. eapply wp_mono; [apply wp_and; [apply grows_udpserver|apply (run_open_socket OpenUdpServer)]|].
  intros r t' (? & ?). by apply HQ.
Qed.

Lemma run_nonblocking fd rx tx t (Q : unit -> trace -> Prop) :
  (forall t', t `prefix_of` t' -> open_fds t' = open_fds t -> Q tt t') ->
  wp (syncs_set_nonblocking_socket fd rx tx) Q t.
Proof.
  intros HQ. eapply wp_mono; [apply wp_and; [apply grows_nonblocking|apply nonblocking_keeps]|].
  intros [] t' (? & ?). by apply HQ.
Qed.

Lemma run_grows {A} (m : M trace A) `{!Grows m} t (P Q : A -> trace -> Prop) :
  wp m P t -> (forall a t', t `prefix_of` t' -> P a t' -> Q a t') -> wp m Q t.
Proof.
  intros HP HQ. eapply wp_mono; [apply wp_and; [apply (grows t)|exact HP]|]. intros a t' [? ?]. by apply HQ.
Qed.

Lemma prefix_incl (l t t' : trace) : l ⊆ t -> t `prefix_of` t' -> l ⊆ t'.
Proof. intros Hl [k ->] x Hx. apply elem_of_app. left. by apply Hl. Qed.

(** Closing what was opened. *)
Lemma close_new (fd : Z) (old fds : gset Z) : fd ∉ old -> fds = {[fd]} ∪ old -> fds ∖ {[fd]} = old.
Proof. set_solver. Qed.

(** The updates of the server object between the calls. *)
Definition with_fds (w w' : world) : Prop :=
  sv_addr (w_server w') = sv_addr (w_server w) /\ sv_port (w_server w') = sv_port (w_server w) /\
  w_log w' = w_log w /\ (winv w -> winv w').

Lemma with_fds_set w a b c :
  with_fds w (mk_world (w_server w <| sv_socketfd := a |> <| sv_usocketfd := b |> <| sv_epollfd := c |>) (w_log w)).
Proof. split_and!; [done..|]. intros []. by split. Qed.

Definition attempt_ends (h : host) (e : attempt) (h' : host) : Prop :=
  (length (h_trace h) < length (h_trace h'))%nat /\ h_trace h `prefix_of` h_trace h' /\
  with_fds (h_world h) (h_world h') /\
  exists new, open_fds (h_trace h') = open_fds (h_trace h) ∪ new /\ new ## open_fds (h_trace h) /\
    attempt_opens e (h_trace h') (h_world h') new.

(** The end of an attempt whose first calls led to [t1]. *)
Lemma attempt_ended new t w t1 t' e a b c :
  let w' := mk_world (w_server w <| sv_socketfd := a |> <| sv_usocketfd := b |> <| sv_epollfd := c |>) (w_log w) in
  (length t < length t1)%nat -> t `prefix_of` t1 -> t1 `prefix_of` t' ->
  open_fds t' = open_fds t ∪ new -> new ## open_fds t -> attempt_opens e t' w' new ->
  attempt_ends (mk_host t w) e (mk_host t' w').
Proof.
  intros w' Hlt Hp Hp' Ho Hd He. split; [apply prefix_length in Hp'; simpl; lia|]. split; [simpl; by etrans|].
  split; [by apply with_fds_set|]. by exists new.
Qed.

(** One more call that closes a descriptor. *)
Lemma run_close_prefix fd t (Q : Z -> trace -> Prop) :
  (forall r t', t `prefix_of` t' -> open_fds t' = open_fds t ∖ {[fd]} -> Q r t') -> wp (syscall (Close fd)) Q t.
Proof.
  intros HQ. apply (run_grows _ _ (fun _ t' => open_fds t' = open_fds t ∖ {[fd]})); [|by intros; apply HQ].
  by apply run_close; intros ? ? ->.
Qed.
End attempts.

Ltac host_step :=
  repeat match goal with
    | |- wp (_ ≫= _) _ _ => apply wp_bind
    | |- wp (mret _) _ _ => apply wp_ret
    | |- wp (in_kernel _) _ _ => apply wp_in_kernel
    | |- wp (in_server server_get) _ _ => apply wp_in_server, wp_server_get
    | |- wp (in_server (server_upd _)) _ _ => apply wp_in_server, wp_server_upd
    end; cbn beta; cbn [h_trace h_world].

Section attempts_run.
Context `{Env} `{Kernel}.

Lemma run_server_open h : wp server_open (attempt_ends h) h.
Proof.
  destruct h as [t w]. unfold server_open. host_step.
  apply run_tcpserver. intros fd t1 Hlt1 Hp1 Ho1. host_step. destruct (Z.ltb_spec fd 0).
  { host_step. destruct Ho1 as [(? & _)|(_ & Ho1)]; [lia|].
    by apply (attempt_ended ∅ t w t1 _ _ fd (sv_usocketfd (w_server w)) (sv_epollfd (w_server w)));
      [..|rewrite Ho1; set_solver|set_solver|]. }
  destruct Ho1 as [(_ & Hnew1 & Ho1 & Hl)|(? & _)]; [|lia].
  host_step. apply run_nonblocking. intros t2 Hp2 Ho2. host_step.
  apply run_udpserver. intros ufd t3 Hp3 Hu. host_step. rewrite Ho1 in Ho2.
  assert (t1 `prefix_of` t3) as Hp13 by (by etrans). destruct (Z.ltb_spec ufd 0).
  { destruct Hu as [(? & _)|(_ & Ho3)]; [lia|]. host_step.
    apply run_close_prefix. intros r4 t4 Hp4 Ho4. host_step.
    assert (ufd ∉ open_fds t3) as Hn by (intros ?%open_fds_nonneg; lia). rewrite Ho3, Ho2 in Ho4, Hn.
    apply (attempt_ended {[fd]} t w t1 _ _ fd ufd (sv_epollfd (w_server w))); [done..|by etrans| | |].
    - rewrite Ho4. clear -Hn. set_solver.
    - clear -Hnew1. set_solver.
    - exists fd. split; [done|]. eapply prefix_incl; [exact Hl|by etrans]. }
  destruct Hu as [(_ & Hnew3 & Ho3 & Hb)|(? & _)]; [|lia]. rewrite Ho2 in Hnew3, Ho3.
  host_step. apply run_nonblocking. intros t4 Hp4 Ho4. host_step.
  apply (run_grows _ _ (fun efd t' => efd < 0 /\ open_fds t' = open_fds t4 \/
    0 <= efd /\ efd ∉ open_fds t4 /\ open_fds t' = {[efd]} ∪ open_fds t4)).
  { apply run_creates; [done|..]; intros; [left|right]; split_and?; done. }
  intros efd t5 Hp5 He. host_step.
  assert (t3 `prefix_of` t5) as Hp35 by (by etrans). assert (t1 `prefix_of` t5) as Hp15 by (by etrans).
  rewrite Ho4, Ho3 in He. clear Ho1 Ho2 Ho3 Ho4. destruct (Z.ltb_spec efd 0).
  - destruct He as [(_ & Ho5)|(? & _)]; [|lia]. host_step. apply run_close_prefix. intros r6 t6 Hp6 Ho6.
    host_step. apply run_close_prefix. intros r7 t7 Hp7 Ho7. host_step.
    apply (attempt_ended ∅ t w t1 _ _ fd ufd efd); [done..|etrans; [exact Hp15|by etrans]| |set_solver|done].
    rewrite Ho7, Ho6, Ho5. clear -Hnew1 Hnew3. set_solver.
  - destruct He as [(? & _)|(_ & Hnew5 & Ho5)]; [lia|]. host_step.
    apply (attempt_ended {[fd; ufd; efd]} t w t1 _ _ fd ufd efd); [done..| | |].
    + rewrite Ho5. clear. set_solver.
    + clear -Hnew1 Hnew3 Hnew5. set_solver.
    + split; [done|]. split_and!; [|by eapply prefix_incl|by eapply prefix_incl].
      clear -Hnew1 Hnew3 Hnew5. rewrite !size_union, !size_singleton; [lia|set_solver..].
Qed.
End attempts_run.

(** ** The event loop, once it runs *)

(** What [epoll_wait] may report at any time: a chunk that fits the buffer of
    any client, whatever it holds of an unfinished packet. *)
Definition event_fits (e : epoll_event) : Prop :=
  match e with
  | EpAccept _ | EpUdp _ (RecvError _) => True
  | EpClient c (RecvError _) => (c < SYNCS_CLIENT_MAXIMUM)%nat
  | EpClient c (RecvData bs) => (c < SYNCS_CLIENT_MAXIMUM)%nat /\
      sizeof_header + SYNCS_VARIABLE_SIZE_MAXIMUM + zlen bs + sizeof_channel_ticket <= SYNCS_CLIENT_BUFFER_SIZE
  | EpUdp _ (RecvData bs) => zlen bs <= SYNCS_CLIENT_BUFFER_SIZE
  end.

Lemma event_fits_ok w e : winv w -> event_fits e -> epoll_event_ok w e.
Proof.
  intros Hw. destruct e as [r|c [errno|bs]|addr [errno|bs]]; simpl; try naive_solver.
  intros [Hc Hfit]. split; [done|]. split; intros cl Hcl; pose proof (swf_client _ Hw c cl Hcl) as Hwf;
    pose proof (cwf_recv cl Hwf); [clia|]. right. left. rewrite zlen_pending by done. lia.
Qed.

Section serving.
Context `{Env}.

Lemma safe_recv_clients rounds w :
  winv w -> Forall event_fits (concat rounds) -> wp (syncs_recv_clients rounds) (fun _ => winv) w.
Proof.
  intros Hw Hr. unfold syncs_recv_clients. wp_step. apply wp_server_get. wp_step. apply wp_emit.
  wp_step. apply wp_emit. rewrite Forall_concat, Forall_forall in Hr. apply (wp_for_each winv); [done|].
  intros events w1 He Hw1. apply (wp_for_each winv); [done|]. intros e w2 Hin Hw2.
  apply safe_epoll_callback; [done|]. apply event_fits_ok; [done|].
  specialize (Hr events (proj1 (list_elem_of_In _ _) He)). rewrite Forall_forall in Hr.
  by apply Hr, list_elem_of_In.
Qed.
End serving.

(** ** The thread as a transition system *)

Section runs.
Context `{Env} `{Kernel}.

Inductive runs (rounds : list (list epoll_event)) : host -> list attempt -> host -> Prop :=
  | runs_stopped h : runs rounds h [] h
  | runs_serving h h1 w' : attempt_ends h Opened h1 ->
      syncs_recv_clients rounds (h_world h1) = Ok (tt, w') -> winv w' ->
      runs rounds h [Opened] (mk_host (h_trace h1) w')
  | runs_failed h e h1 es h' : e <> Opened -> attempt_ends h e h1 ->
      runs rounds h1 es h' -> runs rounds h (e :: es) h'.

Lemma attempt_winv h e h' : attempt_ends h e h' -> winv (h_world h) -> winv (h_world h').
Proof. intros (_ & _ & (_ & _ & _ & Hw) & _). exact Hw. Qed.

Lemma attempt_address h e h' : attempt_ends h e h' -> server_address (h_world h') = server_address (h_world h).
Proof. intros (_ & _ & (Ha & Hp & _) & _). unfold server_address. by rewrite Ha, Hp. Qed.

Lemma run_thread rounds n h :
  winv (h_world h) -> Forall event_fits (concat rounds) -> wp (syncs_server_thread n rounds) (runs rounds h) h.
Proof.
  intros Hw Hr. revert h Hw. induction n as [|n IH]; intros h Hw; simpl; [wp_step; constructor|].
  wp_step. eapply wp_mono; [apply run_server_open|]. intros e h1 He. pose proof (attempt_winv _ _ _ He Hw) as Hw1.
  destruct (decide (e = Opened)) as [->|Hne].
  - wp_step. apply wp_in_server.
    destruct (proj1 (wp_run _ _ _) (safe_recv_clients rounds (h_world h1) Hw1 Hr)) as ([] & w' & E & Hw').
    apply (wp_ok _ _ _ _ _ E). wp_step. by apply runs_serving.
  - assert (wp (es ← syncs_server_thread n rounds; mret (e :: es)) (runs rounds h) h1) as Hgo.
    { wp_step. eapply wp_mono; [by apply IH|]. intros es h' Hes. wp_step. by eapply runs_failed. }
    by destruct e.
Qed.

(** A failed attempt leaves at most a listener. *)
Lemma attempt_leaks h e h' :
  e <> Opened -> attempt_ends h e h' -> exists new,
    open_fds (h_trace h') = open_fds (h_trace h) ∪ new /\ new ## open_fds (h_trace h) /\
    size new = (if decide (e = UdpFailed) then 1%nat else O) /\
    (forall fd, fd ∈ new -> listening (server_address (h_world h)) fd ⊆ h_trace h').
Proof.
  intros Hne He. pose proof (attempt_address _ _ _ He) as <-.
  destruct He as (_ & _ & _ & new & Ho & Hd & Hopens). exists new. split; [done|]. split; [done|].
  destruct e; try done; simpl in Hopens.
  1, 3: subst new; split; [done|set_solver].
  destruct Hopens as (fd & -> & Hl). rewrite size_singleton. split; [done|]. by intros fd' ->%elem_of_singleton.
Qed.

Lemma runs_grow rounds h es h' : runs rounds h es h' -> h_trace h `prefix_of` h_trace h'.
Proof.
  induction 1 as [h|h h1 w' (_ & Hp & _) _ _|h e h1 es h' _ (_ & Hp & _) _ IH]; [done|exact Hp|by etrans].
Qed.

(** What a run leaves open: the listeners of its failed attempts and what it
    serves on. *)
Definition runs_open (h : host) (es : list attempt) (h' : host) (leaked served : gset Z) : Prop :=
  open_fds (h_trace h') = open_fds (h_trace h) ∪ leaked ∪ served /\
  leaked ## open_fds (h_trace h) /\ served ## open_fds (h_trace h) ∪ leaked /\
  size leaked = length (filter (.= UdpFailed) es) /\
  (forall fd, fd ∈ leaked -> listening (server_address (h_world h)) fd ⊆ h_trace h') /\
  size served = if decide (Opened ∈ es) then 3%nat else O.

Lemma runs_descriptors rounds h es h' : runs rounds h es h' -> exists leaked served, runs_open h es h' leaked served.
Proof.
  induction 1 as [h|h h1 w' He _ _|h e h1 es h' Hne He Hrun (leaked & served & Ho & Hd & Hs & Hn & Hl & H3)].
  - exists ∅, ∅. split_and!; [set_solver..|done].
  - destruct He as (_ & _ & _ & new & Ho & Hd & _ & Hn & _). exists ∅, new.
    split_and!; [simpl; rewrite Ho; set_solver|set_solver|set_solver|done|set_solver|].
    by rewrite decide_True by set_solver.
  - rewrite (attempt_address _ _ _ He) in Hl. apply runs_grow in Hrun.
    destruct (attempt_leaks _ _ _ Hne He) as (new & Ho1 & Hd1 & Hn1 & Hl1). rewrite Ho1 in Ho, Hd, Hs.
    exists (new ∪ leaked), served. split_and!.
    + rewrite Ho. clear. set_solver.
    + clear -Hd Hd1. set_solver.
    + clear -Hs. set_solver.
    + assert (new ## leaked) as Hnl by (clear -Hd; set_solver). rewrite (size_union _ _ Hnl), Hn1, Hn, filter_cons. by destruct e.
    + intros fd [Hfd|Hfd]%elem_of_union; [eapply prefix_incl; [by apply Hl1|done]|by apply Hl].
    + rewrite H3. by rewrite (decide_ext _ (Opened ∈ e :: es)) by (rewrite elem_of_cons; naive_solver).
Qed.
(** The event loop runs on what the last attempt opened. *)
Lemma runs_served rounds h es h' :
  runs rounds h es h' -> Opened ∈ es -> exists w1,
    syncs_recv_clients rounds w1 = Ok (tt, h_world h') /\ winv (h_world h') /\
    server_fds w1 ⊆ open_fds (h_trace h') /\ size (server_fds w1) = 3%nat /\
    listening (server_address (h_world h)) (sv_socketfd (w_server w1)) ⊆ h_trace h' /\
    bound (server_address (h_world h)) (sv_usocketfd (w_server w1)) ⊆ h_trace h'.
Proof.
  induction 1 as [h|h h1 w' He Hrun Hw'|h e h1 es h' Hne He _ IH]; intros Hin; [set_solver| |].
  - exists (h_world h1). rewrite <- (attempt_address _ _ _ He).
    destruct He as (_ & _ & _ & new & Ho & _ & -> & Hn & Hl & Hb). split_and!; try done. simpl. rewrite Ho. set_solver.
  - rewrite <- (attempt_address _ _ _ He). apply IH. set_solver.
Qed.
End runs.

(** ** A kernel that stops refusing *)

Section works.
Context `{Env} `{Kernel}.

(** After [N] calls no socket, address or epoll instance is refused. *)
Definition works_from (N : nat) : Prop :=
  forall t c, (N <= length t)%nat ->
    match c with
    | Socket _ _ _ | EpollCreate _ => 0 <= kernel_result t c
    | Bind _ _ | Listen _ _ => kernel_result t c = 0
    | _ => True
    end.

Context (N : nat) (works : works_from N).

Lemma run_call c t (Q : Z -> trace -> Prop) :
  (N <= length t)%nat ->
  (forall r t', (N <= length t')%nat ->
    match c with
    | Socket _ _ _ | EpollCreate _ => 0 <= r
    | Bind _ _ | Listen _ _ => r = 0
    | _ => True
    end -> Q r t') -> wp (syscall c) Q t.
Proof. intros Ht HQ. apply run_syscall, HQ; [rewrite length_app; lia|by apply works]. Qed.

Lemma run_try_works c t (Q : unit -> trace -> Prop) :
  (N <= length t)%nat -> (forall t', (N <= length t')%nat -> Q tt t') -> wp (try_call c) Q t.
Proof. intros Ht HQ. unfold try_call. wp_step. apply run_call; [done|]. intros r t' Ht' _. wp_step. by apply HQ. Qed.

Ltac working :=
  repeat first
    [ wp_step
    | apply run_try_works; [done|intros ? ?]
    | apply run_call; [done|let Hr := fresh "Hr" in intros ? ? ? Hr; cbn beta iota in Hr]
    | match goal with
      | H : (?fd <? 0) = true, H' : 0 <= ?fd |- _ => exfalso; apply Z.ltb_lt in H; lia
      | H : ?r = 0, H' : negb (?r =? 0) = true |- _ => exfalso; rewrite H in H'; discriminate H'
      end ].

Lemma tcpserver_works addr port t :
  (N <= length t)%nat -> wp (syncs_tcpserver_open addr port) (fun r t' => 0 <= r /\ (N <= length t')%nat) t.
Proof. intros Ht. unfold syncs_tcpserver_open. by working. Qed.

Lemma udpserver_works addr port t :
  (N <= length t)%nat -> wp (syncs_udpserver_open addr port) (fun r t' => 0 <= r /\ (N <= length t')%nat) t.
Proof. intros Ht. unfold syncs_udpserver_open. by working. Qed.

Lemma nonblocking_works fd rx tx t :
  (N <= length t)%nat -> wp (syncs_set_nonblocking_socket fd rx tx) (fun _ t' => (N <= length t')%nat) t.
Proof. intros Ht. eapply wp_mono; [apply grows_nonblocking|]. intros a t' Hp%prefix_length. lia. Qed.

(** Once the kernel works, an attempt succeeds. *)
Lemma server_open_works h : (N <= length (h_trace h))%nat -> wp server_open (fun e _ => e = Opened) h.
Proof.
  intros Ht. unfold server_open. host_step.
  eapply wp_mono; [by apply tcpserver_works|]. intros fd t1 [Hfd Ht1]. host_step.
  rewrite (proj2 (Z.ltb_ge _ _)) by done. host_step.
  eapply wp_mono; [by apply nonblocking_works|]. intros ? t2 Ht2. host_step.
  eapply wp_mono; [by apply udpserver_works|]. intros ufd t3 [Hufd Ht3]. host_step.
  rewrite (proj2 (Z.ltb_ge _ _)) by done. host_step.
  eapply wp_mono; [by apply nonblocking_works|]. intros ? t4 Ht4. host_step.
  apply run_call; [done|]. intros efd t5 Ht5 Hefd. host_step.
  by rewrite (proj2 (Z.ltb_ge _ _)) by done.
Qed.

(** Every failed attempt makes a call, so the kernel works after [N] of them. *)
Lemma thread_opens n rounds h :
  winv (h_world h) -> Forall event_fits (concat rounds) -> (N < n + length (h_trace h))%nat -> n <> O ->
  wp (syncs_server_thread n rounds) (fun es _ => Opened ∈ es) h.
Proof.
  intros Hw Hr. revert h Hw. induction n as [|n IH]; intros h Hw Hn Hn0; [done|]. simpl. wp_step.
  assert (wp server_open (fun e h1 => attempt_ends h e h1 /\ ((N <= length (h_trace h))%nat -> e = Opened)) h) as Ho.
  { apply wp_and; [apply run_server_open|]. destruct (decide (N <= length (h_trace h))%nat) as [Hle|Hgt].
    - eapply wp_mono; [by apply server_open_works|]. by intros e h' ->.
    - eapply wp_mono; [apply run_server_open|]. intros e h' _ Hle. by destruct Hgt. }
  eapply wp_mono; [exact Ho|]. intros e h1 [He Hop]. pose proof (attempt_winv _ _ _ He Hw) as Hw1.
  destruct (decide (e = Opened)) as [->|Hne].
  - wp_step. apply wp_in_server. eapply wp_mono; [by apply safe_recv_clients|]. intros ? w' _. wp_step. set_solver.
  - assert (wp (es ← syncs_server_thread n rounds; mret (e :: es)) (fun es _ => Opened ∈ es) h1) as Hgo.
    { destruct He as (Hlt & _). assert (length (h_trace h) < N)%nat.
      { destruct (decide (N <= length (h_trace h))%nat) as [Hle|]; [by destruct Hne; apply Hop|lia]. }
      wp_step. eapply wp_mono; [apply IH; [done|lia|lia]|]. intros es h' Hes. wp_step. set_solver. }
    by destruct e.
Qed.

End works.

(** C20: the server starts: however often the kernel refuses a socket, an
    address or the epoll instance, if it refuses none after [N] calls, then
    within [N + 1] attempts the thread runs the event loop, on three distinct
    open descriptors, the first listening and the second bound at the
    configured address; and whatever the loop is reported, the state of the
    server stays well formed. *)
Theorem server_thread_serves `{Env} `{Kernel} N rounds h :
  works_from N -> winv (h_world h) -> Forall event_fits (concat rounds) ->
  exists es h' w1, syncs_server_thread (N + 1) rounds h = Ok (es, h') /\ Opened ∈ es /\
    syncs_recv_clients rounds w1 = Ok (tt, h_world h') /\ winv (h_world h') /\
    server_fds w1 ⊆ open_fds (h_trace h') /\ size (server_fds w1) = 3%nat /\
    listening (server_address (h_world h)) (sv_socketfd (w_server w1)) ⊆ h_trace h' /\
    bound (server_address (h_world h)) (sv_usocketfd (w_server w1)) ⊆ h_trace h'.
Proof.
  intros Hk Hw Hr.
  assert (wp (syncs_server_thread (N + 1) rounds) (fun es h' => runs rounds h es h' /\ Opened ∈ es) h) as Hrun.
  { apply wp_and; [by apply run_thread|]. apply (thread_opens N Hk); [done..|lia|lia]. }
  apply wp_run in Hrun as (es & h' & E & Hruns & Hin). exists es, h'.
  destruct (runs_served _ _ _ _ Hruns Hin) as (w1 & Hserve). by exists w1.
Qed.

(** C28: what the thread leaves open: every attempt that fails at the UDP
    socket leaves a listening TCP socket behind, on which nobody accepts; an
    attempt that fails at the TCP socket or at epoll leaves nothing; a serving
    thread holds three descriptors more. *)
Theorem server_thread_descriptors `{Env} `{Kernel} attempts rounds h :
  winv (h_world h) -> Forall event_fits (concat rounds) ->
  exists es h' leaked served, syncs_server_thread attempts rounds h = Ok (es, h') /\
    open_fds (h_trace h') = open_fds (h_trace h) ∪ leaked ∪ served /\
    leaked ## open_fds (h_trace h) /\ served ## open_fds (h_trace h) ∪ leaked /\
    size leaked = length (filter (.= UdpFailed) es) /\
    (forall fd, fd ∈ leaked -> listening (server_address (h_world h)) fd ⊆ h_trace h') /\
    size served = if decide (Opened ∈ es) then 3%nat else O.
Proof.
  intros Hw Hr. destruct (proj1 (wp_run _ _ _) (run_thread rounds attempts h Hw Hr)) as (es & h' & E & Hrun).
  exists es, h'. destruct (runs_descriptors _ _ _ _ Hrun) as (leaked & served & Hopen).
  exists leaked, served. split; [exact E|exact Hopen].
Qed.

Section instances.
#[local] Existing Instance perfect_env.

(** A kernel that refuses datagram sockets during the first 40 calls. *)
Definition busy_result (t : trace) (c : call) : Z :=
  match c with
  | Socket _ type _ => if (type =? SOCK_DGRAM) && (length t <? 40)%nat then -1 else next_fd t
  | _ => perfect_result t c
  end.

#[local] Program Instance busy_kernel : Kernel := {|
  kernel_result := busy_result;
  kernel_errno _ := 97 |}.
Next Obligation.
  intros t [] Hc; try discriminate Hc; cbn [busy_result]; [destruct (_ && _); [by left|]|];
    right; apply next_fd_fresh.
Qed.

Lemma busy_works : works_from 40.
Proof.
  intros t c Ht. destruct c; try done; cbn [kernel_result busy_kernel busy_result].
  - rewrite (proj2 (Nat.ltb_ge _ _)), andb_false_r by done. apply next_fd_fresh.
  - apply next_fd_fresh.
Qed.

(** A server that starts, and two connections it then gets. *)
Definition starting : host := mk_host [] (mk_world (syncs_server_create None 7500 None) []).
Definition first_rounds : list (list epoll_event) :=
  [[EpAccept (AcceptFd 20 (mk_addr 1 2))]; [EpAccept (AcceptFd 21 (mk_addr 3 4)); EpClient 0 (RecvError EAGAIN)]].

Lemma first_rounds_fit : Forall event_fits (concat first_rounds).
Proof. repeat constructor. Qed.

(** Two attempts fail and leave a listener each; the third serves. *)
Definition start_outcome : option (list attempt * nat * Z) :=
  match syncs_server_thread 41 first_rounds starting with
  | Ok (es, h) => Some (es, size (open_fds (h_trace h)), sv_client_count (w_server (h_world h)))
  | Fault _ => None
  end.
Example busy_start : start_outcome = Some ([UdpFailed; UdpFailed; Opened], 5%nat, 2).
Proof. by vm_compute. Qed.

Lemma server_thread_serves_witness :
  exists es h' w1, syncs_server_thread (40 + 1) first_rounds starting = Ok (es, h') /\ Opened ∈ es /\
    syncs_recv_clients first_rounds w1 = Ok (tt, h_world h') /\ winv (h_world h') /\
    server_fds w1 ⊆ open_fds (h_trace h') /\ size (server_fds w1) = 3%nat /\
    listening (server_address (h_world starting)) (sv_socketfd (w_server w1)) ⊆ h_trace h' /\
    bound (server_address (h_world starting)) (sv_usocketfd (w_server w1)) ⊆ h_trace h'.
Proof.
  apply (server_thread_serves 40 first_rounds starting busy_works); [apply server_create_wf|exact first_rounds_fit].
Defined.

Lemma server_thread_descriptors_witness :
  exists es h' leaked served, syncs_server_thread 2 first_rounds starting = Ok (es, h') /\
    open_fds (h_trace h') = open_fds (h_trace starting) ∪ leaked ∪ served /\
    leaked ## open_fds (h_trace starting) /\ served ## open_fds (h_trace starting) ∪ leaked /\
    size leaked = length (filter (.= UdpFailed) es) /\
    (forall fd, fd ∈ leaked -> listening (server_address (h_world starting)) fd ⊆ h_trace h') /\
    size served = if decide (Opened ∈ es) then 3%nat else O.
Proof.
  apply (server_thread_descriptors 2 first_rounds starting); [apply server_create_wf|exact first_rounds_fit].
Defined.
End instances.
