(* ===== verification/StatsProps.v ===== *)
(** * Server: what the statistics show, and when printing them fails *)

From Stdlib Require Import Strings.String.
From S2P Require Import Prelude.
From S2P Require Import Monad.
From S2P Require Import Types.
From S2P Require Import Net.
From S2P Require Import ServerState.
From S2P Require Import ServerEvents.
From S2P Require Import ServerProps.
From S2P Require Import ServerData.
From S2P Require Import Wire.
From S2P Require Import Text.
From S2P Require Import Stats.

(** A character array that holds a string. *)
Definition is_string (mem : list byte) : Prop := zlen (cstr mem) < zlen mem.

(** The value column of a variable that can be printed. *)
Definition value_text (ev : syncs_event) : Z * list byte :=
  let data := ev_data ev in
  let type := ev_data_type ev in
  if type =? SYNCS_TYPE_VAR_INT32 then
    (15, if (int_at data <? 255) && isprint (int_at data) then fmt_d (int_at data) ++ text "/" ++ ztake 1 data
         else fmt_d (int_at data))
  else if type =? SYNCS_TYPE_VAR_INT64 then (15, fmt_d (i64 (word_at 8 data)))
  else if type =? SYNCS_TYPE_VAR_FLOAT then (15, fmt_f 8 23 (word_at 4 data))
  else if type =? SYNCS_TYPE_VAR_DOUBLE then (15, fmt_f 11 52 (word_at 8 data))
  else if type =? SYNCS_TYPE_VAR_STRING then (15, cstr data)
  else (10, text "not support").

Definition event_printable (ev : syncs_event) : Prop :=
  is_string (id_chars (ev_id ev)) /\
  (ev_data_type ev = SYNCS_TYPE_VAR_INT32 -> -128 <= int_at (ev_data ev)) /\
  (ev_data_type ev = SYNCS_TYPE_VAR_STRING -> is_string (ev_data ev)).

(** The rows: one per slot in use, the value cut to the size of [str]. *)
Definition shown_event (ev : syncs_event) : list byte :=
  let '(size, output) := value_text ev in
  event_row (cstr (id_chars (ev_id ev))) (cstr (ztake (size - 1) output)) ev.
Definition shown_client (cl : syncs_client) : list byte := client_row (cstr (id_chars (cl_id cl))) cl.
Definition shown_channel (ch : syncs_channel) : list byte := channel_row (cstr (id_chars (ch_id ch))) ch.

Definition event_live (ev : syncs_event) : Prop := id_is_free (ev_id ev) = false.
Definition client_live (cl : syncs_client) : Prop := cl_socketfd cl <> -1.
Definition channel_live (ch : syncs_channel) : Prop := id_is_free (ch_id ch) = false.

#[export] Instance event_live_dec ev : Decision (event_live ev).
Proof. unfold event_live. apply _. Defined.
#[export] Instance client_live_dec cl : Decision (client_live cl).
Proof. unfold client_live. apply _. Defined.
#[export] Instance channel_live_dec ch : Decision (channel_live ch).
Proof. unfold channel_live. apply _. Defined.

Lemma cstr_app_nul a b : cstr (a ++ Byte.x00 :: b) = cstr a.
Proof. induction a as [|c a IH]; [done|]. cbn [app cstr]. destruct (is_nul c); [done|]. by rewrite IH. Qed.

Lemma zlen_cstr l : zlen (cstr l) <= zlen l.
Proof.
  induction l as [|c l IH]; [done|]. cbn [cstr]. pose proof (zlen_nonneg l).
  destruct (is_nul c); rewrite ?zlen_cons; [change (zlen (@nil byte)) with 0; lia|lia].
Qed.

Section rows.
Context {S : Type}.
Implicit Types (w : S).

Lemma run_value_output ev w (Q : Z * list byte -> S -> Prop) :
  event_printable ev -> Q (value_text ev) w -> wp (value_output ev) Q w.
Proof.
  intros (_ & Hint & Hstr). unfold value_output, value_text. cbn zeta. intros HQ.
  destruct (_ =? SYNCS_TYPE_VAR_INT32) eqn:E.
  - apply Z.eqb_eq in E. specialize (Hint E). wp_step. destruct (Z.ltb_spec (int_at (ev_data ev)) 255).
    + unfold isprint_lookup. rewrite (proj2 (Z.leb_le _ _) Hint), (proj2 (Z.leb_le _ 255)) by lia. exact HQ.
    + exact HQ.
  - clear E. do 3 (destruct (_ =? _); [exact HQ|]). destruct (_ =? SYNCS_TYPE_VAR_STRING) eqn:E'; [|exact HQ].
    wp_step. apply run_c_string; [by apply Hstr, Z.eqb_eq|exact HQ].
Qed.

(** What [snprintf] stores is a string: the output, cut. *)
Lemma run_snprintf_string str size output w (Q : list byte * Z -> S -> Prop) :
  0 < size <= zlen str ->
  (forall str', zlen str' = zlen str -> is_string str' -> cstr str' = cstr (ztake (size - 1) output) ->
    Q (str', zlen output) w) ->
  wp (snprintf str size output) Q w.
Proof.
  intros Hs HQ. unfold snprintf. rewrite (proj2 (Z.leb_gt _ _)) by lia. pose proof (zlen_nonneg output).
  set (stored := ztake (size - 1) output ++ [Byte.x00]).
  assert (zlen stored <= size) as Hlen by (subst stored; rewrite zlen_app, zlen_ztake; change (zlen [Byte.x00]) with 1; lia).
  pose proof (zlen_nonneg stored). wp_step. apply wp_memcpy; [lia..|]. wp_step.
  rewrite ztake_ge, mem_put_start by lia. subst stored. rewrite <- app_assoc. cbn [app].
  set (rest := zdrop _ str). set (str' := ztake (size - 1) output ++ Byte.x00 :: rest).
  assert (cstr str' = cstr (ztake (size - 1) output)) as Ec by apply cstr_app_nul. apply HQ; [|..|done].
  - subst str' rest. zl.
  - unfold is_string. rewrite Ec. pose proof (zlen_cstr (ztake (size - 1) output)). pose proof (zlen_nonneg rest).
    subst str'. rewrite zlen_app, zlen_cons. lia.
Qed.

Lemma value_text_size ev : 0 < (value_text ev).1 <= 15.
Proof. unfold value_text. cbn zeta. repeat (destruct (_ =? _); [done|]). done. Qed.

Lemma run_event_row str out ev w (Q : list byte * list byte -> S -> Prop) :
  event_live ev -> event_printable ev -> zlen str = 15 ->
  (forall str', zlen str' = 15 -> Q (str', out ++ shown_event ev) w) -> wp (print_event_row (str, out) ev) Q w.
Proof.
  intros Hl Hp Hs HQ. unfold print_event_row. rewrite Hl. wp_step. apply run_value_output; [done|].
  pose proof (value_text_size ev) as Hsize. unfold shown_event in HQ. destruct (value_text ev) as [size output].
  wp_step. apply run_snprintf_string; [cbn [fst] in Hsize; lia|]. intros str' Hs' Hstr Ec.
  wp_step. apply run_c_string; [apply Hp|]. wp_step. apply run_c_string; [done|]. wp_step. rewrite Ec. apply HQ. lia.
Qed.

(** The three loops. *)
Lemma run_event_rows l str out w (Q : list byte * list byte -> S -> Prop) :
  Forall event_printable (filter event_live l) -> zlen str = 15 ->
  (forall str', Q (str', out ++ concat (shown_event <$> filter event_live l)) w) ->
  wp (fold_m print_event_row (str, out) l) Q w.
Proof.
  revert str out. induction l as [|ev l IH]; intros str out Hl Hs HQ.
  { specialize (HQ str). by rewrite app_nil_r in HQ. }
  cbn [fold_m]. wp_step. rewrite filter_cons in Hl, HQ. destruct (decide (event_live ev)) as [Hlive|Hfree].
  - apply list.Forall_cons in Hl as [Hev Hl]. apply run_event_row; [done..|]. intros str' Hs'.
    apply IH; [done..|]. intros str2. rewrite <- app_assoc. apply HQ.
  - unfold print_event_row at 1. apply not_false_iff_true in Hfree. rewrite Hfree. wp_step. by apply IH.
Qed.

Lemma run_client_rows l out w (Q : list byte -> S -> Prop) :
  Forall (fun cl => is_string (id_chars (cl_id cl))) (filter client_live l) ->
  Q (out ++ concat (shown_client <$> filter client_live l)) w -> wp (fold_m print_client_row out l) Q w.
Proof.
  revert out. induction l as [|cl l IH]; intros out Hl HQ; [by rewrite app_nil_r in HQ|].
  cbn [fold_m]. wp_step. rewrite filter_cons in Hl, HQ. unfold print_client_row at 1.
  destruct (decide (client_live cl)) as [Hlive|Hfree].
  - apply list.Forall_cons in Hl as [Hid Hl]. rewrite (proj2 (Z.eqb_neq _ _) Hlive).
    wp_step. apply run_c_string; [done|]. wp_step. apply IH; [done|]. by rewrite <- app_assoc.
  - apply dec_stable in Hfree. rewrite (proj2 (Z.eqb_eq _ _) Hfree). wp_step. by apply IH.
Qed.

Lemma run_channel_rows l out w (Q : list byte -> S -> Prop) :
  Forall (fun ch => is_string (id_chars (ch_id ch))) (filter channel_live l) ->
  Q (out ++ concat (shown_channel <$> filter channel_live l)) w -> wp (fold_m print_channel_row out l) Q w.
Proof.
  revert out. induction l as [|ch l IH]; intros out Hl HQ; [by rewrite app_nil_r in HQ|].
  cbn [fold_m]. wp_step. rewrite filter_cons in Hl, HQ. unfold print_channel_row at 1.
  destruct (decide (channel_live ch)) as [Hlive|Hfree].
  - apply list.Forall_cons in Hl as [Hid Hl]. rewrite Hlive.
    wp_step. apply run_c_string; [done|]. wp_step. apply IH; [done|]. by rewrite <- app_assoc.
  - apply not_false_iff_true in Hfree. rewrite Hfree. wp_step. by apply IH.
Qed.

(** Printing changes nothing. *)
#[export] Instance keeps_print_event_row acc ev : Keeps id (print_event_row acc ev : M S _).
Proof.
  destruct acc as [str out]. unfold print_event_row. destruct (id_is_free _); [apply _|].
  apply keeps_bind.
  - unfold value_output. cbn zeta. destruct (_ =? _).
    + apply keeps_bind; [|intros ?; apply _]. unfold isprint_lookup. destruct (_ <? _); apply _.
    + do 3 (destruct (_ =? _); [apply _|]). destruct (_ =? _); [|apply _]. unfold c_string.
      apply keeps_bind; [apply _|intros ?; apply _].
  - intros [size output]. apply keeps_bind; [unfold snprintf; destruct (_ <=? _); [apply _|]; apply keeps_bind; intros; apply _|].
    intros [str' n]. unfold c_string. apply keeps_bind; [apply _|intros ?]. apply keeps_bind; [apply _|intros ?; apply _].
Qed.

(** A row that fails makes the table fail. *)
Lemma event_rows_fault l k ev acc w :
  l !! k = Some ev -> (forall acc, exists f, print_event_row acc ev w = Fault f) ->
  exists f, fold_m print_event_row acc l w = Fault f.
Proof.
  intros Hk Hf. revert k acc Hk. induction l as [|ev' l IH]; intros k acc Hk; [done|].
  cbn [fold_m]. unfold mbind, M_bind. destruct k as [|k].
  - injection Hk as ->. destruct (Hf acc) as [f ->]. by exists f.
  - destruct (print_event_row acc ev' w) as [[acc' w']|f] eqn:E; [|by exists f].
    pose proof (keeps (view := id) _ _ _ E) as Ew. unfold id in Ew. subst w'. by apply (IH k).
Qed.
End rows.

(** C29: printing the statistics of a server shows one row for every variable,
    client and channel slot in use, in slot order, with the value of a variable
    cut to fourteen characters, and nothing else; it does not change the
    server.  This needs every identifier and string value to end inside its
    array and every 32-bit integer to be at least -128. *)
Theorem statistics_show_tables {S} (w : S) s str :
  zlen str = 15 -> Forall event_printable (filter event_live (sv_events s)) ->
  Forall (fun cl => is_string (id_chars (cl_id cl))) (filter client_live (sv_clients s)) ->
  Forall (fun ch => is_string (id_chars (ch_id ch))) (filter channel_live (sv_channels s)) ->
  syncs_server_print_event s str w = Ok (
    events_head ++ concat (shown_event <$> filter event_live (sv_events s)) ++
    clients_head ++ concat (shown_client <$> filter client_live (sv_clients s)) ++
    channels_head ++ concat (shown_channel <$> filter channel_live (sv_channels s)), w).
Proof.
  intros Hs He Hc Hch.
  assert (wp (syncs_server_print_event s str) (fun out w' => w' = w /\ out =
    events_head ++ concat (shown_event <$> filter event_live (sv_events s)) ++
    clients_head ++ concat (shown_client <$> filter client_live (sv_clients s)) ++
    channels_head ++ concat (shown_channel <$> filter channel_live (sv_channels s))) w) as Hp.
  { unfold syncs_server_print_event. wp_step. apply run_event_rows; [done..|]. intros str'.
    wp_step. apply run_client_rows; [done|]. apply run_channel_rows; [done|]. split; [done|].
    cbn [snd]. by rewrite <- !app_assoc. }
  apply wp_run in Hp as (out & w' & E & -> & ->). exact E.
Qed.

(** C30: a 32-bit variable below -128, which any client may write, makes the
    printing of the statistics read outside the character table of
    [isprint]. *)
Theorem negative_value_breaks_statistics {S} (w : S) s str k ev :
  sv_events s !! k = Some ev -> event_live ev -> ev_data_type ev = SYNCS_TYPE_VAR_INT32 ->
  int_at (ev_data ev) < -128 -> exists f, syncs_server_print_event s str w = Fault f.
Proof.
  intros Hk Hl Ht Hv. unfold syncs_server_print_event, mbind at 1, M_bind at 1.
  destruct (event_rows_fault (sv_events s) k ev (str, events_head) w Hk) as [f ->]; [|by exists f].
  intros [str' out]. exists OutOfBounds. unfold print_event_row. rewrite Hl. unfold value_output. cbn zeta.
  rewrite Ht. cbn [Z.eqb]. change (SYNCS_TYPE_VAR_INT32 =? SYNCS_TYPE_VAR_INT32) with true. cbn match.
  rewrite (proj2 (Z.ltb_lt _ 255)) by lia. unfold isprint_lookup. rewrite (proj2 (Z.leb_gt _ _)) by lia. done.
Qed.

Section instances.
#[local] Existing Instance perfect_env.

(** The server of the examples, and the same after the application has
    defined a variable with the value -1000. *)
Definition demo_negative : world := 
  after (syncs_server_define name_a SYNCS_TYPE_VAR_INT32 (Some (le_split 4 (-1000))) 4) server_start.

Definition string_check (mem : list byte) : bool := zlen (cstr mem) <? zlen mem.
Definition event_check (ev : syncs_event) : bool :=
  string_check (id_chars (ev_id ev)) &&
  (negb (ev_data_type ev =? SYNCS_TYPE_VAR_INT32) || (-128 <=? int_at (ev_data ev))) &&
  (negb (ev_data_type ev =? SYNCS_TYPE_VAR_STRING) || string_check (ev_data ev)).

Lemma event_check_printable ev : event_check ev = true -> event_printable ev.
Proof.
  unfold event_check, event_printable, string_check, is_string.
  rewrite !andb_true_iff, !orb_true_iff, !negb_true_iff, !Z.ltb_lt, Z.leb_le, !Z.eqb_neq. intuition congruence.
Qed.

Lemma forallb_check {A} (P : A -> Prop) (p : A -> bool) l :
  (forall x, p x = true -> P x) -> forallb p l = true -> Forall P l.
Proof. intros Hp Hl. apply list.Forall_forall. intros x Hx. by apply Hp, (proj1 (forallb_forall _ l) Hl), list_elem_of_In. Qed.

Lemma demo_statistics :
  Forall event_printable (filter event_live (sv_events (w_server demo))) /\
  Forall (fun cl => is_string (id_chars (cl_id cl))) (filter client_live (sv_clients (w_server demo))) /\
  Forall (fun ch => is_string (id_chars (ch_id ch))) (filter channel_live (sv_channels (w_server demo))).
Proof.
  split_and!.
  - apply (forallb_check _ event_check); [exact event_check_printable|by vm_compute].
  - apply (forallb_check _ (fun cl => string_check (id_chars (cl_id cl)))); [by intros cl ?%Z.ltb_lt|by vm_compute].
  - apply (forallb_check _ (fun ch => string_check (id_chars (ch_id ch)))); [by intros ch ?%Z.ltb_lt|by vm_compute].
Qed.

Lemma statistics_show_tables_witness :
  length (filter event_live (sv_events (w_server demo))) = 1%nat /\
  syncs_server_print_event (w_server demo) (zero_bytes 15) tt = Ok (
    events_head ++ concat (shown_event <$> filter event_live (sv_events (w_server demo))) ++
    clients_head ++ concat (shown_client <$> filter client_live (sv_clients (w_server demo))) ++
    channels_head ++ concat (shown_channel <$> filter channel_live (sv_channels (w_server demo))), tt).
Proof.
  split; [by vm_compute|]. destruct demo_statistics as (He & Hc & Hch).
  exact (statistics_show_tables tt (w_server demo) (zero_bytes 15) eq_refl He Hc Hch).
Defined.

Example demo_row :
  concat (shown_event <$> filter event_live (sv_events (w_server demo))) =
  text "|                             a|           42/*|      1|      1|      1" ++ LF.
Proof. by vm_compute. Qed.

Lemma event_view (l : list syncs_event) k id ty v :
  (fun ev => (ev_id ev, ev_data_type ev, int_at (ev_data ev))) <$> l !! k = Some (id, ty, v) ->
  exists ev, l !! k = Some ev /\ ev_id ev = id /\ ev_data_type ev = ty /\ int_at (ev_data ev) = v.
Proof. destruct (l !! k) as [ev|]; [|done]. intros [= E1 E2 E3]. by exists ev. Qed.

Lemma negative_value_breaks_statistics_witness :
  int_at (le_split 4 (-1000)) < -128 /\
  exists f, syncs_server_print_event (w_server demo_negative) (zero_bytes 15) tt = Fault f.
Proof.
  split; [by vm_compute|].
  destruct (event_view (sv_events (w_server demo_negative)) 0 (syncs_idstr name_a) SYNCS_TYPE_VAR_INT32 (-1000))
    as (ev & Hev & Hid & Hty & Hv); [by vm_compute|].
  apply (negative_value_breaks_statistics tt (w_server demo_negative) (zero_bytes 15) 0 ev Hev).
  - unfold event_live. rewrite Hid. reflexivity.
  - exact Hty.
  - rewrite Hv. reflexivity.
Defined.
End instances.
