(* ===== verification/Daemon.v ===== *)
(** * The server daemon: src/syncsserver/syncsserver.c

    The options of the daemon and its configuration file: the server it
    describes, the variables it defines, and the daemon's own client.  The JSON values and their accessors are those of
    json-c; [None] stands for the pointer [NULL]. *)

From Stdlib Require Import Strings.String.
From stdpp Require Import gmap.
From S2P Require Import Prelude.
From S2P Require Import Monad.
From S2P Require Import Types.
From S2P Require Import Net.
From S2P Require Import ClientState.
From S2P Require Import ClientOps.
From S2P Require Import ServerState.
From S2P Require Import ServerEvents.
From S2P Require Import ServerInv.
From S2P Require Import ServerSafe.
From S2P Require Import EventSpec.
From S2P Require Import Directory.
From S2P Require Import Text.
From S2P Require Import Getopt.
From S2P Require Import Stats.

Class Json : Type := {
  json : Type;
  (** [json_object_object_get_ex]: the member, which is [NULL] for a JSON
      null, or [None] when there is none. *)
  json_member : json -> list byte -> option (option json);
  (** [json_object_get_string]. *)
  json_string : json -> list byte;
  (** [json_object_get_int]. *)
  json_int : json -> Z;
  (** The elements, as [json_object_array_length] and
      [json_object_array_get_idx] give them; [None] when it is no array, which
      the library asserts. *)
  json_array : json -> option (list (option json)) }.

Definition is_some {A} (o : option A) : bool := match o with Some _ => true | None => false end.

Section daemon.
Context `{Env} `{Json}.

Definition member (o : option json) (key : list byte) : option (option json) :=
  match o with Some j => json_member j key | None => None end.
Definition get_string (o : option json) : option (list byte) := (fun j => cstr (json_string j)) <$> o.
Definition get_int (o : option json) : Z := match o with Some j => json_int j | None => 0 end.

(** The chain of [strcmp]s. *)
Definition config_type (type : list byte) : Z :=
  if bool_decide (type = text "empty") then SYNCS_TYPE_VAR_EMPTY
  else if bool_decide (type = text "int") then SYNCS_TYPE_VAR_INT32
  else if bool_decide (type = text "long") then SYNCS_TYPE_VAR_INT64
  else if bool_decide (type = text "float") then SYNCS_TYPE_VAR_FLOAT
  else if bool_decide (type = text "double") then SYNCS_TYPE_VAR_DOUBLE
  else if bool_decide (type = text "string") then SYNCS_TYPE_VAR_STRING
  else if bool_decide (type = text "struct") then SYNCS_TYPE_VAR_STRUCTURE
  else if bool_decide (type = text "any") then SYNCS_TYPE_VAR_ANY
  else SYNCS_TYPE_VAR_NOT_DEFINED.

(** The body of the loop; the address of the [int] value is passed with a
    size of eight bytes. *)
Definition config_variable (variable : option json) : SM unit :=
  if negb (is_some variable) then mret tt
  else
    match member variable (text "name"), member variable (text "type") with
    | None, _ | _, None => mret tt
    | Some name, Some type =>
        let value := match member variable (text "value") with Some v => v | None => None end in
        let size_int := match member variable (text "size") with Some s => get_int s | None => 0 end in
        type_string ← deref (get_string type);
        let flags := config_type type_string in
        if (flags =? SYNCS_TYPE_VAR_INT32) || (flags =? SYNCS_TYPE_VAR_INT64) then
          match value with
          | None => mret tt
          | Some v =>
              name_string ← deref (get_string name);
              _ ← syncs_server_define name_string flags (Some (le_split 4 (json_int v))) 8; mret tt
          end
        else if flags =? SYNCS_TYPE_VAR_STRING then
          match value with
          | None => mret tt
          | Some v =>
              name_string ← deref (get_string name);
              let value_string := cstr (json_string v) in
              _ ← syncs_server_define name_string flags (Some (value_string ++ [Byte.x00])) (u32 (zlen value_string)); mret tt
          end
        else
          name_string ← deref (get_string name);
          _ ← syncs_server_define name_string flags None (u32 size_int); mret tt
    end.

(** [None] is a failure of [json_object_from_file]; the result says whether
    the SSDP responder was started. A local variable no member initialises is
    used all the same. *)
Definition syncs_json_server_init (parsed_json : option json) : SM (option bool) :=
  match parsed_json with
  | None => mret None
  | Some _ =>
      server_name ← deref (member parsed_json (text "server_name"));
      server_address ← deref (member parsed_json (text "address"));
      port ← deref (member parsed_json (text "port"));
      _ ← server_upd (fun _ => syncs_server_create (get_string server_address) (get_int port) (get_string server_name));
      let ssdp := is_some (member parsed_json (text "ssdp")) in
      let variables := match member parsed_json (text "variables") with Some v => v | None => None end in
      variables ← deref (variables ≫= json_array);
      _ ← for_each variables config_variable;
      mret (Some ssdp)
  end.

(** The client half of the file; [size] is [sizeof(struct syncs_connect)]. *)
Definition syncs_json_client_init {S} (size : Z) (parsed_json : option json) : M S (option syncs_connect) :=
  match parsed_json with
  | None => mret None
  | Some _ =>
      client_name ← deref (member parsed_json (text "client_name"));
      server_address ← deref (member parsed_json (text "address"));
      port ← deref (member parsed_json (text "port"));
      mret (syncs_connect_simple size (get_string server_address) (get_int port) (get_string client_name))
  end.
End daemon.

(** ** Options *)

(** [server_config_filename], of 255 bytes, and [bequite]. *)
Record daemon : Type := mk_daemon { dm_config : list byte; dm_bequite : bool }.

Definition daemon_start : daemon := mk_daemon (strncpy 255 (text "./syncscribe-server.json")) false.

Definition daemon_option {S} (d : daemon) (opt : byte) (optarg : option (list byte)) : M S daemon :=
  match opt with
  | Byte.x63 => arg ← deref optarg; mret (mk_daemon (strncpy 255 arg) (dm_bequite d))   (* c *)
  | Byte.x71 => mret (mk_daemon (dm_config d) true)                                     (* q *)
  | _ => mret d
  end.

Definition daemon_options {S} (d : daemon) (opts : list (byte * option (list byte))) : M S daemon :=
  fold_m (fun d o => daemon_option d o.1 o.2) d opts.

Definition daemon_long_options : list long_option :=
  [(text "config", required_argument, Byte.x63); (text "quite", no_argument, Byte.x71)].

Definition daemon_short_options : list byte := text "qc:".

(** The [while] loop over [getopt_long]. *)
Definition daemon_argv {S} (d : daemon) (argv : list (list byte)) : M S daemon :=
  daemon_options d (getopt_long daemon_short_options daemon_long_options argv).

(** ** After the configuration *)

Section run.
Context `{Env}.

(** The subscriptions of the daemon's client and of the server itself;
    [cb_mode] and [cb_message] are the addresses of callbacks that do
    nothing. *)
Definition daemon_client_subscribe (cb_mode : Z) : CM unit :=
  _ ← syncs_subscribe_event SYNCS_TYPE_VAR_INT32 (text "mode") cb_mode NULL;
  _ ← syncs_subscribe_event SYNCS_TYPE_VAR_INT32 (text "pause") cb_mode NULL;
  mret tt.

Definition daemon_server_subscribe (cb_message : Z) : SM unit :=
  _ ← syncs_server_subscribe_event SYNCS_TYPE_VAR_STRING (text "message") cb_message NULL;
  mret tt.

(** One iteration of the endless loop. *)
Definition daemon_iteration (d : daemon) (str : list byte) : SM (list byte) :=
  if negb (dm_bequite d) then s ← server_get; syncs_server_print_event s str else mret [].
End run.
