(* ===== verification/DaemonProps.v ===== *)
(** * The server daemon: what its configuration defines *)

From Stdlib Require Import Strings.String.
From stdpp Require Import gmap.
From S2P Require Import Prelude.
From S2P Require Import Monad.
From S2P Require Import Types.
From S2P Require Import Net.
From S2P Require Import ServerState.
From S2P Require Import ServerEvents.
From S2P Require Import ServerInv.
From S2P Require Import ServerSafe.
From S2P Require Import EventSpec.
From S2P Require Import Table.
From S2P Require Import Directory.
From S2P Require Import Refinement.
From S2P Require Import Text.
From S2P Require Import Daemon.

(** A variable the file describes, with its value if that is used. *)
Record request : Type := mk_request { rq_name : list byte; rq_type : Z; rq_value : option (list byte) }.

Definition rq_id (r : request) : syncsid_t := syncs_idstr (rq_name r).

(** The directory without variables. *)
Lemma directory_free n : directory (replicate n free_event) = ∅.
Proof. by apply table_free. Qed.

Lemma created_vars addr port cid log :
  w_vars (mk_world (syncs_server_create addr port cid) log) = (replicate SYNCS_EVENT_MAXIMUM free_event, 0).
Proof.
  destruct (server_create_tables addr port cid) as (Hev & _ & _).
  change (w_vars _) with (sv_events (syncs_server_create addr port cid), sv_update_counter (syncs_server_create addr port cid)).
  rewrite Hev. f_equal. by destruct addr, cid.
Qed.

Lemma created_directory addr port cid log : abs (mk_world (syncs_server_create addr port cid) log) = (∅, 0).
Proof. unfold abs. by rewrite created_vars, directory_free. Qed.

Section daemon.
Context `{Env} `{Json}.

(** The value a string entry leaves in its variable: strings of 0, 1 and 511
    bytes are lost, the default size of the type being 0. *)
Definition kept_string (t : list byte) : list byte :=
  let n := u32 (zlen t) in
  if (2 <=? n) && (n <? SYNCS_VARIABLE_SIZE_MAXIMUM) then ztake n t else [].

(** What one entry of the array asks for: a variable, or nothing ([Some None]):
    an entry that is null or has no name or type, an integer or a string
    without value, a size above the maximum.  [None]: the entry makes the
    daemon read memory that is not its own: a null name or type, and every
    integer with a value, which is passed as an object of eight bytes. *)
Definition entry_request (v : option json) : option (option request) :=
  match v, member v (text "name"), member v (text "type") with
  | Some _, Some name, Some type =>
      match get_string type with
      | None => None
      | Some type_string =>
          let t := config_type type_string in
          match member v (text "value") with
          | Some (Some j) =>
              if (t =? SYNCS_TYPE_VAR_INT32) || (t =? SYNCS_TYPE_VAR_INT64) then None
              else
                nm ← get_string name;
                if t =? SYNCS_TYPE_VAR_STRING then
                  let s := cstr (json_string j) in
                  Some (if u32 (zlen s) >? SYNCS_VARIABLE_SIZE_MAXIMUM then None
                        else Some (mk_request nm t (Some (kept_string s))))
                else
                  Some (if u32 (default 0 (get_int <$> member v (text "size"))) >? SYNCS_VARIABLE_SIZE_MAXIMUM then None
                        else Some (mk_request nm t None))
          | _ =>
              if (t =? SYNCS_TYPE_VAR_INT32) || (t =? SYNCS_TYPE_VAR_INT64) || (t =? SYNCS_TYPE_VAR_STRING)
              then Some None
              else
                nm ← get_string name;
                Some (if u32 (default 0 (get_int <$> member v (text "size"))) >? SYNCS_VARIABLE_SIZE_MAXIMUM then None
                      else Some (mk_request nm t None))
          end
      end
  | _, _, _ => Some None
  end.

(** The variable a request becomes. *)
Definition defined (r : request) (x : variable) : Prop :=
  var_type x = rq_type r /\ var_subs x = ∅ /\ forall t, rq_value r = Some t -> var_value x = t.

Lemma config_type_mask type : Z.land (config_type type) SYNCS_TYPE_VAR_MASK = config_type type.
Proof. unfold config_type. repeat (destruct (bool_decide _); [done|]). done. Qed.

Lemma run_define_value r data size w :
  winv w -> id_is_free (rq_id r) = false -> Z.land (rq_type r) SYNCS_TYPE_VAR_MASK = rq_type r ->
  (abs w).1 !! rq_id r = None -> full (abs w).1 = false -> size <= SYNCS_VARIABLE_SIZE_MAXIMUM ->
  (forall bs, data = Some bs -> 0 <= define_size (rq_type r) size <= zlen bs) ->
  (forall t, rq_value r = Some t -> exists bs, data = Some bs /\ ztake (define_size (rq_type r) size) bs = t) ->
  wp (syncs_server_define (rq_name r) (rq_type r) data size) (fun _ w' => winv w' /\
    exists x, (abs w').1 = <[rq_id r := x]> (abs w).1 /\ defined r x) w.
Proof.
  intros Hw Hf Hmask Hnone Hfull Hsize Hdata Hval. destruct (w_vars_pair w) as (l & uc & Hv).
  unfold syncs_server_define. rewrite Z.gtb_ltb, (proj2 (Z.ltb_ge _ _)) by done. fold (rq_id r).
  assert (wp (syncs_add_event (rq_id r) (rq_type r) data size) (fun _ => winv) w) as Hsafe.
  { apply safe_add_event_exact; [done|]. intros bs Hbs. destruct (Hdata bs Hbs). done. }
  assert (forall stale st', st' = (spec_define (rq_id r) (rq_type r) size stale (abs w)).2 ->
    (forall t, rq_value r = Some t -> ztake (define_size (rq_type r) size) stale = t) ->
    exists x, st'.1 = <[rq_id r := x]> (abs w).1 /\ defined r x) as Hend.
  { intros stale st' -> Ht. unfold spec_define. rewrite Hnone, Hfull. cbn [fst snd]. eexists. split; [done|].
    split_and!; [by rewrite Hmask|done|]. exact Ht. }
  destruct data as [bs|].
  - pose proof (wp_wlp _ _ _ _ Hsafe (define_value_refines w Hw l uc Hv _ (rq_type r) bs size Hf (Hdata bs eq_refl))) as Hs.
    eapply wp_mono; [exact Hs|]. intros code w' [Hw' Ha]. split; [done|].
    apply (Hend bs (abs w')); [exact (f_equal snd Ha)|]. intros t Ht. by destruct (Hval t Ht) as (? & [= <-] & ?).
  - pose proof (wp_wlp _ _ _ _ Hsafe (define_refines w Hw l uc Hv _ (rq_type r) size Hf)) as Hs.
    eapply wp_mono; [exact Hs|]. intros code w' [Hw' [stale Ha]]. split; [done|].
    apply (Hend stale (abs w')); [exact (f_equal snd Ha)|]. intros t Ht. by destruct (Hval t Ht) as (? & ? & _).
Qed.

(** What one entry does to the directory. *)
Definition entry_effect (o : option request) (w w' : world) : Prop :=
  match o with
  | Some r => exists x, (abs w').1 = <[rq_id r := x]> (abs w).1 /\ defined r x
  | None => (abs w').1 = (abs w).1
  end.

(** Where the directory has room for what the entry asks for. *)
Definition entry_room (o : option request) (w : world) : Prop :=
  match o with
  | Some r => id_is_free (rq_id r) = false /\ (abs w).1 !! rq_id r = None /\ full (abs w).1 = false
  | None => True
  end.

(** A definition with a size above the maximum is refused. *)
Lemma run_define_sized nm t data size value w :
  let o := if size >? SYNCS_VARIABLE_SIZE_MAXIMUM then None else Some (mk_request nm t value) in
  winv w -> entry_room o w -> Z.land t SYNCS_TYPE_VAR_MASK = t ->
  (forall bs, data = Some bs -> size <= SYNCS_VARIABLE_SIZE_MAXIMUM -> 0 <= define_size t size <= zlen bs) ->
  (forall u, value = Some u -> size <= SYNCS_VARIABLE_SIZE_MAXIMUM ->
    exists bs, data = Some bs /\ ztake (define_size t size) bs = u) ->
  wp (_ ← syncs_server_define nm t data size; mret tt) (fun _ w' => winv w' /\ entry_effect o w w') w.
Proof.
  intros o Hw Hroom Hmask Hdata Hval. subst o. rewrite Z.gtb_ltb in *.
  destruct (Z.ltb_spec SYNCS_VARIABLE_SIZE_MAXIMUM size) as [Hbig|Hsize].
  - wp_step. unfold syncs_server_define. rewrite Z.gtb_ltb, (proj2 (Z.ltb_lt _ _)) by done. wp_step. by wp_step.
  - destruct Hroom as (Hf & Hnone & Hfull). wp_step.
    eapply wp_mono; [apply (run_define_value (mk_request nm t value)); try done|intros a w' Hr; by wp_step].
    + intros bs Hbs. by apply Hdata.
    + intros u Hu. by apply Hval.
Qed.

(** The object of a string entry is the string with its terminator. *)
Lemma string_object (s : list byte) :
  let n := u32 (zlen s) in
  n <= SYNCS_VARIABLE_SIZE_MAXIMUM ->
  0 <= define_size SYNCS_TYPE_VAR_STRING n <= zlen (s ++ [Byte.x00]) /\
  ztake (define_size SYNCS_TYPE_VAR_STRING n) (s ++ [Byte.x00]) = kept_string s.
Proof.
  intros n Hn. pose proof (u32_range (zlen s)) as Hr. fold n in Hr. pose proof (zlen_nonneg s).
  assert (n <= zlen s) as Hle by (subst n; apply Z.mod_le; lia).
  unfold kept_string, define_size. fold n. change (syncs_get_size_by_type SYNCS_TYPE_VAR_STRING) with 0.
  rewrite zlen_app. change (zlen [Byte.x00]) with 1. rewrite Z.gtb_ltb.
  assert ((1 <? n) = (2 <=? n)) as -> by (destruct (Z.ltb_spec 1 n), (Z.leb_spec 2 n); lia).
  destruct ((2 <=? n) && (n <? SYNCS_VARIABLE_SIZE_MAXIMUM)); [|by rewrite ztake_0; split; [lia|]].
  split; [lia|]. apply ztake_app_le. lia.
Qed.

Lemma run_config_variable v o w :
  entry_request v = Some o -> winv w -> entry_room o w ->
  wp (config_variable v) (fun _ w' => winv w' /\ entry_effect o w w') w.
Proof.
  intros Hv Hw Hroom. unfold config_variable. unfold entry_request in Hv.
  destruct v as [j0|]; [|injection Hv as <-; by wp_step]. cbn [is_some negb]. set (v := Some j0) in *.
  destruct (member v (text "name")) as [name|], (member v (text "type")) as [type|];
    cbv iota beta in *; try (injection Hv as <-; by wp_step).
  cbn zeta. destruct (get_string type) as [ty|]; [|done]. wp_step. eapply wp_deref; [done|].
  pose proof (config_type_mask ty) as Hmask. set (t := config_type ty) in *.
  assert (match member v (text "size") with Some s => get_int s | None => 0 end =
    default 0 (get_int <$> member v (text "size"))) as -> by by destruct (member v (text "size")).
  set (size := default 0 _) in *.
  destruct ((t =? SYNCS_TYPE_VAR_INT32) || (t =? SYNCS_TYPE_VAR_INT64)) eqn:Eint; cbn [orb] in Hv.
  { destruct (member v (text "value")) as [[j|]|]; [done|injection Hv as <-; by wp_step..]. }
  destruct (t =? SYNCS_TYPE_VAR_STRING) eqn:Estr.
  - destruct (member v (text "value")) as [[j|]|]; [|injection Hv as <-; by wp_step..].
    destruct (get_string name) as [nm|]; [|done]. cbn [mbind option_bind] in Hv. injection Hv as <-.
    wp_step. eapply wp_deref; [done|]. apply Z.eqb_eq in Estr. rewrite Estr in *.
    apply run_define_sized; [done|exact Hroom|done|..].
    + intros bs [= <-] Hn. by apply string_object.
    + intros u [= <-] Hn. eexists. split; [done|]. by apply string_object.
  - assert (exists nm, get_string name = Some nm /\
      o = if u32 size >? SYNCS_VARIABLE_SIZE_MAXIMUM then None else Some (mk_request nm t None)) as (nm & Enm & ->).
    { destruct (member v (text "value")) as [[j|]|]; destruct (get_string name) as [nm|]; try done;
        cbn [mbind option_bind] in Hv; injection Hv as <-; by exists nm. }
    wp_step. eapply wp_deref; [exact Enm|]. by apply run_define_sized.
Qed.

(** The loop over the variables. *)
Lemma run_config_variables vs os w :
  let rs := omap id os in
  mapM entry_request vs = Some os -> winv w -> Forall (fun r => id_is_free (rq_id r) = false) rs ->
  NoDup (rq_id <$> rs) -> (forall r, r ∈ rs -> (abs w).1 !! rq_id r = None) ->
  (size (abs w).1 + length rs <= SYNCS_EVENT_MAXIMUM)%nat ->
  wp (for_each vs config_variable) (fun _ w' => winv w' /\
    (forall id, id ∉ (rq_id <$> rs) -> (abs w').1 !! id = (abs w).1 !! id) /\
    forall r, r ∈ rs -> exists x, (abs w').1 !! rq_id r = Some x /\ defined r x) w.
Proof.
  intros rs Hd%mapM_Some. subst rs. revert w. induction Hd as [|v o vs os Hv Hd IH]; intros w Hw Hf Hnd Hnone Hsize.
  { split_and!; [done|done|]. intros r Hr. by apply elem_of_nil in Hr. }
  cbn [for_each]. wp_step. destruct o as [r|]; cbn [omap list_omap id fmap list_fmap length] in *; last first.
  { eapply wp_mono; [by apply (run_config_variable v None)|]. intros [] w1 [Hw1 Ea]. cbn [entry_effect] in Ea.
    rewrite <- Ea in Hnone, Hsize |- *. by apply IH. }
  apply list.Forall_cons in Hf as [Hfr Hf]. apply list.NoDup_cons in Hnd as [Hnin Hnd].
  assert ((abs w).1 !! rq_id r = None) as Hr by (apply Hnone; by left).
  eapply wp_mono; [apply (run_config_variable v (Some r)); [done|done|split_and!; [done|done|]]|].
  { unfold full. apply bool_decide_eq_false. lia. }
  intros [] w1 (Hw1 & x & Ea & Hx). eapply wp_mono; [apply IH; try done|].
  - intros r' Hr'. rewrite Ea, lookup_insert_ne; [apply Hnone; by right|].
    intros E. apply Hnin. rewrite E. by apply list_elem_of_fmap_2.
  - rewrite Ea, map_size_insert_None by done. lia.
  - intros [] w2 (Hw2 & Hother & Hall). split; [done|]. split.
    + intros id Hid. apply not_elem_of_cons in Hid as [Hne Hid]. rewrite Hother by done.
      by rewrite Ea, lookup_insert_ne.
    + intros r' [-> |Hr']%elem_of_cons; [|by apply Hall]. exists x. split; [|done].
      by rewrite Hother, Ea, lookup_insert_eq.
Qed.
End daemon.

Section file.
Context `{Env} `{Json}.

(** The members every configuration needs. *)
Definition config_file (file : json) (vs : list (option json)) : Prop :=
  is_some (member (Some file) (text "server_name")) = true /\
  is_some (member (Some file) (text "address")) = true /\
  is_some (member (Some file) (text "port")) = true /\
  exists v, member (Some file) (text "variables") = Some v /\ v ≫= json_array = Some vs.

(** The daemon up to its variables. *)
Lemma config_start file vs w :
  config_file file vs -> exists addr port cid ssdp,
    syncs_json_server_init (Some file) w =
      (_ ← for_each vs config_variable; mret (Some ssdp)) (mk_world (syncs_server_create addr port cid) (w_log w)).
Proof.
  intros (Hn & Ha & Hp & v & Hv & Hvs). unfold syncs_json_server_init. rewrite Hv. cbv zeta.
  destruct (member (Some file) (text "server_name")) as [nm|]; [|done].
  destruct (member (Some file) (text "address")) as [ad|]; [|done].
  destruct (member (Some file) (text "port")) as [po|]; [|done].
  rewrite Hvs. do 4 eexists. reflexivity.
Qed.

(** A slot of a server without variables. *)
Lemma create_on_empty id log addr port cid :
  let w := mk_world (syncs_server_create addr port cid) log in
  id_is_free id = false -> syncs_find_event (w_server w) id = None /\
  wp (syncs_create_event id) (fun o w' => winv w' /\ exists e, o = Some e /\ (e < SYNCS_EVENT_MAXIMUM)%nat) w.
Proof.
  intros w Hf. assert (winv w) as Hw by apply server_create_wf.
  destruct (server_create_tables addr port cid) as (Hev & _ & _).
  assert (syncs_find_event (w_server w) id = None) as Hfind.
  { unfold syncs_find_event. subst w. cbn [w_server]. rewrite Hev. apply scan_None.
    intros i ev [-> _]%lookup_replicate. destruct (syncs_idcmp _ _) eqn:E; [|done].
    apply syncs_idcmp_eq in E. rewrite <- E in Hf. done. }
  split; [done|].
  pose proof (wp_wlp _ _ _ _ (safe_create_event id w Hw Hfind)
    (run_create_event id w (replicate SYNCS_EVENT_MAXIMUM free_event) 0 (fun o _ => o = Some 0%nat)
      ltac:(apply created_vars)
      ltac:(done))) as Hc.
  eapply wp_mono; [exact Hc|]. intros o w' ((Hw' & He) & ->). split; [done|]. exists 0%nat. split; [done|by apply He].
Qed.

Lemma define_faults id flags bs size log addr port cid :
  id_is_free id = false -> zlen bs < size -> 1 < size < SYNCS_VARIABLE_SIZE_MAXIMUM ->
  syncs_add_event id flags (Some bs) size (mk_world (syncs_server_create addr port cid) log) = Fault OutOfBounds.
Proof.
  intros Hf Hbs Hsize. destruct (create_on_empty id log addr port cid Hf) as [Hfind Hc]. set (w := mk_world _ _) in *.
  unfold syncs_add_event. apply run_then. apply wp_server_get. rewrite Hfind. apply run_then. wp_step.
  eapply wp_mono; [exact Hc|]. intros o w1 (Hw1 & e & -> & He). wp_step.
  apply run_then. eapply wp_mono; [by apply safe_event_set_type|]. intros [] w2 Hw2. cbn zeta.
  rewrite (proj2 (Z.gtb_lt _ _)), (proj2 (Z.ltb_lt _ _)) by lia. cbn [andb].
  apply run_then. eapply wp_mono; [apply safe_event_size; [done|done|clia]|]. intros [] w3 Hw3.
  unfold event_store. rewrite bind_assoc. apply run_then. apply wp_event_at; [done..|]. intros ev _ Hev.
  unfold mbind, M_bind, memcpy. rewrite (proj2 (Z.leb_gt size (zlen bs))), andb_false_r by lia. done.
Qed.
End file.

(** C26: the daemon's configuration: when no entry of the file makes it read
    foreign memory ([entry_request] is defined; an integer with a value does,
    as in the shipped file: [config_int_value_overreads]) and no two define the
    same variable, the daemon starts, and the variables of the server are
    exactly those [entry_request] names, each with the type of its entry and
    no subscribers, and a string variable with the string as its value, or
    with none when the string has 0, 1 or 511 bytes. Entries without name,
    type or (for integers and strings) value, and those that are too long,
    define nothing. *)
Theorem config_defines_variables `{Env} `{Json} file vs os w :
  let rs := omap id os in
  config_file file vs -> mapM entry_request vs = Some os -> NoDup (rq_id <$> rs) ->
  Forall (fun r => id_is_free (rq_id r) = false) rs -> (length rs <= SYNCS_EVENT_MAXIMUM)%nat ->
  exists ssdp w', syncs_json_server_init (Some file) w = Ok (Some ssdp, w') /\ winv w' /\
    (forall id, id ∉ (rq_id <$> rs) -> (abs w').1 !! id = None) /\
    forall r, r ∈ rs -> exists x, (abs w').1 !! rq_id r = Some x /\ defined r x.
Proof.
  intros rs Hfile Hd Hnd Hf Hlen. subst rs. destruct (config_start file vs w Hfile) as (addr & port & cid & ssdp & E).
  set (w0 := mk_world _ _) in E. pose proof (created_directory addr port cid (w_log w)) as Ha. fold w0 in Ha.
  pose proof (run_config_variables vs os w0 Hd ltac:(apply server_create_wf) Hf Hnd) as Hrun.
  rewrite Ha in Hrun. cbn [fst] in Hrun. rewrite map_size_empty in Hrun.
  destruct (proj1 (wp_run _ _ _) (Hrun ltac:(intros; apply lookup_empty) ltac:(lia))) as ([] & w' & E' & Hw' & Hother & Hall).
  exists ssdp, w'. split; [rewrite E; by rewrite (bind_Ok _ _ _ _ _ E')|]. split; [done|].
  split; [|done]. intros id Hid. rewrite Hother by done. apply lookup_empty.
Qed.

(** C32: a configuration whose first variable is an integer with a value makes
    the daemon read eight bytes of a four-byte object. *)
Theorem config_int_value_overreads `{Env} `{Json} file v vs nm ty j w :
  config_file file (v :: vs) -> member v (text "name") = Some (Some nm) -> member v (text "type") = Some (Some ty) ->
  member v (text "value") = Some (Some j) ->
  (cstr (json_string ty) = text "int" \/ cstr (json_string ty) = text "long") ->
  id_is_free (syncs_idstr (cstr (json_string nm))) = false ->
  syncs_json_server_init (Some file) w = Fault OutOfBounds.
Proof.
  intros Hfile Hname Htype Hval Hint Hf. destruct (config_start file _ w Hfile) as (addr & port & cid & ssdp & ->).
  assert (is_some v = true) as Hv by by destruct v.
  set (w0 := mk_world _ _). set (flags := config_type (cstr (json_string ty))).
  assert ((flags =? SYNCS_TYPE_VAR_INT32) || (flags =? SYNCS_TYPE_VAR_INT64) = true) as Hflags.
  { subst flags. by destruct Hint as [-> | ->]. }
  assert (config_variable v w0 = Fault OutOfBounds) as E.
  { unfold config_variable. rewrite Hv, Hname, Htype, Hval. cbn [negb]. cbv zeta.
    change (get_string (Some ty)) with (Some (cstr (json_string ty))). apply run_then. eapply wp_deref; [done|].
    fold flags. rewrite Hflags. apply run_then. eapply wp_deref; [done|].
    unfold mbind, M_bind. unfold syncs_server_define. change (8 >? SYNCS_VARIABLE_SIZE_MAXIMUM) with false. cbn match.
    unfold w0. by rewrite define_faults by (done || rewrite zlen_le_split; lia). }
  cbn [for_each]. unfold mbind, M_bind. by rewrite E.
Qed.

Section instances.
#[local] Existing Instance perfect_env.

(** JSON values with just enough structure for an example. *)
Inductive sample_json : Type :=
  | JInt (n : Z)
  | JString (s : list byte)
  | JArray (l : list (option sample_json))
  | JObject (members : list (list byte * option sample_json)).

#[local] Instance sample_json_lib : Json := {|
  json := sample_json;
  json_member j key :=
    match j with
    | JObject l => snd <$> (scan (fun m => bool_decide (m.1 = key)) l ≫= fun i => l !! i)
    | _ => None
    end;
  json_string j := match j with JString s => s | JInt n => fmt_d n | _ => [] end;
  json_int j := match j with JInt n => n | _ => 0 end;
  json_array j := match j with JArray l => Some l | _ => None end |}.

Definition sample_entry (name type : list byte) (value : @json sample_json_lib) : option (@json sample_json_lib) :=
  Some (JObject [(text "name", Some (JString name)); (text "type", Some (JString type)); (text "value", Some value)]).

Definition sample_file (vs : list (option (@json sample_json_lib))) : @json sample_json_lib :=
  JObject [(text "server_name", Some (JString (text "srv"))); (text "address", Some (JString (text "127.0.0.1")));
    (text "port", Some (JInt 4444)); (text "variables", Some (JArray vs))].

(** A string, a float, a string without value (ignored), a one-letter string
    (as in the shipped file). *)
Definition sample_variables : list (option (@json sample_json_lib)) :=
  [sample_entry (text "greeting") (text "string") (JString (text "hello")); sample_entry (text "ratio") (text "float") (JInt 1);
   Some (JObject [(text "name", Some (JString (text "empty"))); (text "type", Some (JString (text "string")))]);
   sample_entry (text "message") (text "string") (JString (text "-"))].
Definition sample_requests : list (option request) :=
  [Some (mk_request (text "greeting") SYNCS_TYPE_VAR_STRING (Some (text "hello")));
   Some (mk_request (text "ratio") SYNCS_TYPE_VAR_FLOAT None); None;
   Some (mk_request (text "message") SYNCS_TYPE_VAR_STRING (Some []))].

Lemma sample_config vs : config_file (sample_file vs) vs.
Proof. split_and!; [done..|]. exists (Some (JArray vs)). by split. Qed.

Lemma sample_described : mapM entry_request (sample_variables : list (option (@json sample_json_lib))) = Some sample_requests.
Proof. by vm_compute. Qed.

Lemma sample_distinct : NoDup (rq_id <$> omap id sample_requests).
Proof. apply (bool_decide_eq_true_1 _). by vm_compute. Qed.

Lemma sample_live : Forall (fun r => id_is_free (rq_id r) = false) (omap id sample_requests).
Proof. repeat constructor. Qed.

Lemma config_defines_variables_witness :
  let rs := omap id sample_requests in
  exists ssdp w', syncs_json_server_init (Some (sample_file sample_variables)) (mk_world calloc_server []) = Ok (Some ssdp, w') /\
    winv w' /\ (forall id, id ∉ (rq_id <$> rs) -> (abs w').1 !! id = None) /\
    forall r, r ∈ rs -> exists x, (abs w').1 !! rq_id r = Some x /\ defined r x.
Proof.
  apply (config_defines_variables (sample_file sample_variables) sample_variables sample_requests).
  - apply sample_config.
  - exact sample_described.
  - exact sample_distinct.
  - exact sample_live.
  - apply Nat.leb_le. reflexivity.
Defined.

(** The variables of src/syncsserver/syncscribe-server.json. *)
Definition shipped_variables : list (option (@json sample_json_lib)) :=
  [sample_entry (text "pause") (text "int") (JString (text "0")); sample_entry (text "mode") (text "int") (JString (text "0"));
   sample_entry (text "message") (text "string") (JString (text "-"))].

Lemma config_int_value_overreads_witness :
  syncs_json_server_init (Some (sample_file shipped_variables)) (mk_world calloc_server []) = Fault OutOfBounds.
Proof.
  apply (config_int_value_overreads (sample_file shipped_variables)
    (sample_entry (text "pause") (text "int") (JString (text "0"))) (tail shipped_variables)
    (JString (text "pause")) (JString (text "int")) (JString (text "0"))).
  - apply sample_config.
  - reflexivity.
  - reflexivity.
  - reflexivity.
  - left. reflexivity.
  - reflexivity.
Defined.
End instances.
