(* ===== verification/Control.v ===== *)
(** * The command-line tool: src/syncsctrl/syncsctrl.c

    Its command line, the call of the client library each mode makes, what it
    prints, and its waits for the receiver thread. *)

From Stdlib Require Import Strings.String.
From S2P Require Import Prelude.
From S2P Require Import Monad.
From S2P Require Import Types.
From S2P Require Import Net.
From S2P Require Import Text.
From S2P Require Import Getopt.
From S2P Require Import Framing.
From S2P Require Import ClientState.
From S2P Require Import ClientOps.
From S2P Require Import ClientCalls.

Inductive ctrl_mode : Type := ModeRead | ModeWrite | ModeNotify.

(** What [value] points to: [value_int], [value_str] or nothing. *)
Inductive ctrl_value : Type := ValueInt | ValueStr | ValueNull.

(** The variables of [main] and the globals it sets. *)
Record ctrl : Type := mk_ctrl {
  ct_mode : ctrl_mode;
  ct_value_size : Z;                (* a [char] *)
  ct_var_name : list byte;          (* 33 bytes *)
  ct_value : ctrl_value;
  ct_flag : Z;
  ct_value_int : Z;
  ct_value_str : list byte;         (* 1024 bytes *)
  ct_port : Z;
  ct_address : list byte;           (* 32 bytes *)
  ct_dontexit : bool;
  ct_quiet : bool;
  ct_udp : bool }.

#[export] Instance ctrl_settable : Settable ctrl := fun c =>
  mk_ctrl (ct_mode c) (ct_value_size c) (ct_var_name c) (ct_value c) (ct_flag c) (ct_value_int c)
    (ct_value_str c) (ct_port c) (ct_address c) (ct_dontexit c) (ct_quiet c) (ct_udp c).

(** [var_name] is uninitialised. *)
Definition ctrl_start (var_name : list byte) : ctrl :=
  mk_ctrl ModeRead 0 var_name ValueStr SYNCS_TYPE_VAR_INT32 0 (zero_bytes 1024) 4444
    (strncpy 32 (text "127.0.0.1")) true false false.

(** [strncpy(dst, arg, n)] into an array of more than [n] bytes. *)
Definition copy_name (n : nat) (arg dst : list byte) : list byte := mem_put 0 (strncpy n arg) dst.

(** ** Options *)

(** What [getopt_long] is asked to recognise. *)
Definition long_options : list long_option :=
  [(text "quiet", required_argument, Byte.x71); (text "write", required_argument, Byte.x77);
   (text "read", required_argument, Byte.x72); (text "notify", required_argument, Byte.x6e);
   (text "port", required_argument, Byte.x70); (text "address", required_argument, Byte.x61);
   (text "int", optional_argument, Byte.x69); (text "char", optional_argument, Byte.x63);
   (text "empty", no_argument, Byte.x65); (text "loop", no_argument, Byte.x6c);
   (text "udp", no_argument, Byte.x75); (text "string", optional_argument, Byte.x73);
   (text "help", optional_argument, Byte.x68)].

Definition short_options : list byte := text "ulehw:r:p:a:i:s:c:n:q".

Definition ctrl_usage : list byte :=
  line "Usage: ./syncsctrl <operation> <variable name> <type> <value> " ++
  line " Operations:" ++
  tab_line "-r, --read - read variable" ++
  tab_line "-w, --write - write variable" ++
  tab_line "-n,--notify - notify variable" ++
  line " Types:" ++
  tab_line "-s,--string - string variable" ++
  tab_line "-i,--int - integer variable" ++
  tab_line "-c,--char - char variable" ++
  tab_line "-e,--empty - empty variable" ++
  line " Additional options:" ++
  tab_line "-a,--address - server IP address " ++
  tab_line "-p,--port - server port " ++
  line " Examples:" ++
  tab_line "./syncsctrl -r mode -c 0" ++
  tab_line "./syncsctrl -w mode -c D" ++
  tab_line "./syncsctrl -w mode -i 83" ++
  tab_line "./syncsctrl -w mode -i 83 --address 10.100.1.1 -p 4443".

(** [printf("args int  = [%d]\n", value_int)]. *)
Definition args_int (n : Z) : list byte := text "args int  = [" ++ fmt_d n ++ line "]".

(** One case of the [switch], with what it prints; [None] is [exit(1)]. *)
Definition ctrl_option {S} (c : ctrl) (opt : byte) (optarg : option (list byte))
    : M S (option ctrl * list byte) :=
  match opt with
  | Byte.x77 => arg ← deref optarg;                                                            (* w *)
      mret (Some (c <| ct_var_name ::= copy_name 32 arg |> <| ct_mode := ModeWrite |>), [])
  | Byte.x71 => mret (Some (c <| ct_quiet := true |>), [])                                     (* q *)
  | Byte.x6e => arg ← deref optarg;                                                            (* n *)
      mret (Some (c <| ct_var_name ::= copy_name 32 arg |> <| ct_mode := ModeNotify |>), [])
  | Byte.x72 => arg ← deref optarg;                                                            (* r *)
      mret (Some (c <| ct_var_name ::= copy_name 32 arg |> <| ct_mode := ModeRead |>), [])
  | Byte.x68 => mret (None, ctrl_usage)                                                        (* h *)
  | Byte.x70 => arg ← deref optarg; mret (Some (c <| ct_port := atoi (cstr arg) |>), [])       (* p *)
  | Byte.x61 => arg ← deref optarg; mret (Some (c <| ct_address := strncpy 32 arg |>), [])     (* a *)
  | Byte.x75 => mret (Some (c <| ct_udp := true |>), [])                                       (* u *)
  | Byte.x6c => mret (Some (c <| ct_dontexit := false |>), [])                                 (* l *)
  | Byte.x69 =>                                                                                (* i *)
      let '(c, out) := match optarg with
               | Some arg => let n := atoi (cstr arg) in
                             (c <| ct_value_int := n |> <| ct_value_size := 4 |>, args_int n)
               | None => (c <| ct_value_size := 0 |>, [])
               end in
      mret (Some (c <| ct_flag := SYNCS_TYPE_VAR_INT32 |> <| ct_value := ValueInt |>), out)
  | Byte.x65 =>                                                                                (* e *)
      mret (Some (c <| ct_flag := SYNCS_TYPE_VAR_EMPTY |> <| ct_value := ValueNull |> <| ct_value_size := 0 |>), [])
  | Byte.x63 =>                                                                                (* c *)
      let '(c, out) := match optarg with
               | Some arg => let n := i8 (byte.unsigned (chr arg)) in
                             (c <| ct_value_int := n |> <| ct_value_size := 4 |>, args_int n)
               | None => (c <| ct_value_size := 0 |>, [])
               end in
      mret (Some (c <| ct_flag := SYNCS_TYPE_VAR_INT32 |> <| ct_value := ValueInt |>), out)
  | Byte.x73 =>                                                                                (* s *)
      c ← match optarg with
          | Some arg =>
              let value_str := strncpy 1024 arg in
              str ← c_string value_str;
              mret (c <| ct_value_str := value_str |> <| ct_value_size := i8 (zlen str + 1) |>)
          | None => mret (c <| ct_value_size := 0 |>)
          end;
      mret (Some (c <| ct_flag := SYNCS_TYPE_VAR_STRING |> <| ct_value := ValueStr |>), [])
  | _ => mret (Some c, [])
  end.

Fixpoint ctrl_options {S} (c : ctrl) (opts : list (byte * option (list byte))) : M S (option ctrl * list byte) :=
  match opts with
  | [] => mret (Some c, [])
  | (opt, optarg) :: opts =>
      r ← ctrl_option c opt optarg;
      match r with
      | (None, out) => mret (None, out)
      | (Some c, out) => r ← ctrl_options c opts; mret (r.1, out ++ r.2)
      end
  end.

(** The [while] loop over [getopt_long], for the words after the program's name. *)
Definition ctrl_argv {S} (c : ctrl) (argv : list (list byte)) : M S (option ctrl * list byte) :=
  ctrl_options c (getopt_long short_options long_options argv).

(** ** Waiting for the connection *)

(** [while (connect_wait) pthread_cond_wait(...)]: each wake-up tells whether
    [cb] has run; [false] when the tool still waits. *)
Fixpoint ctrl_wait_connect (connect_wait : bool) (wakeups : list bool) : bool :=
  if connect_wait then
    match wakeups with
    | [] => false
    | cb_ran :: wakeups => ctrl_wait_connect (negb cb_ran) wakeups
    end
  else true.

(** [while (!syncs_isconnect(syncs_server));]: the states it looks at. *)
Fixpoint ctrl_poll_connect (states : list (option syncs_connect)) : bool :=
  match states with
  | [] => false
  | s :: states => if syncs_isconnect s =? 0 then ctrl_poll_connect states else true
  end.

Section ctrl.
Context `{Env}.

(** [-u] asks for a UDP connection; [cb] is the address of [cb], [size] is
    [sizeof(struct syncs_connect)].  The second result is what it prints. *)
Definition ctrl_connect {S} (c : ctrl) (size cb : Z) : M S (option syncs_connect * list byte) :=
  let id := text "syncs-rw" in
  let s := if negb (ct_udp c) then syncs_connect_new size (Some (ct_address c)) (ct_port c) (Some id) cb NULL
           else syncs_udpconnect size (Some (ct_address c)) (ct_port c) (Some id) in
  let out := match s with None => text " Can't create client " ++ [Byte.x0a] | Some _ => [] end in
  if ct_quiet c then mret (s, out)
  else
    address ← c_string (ct_address c);
    mret (s, out ++ text "Wait for connect to " ++ address ++ text ":" ++ fmt_d (ct_port c) ++ text " " ++ [Byte.x0a]).

(** The object [value] points to. *)
Definition value_memory (c : ctrl) : option (list byte) :=
  match ct_value c with
  | ValueInt => Some (le_split 4 (ct_value_int c))
  | ValueStr => Some (ct_value_str c)
  | ValueNull => None
  end.

Definition ctrl_write (c : ctrl) : CM Z :=
  name ← c_string (ct_var_name c);
  syncs_write (ct_flag c) name (value_memory c) (u32 (ct_value_size c)).

(** The value read, as the tool keeps it. *)
Definition ctrl_read (c : ctrl) (wakeups : list wakeup) : CM ctrl :=
  name ← c_string (ct_var_name c);
  if ct_flag c =? SYNCS_TYPE_VAR_INT32 then
    r ← syncs_read_int32 0 name (le_split 4 (ct_value_int c)) wakeups;
    mret (c <| ct_value_int := i32 (le_combine r.1.2) |>)
  else
    r ← syncs_read_str 0 name (ct_value_str c) 1024 wakeups;
    mret (c <| ct_value_str := r.1.2 |>).

(** [cb] is [notify_cb]. *)
Definition ctrl_notify (c : ctrl) (cb : Z) : CM Z :=
  name ← c_string (ct_var_name c);
  syncs_subscribe_event (ct_flag c) name cb NULL.

(** [%x]. *)
Definition hex_digit (n : Z) : byte := byte.of_Z (if n <? 10 then 48 + n else 87 + n).
Fixpoint hex_digits (fuel : nat) (n : Z) : list byte :=
  match fuel with
  | O => []
  | S fuel => if n <? 16 then [hex_digit n] else hex_digits fuel (n / 16) ++ [hex_digit (n mod 16)]
  end.
Definition fmt_x (n : Z) : list byte := hex_digits 8 (u32 n).

(** What each mode does and prints, once the tool is connected. *)
Definition ctrl_run (c : ctrl) (cb : Z) (wakeups : list wakeup) : CM (list byte) :=
  match ct_mode c with
  | ModeWrite =>
      name ← c_string (ct_var_name c);
      msg ← (if ct_flag c =? SYNCS_TYPE_VAR_INT32 then
               mret (text "Write [" ++ name ++ text "] = [" ++ fmt_d (ct_value_int c) ++ text "]:" ++
                     fmt_d (ct_value_size c) ++ text " " ++ [Byte.x0a])
             else if ct_flag c =? SYNCS_TYPE_VAR_EMPTY then
               mret (text "Write [" ++ name ++ text "] event " ++ [Byte.x0a])
             else
               value ← c_string (ct_value_str c);
               mret (text "Write [" ++ name ++ text "] = [" ++ value ++ text "]:" ++
                     fmt_d (ct_value_size c) ++ text " " ++ [Byte.x0a]));
      _ ← ctrl_write c;
      mret msg
  | ModeRead =>
      c ← ctrl_read c wakeups;
      let v := ct_value_int c in
      if ct_flag c =? SYNCS_TYPE_VAR_INT32 then
        mret (text "value dec [" ++ fmt_d v ++ text "] hex [" ++ fmt_x v ++ text "] char [" ++
              [byte.of_Z v] ++ text "] " ++ [Byte.x0a])
      else
        value ← c_string (ct_value_str c);
        mret (text "value str: " ++ value ++ text " " ++ [Byte.x0a])
  | ModeNotify => _ ← ctrl_notify c cb; mret []
  end.

(** ** Notifications *)

(** What the tool prints for an event: the value up to its end. *)
Definition notify_cb (c : ctrl) (data : list byte) : CM (list byte) :=
  if ct_flag c =? SYNCS_TYPE_VAR_INT32 then
    v ← memcpy (zero_bytes 4) 0 data 4;
    mret (fmt_d (i32 (le_combine v)) ++ [Byte.x0a])
  else s ← c_string data; mret (s ++ [Byte.x0a]).

(** The calls of [notify_cb] among the I/O of the library, [cb] its address:
    whether [notify_wait] was cleared, and what was printed. *)
Fixpoint ctrl_callbacks (c : ctrl) (cb : Z) (log : list io) : CM (bool * list byte) :=
  match log with
  | [] => mret (false, [])
  | IoCallback f _ _ data :: log =>
      if f =? cb then
        out ← notify_cb c data;
        r ← ctrl_callbacks c cb log;
        mret (true, out ++ r.2)
      else ctrl_callbacks c cb log
  | _ :: log => ctrl_callbacks c cb log
  end.

(** One sleep in [pthread_cond_wait]: the receiver thread processes [ds]. *)
Definition ctrl_sleep (c : ctrl) (cb : Z) (ds : list delivery) : CM (bool * list byte) :=
  before ← gets c_log;
  _ ← receive_packets ds;
  after ← gets c_log;
  ctrl_callbacks c cb (drop (length before) after).

(** [do { while (notify_wait) pthread_cond_wait(...); notify_wait = 1; }
    while (dontexit);]: whether the loop has ended, and what was printed.
    Each element of [sleeps] is what the receiver thread processed before the
    loop looked at [notify_wait] again; a wake-up without a call of
    [notify_cb] leaves the inner loop waiting. *)
Fixpoint ctrl_notify_loop (c : ctrl) (cb : Z) (sleeps : list (list delivery)) : CM (bool * list byte) :=
  match sleeps with
  | [] => mret (false, [])
  | ds :: sleeps =>
      r ← ctrl_sleep c cb ds;
      let '(notified, out) := r in
      if notified && negb (ct_dontexit c) then mret (true, out)
      else r ← ctrl_notify_loop c cb sleeps; mret (r.1, out ++ r.2)
  end.

(** From the connection to the end of [main]. *)
Definition ctrl_session (c : ctrl) (cb : Z) (wakeups : list wakeup) (sleeps : list (list delivery))
    (rest : list delivery) : CM (bool * list byte) :=
  out ← ctrl_run c cb wakeups;
  r ← match ct_mode c with
      | ModeNotify => ctrl_notify_loop c cb sleeps
      | _ => mret (true, [])
      end;
  _ ← (if (r.1 : bool) then syncs_disconnect rest else mret tt);
  mret (r.1, out ++ r.2).
End ctrl.
