(* ===== verification/ControlProps.v ===== *)
(** * The command-line tool and a server *)

From Stdlib Require Import Strings.String.
From stdpp Require Import gmap.
From S2P Require Import Prelude.
From S2P Require Import Monad.
From S2P Require Import Types.
From S2P Require Import Net.
From S2P Require Import Text.
From S2P Require Import Getopt.
From S2P Require Import Framing.
From S2P Require Import Wire.
From S2P Require Import ServerState.
From S2P Require Import ServerInv.
From S2P Require Import Handler.
From S2P Require Import EventSpec.
From S2P Require Import Directory.
From S2P Require Import Refinement.
From S2P Require Import Publish.
From S2P Require Import ServerProps.
From S2P Require Import ServerData.
From S2P Require Import ServerStream.
From S2P Require Import ClientState.
From S2P Require Import ClientOps.
From S2P Require Import ClientCalls.
From S2P Require Import ClientInv.
From S2P Require Import ClientWait.
From S2P Require Import ClientWire.
From S2P Require Import ClientStream.
From S2P Require Import Link.
From S2P Require Import Control.

(** The arrays of the tool. *)
Lemma strncpy_short n arg rest :
  (length (cstr arg) < n)%nat -> exists z, strncpy n arg ++ rest = cstr arg ++ Byte.x00 :: z.
Proof.
  intros Hn. unfold strncpy. rewrite resize_ge by lia.
  replace (n - length (cstr arg))%nat with (S (n - length (cstr arg) - 1)) by lia. cbn [replicate].
  rewrite <- app_assoc. by eexists.
Qed.

Lemma cstr_idem l z : cstr (cstr l ++ Byte.x00 :: z) = cstr l.
Proof.
  induction l as [|c l IH]; [done|]. cbn [cstr]. destruct (is_nul c) eqn:E; [done|]. cbn [app cstr]. by rewrite E, IH.
Qed.

Lemma copied_name arg dst :
  (length (cstr arg) <= 31)%nat ->
  cstr (copy_name 32 arg dst) = cstr arg /\ zlen (cstr (copy_name 32 arg dst)) < zlen (copy_name 32 arg dst).
Proof.
  intros Ha. unfold copy_name. rewrite mem_put_start.
  destruct (strncpy_short 32 arg (zdrop (zlen (strncpy 32 arg)) dst)) as [z ->]; [lia|].
  rewrite cstr_idem. split; [done|]. rewrite zlen_app, zlen_cons. pose proof (zlen_nonneg z). lia.
Qed.

Section tool.
Context `{Env}.

(** [-w name -i n]. *)
Definition write_int_argv (name : list byte) (n : Z) : list (list byte) :=
  [text "-w"; name; text "-i"; fmt_d n].

(** [-w name -s value]. *)
Definition write_string_argv (name value : list byte) : list (list byte) :=
  [text "-w"; name; text "-s"; value].

Lemma write_int_getopt name n :
  getopt_long short_options long_options (write_int_argv name n) = [(Byte.x77, Some name); (Byte.x69, Some (fmt_d n))].
Proof. reflexivity. Qed.

Lemma write_string_getopt name value :
  getopt_long short_options long_options (write_string_argv name value) = [(Byte.x77, Some name); (Byte.x73, Some value)].
Proof. reflexivity. Qed.

(** The long names mean the same. *)
Lemma write_int_long name n :
  getopt_long short_options long_options [text "--write"; name; text "--int=" ++ fmt_d n] =
  getopt_long short_options long_options (write_int_argv name n).
Proof. reflexivity. Qed.

Lemma fmt_d_no_nul n : - 2 ^ 31 <= n < 2 ^ 31 -> cstr (fmt_d n) = fmt_d n.
Proof.
  intros Hn. assert (forall l, Forall (fun c => is_nul c = false) l -> cstr l = l) as Hc.
  { induction 1 as [|c l Hc _ IH]; [done|]. cbn [cstr]. by rewrite Hc, IH. }
  assert (forall k, 0 <= k -> Forall (fun c => is_nul c = false) (digits 20 k)) as Hd.
  { intros k Hk. eapply list.Forall_impl; [by apply digits_isdigit|]. intros c Hcd.
    destruct (is_nul c) eqn:E; [|done]. apply is_nul_spec in E as ->. by vm_compute in Hcd. }
  apply Hc. unfold fmt_d. destruct (Z.ltb_spec n 0); [constructor; [done|]|]; apply Hd; lia.
Qed.

Lemma write_int_parsed {S} name n junk (s : S) :
  - 2 ^ 31 <= n < 2 ^ 31 ->
  exists c, ctrl_argv (ctrl_start junk) (write_int_argv name n) s = Ok ((Some c, args_int n), s) /\
    ct_mode c = ModeWrite /\ ct_var_name c = copy_name 32 name junk /\ ct_flag c = SYNCS_TYPE_VAR_INT32 /\
    ct_value_size c = 4 /\ value_memory c = Some (le_split 4 n).
Proof.
  intros Hn. unfold ctrl_argv. rewrite write_int_getopt. cbn [ctrl_options ctrl_option deref mbind M_bind mret M_ret fst snd app].
  rewrite fmt_d_no_nul, atoi_fmt_d by done. unfold mbind, M_bind, mret, M_ret. cbn [fst snd app].
  rewrite app_nil_r. eexists. by split_and!.
Qed.

Lemma write_string_parsed {S} name value junk (s : S) :
  (length (cstr value) < 1024)%nat ->
  exists c, ctrl_argv (ctrl_start junk) (write_string_argv name value) s = Ok ((Some c, []), s) /\
    ct_mode c = ModeWrite /\ ct_var_name c = copy_name 32 name junk /\ ct_flag c = SYNCS_TYPE_VAR_STRING /\
    ct_value_size c = i8 (zlen (cstr value) + 1) /\ value_memory c = Some (strncpy 1024 value).
Proof.
  intros Hv. destruct (strncpy_short 1024 value [] Hv) as [z Hz]. rewrite app_nil_r in Hz.
  assert (cstr (strncpy 1024 value) = cstr value) as Hc by by rewrite Hz, cstr_idem.
  assert (zlen (cstr value) < zlen (strncpy 1024 value)) as Hlt.
  { unfold zlen, strncpy. rewrite length_resize. lia. }
  unfold ctrl_argv. rewrite write_string_getopt. cbn [ctrl_options ctrl_option deref mbind M_bind mret M_ret].
  unfold c_string. rewrite Hc, (proj2 (Z.ltb_lt _ _)) by done. by eexists.
Qed.

(** [--quiet] is declared with an argument and takes the operation: the tool
    reads a variable whose name was never stored. *)
Lemma quiet_takes_operation {S} name n junk (s : S) :
  - 2 ^ 31 <= n < 2 ^ 31 -> head name <> Some dash ->
  exists c out, ctrl_argv (ctrl_start junk) (text "--quiet" :: write_int_argv name n) s = Ok ((Some c, out), s) /\
    ct_quiet c = true /\ ct_mode c = ModeRead /\ ct_var_name c = junk.
Proof.
  intros Hn Hname. unfold ctrl_argv.
  assert (getopt_long short_options long_options (text "--quiet" :: write_int_argv name n) =
    [(Byte.x71, Some (text "-w")); (Byte.x69, Some (fmt_d n))]) as ->.
  { destruct name as [|x name]; [reflexivity|]. by destruct x. }
  eexists _, _. by split_and!.
Qed.
End tool.

(** C23: [syncsctrl -w name -i n] sets the variable: the bytes the tool sends,
    cut in any way into chunks of at least a header, make the server's
    directory transition of a write of the four bytes of [n] under that
    name. *)
Theorem ctrl_write_int_reaches_server (Ec Es : Env) `{!@Lossless Ec} name n junk cw w c cl :
  connected (c_connect cw) -> - 2 ^ 31 <= n < 2 ^ 31 -> (length (cstr name) <= 31)%nat ->
  id_is_free (syncs_idstr (cstr name)) = false ->
  winv w -> w_clients w !! c = Some cl -> pending cl = [] ->
  exists ct cw' bs, ctrl_argv (ctrl_start junk) (write_int_argv name n) cw = Ok ((Some ct, args_int n), cw) /\
    ct_mode ct = ModeWrite /\ @ctrl_write Ec ct cw = Ok (0, cw') /\
    c_log cw' = c_log cw ++ [IoSend (cn_socketfd (c_connect cw)) bs] /\
    forall chunks, concat chunks = bs -> Forall chunk_fits chunks ->
      exists w', @receive_chunks Es c chunks w = Ok (tt, w') /\
        abs w' = (spec_write c (syncs_idstr (cstr name)) SYNCS_TYPE_VAR_INT32 (le_split 4 n) (abs w)).2.
Proof.
  intros Hc Hn Hname Hid Hw Hcl Hp.
  destruct (write_int_parsed name n junk cw Hn) as (ct & E & Hmode & Hvn & Hflag & Hsize & Hval).
  destruct (copied_name name junk Hname) as [Hcs Hlt].
  destruct (write_directory Ec Es SYNCS_TYPE_VAR_INT32 (cstr name) (le_split 4 n) 4 cw w c cl Hc ltac:(by vm_compute)
    ltac:(by rewrite zlen_le_split) Hid Hw Hcl Hp) as (cw' & bs & Ew & Hlog & Hall).
  exists ct, cw', bs. split; [exact E|]. split; [done|]. split; [|split; [done|]].
  - unfold ctrl_write. rewrite Hvn, Hflag, Hsize, Hval. change (u32 4) with 4.
    unfold c_string. rewrite (proj2 (Z.ltb_lt _ _) Hlt), Hcs. exact Ew.
  - intros chunks Hcat Hch. destruct (Hall chunks Hcat Hch) as (w' & Er & Ha). exists w'. split; [done|].
    change (write_size SYNCS_TYPE_VAR_INT32 4) with 4 in Ha. rewrite ztake_ge in Ha; [done|by rewrite zlen_le_split].
Qed.

(** C33: [syncsctrl -w name -s value] with a value of 127 to 254 characters:
    the size, kept in a [char], is negative and the library copies almost four
    gigabytes out of the 1024 of the tool's buffer. *)
Theorem ctrl_long_string_overflows `{Env} name value junk cw :
  (length (cstr name) <= 31)%nat -> 127 <= zlen (cstr value) <= 254 ->
  exists ct, ctrl_argv (ctrl_start junk) (write_string_argv name value) cw = Ok ((Some ct, []), cw) /\
    ctrl_write ct cw = Fault OutOfBounds.
Proof.
  intros Hname Hv. assert (length (cstr value) < 1024)%nat as Hlen by (unfold zlen in Hv; lia).
  destruct (write_string_parsed name value junk cw Hlen) as (ct & E & _ & Hvn & Hflag & Hsize & Hval).
  exists ct. split; [exact E|]. destruct (copied_name name junk Hname) as [Hcs Hlt].
  unfold ctrl_write. apply run_then. rewrite Hvn. apply run_c_string; [done|].
  rewrite Hcs, Hflag, Hsize, Hval. set (k := zlen (cstr value) + 1).
  assert (u32 (i8 k) = 2 ^ 32 - 256 + k) as ->.
  { unfold i8, u32, u8. subst k. Z.div_mod_to_equations. lia. }
  unfold syncs_write. apply run_then. apply run_stack_packet. intros p _ _.
  rewrite (proj2 (Z.eqb_neq (2 ^ 32 - 256 + k) 0)) by lia. cbv zeta.
  rewrite (proj2 (Z.eqb_neq (2 ^ 32 - 256 + k) 0)) by lia.
  unfold mbind, M_bind, memcpy. assert (zlen (strncpy 1024 value) = 1024) as Hz.
  { unfold zlen, strncpy. by rewrite length_resize. }
  by rewrite Hz, (proj2 (Z.leb_gt (2 ^ 32 - 256 + k) 1024)), andb_false_r by lia.
Qed.

(** ** Notifications *)

(** An event of the variable [id] with the four bytes of an integer. *)
Definition notification (id : syncsid_t) (d : delivery) : Prop :=
  is_event (delivered_frame d) /\ header_wf d.1 /\ hd_id d.1 = id /\
  4 <= hd_data_size d.1 <= SYNCS_VARIABLE_SIZE_MAXIMUM /\ hd_data_size d.1 <= zlen d.2.

(** The line the tool prints for it. *)
Definition printed (d : delivery) : list byte := fmt_d (i32 (le_combine (ztake 4 d.2))) ++ [Byte.x0a].

Section notify.
Context `{Env} (c : ctrl) (cb : Z) (id : syncsid_t).
Hypothesis Hint : ct_flag c = SYNCS_TYPE_VAR_INT32.

Lemma run_notify_cb data w (Q : list byte -> cworld -> Prop) :
  4 <= zlen data -> Q (fmt_d (i32 (le_combine (ztake 4 data))) ++ [Byte.x0a]) w -> wp (notify_cb c data) Q w.
Proof.
  intros Hd HQ. unfold notify_cb. rewrite Hint. cbn [Z.eqb Pos.eqb SYNCS_TYPE_VAR_INT32].
  wp_step. apply wp_memcpy; [lia|lia|done|lia|]. wp_step.
  assert (mem_put 0 (ztake 4 data) (zero_bytes 4) = ztake 4 data) as ->; [|exact HQ].
  rewrite mem_put_start, zlen_ztake, Z.max_r, Z.min_l, zdrop_ge by (lia || done). apply app_nil_r.
Qed.

Definition callback_of (d : delivery) : io := IoCallback cb NULL id (ztake (hd_data_size d.1) d.2).

Lemma run_callbacks ds w :
  Forall (notification id) ds ->
  wp (ctrl_callbacks c cb (callback_of <$> ds)) (fun r w' => r = (negb (bool_decide (ds = [])), concat (printed <$> ds)) /\ w' = w) w.
Proof.
  induction 1 as [|d ds (_ & _ & _ & Hn & Hl) _ IH]; cbn [fmap list_fmap ctrl_callbacks callback_of concat]; [by wp_step|].
  rewrite Z.eqb_refl. wp_step. apply run_notify_cb; [rewrite zlen_ztake; lia|]. wp_step.
  eapply wp_mono; [exact IH|]. intros r w' [-> ->]. wp_step. split; [|done]. cbn [snd].
  rewrite ztake_ztake, Z.min_l by lia. done.
Qed.

(** While the tool sleeps it prints the events that arrive. *)
Lemma run_ctrl_sleep ds w :
  cwinv w -> subscribed (c_connect w) id cb NULL -> Forall (notification id) ds ->
  wp (ctrl_sleep c cb ds) (fun r w' => r = (negb (bool_decide (ds = [])), concat (printed <$> ds)) /\
    cwinv w' /\ subscribed (c_connect w') id cb NULL) w.
Proof.
  intros Hw Hsub Hds. unfold ctrl_sleep. wp_step. wp_step. wp_step. unfold receive_packets.
  eapply wp_mono; [apply (run_deliver_events ds w Hw)|].
  { eapply list.Forall_impl; [exact Hds|]. intros d (? & ? & ? & ? & ?). split_and!; [done..|lia|lia]. }
  intros u w1 (Hw1 & Hv1 & Hl1). wp_step. wp_step.
  assert (((delivered_frame <$> ds) ≫= callbacks (subscriptions (c_connect w))) = callback_of <$> ds) as Ecb.
  { clear -Hds Hsub. induction Hds as [|[h data] ds (_ & _ & Hid & _) _ IH]; [done|].
    cbn [fmap list_fmap mbind list_bind]. cbn [mbind list_bind fmap list_fmap] in IH. rewrite IH.
    change (delivered_frame (h, data)) with (h, ztake (hd_data_size h) data).
    by rewrite (callbacks_subscribed (c_connect w) id cb NULL). }
  rewrite Ecb in Hl1. rewrite Hl1, drop_app_length.
  eapply wp_mono; [by apply run_callbacks|]. intros r w' [-> ->]. split; [done|]. split; [done|].
  assert (subscriptions (c_connect w1) = subscriptions (c_connect w)) as E by exact (f_equal (fun x => x.1.1) Hv1).
  unfold subscribed. by rewrite E.
Qed.

Lemma run_notify_loop sleeps : forall w,
  cwinv w -> subscribed (c_connect w) id cb NULL -> Forall (Forall (notification id)) sleeps ->
  ct_dontexit c = true ->
  wp (ctrl_notify_loop c cb sleeps) (fun r _ => r = (false, concat (printed <$> concat sleeps))) w.
Proof.
  induction sleeps as [|ds sleeps IH]; intros w Hw Hsub Hds Hstay; cbn [ctrl_notify_loop]; [by wp_step|].
  apply list.Forall_cons in Hds as [Hd Hds]. wp_step. eapply wp_mono; [by apply run_ctrl_sleep|].
  intros r w1 (-> & Hw1 & Hsub1). rewrite Hstay, andb_false_r. wp_step.
  eapply wp_mono; [by apply IH|]. intros r w2 ->. wp_step. cbn [concat fst snd]. by rewrite fmap_app, concat_app.
Qed.
End notify.

(** C24: [syncsctrl -n name -i]: once it is subscribed, the tool prints every
    event of the variable the library receives while it sleeps, one number to
    a line, in order.  Without [--loop] it never ends; with [--loop] it ends
    at the first wake-up with an event. *)
Theorem ctrl_notify_prints `{Env} c cb id first sleeps w :
  ct_flag c = SYNCS_TYPE_VAR_INT32 -> cwinv w -> subscribed (c_connect w) id cb NULL ->
  Forall (Forall (notification id)) (first :: sleeps) -> first <> [] ->
  exists w', ctrl_notify_loop c cb (first :: sleeps) w =
    Ok ((negb (ct_dontexit c), concat (printed <$> (if ct_dontexit c then first ++ concat sleeps else first))), w').
Proof.
  intros Hint Hw Hsub Hds Hne. destruct (ct_dontexit c) eqn:E.
  - destruct (proj1 (wp_run _ _ _) (run_notify_loop c cb id Hint (first :: sleeps) w Hw Hsub Hds E)) as (r & w' & Er & ->).
    by exists w'.
  - apply list.Forall_cons in Hds as [Hd _].
    destruct (proj1 (wp_run _ _ _) (run_ctrl_sleep c cb id Hint first w Hw Hsub Hd)) as (r & w' & Er & -> & _).
    exists w'. cbn [ctrl_notify_loop]. rewrite (bind_Ok _ _ _ _ _ Er), E, bool_decide_eq_false_2 by done. done.
Qed.

Section instances.
#[local] Existing Instance perfect_env.

Lemma sample_name_live : id_is_free (syncs_idstr (cstr name_a)) = false.
Proof. by vm_compute. Qed.

Lemma ctrl_write_int_reaches_server_witness :
  exists cl, w_clients demo !! 0%nat = Some cl /\
  exists ct cw' bs, ctrl_argv (ctrl_start (zero_bytes 33)) (write_int_argv name_a (-83)) sample_client = Ok ((Some ct, args_int (-83)), sample_client) /\
    ct_mode ct = ModeWrite /\ ctrl_write ct sample_client = Ok (0, cw') /\
    c_log cw' = c_log sample_client ++ [IoSend (cn_socketfd (c_connect sample_client)) bs] /\
    forall chunks, concat chunks = bs -> Forall chunk_fits chunks ->
      exists w', receive_chunks 0 chunks demo = Ok (tt, w') /\
        abs w' = (spec_write 0 (syncs_idstr (cstr name_a)) SYNCS_TYPE_VAR_INT32 (le_split 4 (-83)) (abs demo)).2.
Proof.
  destruct (client_view (w_clients demo) 0 7) as (cl & Hcl & Hp & _); [by vm_compute|]. exists cl. split; [exact Hcl|].
  apply (ctrl_write_int_reaches_server perfect_env perfect_env name_a (-83) (zero_bytes 33) sample_client demo 0 cl).
  - reflexivity.
  - lia.
  - apply Nat.leb_le. reflexivity.
  - exact sample_name_live.
  - exact demo_winv.
  - exact Hcl.
  - exact Hp.
Defined.

Definition long_value : list byte := replicate 127 Byte.x41.

Lemma long_value_length : 127 <= zlen (cstr long_value) <= 254.
Proof. by vm_compute. Qed.

Lemma ctrl_long_string_overflows_witness :
  exists ct, ctrl_argv (ctrl_start (zero_bytes 33)) (write_string_argv name_a long_value) sample_client = Ok ((Some ct, []), sample_client) /\
    ctrl_write ct sample_client = Fault OutOfBounds.
Proof.
  apply (ctrl_long_string_overflows name_a long_value (zero_bytes 33) sample_client).
  - apply Nat.leb_le. reflexivity.
  - exact long_value_length.
Defined.
(** [-n a -i] on a connected client, the events 2 and -1. *)
Definition ctrl_loop : ctrl :=
  ctrl_start (zero_bytes 33) <| ct_mode := ModeNotify |> <| ct_value := ValueInt |> <| ct_dontexit := false |>.
Definition sample_notified : cworld :=
  mk_cworld (sample_connect <| cn_events ::= <[0%nat := mk_client_event (syncs_idstr name_a) 77 NULL 0 0 None 0 0]> |>) [].
Definition note (n : Z) : delivery := event_a (le_split 4 n).

Lemma sample_notified_wf : cwinv sample_notified.
Proof. apply connect_wf_event; [apply sample_connect_wf|]. split; [apply syncs_idstr_wf|done|done|done]. Qed.

Lemma sample_notified_subscribed : subscribed (c_connect sample_notified) (syncs_idstr name_a) 77 NULL.
Proof. exists 0%nat. split_and!; [by vm_compute|reflexivity|done]. Qed.

Lemma notes_wf : Forall (Forall (notification (syncs_idstr name_a))) [[note 2]; [note (-1)]].
Proof. repeat constructor; try (by vm_compute); by intros ?. Qed.

Lemma ctrl_notify_prints_witness :
  exists w', ctrl_notify_loop ctrl_loop 77 [[note 2]; [note (-1)]] sample_notified =
    Ok ((negb (ct_dontexit ctrl_loop),
         concat (printed <$> (if ct_dontexit ctrl_loop then [note 2] ++ concat [[note (-1)]] else [note 2]))), w').
Proof.
  apply (ctrl_notify_prints ctrl_loop 77 (syncs_idstr name_a) [note 2] [[note (-1)]] sample_notified).
  - reflexivity.
  - exact sample_notified_wf.
  - exact sample_notified_subscribed.
  - exact notes_wf.
  - discriminate.
Defined.

Example notes_printed : concat (printed <$> [note 2; note (-1)]) = text "2" ++ [Byte.x0a] ++ text "-1" ++ [Byte.x0a].
Proof. by vm_compute. Qed.
End instances.
