(* ===== verification/Monitor.v ===== *)
(** * The monitor: src/syncsmon/syncsmon.c

    The options of the tool and the three tables it prints in a round.  It
    reads the arrays of entries the list requests of the client library
    return, and writes to the one of the variables. *)

From Stdlib Require Import Strings.String.
From S2P Require Import Prelude.
From S2P Require Import Monad.
From S2P Require Import Types.
From S2P Require Import Net.
From S2P Require Import Text.
From S2P Require Import Getopt.
From S2P Require Import Stats.
From S2P Require Import ClientState.
From S2P Require Import ClientOps.
From S2P Require Import ClientCalls.

(** ** Options *)

Record monitor : Type := mk_monitor {
  mo_port : Z;
  mo_address : list byte;           (* 32 bytes *)
  mo_period : Z;                    (* microseconds *)
  mo_watch : bool }.

#[export] Instance monitor_settable : Settable monitor := fun m =>
  mk_monitor (mo_port m) (mo_address m) (mo_period m) (mo_watch m).

Definition monitor_start : monitor := mk_monitor 0 (zero_bytes 32) 1000000 true.

Definition monitor_long_options : list long_option :=
  [(text "address", required_argument, Byte.x61); (text "port", required_argument, Byte.x70);
   (text "period", required_argument, Byte.x6e); (text "one", no_argument, Byte.x31);
   (text "help", no_argument, Byte.x68)].

Definition monitor_short_options : list byte := text "hp:a:n:1".

Definition monitor_usage : list byte :=
  line "Usage: ./syncsmon " ++
  line " Additional options:" ++
  tab_line "-a,--address - server IP address " ++
  tab_line "-p,--port - server port " ++
  tab_line "-n,--period - requests period (ms) " ++
  tab_line "-1,--one - show list and exit " ++
  line " Examples:" ++
  tab_line "./syncsctrl -p 100" ++
  tab_line "./syncsctrl --address 10.100.1.1 -p 4443".

(** One case of the [switch], with what it prints; [None] is [exit(1)].  The
    product of the period is left undefined by C when it overflows; it wraps
    here. *)
Definition monitor_option {S} (m : monitor) (opt : byte) (optarg : option (list byte))
    : M S (option monitor * list byte) :=
  match opt with
  | Byte.x70 => arg ← deref optarg; mret (Some (m <| mo_port := atoi (cstr arg) |>), [])               (* p *)
  | Byte.x6e => arg ← deref optarg; mret (Some (m <| mo_period := i32 (atoi (cstr arg) * 1000) |>), []) (* n *)
  | Byte.x61 => arg ← deref optarg; mret (Some (m <| mo_address := strncpy 32 arg |>), [])             (* a *)
  | Byte.x31 => mret (Some (m <| mo_watch := false |>), [])                                            (* 1 *)
  | Byte.x68 => mret (None, monitor_usage)                                                             (* h *)
  | _ => mret (Some m, [])
  end.

Fixpoint monitor_options {S} (m : monitor) (opts : list (byte * option (list byte)))
    : M S (option monitor * list byte) :=
  match opts with
  | [] => mret (Some m, [])
  | (opt, optarg) :: opts =>
      r ← monitor_option m opt optarg;
      match r with
      | (None, out) => mret (None, out)
      | (Some m, out) => r ← monitor_options m opts; mret (r.1, out ++ r.2)
      end
  end.

(** The [while] loop over [getopt_long]. *)
Definition monitor_argv {S} (m : monitor) (argv : list (list byte)) : M S (option monitor * list byte) :=
  monitor_options m (getopt_long monitor_short_options monitor_long_options argv).

(** ** Entries *)

(** [info[i]], for entries of [size] bytes. *)
Definition info_at {S} (size : Z) (info : list byte) (i : nat) : M S (list byte) :=
  if (Z.of_nat i + 1) * size <=? zlen info then mret (mem_sub (Z.of_nat i * size) size info) else raise OutOfBounds.

Definition unsigned_at (off n : Z) (e : list byte) : Z := le_combine (mem_sub off n e).
Definition info_id (e : list byte) : list byte := mem_sub 0 32 e.
Definition short_data (e : list byte) : list byte := mem_sub 36 32 e.

(** The [switch] on the type: the [size] given to [snprintf], its output, and
    the entry, in which the value of a string is terminated.  Only the first
    32 indices of [short_data] exist. *)
Definition monitor_value {S} (e : list byte) : M S (Z * list byte * list byte) :=
  let data := short_data e in
  let type := unsigned_at 32 4 e in
  if type =? SYNCS_TYPE_VAR_INT32 then
    let ch := ztake 1 data in
    mret (15, if isprint (i8 (le_combine ch)) then fmt_d (int_at data) ++ text "/" ++ ch else fmt_d (int_at data), e)
  else if type =? SYNCS_TYPE_VAR_INT64 then mret (15, fmt_d (i64 (word_at 8 data)), e)
  else if type =? SYNCS_TYPE_VAR_FLOAT then mret (15, fmt_f 8 23 (word_at 4 data), e)
  else if type =? SYNCS_TYPE_VAR_DOUBLE then mret (15, fmt_f 11 52 (word_at 8 data), e)
  else if type =? SYNCS_TYPE_VAR_STRING then
    data ← memcpy data (unsigned_at 68 2 e) [Byte.x00] 1;
    s ← c_string data;
    mret (15, s, mem_put 36 data e)
  else mret (10, text "not support", e).

Definition int_column (off : Z) (e : list byte) : list byte := pad 7 (fmt_d (i32 (unsigned_at off 4 e))).

Definition monitor_row (id value e : list byte) : list byte :=
  text "|" ++ pad 31 id ++ text "|" ++ pad 15 value ++ text "|" ++ int_column 78 e ++
  text "|" ++ int_column 86 e ++ text "|" ++ int_column 82 e ++ LF.

(** [str] is the array the values are formatted in. *)
Definition monitor_event (acc : list byte * list byte * list byte) (i : nat)
    : CM (list byte * list byte * list byte) :=
  let '(str, out, info) := acc in
  e ← info_at sizeof_event_info info i;
  v ← monitor_value e;
  let '(size, output, e) := v in
  res ← snprintf str size output;
  let '(str, _) := res in
  id ← c_string (info_id e);
  value ← c_string str;
  mret (str, out ++ monitor_row id value e, mem_put (Z.of_nat i * sizeof_event_info) e info).

Definition monitor_client (info out : list byte) (i : nat) : CM (list byte) :=
  e ← info_at sizeof_client_info info i;
  id ← c_string (info_id e);
  mret (out ++ text "|" ++ pad 31 id ++ text "|" ++ int_column 40 e ++ text "|" ++ int_column 44 e ++
    text "|" ++ int_column 32 e ++ text "|" ++ int_column 36 e ++
    text "|" ++ pad 7 (inet_ntoa (unsigned_at 48 4 e)) ++ LF).

Definition monitor_channel (info out : list byte) (i : nat) : CM (list byte) :=
  e ← info_at sizeof_channel_info info i;
  id ← c_string (info_id e);
  mret (out ++ text "|" ++ pad 20 id ++ text "|" ++ pad 11 (inet_ntoa (unsigned_at 40 4 e)) ++
    text "|" ++ pad 7 (fmt_d (unsigned_at 44 2 e)) ++ text "|" ++ int_column 36 e ++
    text "|" ++ int_column 32 e ++ LF).

(** ** A round *)

Definition monitor_events_head : list byte :=
  text "Event statistics" ++ LF ++
  text "|" ++ pad 31 (text "id") ++ text "|" ++ pad 15 (text "value") ++ text "|" ++ pad 7 (text "count") ++
  text "|" ++ pad 7 (text "prod.") ++ text "|" ++ pad 7 (text "cons.") ++ LF.
Definition monitor_clients_head : list byte :=
  text "Client statistics" ++ LF ++
  text "|" ++ pad 31 (text "id") ++ text "|" ++ pad 7 (text "rx pkt") ++ text "|" ++ pad 7 (text "tx pkt") ++
  text "|" ++ pad 7 (text "subscr") ++ text "|" ++ pad 7 (text "write") ++ text "|" ++ pad 7 (text "ip") ++ LF.
Definition monitor_channels_head : list byte :=
  text "Channel statistics" ++ LF ++
  text "|" ++ pad 20 (text "id") ++ text "|" ++ pad 11 (text "ip") ++ text "|" ++ pad 7 (text "port") ++
  text "|" ++ pad 7 (text "tickets") ++ text "|" ++ pad 7 (text "prod") ++ LF.

(** The variables of [main] that live across the rounds. *)
Record monitor_vars : Type := mk_vars { mv_str : list byte; mv_count : Z }.

Section monitor.
Context `{Env}.

Definition entries (count : Z) : list nat := seq 0 (Z.to_nat count).

(** What a part prints, and whether its list came. *)
Definition monitor_events (v : monitor_vars) (wakeups : list wakeup) : CM (bool * monitor_vars * list byte) :=
  answer ← syncs_request_eventslist (mv_count v) wakeups;
  match answer with
  | (None, count) => mret (false, mk_vars (mv_str v) count, [])
  | (Some info, count) =>
      acc ← fold_m monitor_event (mv_str v, monitor_events_head, info) (entries count);
      let '(str, out, info) := acc in
      _ ← connect_upd (put_eventlist (fun l => l <| li_info := Some info |>));
      mret (true, mk_vars str count, out)
  end.

Definition monitor_clients (v : monitor_vars) (wakeups : list wakeup) : CM (bool * monitor_vars * list byte) :=
  answer ← syncs_request_clientslist (mv_count v) wakeups;
  match answer with
  | (None, count) => mret (false, mk_vars (mv_str v) count, [])
  | (Some info, count) =>
      out ← fold_m (monitor_client info) monitor_clients_head (entries count);
      mret (true, mk_vars (mv_str v) count, out)
  end.

Definition monitor_channels (v : monitor_vars) (wakeups : list wakeup) : CM (bool * monitor_vars * list byte) :=
  answer ← syncs_request_channelslist (mv_count v) wakeups;
  match answer with
  | (None, count) => mret (false, mk_vars (mv_str v) count, [])
  | (Some info, count) =>
      out ← fold_m (monitor_channel info) monitor_channels_head (entries count);
      mret (true, mk_vars (mv_str v) count, out)
  end.

(** The connection, and what is printed for it; [size] is
    [sizeof(struct syncs_connect)]. *)
Definition monitor_connect {S} (size : Z) (m : monitor) : M S (option syncs_connect * list byte) :=
  let s := syncs_connect_simple size (Some (mo_address m)) (mo_port m) (Some (text "syncs-monitor")) in
  address ← c_string (mo_address m);
  mret (s, text "Wait for connect to " ++ address ++ text ":" ++ fmt_d (mo_port m) ++ text " " ++ LF).

(** The body of the loop: a list that does not come is a [continue]. *)
Definition monitor_round (v : monitor_vars) (events clients channels : list wakeup)
    : CM (monitor_vars * list byte) :=
  r ← monitor_events v events;
  let '(ok, v, out1) := r in
  if negb ok then mret (v, out1)
  else
    r ← monitor_clients v clients;
    let '(ok, v, out2) := r in
    if negb ok then mret (v, out1 ++ out2)
    else
      r ← monitor_channels v channels;
      let '(_, v, out3) := r in
      mret (v, out1 ++ out2 ++ out3).

(** [do ... while (watch)], for as many rounds as are given. *)
Fixpoint monitor_loop (watch : bool) (v : monitor_vars) (rounds : list (list wakeup * list wakeup * list wakeup))
    : CM (list byte) :=
  match rounds with
  | [] => mret []
  | (events, clients, channels) :: rounds =>
      r ← monitor_round v events clients channels;
      let '(v, out) := r in
      if watch then rest ← monitor_loop watch v rounds; mret (out ++ rest) else mret out
  end.
End monitor.
