(* ===== verification/MonitorProps.v ===== *)
(** * The monitor and a server

    What the monitor prints for the variables of a server, and the variables
    it cannot print. *)

From Stdlib Require Import Strings.String.
From stdpp Require Import gmap.
From S2P Require Import Prelude.
From S2P Require Import Monad.
From S2P Require Import Types.
From S2P Require Import Net.
From S2P Require Import Text.
From S2P Require Import Framing.
From S2P Require Import Wire.
From S2P Require Import ServerState.
From S2P Require Import ServerEvents.
From S2P Require Import ServerPackets.
From S2P Require Import ServerInv.
From S2P Require Import ServerSafe.
From S2P Require Import ServerLoop.
From S2P Require Import Handler.
From S2P Require Import EventSpec.
From S2P Require Import Directory.
From S2P Require Import Refinement.
From S2P Require Import Publish.
From S2P Require Import ServerProps.
From S2P Require Import ServerLists.
From S2P Require Import Stats.
From S2P Require Import StatsProps.
From S2P Require Import ClientState.
From S2P Require Import ClientOps.
From S2P Require Import ClientCalls.
From S2P Require Import ClientInv.
From S2P Require Import ClientWire.
From S2P Require Import ClientStream.
From S2P Require Import ClientLists.
From S2P Require Import Link.
From S2P Require Import LinkLists.
From S2P Require Import Monitor.

(** ** A row as a function of the entry *)

(** The value column, [None] when the monitor leaves [short_data]. *)
Definition entry_value (e : list byte) : option (Z * list byte) :=
  let data := short_data e in
  let type := unsigned_at 32 4 e in
  if type =? SYNCS_TYPE_VAR_INT32 then
    Some (15, if isprint (i8 (le_combine (ztake 1 data))) then fmt_d (int_at data) ++ text "/" ++ ztake 1 data
              else fmt_d (int_at data))
  else if type =? SYNCS_TYPE_VAR_INT64 then Some (15, fmt_d (i64 (word_at 8 data)))
  else if type =? SYNCS_TYPE_VAR_FLOAT then Some (15, fmt_f 8 23 (word_at 4 data))
  else if type =? SYNCS_TYPE_VAR_DOUBLE then Some (15, fmt_f 11 52 (word_at 8 data))
  else if type =? SYNCS_TYPE_VAR_STRING then
    if unsigned_at 68 2 e <? 32 then Some (15, cstr (ztake (unsigned_at 68 2 e) data)) else None
  else Some (10, text "not support").

Definition entry_row (e : list byte) : option (list byte) :=
  '(size, output) ← entry_value e;
  if bool_decide (zlen (cstr (info_id e)) < zlen (info_id e))
  then Some (monitor_row (cstr (info_id e)) (cstr (ztake (size - 1) output)) e)
  else None.

(** The fields a row shows besides the value are those of the entry. *)
Definition same_columns (e e' : list byte) : Prop :=
  zlen e' = zlen e /\ info_id e' = info_id e /\ forall off, 68 <= off -> unsigned_at off 4 e' = unsigned_at off 4 e.

Lemma same_columns_refl e : same_columns e e.
Proof. done. Qed.

Lemma monitor_row_same id value e e' : same_columns e e' -> monitor_row id value e' = monitor_row id value e.
Proof. intros (_ & _ & Hc). unfold monitor_row, int_column. by rewrite !Hc by lia. Qed.

Lemma unsigned_at_range off n e : 0 <= n -> 0 <= unsigned_at off n e.
Proof. intros. unfold unsigned_at. apply le_combine_bound. Qed.

Section rows.
Context {S : Type}.

Lemma monitor_value_spec e (s : S) :
  zlen e = sizeof_event_info ->
  match entry_value e with
  | Some (size, output) => 0 < size <= 15 /\
      exists e', same_columns e e' /\ monitor_value e s = Ok ((size, output, e'), s)
  | None => monitor_value e s = Fault OutOfBounds
  end.
Proof.
  intros He. unfold sizeof_event_info in He. unfold entry_value, monitor_value. cbn zeta.
  do 4 (destruct (_ =? _); [split; [done|]; by exists e|]).
  destruct (_ =? _); [|split; [done|]; by exists e].
  assert (zlen (short_data e) = 32) as Hd by (unfold short_data; apply zlen_mem_sub; lia).
  pose proof (unsigned_at_range 68 2 e ltac:(lia)) as Hn. set (n := unsigned_at 68 2 e) in *.
  destruct (Z.ltb_spec n 32) as [Hlt|Hge].
  - split; [done|]. unfold mbind at 1, M_bind at 1. rewrite memcpy_Ok by (rewrite ?Hd; change (zlen [Byte.x00]) with 1; lia).
    change (ztake 1 [Byte.x00]) with [Byte.x00].
    assert (mem_put n [Byte.x00] (short_data e) = ztake n (short_data e) ++ Byte.x00 :: zdrop (n + 1) (short_data e)) as ->.
    { unfold mem_put. by change (zlen [Byte.x00]) with 1. }
    set (data := _ ++ _). assert (zlen data = 32) as Hdata by (subst data; zl).
    assert (cstr data = cstr (ztake n (short_data e))) as Hc by apply cstr_app_nul.
    unfold mbind at 1, M_bind at 1, c_string. rewrite Hc. pose proof (zlen_cstr (ztake n (short_data e))) as Hlen.
    rewrite zlen_ztake in Hlen by lia. rewrite (proj2 (Z.ltb_lt _ _)) by lia.
    exists (mem_put 36 data e). split; [|done]. split; [apply zlen_mem_put; lia|].
    split; [unfold info_id; apply mem_sub_put_below; lia|].
    intros off Hoff. unfold unsigned_at. by rewrite mem_sub_put_above by lia.
  - unfold mbind, M_bind, memcpy. rewrite (proj2 (Z.leb_gt (n + 1) _)) by lia. by rewrite andb_false_r.
Qed.
End rows.

(** ** The table *)

Section table.
Context `{Env}.
Implicit Types (w : cworld).

Lemma info_at_Ok {S} size info i (s : S) :
  (Z.of_nat i + 1) * size <= zlen info -> info_at size info i s = Ok (mem_sub (Z.of_nat i * size) size info, s).
Proof. intros Hi. unfold info_at. by rewrite (proj2 (Z.leb_le _ _)). Qed.

Lemma c_string_cases {S} mem (s : S) :
  c_string mem s = if bool_decide (zlen (cstr mem) < zlen mem) then Ok (cstr mem, s) else Fault OutOfBounds.
Proof.
  unfold c_string. destruct (Z.ltb_spec (zlen (cstr mem)) (zlen mem)) as [Hlt|Hge].
  - by rewrite bool_decide_true.
  - by rewrite bool_decide_false by lia.
Qed.

Lemma monitor_event_spec str out info i w :
  zlen str = 15 -> (Z.of_nat i + 1) * sizeof_event_info <= zlen info ->
  let e := mem_sub (Z.of_nat i * sizeof_event_info) sizeof_event_info info in
  match entry_row e with
  | Some row => exists str' e', zlen str' = 15 /\ zlen e' = sizeof_event_info /\
      monitor_event (str, out, info) i w =
        Ok ((str', out ++ row, mem_put (Z.of_nat i * sizeof_event_info) e' info), w)
  | None => monitor_event (str, out, info) i w = Fault OutOfBounds
  end.
Proof.
  intros Hs Hi. cbn zeta. set (e := mem_sub _ _ info).
  assert (zlen e = sizeof_event_info) as He by (subst e; unfold sizeof_event_info in *; apply zlen_mem_sub; lia).
  pose proof (monitor_value_spec e w He) as Hv. unfold entry_row, monitor_event.
  erewrite bind_Ok by by apply info_at_Ok. fold e.
  destruct (entry_value e) as [[size output]|]; cbn [mbind option_bind]; [|unfold mbind, M_bind; by rewrite Hv].
  destruct Hv as (Hsize & e' & Hsame & Ev). erewrite bind_Ok by exact Ev.
  pose proof (run_snprintf_string str size output w (fun r w' => w' = w /\ zlen r.1 = 15 /\
    is_string r.1 /\ cstr r.1 = cstr (ztake (size - 1) output)) ltac:(lia)) as Hp.
  destruct (proj1 (wp_run _ _ _) (Hp ltac:(by intros; rewrite <- Hs))) as ([str' n] & ? & Ep & -> & Hs' & Hstr & Hc).
  cbn [fst] in *. erewrite bind_Ok by exact Ep. pose proof Hsame as (Hz & Hid & _).
  pose proof (c_string_cases (info_id e') w) as Ei. rewrite Hid in Ei. rewrite Hid.
  destruct (bool_decide _); [|unfold mbind, M_bind; by rewrite Ei].
  exists str', e'. split; [done|]. split; [congruence|]. erewrite bind_Ok by exact Ei.
  pose proof (c_string_cases str' w) as Es. rewrite bool_decide_true in Es by exact Hstr.
  erewrite bind_Ok by exact Es. by rewrite Hc, (monitor_row_same _ _ _ _ Hsame).
Qed.

(** The entries [es] lie in the array from the [k]th on. *)
Definition entries_from (k : nat) (es : list (list byte)) (info : list byte) : Prop :=
  forall j e, es !! j = Some e ->
    mem_sub (Z.of_nat (k + j) * sizeof_event_info) sizeof_event_info info = e.

Lemma monitor_rows es k str out info w :
  zlen str = 15 -> Z.of_nat (k + length es) * sizeof_event_info <= zlen info -> entries_from k es info ->
  match mapM entry_row es with
  | Some rows => exists str' info',
      fold_m monitor_event (str, out, info) (seq k (length es)) w = Ok ((str', out ++ concat rows, info'), w)
  | None => fold_m monitor_event (str, out, info) (seq k (length es)) w = Fault OutOfBounds
  end.
Proof.
  revert k str out info. induction es as [|e es IH]; intros k str out info Hs Hi Hes.
  { exists str, info. cbn. by rewrite app_nil_r. }
  cbn [length seq fold_m mapM]. unfold sizeof_event_info in *. cbn [length] in Hi.
  pose proof (monitor_event_spec str out info k w Hs ltac:(unfold sizeof_event_info; lia)) as Hrow.
  pose proof (Hes 0%nat e eq_refl) as He. rewrite Nat.add_0_r in He. cbn zeta in Hrow.
  unfold sizeof_event_info in Hrow, He. rewrite He in Hrow.
  destruct (entry_row e) as [row|]; cbn [mbind option_bind].
  2: { unfold mbind, M_bind. by rewrite Hrow. }
  destruct Hrow as (str' & e' & Hs' & Hz' & Er). unfold sizeof_event_info in Hz'.
  assert (entries_from (Datatypes.S k) es (mem_put (Z.of_nat k * 90) e' info)) as Hnext.
  { unfold entries_from in *. unfold sizeof_event_info in *. intros j x Hj.
    rewrite mem_sub_put_above by lia. rewrite <- (Hes (Datatypes.S j) x Hj). do 2 f_equal; lia. }
  specialize (IH (Datatypes.S k) str' (out ++ row) (mem_put (Z.of_nat k * 90) e' info) Hs').
  rewrite zlen_mem_put in IH by lia. specialize (IH ltac:(lia) Hnext).
  destruct (mapM entry_row es) as [rows|]; cbn [mbind option_bind mret option_ret].
  - destruct IH as (str2 & info2 & E2). exists str2, info2. erewrite bind_Ok by exact Er. rewrite E2.
    cbn [concat]. by rewrite app_assoc.
  - erewrite bind_Ok by exact Er. exact IH.
Qed.

(** An array that starts with the entries. *)
Lemma entries_from_concat es info :
  Forall (fun e => zlen e = sizeof_event_info) es ->
  ztake (Z.of_nat (length es) * sizeof_event_info) info = concat es ->
  Z.of_nat (length es) * sizeof_event_info <= zlen info /\ entries_from 0 es info.
Proof.
  intros Hes. unfold sizeof_event_info in *. revert info. induction es as [|e es IH]; intros info E.
  { split; [pose proof (zlen_nonneg info); cbn; lia|]. by intros j e. }
  apply list.Forall_cons in Hes as [He Hes]. specialize (IH Hes). cbn [concat length] in *.
  assert (ztake 90 info = e) as Ee.
  { pose proof (f_equal (ztake 90) E) as E1. rewrite ztake_ztake in E1 by lia. rewrite Z.min_l in E1 by lia.
    rewrite E1, ztake_app_le by lia. apply ztake_ge. lia. }
  assert (info = e ++ zdrop 90 info) as Ei by (by rewrite <- Ee at 1; rewrite ztake_zdrop).
  assert (ztake (Z.of_nat (length es) * 90) (zdrop 90 info) = concat es) as Er.
  { apply (f_equal (zdrop 90)) in E. rewrite zdrop_ztake in E by lia.
    rewrite (zdrop_app_ge _ e), He, zdrop_0 in E by lia. rewrite <- E. f_equal. lia. }
  destruct (IH _ Er) as [Hl Hn]. rewrite Ei. split.
  - rewrite zlen_app. lia.
  - unfold entries_from in *. unfold sizeof_event_info in *. intros [|j] x Hj.
    + injection Hj as <-. cbn. by apply mem_sub_hit.
    + cbn in Hj. rewrite (mem_sub_skip 90) by lia. rewrite <- (Hn j x Hj). do 2 f_equal; lia.
Qed.

(** The part of a round that shows the variables. *)
Lemma monitor_events_prints v es info count wk cw cw' :
  zlen (mv_str v) = 15 -> Forall (fun e => zlen e = sizeof_event_info) es ->
  syncs_request_eventslist (mv_count v) wk cw = Ok ((Some info, count), cw') ->
  count = Z.of_nat (length es) -> ztake (Z.of_nat (length es) * sizeof_event_info) info = concat es ->
  match mapM entry_row es with
  | Some rows => exists v' cw1, monitor_events v wk cw = Ok ((true, v', monitor_events_head ++ concat rows), cw1) /\
      c_log cw1 = c_log cw'
  | None => monitor_events v wk cw = Fault OutOfBounds
  end.
Proof.
  intros Hs Hes Ereq -> Hi. destruct (entries_from_concat es info Hes Hi) as [Hl Hfrom].
  pose proof (monitor_rows es 0 (mv_str v) monitor_events_head info cw' Hs Hl Hfrom) as Hrows.
  unfold monitor_events. erewrite bind_Ok by exact Ereq. cbn match. unfold entries. rewrite Nat2Z.id.
  destruct (mapM entry_row es) as [rows|].
  - destruct Hrows as (str' & info' & Er). erewrite bind_Ok by exact Er. eexists _, _. split; reflexivity.
  - unfold mbind, M_bind. by rewrite Hrows.
Qed.
End table.

(** ** What a variable of the server looks like *)

Definition monitor_text (ev : syncs_event) : Z * list byte :=
  let data := ev_data ev in
  let type := ev_data_type ev in
  if type =? SYNCS_TYPE_VAR_INT32 then
    (15, if isprint (i8 (word_at 1 data)) then fmt_d (int_at data) ++ text "/" ++ ztake 1 data
         else fmt_d (int_at data))
  else if type =? SYNCS_TYPE_VAR_INT64 then (15, fmt_d (i64 (word_at 8 data)))
  else if type =? SYNCS_TYPE_VAR_FLOAT then (15, fmt_f 8 23 (word_at 4 data))
  else if type =? SYNCS_TYPE_VAR_DOUBLE then (15, fmt_f 11 52 (word_at 8 data))
  else if type =? SYNCS_TYPE_VAR_STRING then (15, cstr (ztake (ev_data_size ev) data))
  else (10, text "not support").

Definition count_column (n : Z) : list byte := pad 7 (fmt_d (i32 n)).

Definition shown_variable (ev : syncs_event) : list byte :=
  let '(size, output) := monitor_text ev in
  text "|" ++ pad 31 (cstr (id_chars (ev_id ev))) ++ text "|" ++ pad 15 (cstr (ztake (size - 1) output)) ++
  text "|" ++ count_column (ev_count ev) ++ text "|" ++ count_column (ev_producers_count ev) ++
  text "|" ++ count_column (ev_consumers_count ev) ++ LF.

(** The bytes a type reads; a variable a client created may hold fewer. *)
Definition type_width (type : Z) : Z :=
  if (type =? SYNCS_TYPE_VAR_INT32) || (type =? SYNCS_TYPE_VAR_FLOAT) then 4
  else if (type =? SYNCS_TYPE_VAR_INT64) || (type =? SYNCS_TYPE_VAR_DOUBLE) then 8
  else 0.

Definition monitor_printable (ev : syncs_event) : Prop :=
  is_string (id_chars (ev_id ev)) /\ type_width (ev_data_type ev) <= ev_data_size ev /\
  (ev_data_type ev = SYNCS_TYPE_VAR_STRING -> ev_data_size ev < 32).

Section entry.
Context (l : list syncs_event) (i : nat) (e : list byte) (ev : syncs_event).
Context (Hwf : event_wf ev) (Hi : l !! i = Some ev) (Hentry : event_entry l i e).

Lemma entry_size : 0 <= ev_data_size ev <= SYNCS_VARIABLE_SIZE_MAXIMUM.
Proof. apply (ewf_size _ Hwf). Qed.

Lemma entry_fields :
  info_id e = id_chars (ev_id ev) /\ unsigned_at 32 4 e = ev_data_type ev /\
  unsigned_at 68 2 e = ev_data_size ev /\
  (forall n, 0 <= n <= ev_data_size ev -> n <= 32 -> mem_sub 0 n (short_data e) = ztake n (ev_data ev)).
Proof.
  destruct Hentry as (ev' & Hi' & Hid & Hty & Hd & Hsz & _). rewrite Hi in Hi'. injection Hi' as <-.
  pose proof entry_size as Hs. unfold SYNCS_VARIABLE_SIZE_MAXIMUM in Hs.
  assert (0 <= ev_data_type ev < 2 ^ 32) as Ht.
  { rewrite <- (ewf_type _ Hwf). change SYNCS_TYPE_VAR_MASK with (Z.land 0xf00 (2 ^ 32 - 1)).
    rewrite Z.land_assoc, land_mask by lia. apply Z.mod_pos_bound. lia. }
  split; [exact Hid|]. unfold unsigned_at. rewrite Hty, Hsz.
  split; [by apply le_combine_split_small|]. split; [apply le_combine_split_small; lia|].
  intros n Hn Hn32. cbn zeta in Hd. unfold short_data. rewrite mem_sub_sub, Z.add_0_r by lia.
  unfold SYNCS_VARIABLE_INFO_SIZE_MAXIMUM in Hd. set (m := Z.min (ev_data_size ev) 32) in *.
  transitivity (mem_sub 0 n (mem_sub 36 m e)); [by rewrite mem_sub_sub by lia|].
  rewrite Hd. unfold mem_sub. rewrite zdrop_0, ztake_ztake. f_equal. lia.
Qed.

(** The columns of the counters. *)
Lemma entry_row_columns id value :
  monitor_row id value e =
    text "|" ++ pad 31 id ++ text "|" ++ pad 15 value ++ text "|" ++ count_column (ev_count ev) ++
    text "|" ++ count_column (ev_producers_count ev) ++ text "|" ++ count_column (ev_consumers_count ev) ++ LF.
Proof.
  destruct Hentry as (ev' & Hi' & _ & _ & _ & _ & Hc & Hcons & Hprod). rewrite Hi in Hi'. injection Hi' as <-.
  unfold monitor_row, int_column, unsigned_at, count_column. rewrite Hc, Hcons, Hprod, !le_combine_split.
  by rewrite !i32_mod.
Qed.

(** A variable that can be printed, and a string that cannot. *)
Lemma entry_row_printable : monitor_printable ev -> entry_row e = Some (shown_variable ev).
Proof.
  intros (Hid & Hw & Hstr). destruct entry_fields as (Ei & Ety & Esz & Ed).
  assert (entry_value e = Some (monitor_text ev)) as Ev.
  { unfold entry_value, monitor_text, type_width in *. cbn zeta. rewrite Ety, Esz.
    assert (forall n, 0 < n <= ev_data_size ev -> n <= 32 -> mem_sub 0 n (short_data e) = mem_sub 0 n (ev_data ev)) as Hn.
    { intros n Hn1 Hn2. rewrite Ed by lia. unfold mem_sub. by rewrite zdrop_0. }
    assert (forall b : list byte, ztake 1 b = mem_sub 0 1 b) as Ht by (intros b; unfold mem_sub; by rewrite zdrop_0).
    unfold int_at, word_at. rewrite !Ht.
    destruct (_ =? SYNCS_TYPE_VAR_INT32) eqn:E1; cbn [orb] in Hw; [by rewrite !Hn by lia|].
    destruct (_ =? SYNCS_TYPE_VAR_INT64) eqn:E2; cbn [orb] in Hw.
    { destruct (_ =? SYNCS_TYPE_VAR_FLOAT) eqn:E3; [apply Z.eqb_eq in E2, E3; rewrite E2 in E3; done|].
      by rewrite !Hn by lia. }
    destruct (_ =? SYNCS_TYPE_VAR_FLOAT) eqn:E3; cbn [orb] in Hw; [by rewrite !Hn by lia|].
    destruct (_ =? SYNCS_TYPE_VAR_DOUBLE) eqn:E4; cbn [orb] in Hw; [by rewrite !Hn by lia|].
    destruct (_ =? SYNCS_TYPE_VAR_STRING) eqn:E5; [|done].
    apply Z.eqb_eq in E5. specialize (Hstr E5). rewrite (proj2 (Z.ltb_lt _ _)) by lia. pose proof entry_size.
    rewrite <- (Ed (ev_data_size ev)) by lia. unfold mem_sub. by rewrite zdrop_0. }
  unfold entry_row, shown_variable. rewrite Ev. destruct (monitor_text ev) as [size output]. cbn [mbind option_bind].
  rewrite Ei, bool_decide_true by exact Hid. by rewrite entry_row_columns.
Qed.

Lemma entry_row_long : ev_data_type ev = SYNCS_TYPE_VAR_STRING -> 32 <= ev_data_size ev -> entry_row e = None.
Proof.
  intros Hty Hsz. destruct entry_fields as (_ & Ety & Esz & _). unfold entry_row, entry_value. cbn zeta.
  rewrite Ety, Hty, Esz. cbn -[fmt_d fmt_f]. by rewrite (proj2 (Z.ltb_ge _ _)) by lia.
Qed.
End entry.

(** The variables in use, in the order of their slots. *)
Definition live_variables (l : list syncs_event) : list syncs_event := omap (fun i => l !! i) (event_slots l).

Lemma entries_rows l es :
  (forall i ev, l !! i = Some ev -> event_wf ev) -> event_entries l es ->
  Forall monitor_printable (live_variables l) -> mapM entry_row es = Some (shown_variable <$> live_variables l).
Proof.
  intros Hwf. unfold event_entries, live_variables. induction 1 as [|i e sl es [He Hent] _ IH]; intros Hp; [done|].
  destruct Hent as (ev & Hi & Hent). cbn [omap list_omap] in *. rewrite Hi in *. apply list.Forall_cons in Hp as [Hev Hp].
  cbn [mapM]. rewrite (entry_row_printable l i e ev (Hwf _ _ Hi) Hi (ex_intro _ ev (conj Hi Hent)) Hev).
  cbn [mbind option_bind]. by rewrite IH.
Qed.

Lemma entries_long l es i ev :
  (forall i ev, l !! i = Some ev -> event_wf ev) -> event_entries l es ->
  i ∈ event_slots l -> l !! i = Some ev -> ev_data_type ev = SYNCS_TYPE_VAR_STRING -> 32 <= ev_data_size ev ->
  mapM entry_row es = None.
Proof.
  intros Hwf. unfold event_entries. induction 1 as [|j e sl es [He Hent] _ IH]; intros Hin Hi Hty Hsz.
  { by apply elem_of_nil in Hin. }
  cbn [mapM]. apply elem_of_cons in Hin as [->|Hin].
  - by rewrite (entry_row_long l j e ev (Hwf _ _ Hi) Hi Hent Hty Hsz).
  - destruct (entry_row e); [|done]. cbn [mbind option_bind]. by rewrite IH.
Qed.

(** C25: the monitor's table of variables shows the server, if every variable
    is printable: it holds the bytes its type reads, and a string is shorter
    than the 32 bytes of an entry.  The server answers the bytes [bs] with a
    sequence of packets, and when the receiver thread gets them while
    [monitor_events] waits, the monitor has sent exactly [bs] and prints its
    head line and one row for each variable of the server, in the order of the
    table, with the name, the value cut to fourteen characters, and the
    counters of the variable. *)
Theorem monitor_shows_variables (Ec Es : Env) `{!@Lossless Ec} `{!@Lossless Es} v cw w c cl :
  allocates Ec -> cwinv cw -> connected (c_connect cw) -> zlen (mv_str v) = 15 ->
  winv w -> w_clients w !! c = Some cl -> pending cl = [] -> cl_socketfd cl > -1 ->
  Forall monitor_printable (live_variables (w_events w)) ->
  exists bs w' replies, @syncs_client_handler Es c (RecvData bs) w = Ok (0, w') /\
    w_log w' = w_log w ++ ((fun f => IoSend (cl_socketfd cl) (encode_frame f)) <$> replies) /\
  forall ds, delivered_frame <$> ds = replies -> Forall sized ds ->
    exists v' cw', @monitor_events Ec v [mk_wakeup ds false] cw =
      Ok ((true, v', monitor_events_head ++ concat (shown_variable <$> live_variables (w_events w))), cw') /\
      c_log cw' = c_log cw ++ eventlist_request_io (c_connect cw) bs.
Proof.
  intros Ha Hcw Hc Hs Hw Hcl Hp Hfd Hall.
  destruct (eventlist_exchange Ec Es (mv_count v) cw w c cl) as (bs & w' & es & fs & E & Hlog & Hes & Hans); [done..|].
  exists bs, w', fs. split; [done|]. split; [done|]. intros ds Hds Hsized.
  destruct (Hans ds Hds Hsized) as (cw' & info & Er & Hio & Hi). destruct (event_entries_fit _ _ Hes) as [Hsz _].
  pose proof (@monitor_events_prints Ec v es info _ _ cw cw' Hs Hsz Er eq_refl Hi) as Hp'.
  rewrite (entries_rows _ es (swf_event _ Hw) Hes Hall) in Hp'. destruct Hp' as (v' & cw1 & Em & Hlog1). exists v', cw1. split; [exact Em|congruence].
Qed.

(** C34: a string variable of 32 bytes or more, which any client may define,
    makes the monitor write past the 32 bytes an entry has for a value. *)
Theorem monitor_long_string_overflows (Ec Es : Env) `{!@Lossless Ec} `{!@Lossless Es} v cw w c cl i ev :
  allocates Ec -> cwinv cw -> connected (c_connect cw) -> zlen (mv_str v) = 15 ->
  winv w -> w_clients w !! c = Some cl -> pending cl = [] -> cl_socketfd cl > -1 ->
  i ∈ event_slots (w_events w) -> w_events w !! i = Some ev ->
  ev_data_type ev = SYNCS_TYPE_VAR_STRING -> 32 <= ev_data_size ev ->
  exists bs w' replies, @syncs_client_handler Es c (RecvData bs) w = Ok (0, w') /\
    w_log w' = w_log w ++ ((fun f => IoSend (cl_socketfd cl) (encode_frame f)) <$> replies) /\
  forall ds, delivered_frame <$> ds = replies -> Forall sized ds ->
    @monitor_events Ec v [mk_wakeup ds false] cw = Fault OutOfBounds.
Proof.
  intros Ha Hcw Hc Hs Hw Hcl Hp Hfd Hin Hi Hty Hlen.
  destruct (eventlist_exchange Ec Es (mv_count v) cw w c cl) as (bs & w' & es & fs & E & Hlog & Hes & Hans); [done..|].
  exists bs, w', fs. split; [done|]. split; [done|]. intros ds Hds Hsized.
  destruct (Hans ds Hds Hsized) as (cw' & info & Er & _ & Hinfo). destruct (event_entries_fit _ _ Hes) as [Hsz _].
  pose proof (@monitor_events_prints Ec v es info _ _ cw cw' Hs Hsz Er eq_refl Hinfo) as Hp'.
  rewrite (entries_long _ es i ev (swf_event _ Hw) Hes Hin Hi Hty Hlen) in Hp'. exact Hp'.
Qed.

Section instances.
#[local] Existing Instance perfect_env.

Definition printable_check (ev : syncs_event) : bool :=
  (zlen (cstr (id_chars (ev_id ev))) <? zlen (id_chars (ev_id ev))) &&
  (type_width (ev_data_type ev) <=? ev_data_size ev) &&
  (negb (ev_data_type ev =? SYNCS_TYPE_VAR_STRING) || (ev_data_size ev <? 32)).

Lemma printable_check_ok ev : printable_check ev = true -> monitor_printable ev.
Proof.
  unfold printable_check, monitor_printable, is_string.
  rewrite !andb_true_iff, orb_true_iff, negb_true_iff, !Z.ltb_lt, Z.leb_le, Z.eqb_neq. intuition.
Qed.

Definition sample_vars : monitor_vars := mk_vars (zero_bytes 15) 0.

Lemma demo_printable : Forall monitor_printable (live_variables (w_events demo)).
Proof. apply (forallb_check _ printable_check); [exact printable_check_ok|by vm_compute]. Qed.

Example demo_monitor_row :
  concat (shown_variable <$> live_variables (w_events demo)) =
  text "|                              a|           42/*|      1|      1|      1" ++ LF.
Proof. by vm_compute. Qed.

Lemma monitor_shows_variables_witness :
  exists cl, w_clients demo !! 1%nat = Some cl /\
  exists bs w' replies, syncs_client_handler 1 (RecvData bs) demo = Ok (0, w') /\
    w_log w' = w_log demo ++ ((fun f => IoSend (cl_socketfd cl) (encode_frame f)) <$> replies) /\
  forall ds, delivered_frame <$> ds = replies -> Forall sized ds ->
    exists v' cw', monitor_events sample_vars [mk_wakeup ds false] sample_client =
      Ok ((true, v', monitor_events_head ++ concat (shown_variable <$> live_variables (w_events demo))), cw') /\
      c_log cw' = c_log sample_client ++ eventlist_request_io (c_connect sample_client) bs.
Proof.
  destruct (client_view (w_clients demo) 1 8) as (cl & Hcl & Hp & Hfd); [by vm_compute|]. exists cl. split; [exact Hcl|].
  apply (monitor_shows_variables perfect_env perfect_env sample_vars sample_client demo 1 cl).
  - intros h n. reflexivity.
  - exact sample_connect_wf.
  - reflexivity.
  - reflexivity.
  - exact demo_winv.
  - exact Hcl.
  - exact Hp.
  - rewrite Hfd. lia.
  - exact demo_printable.
Defined.

(** Client 0 of the example writes a string of forty characters. *)
Definition write_long : frame :=
  (sample_header (Z.lor (Z.lor SYNCS_TYPE_WRITE SYNCS_TYPE_FORCE) SYNCS_TYPE_VAR_STRING)
     (syncs_idstr [Byte.x62]) 40, replicate 40 Byte.x41).
Definition demo_long : world := after (epoll_callback (EpClient 0 (RecvData (encode_frame write_long)))) demo.

Lemma demo_long_winv : winv demo_long.
Proof.
  apply winv_after, safe_epoll_callback; [apply demo_winv|].
  apply (chunk_ok _ _ _ 0); [apply demo_winv|by vm_compute..].
Qed.

Lemma long_view (l : list syncs_event) k ty n :
  (fun ev => (ev_data_type ev, ev_data_size ev)) <$> l !! k = Some (ty, n) ->
  exists ev, l !! k = Some ev /\ ev_data_type ev = ty /\ ev_data_size ev = n.
Proof. destruct (l !! k) as [ev|]; [|done]. intros [= E1 E2]. by exists ev. Qed.

Lemma demo_long_variable :
  exists ev, w_events demo_long !! 1%nat = Some ev /\ ev_data_type ev = SYNCS_TYPE_VAR_STRING /\ ev_data_size ev = 40.
Proof. apply long_view. by vm_compute. Qed.

Lemma demo_long_slot : 1%nat ∈ event_slots (w_events demo_long).
Proof. replace (event_slots (w_events demo_long)) with [0%nat; 1%nat] by by vm_compute. apply elem_of_cons. right. apply elem_of_cons. by left. Qed.

Lemma monitor_long_string_overflows_witness :
  exists cl, w_clients demo_long !! 1%nat = Some cl /\
  exists bs w' replies, syncs_client_handler 1 (RecvData bs) demo_long = Ok (0, w') /\
    w_log w' = w_log demo_long ++ ((fun f => IoSend (cl_socketfd cl) (encode_frame f)) <$> replies) /\
  forall ds, delivered_frame <$> ds = replies -> Forall sized ds ->
    monitor_events sample_vars [mk_wakeup ds false] sample_client = Fault OutOfBounds.
Proof.
  destruct (client_view (w_clients demo_long) 1 8) as (cl & Hcl & Hp & Hfd); [by vm_compute|]. exists cl. split; [exact Hcl|].
  destruct demo_long_variable as (ev & Hev & Hty & Hsz).
  apply (monitor_long_string_overflows perfect_env perfect_env sample_vars sample_client demo_long 1 cl 1 ev).
  - intros h n. reflexivity.
  - exact sample_connect_wf.
  - reflexivity.
  - reflexivity.
  - exact demo_long_winv.
  - exact Hcl.
  - exact Hp.
  - rewrite Hfd. lia.
  - exact demo_long_slot.
  - exact Hev.
  - exact Hty.
  - rewrite Hsz. lia.
Defined.
End instances.
